(* ===== verification/_CoqProject ===== *)
-Q . S2P
Prelude.v
Bytes.v
Float64.v
Dedup.v
Seen.v
KeyRing.v
RateLimit.v
Messages.v
Concrete.v
Gossip.v
GossipProps.v
GossipConc.v
Stream.v
Frame.v
Noise.v
Strs.v
Text.v
Identity.v
Peer.v
PeerProps.v
Keepalive.v
Partyline.v
PartylineProps.v
Store.v
Config.v
Manager.v
Discovery.v
ConfigProps.v
Duration.v
Logging.v
LoggingProps.v
DiscoveryProps.v
Node.v
NodeInv.v
NodeProps.v
NodeEx.v
Ssh.v
SshProps.v
SshServer.v
SshServerProps.v
SshShutdown.v
SshOrigin.v
Program.v
ProgramProps.v
ProgramEx.v
Delivery.v
