(* ===== verification/Prelude.v ===== *)
(** * micelio: a verification development

    micelio is a peer-to-peer node for group chat over SSH.  Users log in
    with an SSH client and meet in a local hub; the hubs of all nodes are
    connected by a gossip network over encrypted links.  This library models
    the Go code of the node under [src/] and proves what makes it correct.

    ** The program and its model

    A line typed in a terminal passes [internal/ssh] (sessions and commands),
    [internal/partyline] (the hub), [internal/transport] (the fanout loop),
    [internal/gossip] (the engine), then a peer's send queue, frames, Noise
    messages and TCP; on the other node the receive loop takes it through
    the same layers to that node's hub.  The files follow these layers.

    - [Prelude]: scopes, machine integers, tactics, shared lemmas.
    - [Bytes], [Strs], [Text], [Float64]: the parts of Go's standard library the
      program computes with: [[]byte], [encoding/binary], [encoding/hex];
      [strings], [net.SplitHostPort], [filepath.Join]; runes, [net.ParseIP];
      [float64] with IEEE rounding.
    - [Dedup]: the interface of the two expiring tables of message
      identifiers, with its theorems proved once.
    - [Seen], [KeyRing], [RateLimit]: [gossip/seen.go], [keyring.go],
      [ratelimit.go]; one definition per method ([SeenCache_Check] is
      the method [Check] of [SeenCache], and so on), the mutex being held in all of it.
    - [Messages]: [proto/micelio.proto] and [pkg/proto/envelope.go]; the classes
      [Crypto] and [Codec] stand for the cryptographic and the generated code.
      [Concrete] has executable instances for the examples.
    - [Gossip]: [gossip/gossip.go], [HandleIncoming] and [Broadcast] over a
      world [W] on which handlers and peer handles act.  [GossipProps] treats
      one call, [GossipConc] many concurrent calls: there the program counter
      of a call stops between any two accesses to shared state, and the
      calls of all receive goroutines interleave.
    - [Stream], [Frame], [Noise]: readers and writers with [io.ReadFull],
      [transport/frame.go], [transport/noise.go].  [noiseConn] is a [Conn] over any [Conn].
    - [Identity]: [identity/identity.go] over a file system, and [crypto/keys.go].
    - [Peer], [PeerProps]: [transport/peer.go]: hello exchange, send queue, the turns of the
      two loops, duplicate table.  [Keepalive] has the times at which the loops act.
    - [Partyline], [PartylineProps]: [partyline/partyline.go]; the sessions live
      on a heap because clients, the hub and queued messages share pointers.
    - [Store]: [store/store.go] as the class [Store] and [store/bolt/bolt.go] as an
      instance over bbolt transactions.
    - [Config], [ConfigProps], [Duration]: [config/config.go], the part of
      [cmd/micelio/main.go] that settles the configuration, and the level names of
      [logging/logging.go].
    - [Logging], [LoggingProps]: [logging/logging.go] and [logging/capture.go] over the
      process-wide default logger and level.
    - [Manager], [Discovery], [DiscoveryProps]: [transport/manager.go] and
      [transport/discovery.go].  The engine's world [W] becomes the heap of peers,
      the peer table and the hub.
    - [Node], [NodeInv], [NodeProps], [NodeEx]: the running node.  [node_step]
      is one atomic step of one goroutine: a connection that completes its
      hello exchange, is admitted by [addPeer], announced by [onPeerConnected], turns its
      loops and is removed; the fanout, exchange, dial and cleanup loops; the hub; [Stop].
      [NodeInv] has the invariants, [NodeEx] two nodes exchanging a line.
    - [Ssh], [SshProps]: [ssh/commands.go] and the sequential functions of [ssh/server.go].
    - [SshServer], [SshServerProps], [SshShutdown], [SshOrigin]: the server at work.
      [srv_step] is one atomic step of one of its goroutines on server and hub: accept
      loop, connection handlers, sessions with their senders.
    - [Program], [ProgramProps], [ProgramEx], [Delivery]: [cmd/micelio/main.go].  [boot] is
      everything up to the start of the goroutines; [prog_step] is a step of the
      transport ([node_step]), of the SSH server ([srv_step]), of the hub
      ([hub_step]) or of [main]; one hub is shared by all.

    ** What the theorems show

    - Gossip: a message is accepted exactly under stated conditions
      ([HandleIncoming_accepts_iff]); a refused one leaves no trace that blocks a
      retry; keys and identifiers stay bound; counters balance; relays exclude the
      sender and respect the fanout; under every interleaving a message is delivered
      at most once per time-to-live ([deliver_once]) and only when it was verified under
      its sender's key ([deliver_authentic]).  [sequential_refinement] is the lemma that
      ties the interleaved model to [HandleIncoming].  The rate bound holds over every window
      with rounding arithmetic, and cleanup cannot be observed.
    - Links: frames round-trip and each error has its cause; the handshake of two
      honest ends agrees; a successful hello exchange authenticates the
      peer, and two honest nodes complete it; what a queue accepts arrives in
      order; the receive loop ends on every finite stream, without an error exactly when the
      peer was closed.
    - Connections over time: keepalives keep an idle link alive, whatever the queue does.
    - Hub and sessions: no panic, exact delivery, finality of leaving; a terminal acts on
      the hub only through the events of its lines; after [Stop] the server drains,
      whatever its goroutines were doing ([shutdown_completes]).
    - Discovery: merging is idempotent, monotone and order independent;
      peers propagate; dials are bounded and back off; records survive a restart, though
      the goroutines that save them may write an older one last ([saves_reordered]).
    - Node: the peer table, the keys and the hub of every reachable state;
      [chat_crosses] composes the layers from one hub to the other.
    - Identity, configuration, logging: a stored identity is stable; validation
      accepts exactly the well-formed configurations; durations are read as what
      they say; a capture holds exactly the records logged under it.  A client may log in exactly
      with a key of the authorized_keys file ([authorized_iff]).
    - Program: from any boot, under every interleaving of all goroutines, the
      invariants of the parts hold together and every text that waits for the network was
      typed by an authorized client ([program_safe]); wherever it is, the program can still
      shut down with status 0, with the SSH connections and the peers of the table
      closed ([program_exits] has the stages at which this is so); a line typed in a terminal is printed in
      the terminals of another program ([line_travels]).

    ** Conventions and bounds

    Times are nanoseconds in [Z] ([now]) or unix seconds ([now_s]) and are
    arguments, as are random choices (shuffles, UUIDs, generated keys) and the case a
    [select] takes.  Fixed-width integers wrap explicitly ([u32], [u64], [i64])
    or saturate as [time.Sub] does.  A function that never returns in
    the code, because a channel has no reader, returns [None].  Go's
    random map order is the order of [map_to_list]; no theorem about such
    a loop depends on it.

    Recursion that is not structural has fuel.  [ReadFull] has the reader's own
    measure, which [ReaderLaws] makes every read decrease; [recvLoop] is given
    one turn per eight bytes of the stream and one more, and
    [recvLoop_terminates] proves this enough; [parse_keys] has the length of
    its input, which is enough because each parse consumes a line: [parse_keys_lines]
    proves that it returns the keys of all lines.  The loops of [Strs],
    [Text] and [Duration] have the length of the string, of which each turn consumes a byte.

    Parameters stand for code outside the repository, with laws in a class
    of their own: [Crypto] (Ed25519, SHA-256), [KeyLib] (key encodings and
    the conversion to Curve25519), [Cipher] and [NoiseXX] (flynn/noise), [Codec] (protobuf,
    JSON), [Bbolt], the TOML decoder, the parser of authorized keys
    ([AuthorizedKeyLaws]) and the text that slog's initial handler makes of a record
    ([LogText], without laws).  Each law class has an executable instance, used by the witnesses.  No
    property assumes that signatures are unforgeable or hashes collision free: they
    speak of what was verified.

    [shutdown_completes] uses a measure instead of fuel, and a bound on the 64-bit
    counter of session identifiers: two sessions with one identifier would leave a
    channel open.  The run of draining steps assumes a Go scheduler that lets some
    goroutine go on, no fairness.

    ** Not modelled

    The generated protobuf code, an interface; the SSH protocol, the line editor and
    the host key signer (libraries, whose outcomes are events); how slog writes a
    record as text; the TOML decoder; parsing of flags and delivery of signals.  The
    database is an input of [boot]; [main] closing it when it returns is not a step.  The start of the engine's
    cleanup goroutines is not a step: their turns can happen at any time.
    In [Peer] setting a deadline may fail, and a deadline that has passed is one of the
    errors a connection may raise; when it passes is the subject of [Keepalive].
    The goroutines that save records take steps of their own ([NSave]).  A received message is one step of
    a node: its interleavings with other calls are the subject of [GossipConc].
    A write to a terminal returns; one that blocks on the client's window until the
    connection ends is not distinguished from one that has returned. *)

From stdpp Require Export base gmap sets list strings.
From Stdlib Require Export ZArith Lia.
From Stdlib Require Import Permutation.

(** ** Scopes

    Go integers are integers [Z]; lengths and channel capacities are [nat]. *)

Declare Scope go_scope.
Delimit Scope go_scope with go.
#[global] Open Scope Z_scope.
#[global] Open Scope go_scope.

(** Go's [len] as an [int], of a list and of a string. *)
Notation "'len' l" := (Z.of_nat (length l)) (at level 10, l at level 9) : go_scope.
Notation "'slen' s" := (Z.of_nat (String.length s)) (at level 10, s at level 9) : go_scope.

(** ** Machine integers

    The wrap-around of Go's fixed-width integers, and the conversions that
    saturate. *)

Definition u32 (z : Z) : Z := z `mod` 2 ^ 32.
Definition u64 (z : Z) : Z := z `mod` 2 ^ 64.
Definition MaxInt64 : Z := 2 ^ 63 - 1.
Definition MinInt64 : Z := - 2 ^ 63.

(** Two's complement wrap-around of an [int64]. *)
Definition i64 (z : Z) : Z := (z + 2 ^ 63) `mod` 2 ^ 64 - 2 ^ 63.

(** Saturation to the [int64] range, as [time.Time.Sub] does. *)
Definition clamp64 (z : Z) : Z := Z.max MinInt64 (Z.min MaxInt64 z).

Lemma u32_small z : 0 <= z < 2 ^ 32 -> u32 z = z.
Proof. apply Z.mod_small. Qed.

Lemma u32_range z : 0 <= u32 z < 2 ^ 32.
Proof. apply Z.mod_pos_bound. lia. Qed.

Lemma u64_small z : 0 <= z < 2 ^ 64 -> u64 z = z.
Proof. apply Z.mod_small. Qed.

Lemma u64_range z : 0 <= u64 z < 2 ^ 64.
Proof. apply Z.mod_pos_bound. lia. Qed.

Lemma i64_small z : MinInt64 <= z <= MaxInt64 -> i64 z = z.
Proof. unfold i64, MinInt64, MaxInt64. intros. rewrite Z.mod_small; lia. Qed.

Lemma clamp64_small z : MinInt64 <= z <= MaxInt64 -> clamp64 z = z.
Proof. unfold clamp64. lia. Qed.

Lemma clamp64_mono a b : a <= b -> clamp64 a <= clamp64 b.
Proof. unfold clamp64. lia. Qed.

(** ** Tactics *)

(** Turn boolean comparisons in hypotheses and in the goal's [if]s into
    propositions. *)
Ltac reflect_bools :=
  repeat match goal with
  | H : (_ && _)%bool = true |- _ => apply andb_true_iff in H as [??]
  | H : (_ || _)%bool = false |- _ => apply orb_false_iff in H as [??]
  | H : negb _ = true |- _ => apply negb_true_iff in H
  | H : negb _ = false |- _ => apply negb_false_iff in H
  | H : (_ <? _) = true |- _ => apply Z.ltb_lt in H
  | H : (_ <? _) = false |- _ => apply Z.ltb_ge in H
  | H : (_ <=? _) = true |- _ => apply Z.leb_le in H
  | H : (_ <=? _) = false |- _ => apply Z.leb_gt in H
  | H : (_ =? _) = true |- _ => apply Z.eqb_eq in H
  | H : (_ =? _) = false |- _ => apply Z.eqb_neq in H
  | H : bool_decide _ = true |- _ => apply bool_decide_eq_true in H
  | H : bool_decide _ = false |- _ => apply bool_decide_eq_false in H
  end.

(** Split on the test of one [if] or on the scrutinee of one [match] of the
    goal, keeping the equation. *)
Ltac split_if :=
  match goal with
  | |- context [if ?b then _ else _] =>
      match type of b with
      | bool => destruct b eqn:?
      | _ => destruct b
      end
  end; reflect_bools.

(** The same in a hypothesis. *)
Ltac split_if_in H :=
  match type of H with
  | context [if ?b then _ else _] =>
      match type of b with
      | bool => destruct b eqn:?
      | _ => destruct b
      end
  end; reflect_bools.

Create HintDb micelio.
Create Rewrite HintDb micelio.

(** ** Evaluation

    The equations of a conjunction, evaluated in one computation, so that what they
    have in common is computed once. *)

Lemma pair_and {A B} (P : Prop) (a c : A) (b d : B) : (a = c -> P) -> (a, b) = (c, d) -> b = d /\ P.
Proof. intros HP [= Ha Hb]. split; [exact Hb|exact (HP Ha)]. Qed.

Ltac eval_all := refine (_ : _ /\ _); refine (pair_and _ _ _ _ _ _ _); [repeat refine (pair_and _ _ _ _ _ _); exact id|]; vm_compute; reflexivity.

(** ** Options *)

Lemma some_default {A} (o : option A) (d : A) : bool_decide (is_Some o) = true -> o = Some (default d o).
Proof. case_bool_decide as Ho; [|done]. by destruct Ho as [x ->]. Qed.

(** ** Lists *)

Lemma length_filter_le {A} (P : A -> Prop) `{!forall x, Decision (P x)} (l : list A) :
  (length (filter P l) <= length l)%nat.
Proof.
  induction l as [|x l IH]; [done|]. rewrite filter_cons. case_decide; simpl; lia.
Qed.

Lemma elem_of_take {A} (n : nat) (l : list A) (x : A) : x ∈ take n l -> x ∈ l.
Proof.
  rewrite !list_elem_of_lookup. intros [i Hi]. exists i.
  apply lookup_take_Some in Hi as [? _]. done.
Qed.

Lemma NoDup_take {A} (n : nat) (l : list A) : NoDup l -> NoDup (take n l).
Proof.
  revert n. induction l as [|x l IH]; intros [|n] H; try constructor; inversion H; subst.
  - intros ?%elem_of_take. done.
  - by apply IH.
Qed.

#[export] Hint Resolve elem_of_take NoDup_take : micelio.

(** A loop each of whose iterations is related to its start. *)
Lemma foldl_preorder {A B} (R : A -> A -> Prop) `{!Reflexive R, !Transitive R} (f : A -> B -> A) x l :
  (forall x b, R x (f x b)) -> R x (foldl f x l).
Proof.
  intros Hf. revert x. induction l as [|b l IH]; intros x; [done|]. cbn. by etransitivity; [apply (Hf x b)|].
Qed.

(** What no iteration changes. *)
Lemma foldl_keeps {A B X} (g : A -> X) (f : A -> B -> A) x l : (forall x b, g (f x b) = g x) -> g (foldl f x l) = g x.
Proof. intros Hf. revert x. induction l as [|b l IH]; intros x; [done|]. cbn. by rewrite IH. Qed.

(** ** Sums over maps *)

Definition map_sum `{Countable K} {A} (f : A -> nat) (m : gmap K A) : nat :=
  sum_list_with (fun e => f e.2) (map_to_list m).

Section map_sum.
Context `{Countable K} {A : Type} (f : A -> nat).
Implicit Types m : gmap K A.

Lemma map_sum_insert_new m k v : m !! k = None -> map_sum f (<[k := v]> m) = (f v + map_sum f m)%nat.
Proof. intros Hk. unfold map_sum. by rewrite map_to_list_insert. Qed.

Lemma map_sum_delete m k v : m !! k = Some v -> map_sum f m = (f v + map_sum f (delete k m))%nat.
Proof. intros Hk. rewrite <- (map_sum_insert_new (delete k m) k v) by apply lookup_delete_eq. by rewrite insert_delete_id. Qed.

Lemma map_sum_insert m k v v' :
  m !! k = Some v -> (map_sum f (<[k := v']> m) + f v = map_sum f m + f v')%nat.
Proof.
  intros Hk. rewrite <- (insert_delete_eq m k v'), map_sum_insert_new by apply lookup_delete_eq.
  rewrite (map_sum_delete m k v Hk). lia.
Qed.

Lemma map_sum_le m k v : m !! k = Some v -> (f v <= map_sum f m)%nat.
Proof. intros Hk. rewrite (map_sum_delete m k v Hk). lia. Qed.
End map_sum.
