(* ===== verification/Bytes.v ===== *)
(** * Bytes: Go's [[]byte] and [string] values

    A [[]byte] is a list of [Byte.byte], a Go [string] the [String.string] of
    its bytes, so that [len] counts bytes on both.  The file holds the
    standard-library routines the program uses on them: the conversions
    between the two types, [encoding/binary]'s big-endian integers and
    [encoding/hex]. *)

From S2P Require Import Prelude.
From Stdlib Require Import Init.Byte Strings.Ascii.
From Stdlib Require Import Strings.Byte.

Abbreviation bytes := (list byte).

#[export] Instance byte_eq_dec : EqDecision byte := Strings.Byte.byte_eq_dec.

#[export] Program Instance byte_countable : Countable byte :=
  inj_countable Strings.Byte.to_N Strings.Byte.of_N _.
Next Obligation. intros b. apply Strings.Byte.of_to_N. Qed.

(** ** [string(b)] and [[]byte(s)] *)

Definition to_bytes (s : string) : bytes := String.list_byte_of_string s.
Definition of_bytes (b : bytes) : string := String.string_of_list_byte b.

Lemma of_to_bytes s : of_bytes (to_bytes s) = s.
Proof. apply String.string_of_list_byte_of_string. Qed.

Lemma to_of_bytes b : to_bytes (of_bytes b) = b.
Proof. apply String.list_byte_of_string_of_list_byte. Qed.

Lemma to_bytes_inj s1 s2 : to_bytes s1 = to_bytes s2 -> s1 = s2.
Proof. intros H. by rewrite <- (of_to_bytes s1), H, of_to_bytes. Qed.

Lemma length_to_bytes s : length (to_bytes s) = String.length s.
Proof.
  unfold to_bytes, String.list_byte_of_string. rewrite length_map.
  induction s as [|a s IH]; simpl; [done|]. by f_equal.
Qed.

(** ** Byte values *)

Definition byte_val (b : byte) : Z := Z.of_N (Strings.Byte.to_N b).
Definition byte_of (z : Z) : byte := default x00 (Strings.Byte.of_N (Z.to_N (z `mod` 256))).

Lemma byte_val_range b : 0 <= byte_val b < 256.
Proof. unfold byte_val. pose proof (Strings.Byte.to_N_bounded b). lia. Qed.

Lemma byte_of_val b : byte_of (byte_val b) = b.
Proof.
  unfold byte_of. rewrite Z.mod_small by apply byte_val_range.
  unfold byte_val. by rewrite N2Z.id, Strings.Byte.of_to_N.
Qed.

Lemma byte_val_of z : byte_val (byte_of z) = z `mod` 256.
Proof.
  unfold byte_of, byte_val. pose proof (Z.mod_pos_bound z 256 ltac:(lia)) as Hb.
  destruct (Strings.Byte.of_N (Z.to_N (z `mod` 256))) as [b|] eqn:E; simpl.
  - apply Strings.Byte.to_of_N in E. rewrite E. lia.
  - apply Strings.Byte.of_N_None_iff in E. lia.
Qed.

(** ** Big-endian unsigned integers ([binary.BigEndian]) *)

(** [be_put n v] is what [PutUint16], [PutUint32] and [PutUint64] store for
    [n = 2, 4, 8]: the low [n] bytes of [v], most significant first. *)
Fixpoint be_put (n : nat) (v : Z) : bytes :=
  match n with
  | O => []
  | S n' => be_put n' (v / 256) ++ [byte_of v]
  end.

(** [be_get b] is what [Uint16], [Uint32] and [Uint64] read from [b]. *)
Definition be_get (b : bytes) : Z :=
  fold_left (fun acc x => acc * 256 + byte_val x) b 0.

Lemma length_be_put n v : length (be_put n v) = n.
Proof. revert v. induction n as [|n IH]; intros v; simpl; [done|]. rewrite length_app, IH. simpl. lia. Qed.

Lemma be_get_app b x : be_get (b ++ [x]) = be_get b * 256 + byte_val x.
Proof. unfold be_get. by rewrite fold_left_app. Qed.

Lemma be_get_put n v : be_get (be_put n v) = v `mod` 256 ^ Z.of_nat n.
Proof.
  revert v. induction n as [|n IH]; intros v.
  - simpl. by rewrite Z.mod_1_r.
  - simpl be_put. rewrite be_get_app, IH, byte_val_of.
    replace (256 ^ Z.of_nat (S n)) with (256 * 256 ^ Z.of_nat n).
    2:{ rewrite Nat2Z.inj_succ, Z.pow_succ_r by lia. lia. }
    rewrite Z.rem_mul_r; [lia|lia|apply Z.pow_pos_nonneg; lia].
Qed.

Lemma be_get_range b : 0 <= be_get b < 256 ^ len b.
Proof.
  induction b as [|x b IH] using rev_ind; [split; [done|reflexivity]|].
  rewrite be_get_app, length_app, Nat2Z.inj_add, Z.pow_add_r by lia.
  change (256 ^ len [x]) with 256. pose proof (byte_val_range x).
  split; [lia|]. apply (Z.lt_le_trans _ ((be_get b + 1) * 256)); [lia|]. apply Z.mul_le_mono_nonneg_r; lia.
Qed.

Lemma be_put_get b : be_put (length b) (be_get b) = b.
Proof.
  induction b as [|x b IH] using rev_ind; [done|].
  rewrite length_app, Nat.add_comm. simpl. rewrite be_get_app.
  pose proof (byte_val_range x).
  replace ((be_get b * 256 + byte_val x) / 256) with (be_get b)
    by (rewrite Z.div_add_l, Z.div_small by lia; lia).
  rewrite IH. f_equal. f_equal. rewrite <- (byte_of_val x) at 2.
  unfold byte_of. by rewrite (Z.add_comm (_ * _)), Z.mod_add by lia.
Qed.

Lemma be_put_inj n v w :
  0 <= v < 256 ^ Z.of_nat n -> 0 <= w < 256 ^ Z.of_nat n -> be_put n v = be_put n w -> v = w.
Proof.
  intros Hv Hw H. apply (f_equal be_get) in H.
  rewrite !be_get_put, !Z.mod_small in H; done.
Qed.

#[global] Arguments be_put : simpl never.

(** ** [encoding/hex] *)

Definition hexdigit (n : Z) : ascii :=
  ascii_of_N (Z.to_N (if n <? 10 then 48 + n else 87 + n)).

Definition unhex (c : ascii) : option Z :=
  let v := Z.of_N (N_of_ascii c) in
  if (48 <=? v) && (v <=? 57) then Some (v - 48)
  else if (97 <=? v) && (v <=? 102) then Some (v - 87)
  else if (65 <=? v) && (v <=? 70) then Some (v - 55)
  else None.

(** [hex.EncodeToString]. *)
Fixpoint hex_encode (b : bytes) : string :=
  match b with
  | [] => EmptyString
  | x :: b' =>
      String (hexdigit (byte_val x / 16))
        (String (hexdigit (byte_val x `mod` 16)) (hex_encode b'))
  end.

(** [hex.DecodeString]: [None] is an odd length or a byte that is no digit. *)
Fixpoint hex_decode (s : string) : option bytes :=
  match s with
  | EmptyString => Some []
  | String h (String l s') =>
      match unhex h, unhex l, hex_decode s' with
      | Some a, Some b, Some r => Some (byte_of (a * 16 + b) :: r)
      | _, _, _ => None
      end
  | String _ EmptyString => None
  end.

Lemma unhex_hexdigit n : 0 <= n < 16 -> unhex (hexdigit n) = Some n.
Proof.
  intros H. assert (forallb (fun i => bool_decide (unhex (hexdigit (Z.of_nat i)) = Some (Z.of_nat i)))
                      (List.seq 0 16) = true) as Hall by reflexivity.
  rewrite forallb_forall in Hall. specialize (Hall (Z.to_nat n)).
  rewrite Z2Nat.id in Hall by lia. eapply bool_decide_eq_true_1, Hall.
  apply List.in_seq. lia.
Qed.

Lemma hex_decode_encode b : hex_decode (hex_encode b) = Some b.
Proof.
  induction b as [|x b IH]; simpl; [done|]. pose proof (byte_val_range x).
  pose proof (Z.mod_pos_bound (byte_val x) 16 ltac:(lia)).
  rewrite !unhex_hexdigit, IH; [|lia|split; [apply Z.div_pos|apply Z.div_lt_upper_bound]; lia].
  do 2 f_equal. rewrite (Z.mul_comm _ 16), <- Z.div_mod by lia. apply byte_of_val.
Qed.

Lemma hex_encode_inj b1 b2 : hex_encode b1 = hex_encode b2 -> b1 = b2.
Proof.
  intros H. apply (f_equal hex_decode) in H. rewrite !hex_decode_encode in H. congruence.
Qed.

Lemma length_hex_encode b : String.length (hex_encode b) = (2 * length b)%nat.
Proof. induction b; simpl; lia. Qed.

Lemma hex_encode_nonempty b : b <> [] -> hex_encode b <> EmptyString.
Proof. by destruct b. Qed.

#[export] Hint Rewrite of_to_bytes to_of_bytes hex_decode_encode length_be_put length_to_bytes
  : micelio.
