(* ===== verification/Float64.v ===== *)
(** * Float64: Go's [float64] arithmetic

    A finite [float64] is an integer multiple of [2^-1074], so it is modelled
    by that integer: the value [u : f64] stands for [u * 2^-1074].  Each
    operation computes the exact result and rounds it to the nearest value
    with a 53-bit significand, ties to even, as IEEE 754 and the Go
    specification require; subnormal results need no special case because the
    unit is the smallest subnormal.  Infinities and NaN are not values of the
    model: its clients, [RateLimit] and [Duration], stay below [2^70]. *)

From S2P Require Import Prelude.

Abbreviation f64 := Z (only parsing).

(** The number of units in [1.0]. *)
Definition f64_scale : Z := 2 ^ 1074.

(** Nearest integer to [n / d], ties to even ([0 < d]). *)
Definition rne (n d : Z) : Z :=
  let q := n / d in
  let r := n `mod` d in
  if 2 * r <? d then q
  else if d <? 2 * r then q + 1
  else if Z.even q then q else q + 1.

(** The exponent (in units) of the last significand bit of a value whose
    integral number of units is [m]. *)
Definition ulp_exp (m : Z) : Z := Z.max 0 (Z.log2 m - 52).

(** [n / d] without common factors of two. Most values are multiples of a large
    power of two, and evaluation is much faster on the reduced fraction. *)
Fixpoint strip2 (n d : positive) : positive * positive :=
  match n, d with
  | xO n', xO d' => strip2 n' d'
  | _, _ => (n, d)
  end.

Definition reduce (n d : Z) : Z * Z :=
  match n, d with
  | Zpos n', Zpos d' => let '(a, b) := strip2 n' d' in (Zpos a, Zpos b)
  | _, _ => (n, d)
  end.

(** Round the rational number of units [n / d]. *)
Definition f64_round (n d : Z) : f64 :=
  let '(n1, d1) := reduce n d in
  let k := ulp_exp (Z.abs n1 / d1) in
  let '(n2, d2) := reduce n1 (d1 * 2 ^ k) in
  rne n2 d2 * 2 ^ k.

(** [float64(z)], [a + b], [a * b] and [a / b] ([0 < b]). *)
Definition f64_of_Z (z : Z) : f64 := f64_round (z * f64_scale) 1.
Definition f64_add (a b : f64) : f64 := f64_round (a + b) 1.
Definition f64_sub (a b : f64) : f64 := f64_round (a - b) 1.
Definition f64_mul (a b : f64) : f64 := f64_round (a * b) f64_scale.
Definition f64_div (a b : f64) : f64 := f64_round (a * f64_scale) b.

Definition second : Z := 1000000000.

(** [time.Duration.Seconds]. *)
Definition Seconds (d : Z) : f64 :=
  f64_add (f64_of_Z (Z.quot d second)) (f64_div (f64_of_Z (Z.rem d second)) (f64_of_Z second)).

(** ** Rounding to an integer *)

Lemma rne_bounds n d : 0 < d -> 2 * n - d <= 2 * (rne n d * d) <= 2 * n + d.
Proof.
  intros Hd. unfold rne. pose proof (Z.div_mod n d ltac:(lia)).
  pose proof (Z.mod_pos_bound n d Hd). repeat split_if; nia.
Qed.

Lemma rne_ge a n d : 0 < d -> a * d <= n -> a <= rne n d.
Proof.
  intros Hd H. assert (a <= n / d) by (apply Z.div_le_lower_bound; lia).
  unfold rne. repeat split_if; lia.
Qed.

Lemma rne_le a n d : 0 < d -> n <= a * d -> rne n d <= a.
Proof.
  intros Hd H. unfold rne. pose proof (Z.div_mod n d ltac:(lia)) as Hdm.
  pose proof (Z.mod_pos_bound n d Hd).
  destruct (decide (n `mod` d = 0)) as [E|E].
  - rewrite E. destruct (Z.ltb_spec (2 * 0) d); [|lia].
    apply Z.div_le_upper_bound; lia.
  - assert (n / d + 1 <= a) by nia. repeat split_if; lia.
Qed.

Lemma rne_mono n1 n2 d : 0 < d -> n1 <= n2 -> rne n1 d <= rne n2 d.
Proof.
  intros Hd Hle. pose proof (Z.div_le_mono n1 n2 d Hd Hle).
  destruct (decide (n1 / d = n2 / d)) as [E|E].
  - unfold rne. rewrite <- E.
    pose proof (Z.div_mod n1 d ltac:(lia)). pose proof (Z.div_mod n2 d ltac:(lia)).
    assert (n1 `mod` d <= n2 `mod` d) by (rewrite <- E in *; lia).
    repeat split_if; lia.
  - transitivity (n1 / d + 1); [unfold rne; repeat split_if; lia|].
    transitivity (n2 / d); [lia|]. unfold rne; repeat split_if; lia.
Qed.

Lemma rne_exact a d : 0 < d -> rne (a * d) d = a.
Proof.
  intros Hd. apply Z.le_antisymm; [apply rne_le|apply rne_ge]; lia.
Qed.

(** Both ignore a common factor, so that reducing the fraction changes nothing. *)
Lemma rne_scale c n d : 0 < c -> 0 < d -> rne (c * n) (c * d) = rne n d.
Proof.
  intros Hc Hd. unfold rne. rewrite Z.div_mul_cancel_l, Z.mul_mod_distr_l by lia.
  replace (2 * (c * (n `mod` d))) with (c * (2 * (n `mod` d))) by lia.
  destruct (Z.ltb_spec (c * (2 * (n `mod` d))) (c * d)), (Z.ltb_spec (2 * (n `mod` d)) d); try nia;
    destruct (Z.ltb_spec (c * d) (c * (2 * (n `mod` d)))), (Z.ltb_spec d (2 * (n `mod` d))); try nia; done.
Qed.

Lemma strip2_spec n d : exists c, 0 < c /\
  Zpos n = c * Zpos (strip2 n d).1 /\ Zpos d = c * Zpos (strip2 n d).2.
Proof.
  revert d. induction n as [n IH|n IH|]; intros [d|d|]; try by exists 1.
  destruct (IH d) as (c & Hc & Hn & Hd). exists (2 * c). cbn [strip2].
  rewrite (Pos2Z.inj_xO n), (Pos2Z.inj_xO d). lia.
Qed.

Lemma reduce_spec n d : exists c, 0 < c /\ n = c * (reduce n d).1 /\ d = c * (reduce n d).2.
Proof.
  destruct n as [|n|n], d as [|d|d]; try by exists 1; rewrite ?Z.mul_1_l.
  destruct (strip2_spec n d) as (c & Hc & Hn & Hd). exists c. unfold reduce.
  destruct (strip2 n d) as [a b]. done.
Qed.

(** ** Rounding to 53 bits *)

Lemma f64_round_eq n d : 0 < d ->
  f64_round n d = let k := ulp_exp (Z.abs n / d) in rne n (d * 2 ^ k) * 2 ^ k.
Proof.
  intros Hd. unfold f64_round. destruct (reduce_spec n d) as (c & Hc & Hn & Hd1).
  destruct (reduce n d) as [n1 d1]. cbn [fst snd] in *.
  assert (0 < d1) as Hd1' by nia.
  assert (Z.abs n / d = Z.abs n1 / d1) as -> by
    (rewrite Hn, Hd1, Z.abs_mul, (Z.abs_eq c), Z.div_mul_cancel_l by lia; done).
  set (k := ulp_exp (Z.abs n1 / d1)). assert (0 < 2 ^ k) as Hk by (unfold k, ulp_exp; apply Z.pow_pos_nonneg; lia).
  destruct (reduce_spec n1 (d1 * 2 ^ k)) as (c' & Hc' & Hn2 & Hd2).
  destruct (reduce n1 (d1 * 2 ^ k)) as [n2 d2]. cbn [fst snd] in *. f_equal.
  rewrite Hn, Hd1, <- Z.mul_assoc, rne_scale by nia. rewrite Hd2, Hn2. symmetry. apply rne_scale; nia.
Qed.

Lemma ulp_exp_nonneg m : 0 <= ulp_exp m.
Proof. unfold ulp_exp. lia. Qed.

Lemma ulp_exp_mono m1 m2 : m1 <= m2 -> ulp_exp m1 <= ulp_exp m2.
Proof. intros H. unfold ulp_exp. pose proof (Z.log2_le_mono m1 m2 H). lia. Qed.

Lemma pow2_pos k : 0 < 2 ^ Z.max 0 k.
Proof. apply Z.pow_pos_nonneg; lia. Qed.

Lemma ulp_pos m : 0 < 2 ^ ulp_exp m.
Proof. apply pow2_pos. Qed.

#[export] Hint Resolve ulp_exp_nonneg ulp_pos : micelio.

(** A multiple of the last-bit unit rounds to itself. *)
Lemma f64_round_exact z d :
  0 < d -> (2 ^ ulp_exp (Z.abs z) | z) -> f64_round (z * d) d = z.
Proof.
  intros Hd [a Ha]. rewrite f64_round_eq by done. cbv zeta.
  rewrite Z.abs_mul, (Z.abs_eq d), Z.div_mul by lia.
  pose proof (ulp_pos (Z.abs z)) as Hp. remember (2 ^ ulp_exp (Z.abs z)) as p.
  rewrite Ha at 1. replace (a * p * d) with (a * (d * p)) by lia.
  rewrite rne_exact by nia. lia.
Qed.

(** Integers of at most 53 bits are exact. *)
Lemma f64_of_Z_exact z : Z.abs z < 2 ^ 53 -> f64_of_Z z = z * f64_scale.
Proof.
  intros Hz. unfold f64_of_Z. replace (f64_round (z * f64_scale) 1) with (f64_round (z * f64_scale * 1) 1) by (f_equal; lia).
  apply f64_round_exact; [lia|]. apply Z.divide_mul_r.
  rewrite Z.abs_mul, (Z.abs_eq f64_scale) by (unfold f64_scale; lia).
  unfold f64_scale. exists (2 ^ (1074 - ulp_exp (Z.abs z * 2 ^ 1074))).
  assert (ulp_exp (Z.abs z * 2 ^ 1074) <= 1074).
  { unfold ulp_exp. destruct (decide (z = 0)) as [->|Hnz].
    - vm_compute. discriminate.
    - rewrite Z.log2_mul_pow2 by lia. pose proof (Z.log2_lt_pow2 (Z.abs z) 53 ltac:(lia)). lia. }
  rewrite <- Z.pow_add_r by (pose proof (ulp_exp_nonneg (Z.abs z * 2 ^ 1074)); lia).
  f_equal. lia.
Qed.

Lemma f64_round_nonneg n d : 0 < d -> 0 <= n -> 0 <= f64_round n d.
Proof.
  intros Hd Hn. rewrite f64_round_eq by done. cbv zeta. pose proof (ulp_pos (Z.abs n / d)).
  apply Z.mul_nonneg_nonneg; [|lia]. apply rne_ge; nia.
Qed.

Lemma ulp_exp_pow2 l : 0 <= l -> (2 ^ ulp_exp (2 ^ l) | 2 ^ l).
Proof.
  intros Hl. unfold ulp_exp. rewrite Z.log2_pow2 by done.
  exists (2 ^ (l - Z.max 0 (l - 52))). rewrite <- Z.pow_add_r by lia. f_equal. lia.
Qed.

Lemma f64_round_le_binade n d :
  0 < d -> 0 <= n -> f64_round n d <= 2 ^ (Z.log2 (n / d) + 1).
Proof.
  intros Hd Hn. rewrite f64_round_eq, Z.abs_eq by done. cbv zeta.
  set (L := Z.log2 (n / d)). set (k := ulp_exp (n / d)).
  assert (0 <= k <= L + 1) as Hk by (unfold k, ulp_exp; pose proof (Z.log2_nonneg (n / d)); lia).
  assert (n < 2 ^ (L + 1) * d) as Hlt.
  { assert (n / d < 2 ^ (L + 1)).
    { destruct (decide (n / d = 0)) as [E|E]; [rewrite E; apply Z.pow_pos_nonneg; lia|].
      apply Z.log2_lt_pow2; [|unfold L; lia]. pose proof (Z.div_pos n d Hn Hd). lia. }
    pose proof (Z.div_mod n d ltac:(lia)). pose proof (Z.mod_pos_bound n d Hd). nia. }
  replace (2 ^ (L + 1)) with (2 ^ (L + 1 - k) * 2 ^ k) in * by
    (rewrite <- Z.pow_add_r by lia; f_equal; lia).
  assert (0 < 2 ^ k) by (apply Z.pow_pos_nonneg; lia).
  apply Z.mul_le_mono_nonneg_r; [lia|]. apply rne_le; nia.
Qed.

Lemma f64_round_ge_binade n d :
  0 < d -> d <= n -> 2 ^ Z.log2 (n / d) <= f64_round n d.
Proof.
  intros Hd Hn. rewrite f64_round_eq, Z.abs_eq by lia. cbv zeta.
  set (L := Z.log2 (n / d)). set (k := ulp_exp (n / d)).
  assert (0 <= k <= L) as Hk by (unfold k, ulp_exp; pose proof (Z.log2_nonneg (n / d)); lia).
  assert (2 ^ L * d <= n) as Hle.
  { assert (0 < n / d) as Hp by (apply Z.div_str_pos; lia).
    pose proof (Z.log2_spec (n / d) Hp) as [Hl _]. fold L in Hl.
    pose proof (Z.mul_div_le n d Hd). nia. }
  replace (2 ^ L) with (2 ^ (L - k) * 2 ^ k) in * by
    (rewrite <- Z.pow_add_r by lia; f_equal; lia).
  assert (0 < 2 ^ k) by (apply Z.pow_pos_nonneg; lia).
  apply Z.mul_le_mono_nonneg_r; [lia|]. apply rne_ge; nia.
Qed.

(** Rounding is monotone: the fact every bound on the limiter rests on. *)
Lemma f64_round_mono n1 n2 d :
  0 < d -> 0 <= n1 <= n2 -> f64_round n1 d <= f64_round n2 d.
Proof.
  intros Hd Hn. pose proof (Z.div_le_mono n1 n2 d Hd ltac:(lia)) as Hm.
  pose proof (ulp_exp_mono _ _ Hm) as Hk.
  destruct (decide (ulp_exp (n1 / d) = ulp_exp (n2 / d))) as [E|E].
  - rewrite !f64_round_eq, !Z.abs_eq, E by lia. cbv zeta.
    pose proof (ulp_pos (n2 / d)). apply Z.mul_le_mono_nonneg_r; [lia|].
    apply rne_mono; nia.
  - assert (Z.log2 (n1 / d) + 1 <= Z.log2 (n2 / d) /\ 1 <= n2 / d) as [HL H1].
    { unfold ulp_exp in *. destruct (decide (1 <= n2 / d)); [lia|].
      rewrite (Z.log2_nonpos (n2 / d)) in * by lia. pose proof (Z.log2_nonneg (n1 / d)). lia. }
    etrans; [apply f64_round_le_binade; lia|].
    etrans; [apply (Z.pow_le_mono_r 2 _ _ ltac:(lia) HL)|].
    apply f64_round_ge_binade; [done|].
    pose proof (Z.mul_div_le n2 d Hd). nia.
Qed.

(** The rounding error is at most half a last-bit unit ... *)
Lemma f64_round_error n d :
  0 < d -> 0 <= n ->
  2 * (d * f64_round n d) <= 2 * n + d * 2 ^ ulp_exp (n / d).
Proof.
  intros Hd Hn. rewrite f64_round_eq, Z.abs_eq by done. cbv zeta.
  pose proof (ulp_pos (n / d)) as Hp. remember (2 ^ ulp_exp (n / d)) as p.
  pose proof (rne_bounds n (d * p) ltac:(nia)). lia.
Qed.

(** ... that is, a relative error of [2^-53], plus half a unit. *)
Lemma f64_round_rel_error n d :
  0 < d -> 0 <= n -> 2 ^ 53 * (d * f64_round n d) <= (2 ^ 53 + 1) * n + 2 ^ 52 * d.
Proof.
  intros Hd Hn. pose proof (f64_round_error n d Hd Hn) as He.
  assert (2 ^ 52 * 2 ^ ulp_exp (n / d) <= n / d + 2 ^ 52) as Hu.
  { unfold ulp_exp. pose proof (Z.div_pos n d Hn Hd).
    destruct (Z.max_spec 0 (Z.log2 (n / d) - 52)) as [[Hlt ->]|[Hge ->]]; [|simpl; lia].
    rewrite <- Z.pow_add_r by lia. replace (52 + (Z.log2 (n / d) - 52)) with (Z.log2 (n / d)) by lia.
    assert (0 < n / d) as Hpos.
    { destruct (decide (n / d = 0)) as [E|E]; [rewrite E in Hlt; simpl in Hlt; lia|lia]. }
    pose proof (Z.log2_spec _ Hpos). lia. }
  pose proof (Z.mul_div_le n d Hd). remember (2 ^ ulp_exp (n / d)) as p.
  remember (n / d) as m. nia.
Qed.

(** ** The operations on non-negative values *)

Lemma f64_scale_pos : 0 < f64_scale.
Proof. reflexivity. Qed.

Lemma f64_add_mono a b a' b' :
  0 <= a <= a' -> 0 <= b <= b' -> f64_add a b <= f64_add a' b'.
Proof. intros. apply f64_round_mono; lia. Qed.

Lemma f64_mul_mono a b a' b' :
  0 <= a <= a' -> 0 <= b <= b' -> f64_mul a b <= f64_mul a' b'.
Proof. intros. apply f64_round_mono; [exact f64_scale_pos|nia]. Qed.

Lemma f64_div_mono a a' b : 0 < b -> 0 <= a <= a' -> f64_div a b <= f64_div a' b.
Proof. intros. apply f64_round_mono; [lia|pose proof f64_scale_pos; nia]. Qed.

Lemma f64_add_nonneg a b : 0 <= a -> 0 <= b -> 0 <= f64_add a b.
Proof. intros. apply f64_round_nonneg; lia. Qed.

Lemma f64_mul_nonneg a b : 0 <= a -> 0 <= b -> 0 <= f64_mul a b.
Proof. intros. apply f64_round_nonneg; [exact f64_scale_pos|nia]. Qed.

Lemma f64_sub_nonneg a b : b <= a -> 0 <= f64_sub a b.
Proof. intros. apply f64_round_nonneg; lia. Qed.

Lemma f64_of_Z_nonneg z : 0 <= z -> 0 <= f64_of_Z z.
Proof. intros. apply f64_round_nonneg; pose proof f64_scale_pos; nia. Qed.

Lemma f64_of_Z_mono a b : 0 <= a <= b -> f64_of_Z a <= f64_of_Z b.
Proof. intros. apply f64_round_mono; pose proof f64_scale_pos; nia. Qed.

#[export] Hint Resolve f64_add_nonneg f64_mul_nonneg f64_sub_nonneg f64_of_Z_nonneg : micelio.

(** The error bound in a known binade: below [2^(l+1)] units the last-bit unit
    is at most [2^(l-52)]. *)
Lemma f64_round_error_at l n d :
  0 < d -> 0 <= n -> 52 <= l -> n < 2 ^ (l + 1) * d ->
  2 * (d * f64_round n d) <= 2 * n + d * 2 ^ (l - 52).
Proof.
  intros Hd Hn Hl Hlt. etrans; [by apply f64_round_error|].
  apply Z.add_le_mono_l, Z.mul_le_mono_nonneg_l; [lia|].
  apply Z.pow_le_mono_r; [lia|]. unfold ulp_exp.
  assert (n / d < 2 ^ (l + 1)) as Hq by (apply Z.div_lt_upper_bound; lia).
  destruct (decide (n / d <= 0)) as [E|E]; [rewrite (Z.log2_nonpos (n / d)) by done; lia|].
  pose proof (proj1 (Z.log2_lt_pow2 (n / d) (l + 1) ltac:(lia)) Hq). lia.
Qed.

(** ** [time.Duration.Seconds] *)

Lemma Seconds_nonneg d : 0 <= d -> 0 <= Seconds d.
Proof.
  intros H. unfold Seconds, second.
  rewrite Z.quot_div_nonneg, Z.rem_mod_nonneg by lia.
  pose proof (Z.div_pos d 1000000000 H). pose proof (Z.mod_pos_bound d 1000000000).
  apply f64_add_nonneg; [apply f64_of_Z_nonneg; lia|].
  apply f64_round_nonneg; [vm_compute; reflexivity|].
  pose proof (f64_of_Z_nonneg (d `mod` 1000000000)). pose proof f64_scale_pos. lia.
Qed.

(** A whole number of seconds is converted exactly, and longer durations do
    not convert to less. *)
Lemma Seconds_ge d k : 0 <= k < 2 ^ 53 -> k * second <= d -> f64_of_Z k <= Seconds d.
Proof.
  intros Hk Hle. unfold second in Hle. unfold Seconds, second.
  rewrite Z.quot_div_nonneg, Z.rem_mod_nonneg by lia.
  pose proof (Z.mod_pos_bound d 1000000000 ltac:(lia)).
  assert (k <= d / 1000000000) by (apply Z.div_le_lower_bound; lia).
  replace (f64_of_Z k) with (f64_add (f64_of_Z k) 0).
  - apply f64_add_mono; split; try lia; [apply f64_of_Z_nonneg; lia|apply f64_of_Z_mono; lia|].
    apply f64_round_nonneg; [vm_compute; reflexivity|].
    pose proof (f64_of_Z_nonneg (d `mod` 1000000000)). pose proof f64_scale_pos. lia.
  - rewrite f64_of_Z_exact by lia. unfold f64_add. rewrite Z.add_0_r.
    rewrite <- f64_of_Z_exact at 2 by lia. done.
Qed.

(** Below two seconds the conversion is off by less than [2^-51]. *)
Lemma Seconds_error d :
  0 <= d < 2 * second -> second * Seconds d <= d * f64_scale + second * 2 ^ 1023.
Proof.
  intros Hd. unfold second in *. unfold Seconds, second.
  rewrite Z.quot_div_nonneg, Z.rem_mod_nonneg by lia.
  pose proof (Z.mod_pos_bound d 1000000000 ltac:(lia)) as Hr.
  pose proof (Z.div_mod d 1000000000 ltac:(lia)) as Hdm.
  assert (0 <= d / 1000000000 <= 1) as Hq
    by (split; [apply Z.div_pos|apply Z.lt_succ_r, Z.div_lt_upper_bound]; lia).
  remember (d `mod` 1000000000) as r. remember (d / 1000000000) as q.
  rewrite !f64_of_Z_exact by lia.
  pose proof f64_scale_pos as HS.
  assert (f64_scale = 2 ^ 1074) as ES by done.
  unfold f64_div. remember (f64_round (r * f64_scale * f64_scale) (1000000000 * f64_scale)) as fr.
  assert (0 <= fr) by (subst fr; apply f64_round_nonneg; nia).
  assert (fr <= f64_scale) as Hfr1.
  { subst fr. etrans; [apply (f64_round_mono _ (f64_scale * (1000000000 * f64_scale))); nia|].
    rewrite f64_round_exact; [lia|lia|]. rewrite Z.abs_eq, ES by lia. by apply ulp_exp_pow2. }
  clear ES.
  pose proof (f64_round_error_at 1074 (r * f64_scale * f64_scale) (1000000000 * f64_scale)) as He.
  pose proof (f64_round_error_at 1075 (q * f64_scale + fr) 1) as Ha.
  rewrite <- Heqfr in He. clear Heqfr. fold (f64_add (q * f64_scale) fr) in Ha.
  change (2 ^ (1074 + 1)) with (2 * f64_scale) in He. change (2 ^ (1075 + 1)) with (4 * f64_scale) in Ha.
  change (1074 - 52) with 1022 in He. change (2 ^ (1075 - 52)) with (2 * 2 ^ 1022) in Ha.
  change (2 ^ 1023) with (2 * 2 ^ 1022). assert (0 < 2 ^ 1022) as Hu0 by done.
  remember (2 ^ 1022) as u eqn:Hu. clear Hu.
  remember (f64_add (q * f64_scale) fr) as sum. remember f64_scale as one eqn:Ho. clear Ho.
  specialize (He ltac:(lia) ltac:(nia) ltac:(lia) ltac:(nia)). specialize (Ha ltac:(lia) ltac:(nia) ltac:(lia) ltac:(nia)).
  assert (1000000000 * (2 * fr) <= 2 * (r * one) + 1000000000 * u) by (apply (Zmult_le_reg_r _ _ one); lia).
  replace (d * one) with (1000000000 * (q * one) + r * one) by (rewrite Hdm; ring). lia.
Qed.
