(* ===== verification/Dedup.v ===== *)
(** * Dedup: the interface of the expiring test-and-set caches

    Two parts of the program remember message identifiers for a while: the
    gossip engine's [SeenCache] ([internal/gossip/seen.go]) and the seen map
    of each [Peer] ([internal/transport/peer.go]).  The class [Dedup] states
    what both promise, and the theorems here are proved against it once:
    whatever the interleaving of checks and periodic cleanups, an identifier
    is accepted at most once per time-to-live. *)

From S2P Require Import Prelude.

(** The operations, over an abstract cache state. *)
Class Dedup (C : Type) := {
  dd_entries : C -> gmap string Z;          (* identifier, time first seen *)
  dd_ttl : C -> Z;
  dd_check : C -> string -> Z -> bool * C;  (* test-and-set at a time *)
  dd_cleanup : C -> Z -> C                  (* drop what has expired *)
}.

Class DedupLaws (C : Type) `{Dedup C} : Prop := {
  dd_check_hit c id now t :
    dd_entries c !! id = Some t -> dd_check c id now = (true, c);
  dd_check_miss c id now :
    dd_entries c !! id = None ->
    (dd_check c id now).1 = false /\
    dd_entries (dd_check c id now).2 = <[id := now]> (dd_entries c) /\
    dd_ttl (dd_check c id now).2 = dd_ttl c;
  dd_cleanup_entries c now :
    dd_entries (dd_cleanup c now) = filter (fun e => ~ e.2 < now - dd_ttl c) (dd_entries c);
  dd_cleanup_ttl c now : dd_ttl (dd_cleanup c now) = dd_ttl c
}.

(** One use of a cache. *)
Inductive dedup_event :=
| DCheck (id : string) (now : Z)
| DCleanup (now : Z).

Definition dedup_time (e : dedup_event) : Z :=
  match e with DCheck _ t | DCleanup t => t end.

Section Trace.
Context {C : Type} `{DedupLaws C}.
Implicit Types (c : C) (id : string) (now t : Z) (es : list dedup_event).

(** Run a sequence of uses; the result lists the answers of the checks. *)
Fixpoint dedup_run c es : list (string * Z * bool) * C :=
  match es with
  | [] => ([], c)
  | DCheck id now :: es' =>
      let '(seen, c1) := dd_check c id now in
      let '(out, c2) := dedup_run c1 es' in
      ((id, now, seen) :: out, c2)
  | DCleanup now :: es' => dedup_run (dd_cleanup c now) es'
  end.

(** The times of the events never decrease and start at [t]. *)
Fixpoint dedup_ordered t es : Prop :=
  match es with
  | [] => True
  | e :: es' => t <= dedup_time e /\ dedup_ordered (dedup_time e) es'
  end.

Lemma dedup_check_lookup c id now :
  exists t, dd_entries (dd_check c id now).2 !! id = Some t.
Proof.
  destruct (dd_entries c !! id) as [t|] eqn:E.
  - rewrite (dd_check_hit _ _ _ _ E). eauto.
  - destruct (dd_check_miss c id now E) as (_ & -> & _). rewrite lookup_insert_eq. eauto.
Qed.

Lemma dedup_check_ttl c id now : dd_ttl (dd_check c id now).2 = dd_ttl c.
Proof.
  destruct (dd_entries c !! id) as [t|] eqn:E.
  - by rewrite (dd_check_hit _ _ _ _ E).
  - by destruct (dd_check_miss c id now E) as (_ & _ & ->).
Qed.

(** An entry written at [t0] is still there after a check. *)
Lemma dedup_check_keeps c id id' now t0 :
  dd_entries c !! id = Some t0 -> dd_entries (dd_check c id' now).2 !! id = Some t0.
Proof.
  intros E. destruct (dd_entries c !! id') as [t|] eqn:E'.
  - by rewrite (dd_check_hit _ _ _ _ E').
  - destruct (dd_check_miss c id' now E') as (_ & -> & _).
    rewrite lookup_insert_ne; [done|]. congruence.
Qed.

(** ... and after a cleanup within its time-to-live. *)
Lemma dedup_cleanup_keeps c id now t0 :
  dd_entries c !! id = Some t0 -> now - t0 <= dd_ttl c ->
  dd_entries (dd_cleanup c now) !! id = Some t0.
Proof.
  intros E Ht. rewrite dd_cleanup_entries.
  apply map_lookup_filter_Some. split; [done|]. simpl. lia.
Qed.

(** No answer is given before the starting time. *)
Lemma dedup_out_time c t es id now b :
  dedup_ordered t es -> (id, now, b) ∈ (dedup_run c es).1 -> t <= now.
Proof.
  revert c t. induction es as [|[i m|m] es IH]; intros c t Hord Hin; simpl in *.
  - by apply elem_of_nil in Hin.
  - destruct (dd_check c i m) as [s c1]. destruct (dedup_run c1 es) as [out c2] eqn:Er.
    simpl in Hin. apply elem_of_cons in Hin as [Heq|Hin]; [simplify_eq; lia|].
    assert (m <= now); [|lia]. eapply (IH c1); [apply Hord|by rewrite Er].
  - assert (m <= now); [|lia]. eapply IH; [apply Hord|done].
Qed.

(** While an entry written at [t0] is younger than the time-to-live, no
    check of its identifier is answered [false]. *)
Lemma dedup_no_accept c id t0 t es :
  dd_entries c !! id = Some t0 -> dedup_ordered t es ->
  forall now, (id, now, false) ∈ (dedup_run c es).1 -> dd_ttl c < now - t0.
Proof.
  revert c t. induction es as [|[id' n|n] es IH]; intros c t E Hord now Hin; simpl in *.
  - by apply elem_of_nil in Hin.
  - destruct (dd_check c id' n) as [seen c1] eqn:Ec.
    destruct (dedup_run c1 es) as [out c2] eqn:Er. simpl in Hin.
    pose proof (dedup_check_keeps c id id' n t0 E) as E1. rewrite Ec in E1. simpl in E1.
    pose proof (dedup_check_ttl c id' n) as Httl. rewrite Ec in Httl. simpl in Httl.
    apply elem_of_cons in Hin as [Heq|Hin].
    + simplify_eq. rewrite (dd_check_hit _ _ _ _ E) in Ec. simplify_eq.
    + rewrite <- Httl. eapply (IH c1 n); [done|apply Hord|by rewrite Er].
  - destruct Hord as [Hn Hord]. destruct (decide (n - t0 <= dd_ttl c)) as [Hy|Ho].
    + rewrite <- (dd_cleanup_ttl c n).
      eapply (IH _ n); [by apply dedup_cleanup_keeps|done|done].
    + pose proof (dedup_out_time _ _ _ _ _ _ Hord Hin). lia.
Qed.

(** At most one acceptance of an identifier per time-to-live: if a check of
    [id] at [t0] was answered [false], the next [false] comes later than
    [t0 + ttl]. *)
Lemma dedup_accept_once c id t0 es now :
  (dd_check c id t0).1 = false -> dedup_ordered t0 es ->
  (id, now, false) ∈ (dedup_run (dd_check c id t0).2 es).1 ->
  t0 + dd_ttl c < now.
Proof.
  intros Hmiss Hord Hin.
  destruct (dd_entries c !! id) as [t|] eqn:E.
  { by rewrite (dd_check_hit _ _ _ _ E) in Hmiss. }
  destruct (dd_check_miss c id t0 E) as (_ & He & Httl).
  assert (dd_ttl c < now - t0); [|lia]. rewrite <- Httl.
  eapply dedup_no_accept; [|done|done]. by rewrite He, lookup_insert_eq.
Qed.

(** After a cleanup nothing older than the time-to-live is left. *)
Lemma dedup_cleanup_fresh c now id t :
  dd_entries (dd_cleanup c now) !! id = Some t -> now - dd_ttl c <= t.
Proof.
  rewrite dd_cleanup_entries. intros [_ Hf]%map_lookup_filter_Some. simpl in Hf. lia.
Qed.
End Trace.
