(* ===== verification/Seen.v ===== *)
(** * Seen: the gossip engine's cache of message identifiers

    Models [internal/gossip/seen.go].  Every method takes the mutex for its
    whole body, so each is one atomic step; [time.Now()] is the argument
    [now], in nanoseconds. *)

From S2P Require Import Prelude Dedup.

Record SeenCache := mkSeenCache {
  seen_entries : gmap string Z;
  seen_ttl : Z
}.

Definition NewSeenCache (ttl : Z) : SeenCache := mkSeenCache ∅ ttl.

Definition SeenCache_Has (s : SeenCache) (messageID : string) : bool :=
  bool_decide (is_Some (seen_entries s !! messageID)).

Definition SeenCache_Check (s : SeenCache) (messageID : string) (now : Z) : bool * SeenCache :=
  match seen_entries s !! messageID with
  | Some _ => (true, s)
  | None => (false, mkSeenCache (<[messageID := now]> (seen_entries s)) (seen_ttl s))
  end.

Definition SeenCache_Len (s : SeenCache) : nat := size (seen_entries s).

(** [cleanup] deletes the entries written before the cutoff [now - ttl]. *)
Definition SeenCache_cleanup (s : SeenCache) (now : Z) : SeenCache :=
  let cutoff := now - seen_ttl s in
  mkSeenCache (filter (fun e => ~ e.2 < cutoff) (seen_entries s)) (seen_ttl s).

(** [DefaultSeenTTL]: five minutes. *)
Definition DefaultSeenTTL : Z := 5 * 60 * 1000000000.

#[export] Instance SeenCache_Dedup : Dedup SeenCache := {
  dd_entries := seen_entries;
  dd_ttl := seen_ttl;
  dd_check := SeenCache_Check;
  dd_cleanup := SeenCache_cleanup
}.

#[export] Instance SeenCache_DedupLaws : DedupLaws SeenCache.
Proof.
  constructor; unfold dd_entries, dd_check, dd_ttl; simpl; unfold SeenCache_Check; intros.
  - by simplify_option_eq.
  - by simplify_option_eq.
  - done.
  - done.
Qed.

Lemma SeenCache_Check_fst s id now : (SeenCache_Check s id now).1 = SeenCache_Has s id.
Proof.
  unfold SeenCache_Check, SeenCache_Has. case_bool_decide as E.
  - destruct E as [t ->]. done.
  - apply eq_None_not_Some in E. by rewrite E.
Qed.

Lemma SeenCache_Check_entries s id now :
  seen_entries (SeenCache_Check s id now).2 =
  match seen_entries s !! id with Some _ => seen_entries s | None => <[id := now]> (seen_entries s) end.
Proof. unfold SeenCache_Check. by destruct (seen_entries s !! id). Qed.

Lemma SeenCache_Check_marks s id now : SeenCache_Has (SeenCache_Check s id now).2 id = true.
Proof.
  apply bool_decide_eq_true. rewrite SeenCache_Check_entries.
  destruct (seen_entries s !! id) eqn:E; [by rewrite E|]. by rewrite lookup_insert_eq.
Qed.

Lemma SeenCache_Check_other s id id' now :
  id <> id' -> SeenCache_Has (SeenCache_Check s id now).2 id' = SeenCache_Has s id'.
Proof.
  intros Hne. unfold SeenCache_Has. rewrite SeenCache_Check_entries.
  destruct (seen_entries s !! id); [done|]. by rewrite lookup_insert_ne.
Qed.

(** ** Properties *)

(** The test-and-set accepts an identifier at most once per time-to-live:
    after a [Check] that answered [false] at [t0], and any sequence of later
    checks (of any identifiers) and cleanups in time order, the next [Check]
    of the same identifier that answers [false] happens later than
    [t0 + ttl]. *)
Theorem SeenCache_accepts_once (s : SeenCache) (id : string) (t0 now : Z) (es : list dedup_event)
  (Hfresh : (SeenCache_Check s id t0).1 = false)
  (Hord : dedup_ordered t0 es)
  (Hagain : (id, now, false) ∈ (dedup_run (SeenCache_Check s id t0).2 es).1) :
  t0 + seen_ttl s < now.
Proof. exact (dedup_accept_once s id t0 es now Hfresh Hord Hagain). Qed.

(** Within the time-to-live a duplicate is refused, after it the identifier is
    accepted again: the run below accepts "m" at 0, refuses it at 5 (ttl 10)
    and accepts it again at 21, after the cleanup at 20. *)
Lemma SeenCache_accepts_once_witness :
  (dedup_run (SeenCache_Check (NewSeenCache 10) "m" 0).2
     [DCheck "m" 5; DCleanup 20; DCheck "m" 21]).1 = [("m", 5, true); ("m", 21, false)]%string /\
  0 + 10 < 21.
Proof.
  split; [reflexivity|].
  apply (SeenCache_accepts_once (NewSeenCache 10) "m" 0 21 [DCheck "m" 5; DCleanup 20; DCheck "m" 21]).
  - reflexivity.
  - simpl. lia.
  - vm_compute. right. left.
Defined.
