(* ===== verification/KeyRing.v ===== *)
(** * KeyRing: public keys and how they were learned

    Models [internal/gossip/keyring.go].  [TrustLevel] is an [int] enum whose
    smaller values are stronger; each method holds the mutex for its whole
    body. *)

From S2P Require Import Prelude Bytes.

Inductive TrustLevel := TrustDirectlyVerified | TrustGossipLearned.

#[export] Instance TrustLevel_eq_dec : EqDecision TrustLevel.
Proof. solve_decision. Defined.

(** The [iota] values of the constants. *)
Definition trust_int (t : TrustLevel) : Z :=
  match t with TrustDirectlyVerified => 0 | TrustGossipLearned => 1 end.

Record KeyEntry := mkKeyEntry {
  PubKey : bytes;
  keTrustLevel : TrustLevel
}.

#[export] Instance KeyEntry_eq_dec : EqDecision KeyEntry.
Proof. solve_decision. Defined.

Record KeyRing := mkKeyRing { keys : gmap string KeyEntry }.

Definition NewKeyRing : KeyRing := mkKeyRing ∅.

(** [Add]: insert, or upgrade when the new trust is strictly stronger. *)
Definition KeyRing_Add (kr : KeyRing) (nodeID : string) (pubKey : bytes) (trust : TrustLevel) : KeyRing :=
  match keys kr !! nodeID with
  | Some existing =>
      if trust_int (keTrustLevel existing) <=? trust_int trust then kr
      else mkKeyRing (<[nodeID := mkKeyEntry pubKey trust]> (keys kr))
  | None => mkKeyRing (<[nodeID := mkKeyEntry pubKey trust]> (keys kr))
  end.

Definition KeyRing_Lookup (kr : KeyRing) (nodeID : string) : option KeyEntry :=
  keys kr !! nodeID.
Definition KeyRing_Remove (kr : KeyRing) (nodeID : string) : KeyRing :=
  mkKeyRing (delete nodeID (keys kr)).
Definition KeyRing_Len (kr : KeyRing) : nat := size (keys kr).

(** ** What one [Add] does *)

Lemma KeyRing_Add_other kr id id' k t :
  id <> id' -> keys (KeyRing_Add kr id k t) !! id' = keys kr !! id'.
Proof.
  intros Hne. unfold KeyRing_Add. destruct (keys kr !! id) as [e|]; [split_if; [done|]|];
    simpl; by rewrite lookup_insert_ne.
Qed.

Lemma KeyRing_Add_new kr id k t :
  keys kr !! id = None -> keys (KeyRing_Add kr id k t) !! id = Some (mkKeyEntry k t).
Proof. intros H. unfold KeyRing_Add. rewrite H. simpl. by rewrite lookup_insert_eq. Qed.

(** Every [Add] leaves an entry for the node behind, at least as trusted as
    the one added. *)
Lemma KeyRing_Add_known kr id k t :
  exists e, keys (KeyRing_Add kr id k t) !! id = Some e /\ trust_int (keTrustLevel e) <= trust_int t.
Proof.
  unfold KeyRing_Add. destruct (keys kr !! id) as [e|] eqn:E; [split_if|].
  - eauto.
  - simpl. rewrite lookup_insert_eq. eexists. split; [done|]. simpl. lia.
  - simpl. rewrite lookup_insert_eq. eexists. split; [done|]. simpl. lia.
Qed.

Lemma KeyRing_Add_cases kr id k t :
  KeyRing_Add kr id k t = kr \/ KeyRing_Add kr id k t = mkKeyRing (<[id := mkKeyEntry k t]> (keys kr)).
Proof. unfold KeyRing_Add. destruct (keys kr !! id); [split_if|]; auto. Qed.

(** A directly verified key is never replaced. *)
Lemma KeyRing_Add_direct kr id e id' k t :
  keys kr !! id = Some e -> keTrustLevel e = TrustDirectlyVerified ->
  keys (KeyRing_Add kr id' k t) !! id = Some e.
Proof.
  intros He Ht. destruct (decide (id' = id)) as [->|Hne].
  - unfold KeyRing_Add. rewrite He, Ht. by destruct t.
  - by rewrite KeyRing_Add_other.
Qed.

(** ** Invariants of the table *)

(** A property of (node, key) pairs that holds of every pair ever added holds
    of every entry. *)
Definition KeyRing_Forall (P : string -> bytes -> Prop) (kr : KeyRing) : Prop :=
  forall id e, keys kr !! id = Some e -> P id (PubKey e).

Lemma KeyRing_Forall_Add P kr id k t :
  KeyRing_Forall P kr -> P id k -> KeyRing_Forall P (KeyRing_Add kr id k t).
Proof.
  intros Hkr HP. destruct (KeyRing_Add_cases kr id k t) as [->| ->]; [done|].
  intros i e. simpl. rewrite lookup_insert_Some. intros [[<- <-]|[_ He]]; [done|by eapply Hkr].
Qed.

#[export] Hint Resolve KeyRing_Forall_Add : micelio.

(** ** Sequences of additions *)

Definition KeyRing_AddAll (kr : KeyRing) (adds : list (string * bytes * TrustLevel)) : KeyRing :=
  fold_left (fun kr a => KeyRing_Add kr a.1.1 a.1.2 a.2) adds kr.

Lemma KeyRing_AddAll_cons kr a adds :
  KeyRing_AddAll kr (a :: adds) = KeyRing_AddAll (KeyRing_Add kr a.1.1 a.1.2 a.2) adds.
Proof. done. Qed.

Lemma KeyRing_AddAll_direct kr id e adds :
  keys kr !! id = Some e -> keTrustLevel e = TrustDirectlyVerified ->
  keys (KeyRing_AddAll kr adds) !! id = Some e.
Proof.
  intros He Ht. revert kr He. induction adds as [|a adds IH]; intros kr He; [done|].
  rewrite KeyRing_AddAll_cons. apply IH. by apply KeyRing_Add_direct.
Qed.

(** The entry a sequence of additions leaves for a node: the first directly
    verified key offered if there is one, else the first key offered. *)
Definition KeyRing_best (id : string) (adds : list (string * bytes * TrustLevel)) : option KeyEntry :=
  let mine := filter (fun a => a.1.1 = id) adds in
  match List.find (fun a => bool_decide (a.2 = TrustDirectlyVerified)) mine with
  | Some a => Some (mkKeyEntry a.1.2 a.2)
  | None => match mine with a :: _ => Some (mkKeyEntry a.1.2 a.2) | [] => None end
  end.

(** Starting from an entry learned by gossip, additions replace it only by
    the first directly verified key offered. *)
Lemma KeyRing_AddAll_gossip kr id k adds :
  keys kr !! id = Some (mkKeyEntry k TrustGossipLearned) ->
  keys (KeyRing_AddAll kr adds) !! id =
  match List.find (fun a => bool_decide (a.2 = TrustDirectlyVerified))
          (filter (fun a => a.1.1 = id) adds) with
  | Some a => Some (mkKeyEntry a.1.2 a.2)
  | None => Some (mkKeyEntry k TrustGossipLearned)
  end.
Proof.
  revert kr. induction adds as [|[[i k'] t] adds IH]; intros kr He; [done|].
  rewrite KeyRing_AddAll_cons, filter_cons. simpl. case_decide as Hi; [subst i|].
  - simpl. destruct t; simpl.
    + apply KeyRing_AddAll_direct; [|done].
      unfold KeyRing_Add. rewrite He. simpl. by rewrite lookup_insert_eq.
    + apply IH. unfold KeyRing_Add. by rewrite He.
  - apply IH. by rewrite KeyRing_Add_other.
Qed.

(** ** Properties *)

(** Trust only grows, and the winner is determined: after any sequence of
    [Add] calls on an empty ring, the entry of a node is the first directly
    verified key offered for it, and only if there is none the first
    gossip-learned one. A directly verified key is never downgraded or
    replaced, a gossip-learned one is upgraded exactly once. *)
Theorem KeyRing_AddAll_best (adds : list (string * bytes * TrustLevel)) (id : string) :
  KeyRing_Lookup (KeyRing_AddAll NewKeyRing adds) id = KeyRing_best id adds.
Proof.
  unfold KeyRing_Lookup, KeyRing_best. assert (keys NewKeyRing !! id = None) as Hn by done.
  revert Hn. generalize NewKeyRing. induction adds as [|[[i k] t] adds IH]; intros kr Hn; [done|].
  rewrite KeyRing_AddAll_cons, filter_cons. simpl. case_decide as Hi; [subst i|].
  - pose proof (KeyRing_Add_new kr id k t Hn) as Ha. destruct t; simpl.
    + by apply KeyRing_AddAll_direct.
    + by rewrite (KeyRing_AddAll_gossip _ _ k).
  - apply IH. by rewrite KeyRing_Add_other.
Qed.
