(* ===== verification/RateLimit.v ===== *)
(** * RateLimit: the per-sender token bucket

    Models [internal/gossip/ratelimit.go], with Go's rounding [float64]
    arithmetic ([Float64]) for the token counts.  Each method holds the mutex
    for its whole body; [time.Now()] is the argument [now] (nanoseconds), and
    [now.Sub] saturates at the [int64] range. *)

From S2P Require Import Prelude Float64.

Record SenderState := mkSenderState {
  tokens : f64;
  lastCheck : Z
}.

Record RateLimiter := mkRateLimiter {
  senders : gmap string SenderState;
  maxPerSec : f64;
  burst : f64
}.

Definition NewRateLimiter (m : f64) : RateLimiter :=
  mkRateLimiter ∅ m (f64_mul m (f64_of_Z 2)).

(** The float64 constant [1]. *)
Definition one : f64 := f64_scale.

Definition set_sender (r : RateLimiter) (id : string) (st : SenderState) : RateLimiter :=
  mkRateLimiter (<[id := st]> (senders r)) (maxPerSec r) (burst r).

(** The refill of lines 39-45: elapsed time, then the cap at [burst]. *)
Definition refill (r : RateLimiter) (st : SenderState) (now : Z) : f64 :=
  let elapsed := Seconds (clamp64 (now - lastCheck st)) in
  let t := f64_add (tokens st) (f64_mul elapsed (maxPerSec r)) in
  if burst r <? t then burst r else t.

Definition RateLimiter_Allow (r : RateLimiter) (senderID : string) (now : Z) : bool * RateLimiter :=
  match senders r !! senderID with
  | None => (true, set_sender r senderID (mkSenderState (f64_sub (burst r) one) now))
  | Some state =>
      let t := refill r state now in
      if one <=? t
      then (true, set_sender r senderID (mkSenderState (f64_sub t one) now))
      else (false, set_sender r senderID (mkSenderState t now))
  end.

(** The five minutes after which an idle sender is forgotten. *)
Definition limiter_idle : Z := 5 * 60 * second.

Definition RateLimiter_cleanup (r : RateLimiter) (now : Z) : RateLimiter :=
  let cutoff := now - limiter_idle in
  mkRateLimiter (filter (fun e => ~ lastCheck e.2 < cutoff) (senders r)) (maxPerSec r) (burst r).

(** [DefaultMaxPerSec = 10.0], the rate of the gossip engine. *)
Definition DefaultMaxPerSec : f64 := f64_of_Z 10.

(** ** Constants of the default limiter *)

Lemma burst_10 : f64_mul DefaultMaxPerSec (f64_of_Z 2) = 20 * one.
Proof. vm_compute. reflexivity. Qed.

Lemma rate_10 : DefaultMaxPerSec = 10 * one.
Proof. vm_compute. reflexivity. Qed.

Lemma one_pos : 0 < one.
Proof. reflexivity. Qed.

(** Closed comparisons are decided by evaluation. *)
Ltac f64_compute := apply Z.leb_le; vm_compute; reflexivity.

(** A limiter of the default rate, in any state of its table. *)
Record default_limiter (r : RateLimiter) : Prop := {
  dl_rate : maxPerSec r = 10 * one;
  dl_burst : burst r = 20 * one
}.

Lemma default_limiter_new : default_limiter (NewRateLimiter DefaultMaxPerSec).
Proof. split; [exact rate_10|exact burst_10]. Qed.

Lemma default_limiter_set r id st : default_limiter r -> default_limiter (set_sender r id st).
Proof. by intros [??]. Qed.

Lemma default_limiter_Allow r id now :
  default_limiter r -> default_limiter (RateLimiter_Allow r id now).2.
Proof. intros [??]. unfold RateLimiter_Allow. destruct (_ !! _); [split_if|]; done. Qed.

Lemma default_limiter_cleanup r now : default_limiter r -> default_limiter (RateLimiter_cleanup r now).
Proof. by intros [??]. Qed.

#[export] Hint Resolve default_limiter_new default_limiter_set default_limiter_Allow
  default_limiter_cleanup one_pos : micelio.

(** ** The refill *)

Lemma refill_le_burst r st now : refill r st now <= burst r.
Proof. unfold refill. split_if; lia. Qed.

Lemma clamp64_nonneg z : 0 <= z -> 0 <= clamp64 z.
Proof. unfold clamp64, MinInt64, MaxInt64. lia. Qed.

Lemma refill_nonneg r st now :
  default_limiter r -> 0 <= tokens st -> lastCheck st <= now -> 0 <= refill r st now.
Proof.
  intros [Hr Hb] Ht Hl. unfold refill. rewrite Hr, Hb. pose proof one_pos.
  split_if; [lia|]. apply f64_add_nonneg; [done|]. apply f64_mul_nonneg; [|lia].
  apply Seconds_nonneg, clamp64_nonneg. lia.
Qed.

(** Two seconds refill the bucket, whatever was in it. *)
Lemma refill_full r st now :
  default_limiter r -> 0 <= tokens st -> 2 * second <= now - lastCheck st ->
  refill r st now = burst r.
Proof.
  intros [Hr Hb] Ht Hl. unfold refill. rewrite Hr, Hb. pose proof one_pos.
  assert (f64_of_Z 2 <= Seconds (clamp64 (now - lastCheck st))) as Hs.
  { apply Seconds_ge; [lia|]. unfold clamp64, MinInt64, MaxInt64, second in *. lia. }
  assert (20 * one <= f64_add (tokens st) (f64_mul (Seconds (clamp64 (now - lastCheck st))) (10 * one))) as Hge.
  { transitivity (f64_add 0 (f64_mul (f64_of_Z 2) (10 * one))); [f64_compute|].
    apply f64_add_mono; [lia|]. split; [f64_compute|].
    apply f64_mul_mono; [|lia]. split; [f64_compute|done]. }
  split_if; lia.
Qed.

(** A wait of 100 milliseconds buys one message. *)
Lemma Seconds_100ms d : 100000000 <= d -> Seconds 100000000 <= Seconds d.
Proof.
  intros Hd. destruct (decide (d < second)) as [Hlt|Hge]; unfold second in *.
  - unfold Seconds, second.
    assert (forall x, 0 <= x < 1000000000 -> Z.quot x 1000000000 = 0 /\ Z.rem x 1000000000 = x) as Hs.
    { intros x Hx. split; [apply Z.quot_small|apply Z.rem_small]; lia. }
    destruct (Hs d) as [-> ->]; [lia|]. destruct (Hs 100000000) as [-> ->]; [lia|].
    apply f64_add_mono; [by vm_compute|]. split; [f64_compute|].
    apply f64_div_mono; [by vm_compute|]. split; [f64_compute|]. apply f64_of_Z_mono. lia.
  - transitivity (f64_of_Z 1); [f64_compute|]. apply Seconds_ge; unfold second; lia.
Qed.

Lemma refill_100ms r st now :
  default_limiter r -> 0 <= tokens st -> 100000000 <= now - lastCheck st -> one <= refill r st now.
Proof.
  intros [Hr Hb] Ht Hl. unfold refill. rewrite Hr, Hb. pose proof one_pos.
  assert (one <= f64_add (tokens st) (f64_mul (Seconds (clamp64 (now - lastCheck st))) (10 * one))).
  { transitivity (f64_add 0 (f64_mul (Seconds 100000000) (10 * one))); [f64_compute|].
    apply f64_add_mono; [lia|]. split; [f64_compute|].
    apply f64_mul_mono; [|lia]. split; [f64_compute|].
    apply Seconds_100ms. unfold clamp64, MinInt64, MaxInt64. lia. }
  split_if; lia.
Qed.

(** The rounding error one call can add in its favour. *)
Definition call_err : Z := 2 ^ 1028.

Lemma call_err_one : 2 ^ 46 * call_err = one.
Proof. reflexivity. Qed.

(** The refill is at most what the elapsed time is worth, up to rounding. *)
Lemma refill_error r st now :
  default_limiter r -> 0 <= tokens st <= 20 * one -> lastCheck st <= now ->
  second * refill r st now <=
  second * tokens st + 10 * one * (now - lastCheck st) + second * (22 * 2 ^ 1023).
Proof.
  intros Hd Ht Hl. pose proof one_pos as Hone. pose proof (refill_le_burst r st now) as Hcap.
  destruct Hd as [Hr Hb]. rewrite Hb in Hcap.
  destruct (decide (now - lastCheck st < 2 * second)) as [Hlt|Hge]; [|unfold second in *; nia].
  assert (refill r st now <= f64_add (tokens st) (f64_mul (Seconds (now - lastCheck st)) (10 * one))) as Href.
  { unfold refill. rewrite Hr, Hb, clamp64_small by (unfold MinInt64, MaxInt64, second in *; lia).
    split_if; lia. }
  pose proof (Seconds_nonneg (now - lastCheck st) ltac:(lia)) as He0.
  pose proof (Seconds_error (now - lastCheck st) ltac:(lia)) as He. fold one in He.
  remember (Seconds (now - lastCheck st)) as e. remember (now - lastCheck st) as dt.
  assert (one = 2 ^ 1074) as Eone by done.
  change (2 ^ 1074) with (2 ^ 51 * 2 ^ 1023) in Eone.
  assert (0 < 2 ^ 1023) as Hu by done. remember (2 ^ 1023) as u.
  assert (e <= 2 * one + u) as Hebound by (clear Hequ; unfold second in *; nia).
  assert (f64_mul e (10 * one) <= 10 * e + 4 * u) as Hmul.
  { pose proof (f64_round_error_at 1078 (e * (10 * one)) f64_scale) as Hm. fold one in Hm.
    change (2 ^ (1078 + 1)) with (32 * one) in Hm. change (2 ^ (1078 - 52)) with (8 * 2 ^ 1023) in Hm.
    rewrite <- Hequ in Hm. clear Hequ. unfold f64_mul. fold one.
    assert (2 * (one * f64_round (e * (10 * one)) one) <= 2 * (e * (10 * one)) + one * (8 * u)); [|nia].
    apply Hm; [lia|nia|lia|nia]. }
  pose proof (f64_mul_nonneg e (10 * one) He0 ltac:(lia)) as Hmul0.
  remember (f64_mul e (10 * one)) as m.
  assert (f64_add (tokens st) m <= tokens st + m + 8 * u) as Hadd.
  { pose proof (f64_round_error_at 1079 (tokens st + m) 1) as Hm.
    change (2 ^ (1079 + 1)) with (64 * one) in Hm. change (2 ^ (1079 - 52)) with (16 * 2 ^ 1023) in Hm.
    rewrite <- Hequ in Hm. clear Hequ. unfold f64_add. lia. }
  clear Hequ. unfold second in *. lia.
Qed.

Lemma spend_error t : one <= t <= 20 * one -> 0 <= f64_sub t one <= t - one + 4 * 2 ^ 1023.
Proof.
  intros Ht. split; [apply f64_sub_nonneg; lia|].
  pose proof (f64_round_error_at 1078 (t - one) 1) as Hm.
  change (2 ^ (1078 + 1)) with (32 * one) in Hm. change (2 ^ (1078 - 52)) with (8 * 2 ^ 1023) in Hm.
  remember (2 ^ 1023) as u eqn:Hequ. clear Hequ. unfold f64_sub. pose proof one_pos. lia.
Qed.

(** ** Runs of the limiter *)

Inductive limiter_event :=
| LAllow (id : string) (now : Z)
| LCleanup (now : Z).

Definition limiter_time (e : limiter_event) : Z :=
  match e with LAllow _ t | LCleanup t => t end.

Fixpoint limiter_run (r : RateLimiter) (es : list limiter_event)
  : list (string * Z * bool) * RateLimiter :=
  match es with
  | [] => ([], r)
  | LAllow id now :: es' =>
      let '(ok, r1) := RateLimiter_Allow r id now in
      let '(out, r2) := limiter_run r1 es' in
      ((id, now, ok) :: out, r2)
  | LCleanup now :: es' => limiter_run (RateLimiter_cleanup r now) es'
  end.

Fixpoint limiter_ordered (t : Z) (es : list limiter_event) : Prop :=
  match es with
  | [] => True
  | e :: es' => t <= limiter_time e /\ limiter_ordered (limiter_time e) es'
  end.

(** How often [id] asked, and how often it was allowed. *)
Definition calls_of (id : string) (out : list (string * Z * bool)) : Z :=
  len (filter (fun o => o.1.1 = id) out).
Definition allowed_of (id : string) (out : list (string * Z * bool)) : Z :=
  len (filter (fun o => o.1.1 = id /\ o.2 = true) out).

(** The invariant of the table at time [t]: between 0 and [burst] tokens per
    sender, no check in the future. *)
Record limiter_ok (t : Z) (r : RateLimiter) : Prop := {
  lo_default : default_limiter r;
  lo_senders id st : senders r !! id = Some st -> 0 <= tokens st <= 20 * one /\ lastCheck st <= t
}.

Lemma limiter_ok_new t : limiter_ok t (NewRateLimiter DefaultMaxPerSec).
Proof. split; [apply default_limiter_new|]. simpl. intros id st. by rewrite lookup_empty. Qed.

Lemma limiter_ok_later t t' r : t <= t' -> limiter_ok t r -> limiter_ok t' r.
Proof. intros Hle [Hd Hs]. split; [done|]. intros id st Hst. specialize (Hs id st Hst). lia. Qed.

Lemma limiter_ok_set t r id st :
  limiter_ok t r -> 0 <= tokens st <= 20 * one -> lastCheck st <= t -> limiter_ok t (set_sender r id st).
Proof.
  intros [Hd Hs] Ht Hl. split; [by apply default_limiter_set|]. simpl.
  intros i s. rewrite lookup_insert_Some. intros [[<- <-]|[_ Hi]]; [done|by eapply Hs].
Qed.

(** What a call leaves for its sender. *)
Lemma Allow_state t r id now :
  limiter_ok t r -> t <= now ->
  exists st, (RateLimiter_Allow r id now).2 = set_sender r id st /\
    lastCheck st = now /\ 0 <= tokens st <= 20 * one.
Proof.
  intros Hok Hle. pose proof one_pos. pose proof (dl_burst _ (lo_default _ _ Hok)) as Hb.
  assert (forall x, one <= x <= 20 * one -> 0 <= f64_sub x one <= 20 * one) as Hsub.
  { intros x Hx. pose proof (spend_error x Hx). change (2 ^ 1074) with (2 ^ 51 * 2 ^ 1023) in *.
    assert (4 * 2 ^ 1023 <= one) by f64_compute. lia. }
  unfold RateLimiter_Allow. destruct (senders r !! id) as [st|] eqn:E.
  - destruct (lo_senders _ _ Hok _ _ E) as [Ht Hl].
    pose proof (refill_le_burst r st now). rewrite Hb in *.
    pose proof (refill_nonneg r st now (lo_default _ _ Hok) ltac:(lia) ltac:(lia)).
    split_if; eexists; (split; [done|]); simpl; (split; [done|]); [apply Hsub|]; lia.
  - eexists. split; [done|]. simpl. rewrite Hb. split; [done|]. apply Hsub. lia.
Qed.

Lemma limiter_ok_Allow t r id now :
  limiter_ok t r -> t <= now -> limiter_ok now (RateLimiter_Allow r id now).2.
Proof.
  intros Hok Hle. destruct (Allow_state t r id now Hok Hle) as (st & -> & Hl & Ht).
  apply limiter_ok_set; [by eapply limiter_ok_later|done|lia].
Qed.

Lemma limiter_ok_cleanup t r now :
  limiter_ok t r -> t <= now -> limiter_ok now (RateLimiter_cleanup r now).
Proof.
  intros Hok Hle. apply (limiter_ok_later _ _ _ Hle) in Hok as [Hd Hs].
  split; [by apply default_limiter_cleanup|]. simpl.
  intros id st [Hst _]%map_lookup_filter_Some. by eapply Hs.
Qed.

Lemma limiter_ok_run t r es t1 :
  limiter_ok t r -> limiter_ordered t es -> t <= t1 -> Forall (fun e => limiter_time e <= t1) es ->
  limiter_ok t1 (limiter_run r es).2.
Proof.
  revert t r. induction es as [|[id now|now] es IH]; intros t r Hok Hord Ht1 Hall; simpl.
  - by eapply limiter_ok_later.
  - destruct Hord as [Hle Hord]. apply Forall_cons in Hall as [Hnow Hall].
    pose proof (limiter_ok_Allow t r id now Hok Hle) as Hok1.
    destruct (RateLimiter_Allow r id now) as [ok r1]. specialize (IH now r1 Hok1 Hord Hnow Hall).
    by destruct (limiter_run r1 es).
  - destruct Hord as [Hle Hord]. apply Forall_cons in Hall as [Hnow Hall].
    apply (IH now); [by eapply limiter_ok_cleanup|done..].
Qed.

#[export] Hint Resolve limiter_ok_new limiter_ok_Allow limiter_ok_cleanup : micelio.

(** ** The budget of a sender

    What a sender may still spend at time [t], in units scaled by [second]:
    its tokens and the refill it has earned, capped at the burst. *)

Definition budget (r : RateLimiter) (id : string) (t : Z) : Z :=
  match senders r !! id with
  | None => 20 * one * second
  | Some st => Z.min (20 * one * second) (second * tokens st + 10 * one * (t - lastCheck st))
  end.

Lemma budget_later r id t t' : t <= t' -> budget r id t' <= budget r id t + 10 * one * (t' - t).
Proof.
  intros Hle. unfold budget. pose proof one_pos. destruct (senders r !! id) as [st|]; nia.
Qed.

Lemma budget_nonneg t r id : limiter_ok t r -> 0 <= budget r id t.
Proof.
  intros Hok. unfold budget. pose proof one_pos. unfold second.
  destruct (senders r !! id) as [st|] eqn:E; [|lia].
  pose proof (lo_senders _ _ Hok _ _ E). nia.
Qed.

Lemma budget_le_burst r id t : budget r id t <= 20 * one * second.
Proof. unfold budget. destruct (senders r !! id); lia. Qed.

(** A call spends what it is allowed; rounding gives away at most
    [call_err]. *)
Lemma budget_Allow t r id now :
  limiter_ok t r -> t <= now ->
  budget (RateLimiter_Allow r id now).2 id now
    + (if (RateLimiter_Allow r id now).1 then one * second else 0)
  <= budget r id now + second * call_err.
Proof.
  intros Hok Hle. pose proof one_pos. pose proof (lo_default _ _ Hok) as Hd.
  assert (26 * 2 ^ 1023 <= call_err) as Herr by f64_compute.
  unfold budget at 2. unfold RateLimiter_Allow. destruct (senders r !! id) as [st|] eqn:E.
  - destruct (lo_senders _ _ Hok _ _ E) as [Ht Hl].
    pose proof (refill_le_burst r st now) as Hcap. rewrite (dl_burst _ Hd) in Hcap.
    pose proof (refill_error r st now Hd Ht ltac:(lia)) as He.
    pose proof (refill_nonneg r st now Hd ltac:(lia) ltac:(lia)).
    assert (0 < 2 ^ 1023) as Hu by done. remember (2 ^ 1023) as u. remember (refill r st now) as x.
    split_if; unfold budget; simpl; rewrite lookup_insert_eq; simpl.
    + pose proof (spend_error x ltac:(lia)) as Hs. rewrite <- Hequ in Hs. clear Hequ. unfold second in *. nia.
    + clear Hequ. unfold second in *. nia.
  - unfold budget. simpl. rewrite lookup_insert_eq. simpl. rewrite (dl_burst _ Hd).
    pose proof (spend_error (20 * one) ltac:(lia)) as Hs. assert (0 < 2 ^ 1023) as Hu by done.
    remember (2 ^ 1023) as u eqn:Hequ. clear Hequ. unfold second in *. nia.
Qed.

Lemma budget_Allow_other r id id' now t :
  id <> id' -> budget (RateLimiter_Allow r id now).2 id' t = budget r id' t.
Proof.
  intros Hne. unfold budget, RateLimiter_Allow.
  destruct (senders r !! id); [split_if|]; simpl; by rewrite lookup_insert_ne.
Qed.

(** Forgetting an idle sender does not change its budget: it had refilled. *)
Lemma budget_cleanup t r id now :
  limiter_ok t r -> t <= now -> budget (RateLimiter_cleanup r now) id now = budget r id now.
Proof.
  intros Hok Hle. unfold budget. simpl. destruct (senders r !! id) as [st|] eqn:E.
  - destruct (decide (lastCheck st < now - limiter_idle)) as [Hlt|Hge].
    + rewrite map_lookup_filter_None_2; [|right; intros ? [= <-]%(eq_trans (eq_sym E)); simpl; lia].
      pose proof (lo_senders _ _ Hok _ _ E). pose proof one_pos.
      unfold limiter_idle, second in *. nia.
    + by rewrite (proj2 (map_lookup_filter_Some _ _ _ st)).
  - by rewrite map_lookup_filter_None_2; [|left].
Qed.

Lemma run_budget t r es id t1 :
  limiter_ok t r -> limiter_ordered t es -> t <= t1 -> Forall (fun e => limiter_time e <= t1) es ->
  one * second * allowed_of id (limiter_run r es).1 <=
  budget r id t + 10 * one * (t1 - t) + second * call_err * calls_of id (limiter_run r es).1.
Proof.
  revert t r. induction es as [|[id' now|now] es IH]; intros t r Hok Hord Ht1 Hall; simpl.
  - pose proof (budget_nonneg t r id Hok). pose proof one_pos. unfold allowed_of, calls_of. simpl. nia.
  - destruct Hord as [Hle Hord]. apply Forall_cons in Hall as [Hnow Hall]. simpl in Hle, Hnow, Hord.
    pose proof (limiter_ok_Allow t r id' now Hok Hle) as Hok1.
    pose proof (budget_later r id t now Hle) as Hlater.
    pose proof (budget_Allow t r id now Hok Hle) as Hspend.
    pose proof (budget_Allow_other r id' id now now) as Hother.
    specialize (IH now (RateLimiter_Allow r id' now).2 Hok1 Hord Hnow Hall).
    destruct (RateLimiter_Allow r id' now) as [ok r1] eqn:Ea. simpl in *.
    destruct (limiter_run r1 es) as [out r2]. simpl in *.
    unfold allowed_of, calls_of in *. rewrite !filter_cons. simpl.
    destruct (decide (id' = id)) as [->|Hne].
    + rewrite Ea in Hspend. simpl in Hspend.
      destruct (decide (id = id /\ ok = true)) as [[_ ->]|Hno]; simpl length.
      * rewrite !Nat2Z.inj_succ. lia.
      * destruct ok; [tauto|]. rewrite Nat2Z.inj_succ. lia.
    + rewrite Hother in IH by done. rewrite decide_False by tauto. lia.
  - destruct Hord as [Hle Hord]. apply Forall_cons in Hall as [Hnow Hall]. simpl in *.
    pose proof (budget_later r id t now Hle). rewrite <- (budget_cleanup t) in H by done.
    specialize (IH now _ (limiter_ok_cleanup t r now Hok Hle) Hord Hnow Hall). lia.
Qed.

(** ** Cleanup is unobservable

    The simulation between a limiter that forgets idle senders and one that
    never does: a sender missing from the former has a full bucket in the
    latter. *)

Record cleanup_sim (t : Z) (r r' : RateLimiter) : Prop := {
  cs_left : limiter_ok t r;
  cs_right : limiter_ok t r';
  cs_senders id :
    match senders r !! id, senders r' !! id with
    | Some st, Some st' => st = st'
    | None, Some st' => lastCheck st' + limiter_idle <= t
    | None, None => True
    | Some _, None => False
    end
}.

Lemma cleanup_sim_cleanup t r r' now :
  cleanup_sim t r r' -> t <= now -> cleanup_sim now (RateLimiter_cleanup r now) r'.
Proof.
  intros [Hl Hr Hs] Hle. split; [by eapply limiter_ok_cleanup|by eapply limiter_ok_later|].
  intros id. specialize (Hs id). simpl.
  destruct (filter _ (senders r) !! id) as [st|] eqn:Ef.
  - apply map_lookup_filter_Some in Ef as [E _]. by rewrite E in Hs.
  - apply map_lookup_filter_None in Ef. destruct (senders r' !! id) as [st'|]; [|done].
    destruct (senders r !! id) as [st|] eqn:E; [|lia]. subst st'.
    destruct Ef as [?|Ef]; [done|]. specialize (Ef st eq_refl). simpl in Ef. lia.
Qed.

(** Both answer a call alike and stay related. *)
Lemma cleanup_sim_Allow t r r' id now :
  cleanup_sim t r r' -> t <= now ->
  (RateLimiter_Allow r id now).1 = (RateLimiter_Allow r' id now).1 /\
  cleanup_sim now (RateLimiter_Allow r id now).2 (RateLimiter_Allow r' id now).2.
Proof.
  intros [Hl Hr Hs] Hle.
  assert ((RateLimiter_Allow r id now).1 = (RateLimiter_Allow r' id now).1 /\
    exists st, (RateLimiter_Allow r id now).2 = set_sender r id st /\
               (RateLimiter_Allow r' id now).2 = set_sender r' id st) as [Hans (st & Hst & Hst')].
  { specialize (Hs id). pose proof (lo_default _ _ Hl) as Hd. pose proof (lo_default _ _ Hr) as Hd'.
    pose proof one_pos. unfold RateLimiter_Allow.
    destruct (senders r !! id) as [s|] eqn:E, (senders r' !! id) as [s'|] eqn:E'; try done.
    - subst s'. assert (refill r s now = refill r' s now) as ->.
      { unfold refill. by rewrite (dl_rate _ Hd), (dl_rate _ Hd'), (dl_burst _ Hd), (dl_burst _ Hd'). }
      split_if; eauto.
    - destruct (lo_senders _ _ Hr _ _ E') as [Ht Hlast].
      rewrite refill_full; [|done|lia|unfold limiter_idle, second in *; lia].
      rewrite (dl_burst _ Hd), (dl_burst _ Hd'). split_if; [eauto|lia].
    - rewrite (dl_burst _ Hd), (dl_burst _ Hd'). eauto. }
  split; [done|]. split; [by eapply limiter_ok_Allow|by eapply limiter_ok_Allow|].
  intros i. rewrite Hst, Hst'. simpl. destruct (decide (id = i)) as [->|Hne].
  - by rewrite !lookup_insert_eq.
  - rewrite !lookup_insert_ne by done. specialize (Hs i).
    destruct (senders r !! i), (senders r' !! i); try done. lia.
Qed.

Definition is_allow (e : limiter_event) : bool :=
  match e with LAllow _ _ => true | LCleanup _ => false end.

Lemma cleanup_sim_run t r r' es :
  cleanup_sim t r r' -> limiter_ordered t es ->
  (limiter_run r es).1 = (limiter_run r' (filter is_allow es)).1.
Proof.
  revert t r r'. induction es as [|[id now|now] es IH]; intros t r r' Hsim Hord; [done| |].
  - destruct Hord as [Hle Hord]. rewrite filter_cons_True by done. simpl in *.
    destruct (cleanup_sim_Allow t r r' id now Hsim Hle) as [Hans Hsim'].
    specialize (IH now _ _ Hsim' Hord).
    destruct (RateLimiter_Allow r id now) as [ok r1], (RateLimiter_Allow r' id now) as [ok' r1'].
    simpl in *. subst ok'.
    destruct (limiter_run r1 es), (limiter_run r1' (filter is_allow es)). simpl in *. by subst.
  - destruct Hord as [Hle Hord]. rewrite filter_cons_False by naive_solver. simpl in *.
    apply (IH now); [|done]. by eapply cleanup_sim_cleanup.
Qed.

(** ** Bursts *)

Lemma add_sub_exact k : 0 <= k <= 20 -> f64_add (k * one) 0 = k * one /\ f64_sub ((k + 1) * one) one = k * one.
Proof.
  intros Hk. unfold f64_add, f64_sub, one. split.
  - rewrite Z.add_0_r. fold (f64_of_Z k). apply f64_of_Z_exact. lia.
  - replace ((k + 1) * f64_scale - f64_scale) with (k * f64_scale) by lia.
    fold (f64_of_Z k). apply f64_of_Z_exact. lia.
Qed.

(** At one instant nothing is refilled. *)
Lemma refill_instant r k now :
  default_limiter r -> 0 <= k <= 20 -> refill r (mkSenderState (k * one) now) now = k * one.
Proof.
  intros [Hr Hb] Hk. unfold refill. simpl. rewrite Z.sub_diag, Hr, Hb.
  replace (f64_mul (Seconds (clamp64 0)) (10 * one)) with 0 by (vm_compute; reflexivity).
  rewrite (proj1 (add_sub_exact k Hk)). pose proof one_pos. split_if; [nia|done].
Qed.

Lemma burst_run id now n k r :
  default_limiter r -> 0 <= k <= 20 -> senders r !! id = Some (mkSenderState (k * one) now) ->
  map snd (limiter_run r (replicate n (LAllow id now))).1 =
  replicate (Nat.min n (Z.to_nat k)) true ++ replicate (n - Z.to_nat k) false.
Proof.
  revert k r. induction n as [|n IH]; intros k r Hd Hk Hst; [done|]. pose proof one_pos.
  simpl. unfold RateLimiter_Allow. rewrite Hst, refill_instant by done.
  destruct (decide (k = 0)) as [->|Hnz].
  - replace (one <=? 0 * one) with false by (symmetry; apply Z.leb_gt; lia).
    specialize (IH 0 (set_sender r id (mkSenderState (0 * one) now))).
    destruct (limiter_run _ _) as [out r2]. simpl in *.
    rewrite IH; [|by apply default_limiter_set|done|by rewrite lookup_insert_eq].
    rewrite Nat.min_0_r, Nat.sub_0_r. done.
  - replace (one <=? k * one) with true by (symmetry; apply Z.leb_le; nia).
    replace k with (k - 1 + 1) at 1 by lia. rewrite (proj2 (add_sub_exact (k - 1) ltac:(lia))).
    specialize (IH (k - 1) (set_sender r id (mkSenderState ((k - 1) * one) now))).
    destruct (limiter_run _ _) as [out r2]. simpl in *.
    rewrite IH; [|by apply default_limiter_set|lia|by rewrite lookup_insert_eq].
    replace (Z.to_nat k) with (S (Z.to_nat (k - 1))) by lia. done.
Qed.

(** ** Properties *)

(** C21. The rate limit holds over every window: run the default limiter over any
    prefix of calls and cleanups up to [t0], then over a window of events
    between [t0] and [t1]. The messages of one sender allowed in the window
    number at most [20 + 10 * (t1 - t0)], times in seconds, plus [2^-46] per
    call for the rounding of the float64 arithmetic. *)
Theorem RateLimiter_rate_bound (prefix window : list limiter_event) (id : string) (t t0 t1 : Z)
  (Ht : t <= t0 <= t1)
  (Hprefix : limiter_ordered t prefix) (Hbefore : Forall (fun e => limiter_time e <= t0) prefix)
  (Hwindow : limiter_ordered t0 window) (Hend : Forall (fun e => limiter_time e <= t1) window) :
  let r := (limiter_run (NewRateLimiter DefaultMaxPerSec) prefix).2 in
  let out := (limiter_run r window).1 in
  2 ^ 46 * second * allowed_of id out <=
  2 ^ 46 * (20 * second + 10 * (t1 - t0)) + second * calls_of id out.
Proof.
  intros r out.
  assert (limiter_ok t0 r) as Hok
    by (eapply limiter_ok_run; [apply limiter_ok_new|done|lia|done]).
  pose proof (run_budget t0 r window id t1 Hok Hwindow ltac:(lia) Hend) as Hb. fold out in Hb.
  pose proof (budget_le_burst r id t0) as Hcap.
  assert (0 < call_err) as Hpos by done. rewrite <- call_err_one in Hb, Hcap.
  remember call_err as c. remember (allowed_of id out) as a. remember (calls_of id out) as n.
  apply (Z.mul_le_mono_pos_l _ _ c Hpos). nia.
Qed.

(** Thirty calls in one instant, after a first call a minute earlier and a
    cleanup: the bound is 20 and the limiter allows exactly 20. *)
Lemma RateLimiter_rate_bound_witness :
  let prefix := [LAllow "a" 0; LCleanup (400 * second)] in
  let window := replicate 30 (LAllow "a" (400 * second)) in
  let out := (limiter_run (limiter_run (NewRateLimiter DefaultMaxPerSec) prefix).2 window).1 in
  allowed_of "a" out = 20 /\
  2 ^ 46 * second * allowed_of "a" out <=
  2 ^ 46 * (20 * second + 10 * (400 * second - 400 * second)) + second * calls_of "a" out.
Proof.
  split; [vm_compute; reflexivity|].
  apply (RateLimiter_rate_bound [LAllow "a" 0; LCleanup (400 * second)]
           (replicate 30 (LAllow "a" (400 * second))) "a" 0); unfold second; simpl;
    repeat constructor; simpl; lia.
Defined.

(** C22. Forgetting idle senders cannot be observed: whatever cleanups are
    interleaved with the calls, every call gets the answer it would get from
    a limiter that never forgets anybody. *)
Theorem RateLimiter_cleanup_unobservable (es : list limiter_event) (t : Z)
  (Hord : limiter_ordered t es) :
  (limiter_run (NewRateLimiter DefaultMaxPerSec) es).1 =
  (limiter_run (NewRateLimiter DefaultMaxPerSec) (filter is_allow es)).1.
Proof.
  apply (cleanup_sim_run t); [|done].
  split; [apply limiter_ok_new|apply limiter_ok_new|]. simpl. intros id. by rewrite lookup_empty.
Qed.

Lemma RateLimiter_cleanup_unobservable_witness :
  let es := replicate 21 (LAllow "a" 0) ++ [LCleanup (301 * second); LAllow "a" (301 * second)] in
  map snd (limiter_run (NewRateLimiter DefaultMaxPerSec) es).1 = replicate 20 true ++ [false; true] /\
  (limiter_run (NewRateLimiter DefaultMaxPerSec) es).1 =
  (limiter_run (NewRateLimiter DefaultMaxPerSec) (filter is_allow es)).1.
Proof.
  split; [vm_compute; reflexivity|].
  apply (RateLimiter_cleanup_unobservable _ 0). unfold second. simpl. lia.
Defined.

(** A fresh sender may burst: of [n] calls at one instant exactly the first
    20 are allowed. *)
Theorem RateLimiter_burst (r : RateLimiter) (id : string) (now : Z) (n : nat)
  (Hd : default_limiter r) (Hnew : senders r !! id = None) :
  map snd (limiter_run r (replicate n (LAllow id now))).1 =
  replicate (Nat.min n 20) true ++ replicate (n - 20) false.
Proof.
  destruct n as [|n]; [done|]. simpl. unfold RateLimiter_Allow. rewrite Hnew, (dl_burst _ Hd).
  pose proof (proj2 (add_sub_exact 19 ltac:(lia))) as Hsub. change (19 + 1) with 20 in Hsub. rewrite Hsub.
  pose proof (burst_run id now n 19 (set_sender r id (mkSenderState (19 * one) now))) as Hrun.
  destruct (limiter_run _ _) as [out r2]. simpl in *.
  rewrite Hrun; [done|by apply default_limiter_set|lia|by rewrite lookup_insert_eq].
Qed.

Lemma RateLimiter_burst_witness :
  map snd (limiter_run (NewRateLimiter DefaultMaxPerSec) (replicate 23 (LAllow "a" 7))).1 =
  replicate 20 true ++ replicate 3 false.
Proof.
  apply (RateLimiter_burst (NewRateLimiter DefaultMaxPerSec) "a" 7 23).
  - split; vm_compute; reflexivity.
  - reflexivity.
Defined.

(** Nobody is starved: in any reachable state a call made at least 100
    milliseconds after the sender's previous call is allowed, however many
    calls were refused before. *)
Theorem RateLimiter_no_starvation (r : RateLimiter) (id : string) (t now : Z)
  (Hok : limiter_ok t r) (Hle : t <= now)
  (Hwait : forall st, senders r !! id = Some st -> lastCheck st + 100000000 <= now) :
  (RateLimiter_Allow r id now).1 = true.
Proof.
  unfold RateLimiter_Allow. destruct (senders r !! id) as [st|] eqn:E; [|done].
  destruct (lo_senders _ _ Hok _ _ E) as [Htok _]. specialize (Hwait st eq_refl).
  pose proof (refill_100ms r st now (lo_default _ _ Hok) ltac:(lia) ltac:(lia)).
  by rewrite (proj2 (Z.leb_le _ _)).
Qed.

Lemma RateLimiter_no_starvation_witness :
  let r := (limiter_run (NewRateLimiter DefaultMaxPerSec) (replicate 25 (LAllow "a" 0))).2 in
  (RateLimiter_Allow r "a" 99999999).1 = false /\ (RateLimiter_Allow r "a" 100000000).1 = true.
Proof.
  split; [vm_compute; reflexivity|].
  apply (RateLimiter_no_starvation _ "a" 0).
  - apply (limiter_ok_run 0); [apply limiter_ok_new|simpl; lia|lia|].
    simpl. repeat constructor; simpl; lia.
  - lia.
  - intros st Hst. apply (f_equal (fmap lastCheck)) in Hst. simpl in Hst.
    replace (lastCheck st) with 0; [lia|]. apply (inj Some). rewrite <- Hst.
    vm_compute. reflexivity.
Defined.
