(* ===== verification/Messages.v ===== *)
(** * Messages: the wire messages, their codec and their signatures

    Models [proto/micelio.proto] and [pkg/proto/envelope.go].  Two kinds of
    code are interfaces here, because it is not part of the repository: the
    generated protobuf codec on top of [google.golang.org/protobuf]
    ([Codec]), and the cryptographic primitives ([Crypto]).  The law classes
    state what the program relies on. *)

From S2P Require Import Prelude Bytes.

(** ** Cryptographic primitives *)

Definition PublicKeySize : Z := 32.
Definition PrivateKeySize : Z := 64.
Definition SignatureSize : Z := 64.

Class Crypto := {
  sha256 : bytes -> bytes;
  ed25519_Sign : bytes -> bytes -> bytes;            (* private key, message *)
  ed25519_Verify : bytes -> bytes -> bytes -> bool;  (* public key, message, signature *)
  ed25519_Public : bytes -> bytes                    (* the public half of a private key *)
}.

Class CryptoLaws `{Crypto} : Prop := {
  sha256_length b : len (sha256 b) = 32;
  Sign_length priv m : len priv = PrivateKeySize -> len (ed25519_Sign priv m) = SignatureSize;
  Public_length priv : len priv = PrivateKeySize -> len (ed25519_Public priv) = PublicKeySize;
  Verify_Sign priv m :
    len priv = PrivateKeySize -> ed25519_Verify (ed25519_Public priv) m (ed25519_Sign priv m) = true
}.

(** The node identifier of a public key: [hex(sha256(pub))], as computed in
    [identity.go], [gossip.go], [peer.go] and [discovery.go]. *)
Definition node_id `{Crypto} (pub : bytes) : string := hex_encode (sha256 pub).

Lemma node_id_length `{CryptoLaws} pub : String.length (node_id pub) = 64%nat.
Proof. unfold node_id. rewrite length_hex_encode. pose proof (sha256_length pub). lia. Qed.

Lemma node_id_nonempty `{CryptoLaws} pub : node_id pub <> ""%string.
Proof. intros E. pose proof (node_id_length pub) as Hl. rewrite E in Hl. done. Qed.

(** ** Messages *)

Record Envelope := mkEnvelope {
  MessageId : string;
  SenderId : string;
  LamportTs : Z;
  HopCount : Z;
  MsgType : Z;
  Payload : bytes;
  Signature : bytes;
  SenderPubkey : bytes
}.

Record PeerHello := mkPeerHello {
  hello_NodeId : string;
  hello_Version : string;
  hello_Tags : list string;
  hello_Reachable : bool;
  hello_ListenAddr : string;
  hello_Ed25519Pubkey : bytes
}.

Record ChatMessage := mkChatMessage {
  chat_Nick : string;
  chat_Text : string;
  chat_Timestamp : Z
}.

Record PeerInfo := mkPeerInfo {
  info_NodeId : string;
  info_Addr : string;
  info_Reachable : bool;
  info_Ed25519Pubkey : bytes;
  info_LastSeen : Z
}.

Record PeerExchange := mkPeerExchange { px_Peers : list PeerInfo }.

(** The integer fields are [uint32] and [uint64]. *)
Record env_ok (e : Envelope) : Prop := {
  eo_lamport : 0 <= LamportTs e < 2 ^ 64;
  eo_hop : 0 <= HopCount e < 2 ^ 32;
  eo_type : 0 <= MsgType e < 2 ^ 32
}.

Definition chat_ok (c : ChatMessage) : Prop := 0 <= chat_Timestamp c < 2 ^ 64.
Definition info_ok (i : PeerInfo) : Prop := 0 <= info_LastSeen i < 2 ^ 64.
Definition px_ok (x : PeerExchange) : Prop := Forall info_ok (px_Peers x).
Definition hello_ok (h : PeerHello) : Prop := True.

(** ** The codec

    [proto.Marshal] fails on a string that is not UTF-8; [proto.Unmarshal]
    fails on bytes that are not an encoding. *)

Class Codec (A : Type) := {
  Marshal : A -> option bytes;
  Unmarshal : bytes -> option A
}.

Class CodecLaws {A} (ok : A -> Prop) `{Codec A} : Prop :=
  Unmarshal_Marshal a b : ok a -> Marshal a = Some b -> Unmarshal b = Some a.

(** The codec of every message of the protocol. *)
Class Proto := {
  #[global] proto_Envelope :: Codec Envelope;
  #[global] proto_PeerHello :: Codec PeerHello;
  #[global] proto_ChatMessage :: Codec ChatMessage;
  #[global] proto_PeerExchange :: Codec PeerExchange
}.

Class ProtoLaws `{Proto} : Prop := {
  #[global] proto_Envelope_laws :: CodecLaws env_ok;
  #[global] proto_PeerHello_laws :: CodecLaws hello_ok;
  #[global] proto_ChatMessage_laws :: CodecLaws chat_ok;
  #[global] proto_PeerExchange_laws :: CodecLaws px_ok
}.

(** ** Signatures ([pkg/proto/envelope.go]) *)

Definition EnvelopeSignData (env : Envelope) : bytes :=
  to_bytes (MessageId env) ++ to_bytes (SenderId env) ++
  be_put 8 (LamportTs env) ++ be_put 4 (MsgType env) ++ Payload env.

Definition set_Signature (env : Envelope) (sig : bytes) : Envelope :=
  mkEnvelope (MessageId env) (SenderId env) (LamportTs env) (HopCount env) (MsgType env)
    (Payload env) sig (SenderPubkey env).

Definition set_HopCount (env : Envelope) (h : Z) : Envelope :=
  mkEnvelope (MessageId env) (SenderId env) (LamportTs env) h (MsgType env)
    (Payload env) (Signature env) (SenderPubkey env).

Section Sign.
Context `{Crypto}.

(** [SignEnvelope] sets the signature in place; a private key of the wrong
    size clears it. *)
Definition SignEnvelope (env : Envelope) (privKey : bytes) : Envelope :=
  if negb (len privKey =? PrivateKeySize) then set_Signature env []
  else set_Signature env (ed25519_Sign privKey (EnvelopeSignData env)).

Definition VerifyEnvelope (env : Envelope) (pubKey : bytes) : bool :=
  if negb (len pubKey =? PublicKeySize) then false
  else if negb (len (Signature env) =? SignatureSize) then false
  else ed25519_Verify pubKey (EnvelopeSignData env) (Signature env).
End Sign.

Lemma VerifyEnvelope_signed_fields `{Crypto} e1 e2 pub :
  EnvelopeSignData e1 = EnvelopeSignData e2 -> Signature e1 = Signature e2 ->
  VerifyEnvelope e1 pub = VerifyEnvelope e2 pub.
Proof. intros Hd Hs. unfold VerifyEnvelope. by rewrite Hd, Hs. Qed.

(** ** Properties *)

(** C39. Signing round trip: an envelope signed with a private key verifies under
    its public key, and keeps verifying after relays have changed its hop
    count and its [sender_pubkey], which the signature does not cover. *)
Theorem Sign_then_Verify `{CryptoLaws} (env : Envelope) (priv pubfield : bytes) (hops : Z)
  (Hpriv : len priv = PrivateKeySize) :
  let signed := SignEnvelope env priv in
  let relayed := mkEnvelope (MessageId signed) (SenderId signed) (LamportTs signed) hops
    (MsgType signed) (Payload signed) (Signature signed) pubfield in
  VerifyEnvelope relayed (ed25519_Public priv) = true.
Proof.
  intros signed relayed. subst signed relayed. unfold SignEnvelope, VerifyEnvelope.
  rewrite Hpriv. simpl. rewrite Public_length, Sign_length by done. simpl.
  by apply Verify_Sign.
Qed.

(** A signature fixes what it covers once the two identifiers have their
    lengths fixed: envelopes with the same signed bytes, whose message
    identifiers (36-byte UUIDs) and sender identifiers (64 hex digits) have
    the same lengths, agree on every signed field. *)
Theorem EnvelopeSignData_inj (e1 e2 : Envelope)
  (Hok1 : env_ok e1) (Hok2 : env_ok e2)
  (Hmid : String.length (MessageId e1) = String.length (MessageId e2))
  (Hsid : String.length (SenderId e1) = String.length (SenderId e2))
  (Hdata : EnvelopeSignData e1 = EnvelopeSignData e2) :
  MessageId e1 = MessageId e2 /\ SenderId e1 = SenderId e2 /\
  LamportTs e1 = LamportTs e2 /\ MsgType e1 = MsgType e2 /\ Payload e1 = Payload e2.
Proof.
  unfold EnvelopeSignData in Hdata.
  apply app_inj_1 in Hdata as [Hm Hdata]; [|by rewrite !length_to_bytes].
  apply app_inj_1 in Hdata as [Hs Hdata]; [|by rewrite !length_to_bytes].
  apply app_inj_1 in Hdata as [Hl Hdata]; [|by rewrite !length_be_put].
  apply app_inj_1 in Hdata as [Ht Hp]; [|by rewrite !length_be_put].
  destruct Hok1, Hok2. repeat split; try done.
  - by apply to_bytes_inj.
  - by apply to_bytes_inj.
  - eapply (be_put_inj 8); [simpl; lia|simpl; lia|done].
  - eapply (be_put_inj 4); [simpl; lia|simpl; lia|done].
Qed.

(** C40. Without that length condition it does not: the two identifiers are
    concatenated without a separator and nothing fixes their lengths. When
    the payload of an envelope contains the sender's own identifier followed
    by at least twelve more bytes, the same signature also covers a different
    envelope of the same sender, with another message identifier, time stamp,
    type and payload. *)
Theorem EnvelopeSignData_ambiguous (e : Envelope) (pre suf : bytes)
  (Hpayload : Payload e = pre ++ to_bytes (SenderId e) ++ suf)
  (Hsuf : (12 <= length suf)%nat) (Hsid : SenderId e <> ""%string) :
  exists e', SenderId e' = SenderId e /\ MessageId e' <> MessageId e /\
    env_ok e' /\ Signature e' = Signature e /\ EnvelopeSignData e' = EnvelopeSignData e.
Proof.
  set (mid := to_bytes (MessageId e) ++ to_bytes (SenderId e) ++ be_put 8 (LamportTs e)
                ++ be_put 4 (MsgType e) ++ pre).
  exists (mkEnvelope (of_bytes mid) (SenderId e) (be_get (take 8 suf)) 0
            (be_get (take 4 (drop 8 suf))) (drop 12 suf) (Signature e) (SenderPubkey e)).
  assert (length (take 8 suf) = 8%nat) as H8 by (rewrite length_take; lia).
  assert (length (take 4 (drop 8 suf)) = 4%nat) as H4 by (rewrite length_take, length_drop; lia).
  split_and!; simpl; [done| | |done|].
  - intros E. apply (f_equal (fun s => length (to_bytes s))) in E. subst mid.
    rewrite to_of_bytes, !length_app, !length_be_put in E. lia.
  - pose proof (be_get_range (take 8 suf)) as Hr8. pose proof (be_get_range (take 4 (drop 8 suf))) as Hr4.
    rewrite H8 in Hr8. rewrite H4 in Hr4. split; cbn; lia.
  - unfold EnvelopeSignData. cbn [MessageId SenderId LamportTs MsgType Payload].
    rewrite to_of_bytes, Hpayload.
    pose proof (be_put_get (take 8 suf)) as Hb8. rewrite H8 in Hb8. rewrite Hb8.
    pose proof (be_put_get (take 4 (drop 8 suf))) as Hb4. rewrite H4 in Hb4. rewrite Hb4.
    subst mid. rewrite <- !app_assoc. do 6 f_equal.
    rewrite <- (take_drop 8 suf) at 4. f_equal.
    rewrite <- (take_drop 4 (drop 8 suf)) at 2. f_equal. by rewrite drop_drop.
Qed.

Lemma EnvelopeSignData_ambiguous_witness :
  let e := mkEnvelope "m" "id" 0 1 3 (to_bytes "id0123456789ab") [] [] in
  exists e', SenderId e' = SenderId e /\ MessageId e' <> MessageId e /\
    env_ok e' /\ Signature e' = Signature e /\ EnvelopeSignData e' = EnvelopeSignData e.
Proof.
  apply (EnvelopeSignData_ambiguous (mkEnvelope "m" "id" 0 1 3 (to_bytes "id0123456789ab") [] [])
           [] (to_bytes "0123456789ab")); [reflexivity|vm_compute; lia|discriminate].
Defined.

Lemma EnvelopeSignData_inj_witness :
  let e1 := mkEnvelope "m1" "id" 0 10 3 (to_bytes "hi") [] [] in
  let e2 := mkEnvelope "m1" "id" 0 9 3 (to_bytes "hi") [] [] in
  MessageId e1 = MessageId e2 /\ SenderId e1 = SenderId e2 /\
  LamportTs e1 = LamportTs e2 /\ MsgType e1 = MsgType e2 /\ Payload e1 = Payload e2.
Proof.
  apply (EnvelopeSignData_inj (mkEnvelope "m1" "id" 0 10 3 (to_bytes "hi") [] [])
           (mkEnvelope "m1" "id" 0 9 3 (to_bytes "hi") [] []));
    [split; simpl; lia|split; simpl; lia|reflexivity..].
Defined.
