(* ===== verification/Concrete.v ===== *)
(** * Concrete: instances of the interfaces

    Executable instances of the cryptographic interface and of the codec,
    with their laws, on which the concrete examples evaluate.  They show that
    the laws can hold; nothing is proved about the program from them. *)

From S2P Require Import Prelude Bytes Messages.

(** ** A length-prefixed codec *)

Class Wire (A : Type) := {
  put : A -> bytes;
  get : bytes -> option (A * bytes);
  fits : A -> bool
}.

Class WireLaws (A : Type) `{Wire A} : Prop :=
  get_put a rest : fits a = true -> get (put a ++ rest) = Some (a, rest).

#[export] Instance wire_Z : Wire Z := {|
  put z := be_put 8 z;
  get s := if len s <? 8 then None else Some (be_get (take 8 s), drop 8 s);
  fits z := (0 <=? z) && (z <? 2 ^ 64)
|}.

#[export] Instance wire_Z_laws : WireLaws Z.
Proof.
  intros z rest Hz. unfold get, put, fits, wire_Z in *. reflect_bools.
  rewrite take_app_length', drop_app_length' by by rewrite length_be_put.
  rewrite length_app, length_be_put. destruct (Z.ltb_spec (Z.of_nat (8 + length rest)) 8); [lia|].
  rewrite be_get_put, Z.mod_small; [done|]. split; [done|]. by change (256 ^ Z.of_nat 8) with (2 ^ 64).
Qed.

#[export] Instance wire_bytes : Wire bytes := {|
  put b := put (len b) ++ b;
  get s :=
    match get s with
    | Some (n, r) => if len r <? n then None else Some (take (Z.to_nat n) r, drop (Z.to_nat n) r)
    | None => None
    end;
  fits b := len b <? 2 ^ 64
|}.

#[export] Instance wire_bytes_laws : WireLaws bytes.
Proof.
  intros b rest Hb. unfold put, get, fits, wire_bytes in *. reflect_bools.
  rewrite <- app_assoc, get_put by (apply andb_true_iff; split; [apply Z.leb_le|apply Z.ltb_lt]; lia).
  rewrite length_app. destruct (Z.ltb_spec (Z.of_nat (length b + length rest)) (len b)); [lia|].
  by rewrite Nat2Z.id, take_app_length, drop_app_length.
Qed.

(** A type coded through another one. *)
Definition wire_via {A B} `{Wire B} (f : A -> B) (g : B -> A) : Wire A := {|
  put a := put (f a);
  get s := match get s with Some (b, r) => Some (g b, r) | None => None end;
  fits a := fits (f a)
|}.

Lemma wire_via_laws {A B} `{WireLaws B} (f : A -> B) (g : B -> A) :
  (forall a, g (f a) = a) -> @WireLaws A (wire_via f g).
Proof. intros Hg a rest Ha. unfold get, put, wire_via. by rewrite get_put, Hg. Qed.

#[export] Instance wire_string : Wire string := wire_via to_bytes of_bytes.
#[export] Instance wire_string_laws : WireLaws string.
Proof. apply wire_via_laws, of_to_bytes. Qed.

#[export] Instance wire_bool : Wire bool := wire_via (fun b : bool => if b then 1 else 0) (fun z => z =? 1).
#[export] Instance wire_bool_laws : WireLaws bool.
Proof. apply wire_via_laws. by intros []. Qed.

#[export] Instance wire_prod {A B} `{Wire A} `{Wire B} : Wire (A * B) := {|
  put ab := put ab.1 ++ put ab.2;
  get s :=
    match get s with
    | Some (a, r) => match get r with Some (b, r') => Some (a, b, r') | None => None end
    | None => None
    end;
  fits ab := fits ab.1 && fits ab.2
|}.

#[export] Instance wire_prod_laws {A B} `{WireLaws A} `{WireLaws B} : WireLaws (A * B).
Proof.
  intros [a b] rest Hab. unfold get, put, fits, wire_prod in *. cbn [fst snd] in *. reflect_bools.
  by rewrite <- app_assoc, !get_put.
Qed.

Fixpoint get_list {A} `{Wire A} (n : nat) (s : bytes) : option (list A * bytes) :=
  match n with
  | O => Some ([], s)
  | S n' =>
      match get s with
      | Some (a, r) => match get_list n' r with Some (l, r') => Some (a :: l, r') | None => None end
      | None => None
      end
  end.

#[export] Instance wire_list {A} `{Wire A} : Wire (list A) := {|
  put l := put (len l) ++ concat (put <$> l);
  get s := match get s with Some (n, r) => get_list (Z.to_nat n) r | None => None end;
  fits l := (len l <? 2 ^ 64) && forallb fits l
|}.

#[export] Instance wire_list_laws {A} `{WireLaws A} : WireLaws (list A).
Proof.
  intros l rest Hl. unfold get, put, fits, wire_list in *. reflect_bools.
  rewrite <- app_assoc, (get_put (len l)) by (apply andb_true_iff; split; [apply Z.leb_le|apply Z.ltb_lt]; lia).
  rewrite Nat2Z.id. clear - H0 H2. induction l as [|a l IH]; [done|]. cbn in *. reflect_bools.
  by rewrite <- app_assoc, get_put, IH.
Qed.

Definition wire_codec (A : Type) `{Wire A} : Codec A := {|
  Marshal a := if fits a then Some (put a) else None;
  Unmarshal b := match get b with Some (a, []) => Some a | _ => None end
|}.

Lemma wire_codec_laws {A} `{WireLaws A} (ok : A -> Prop) : @CodecLaws A ok (wire_codec A).
Proof.
  intros a b _. unfold Marshal, Unmarshal, wire_codec. destruct (fits a) eqn:Ha; [|done].
  intros [= <-]. rewrite <- (app_nil_r (put a)). by rewrite get_put.
Qed.

(** ** The codec of the protocol *)

#[export] Instance wire_Envelope : Wire Envelope :=
  wire_via (fun e => (MessageId e, SenderId e, LamportTs e, HopCount e, MsgType e, Payload e, Signature e, SenderPubkey e))
    (fun '(a, b, c, d, e, f, g, h) => mkEnvelope a b c d e f g h).
#[export] Instance wire_PeerHello : Wire PeerHello :=
  wire_via (fun h => (hello_NodeId h, hello_Version h, hello_Tags h, hello_Reachable h, hello_ListenAddr h,
               hello_Ed25519Pubkey h))
    (fun '(a, b, c, d, e, f) => mkPeerHello a b c d e f).
#[export] Instance wire_ChatMessage : Wire ChatMessage :=
  wire_via (fun c => (chat_Nick c, chat_Text c, chat_Timestamp c)) (fun '(a, b, c) => mkChatMessage a b c).
#[export] Instance wire_PeerInfo : Wire PeerInfo :=
  wire_via (fun i => (info_NodeId i, info_Addr i, info_Reachable i, info_Ed25519Pubkey i, info_LastSeen i))
    (fun '(a, b, c, d, e) => mkPeerInfo a b c d e).
#[export] Instance wire_PeerExchange : Wire PeerExchange := wire_via px_Peers mkPeerExchange.

#[export] Instance wire_PeerInfo_laws : WireLaws PeerInfo.
Proof. apply wire_via_laws. by intros []. Qed.
#[export] Instance wire_Envelope_laws : WireLaws Envelope.
Proof. apply wire_via_laws. by intros []. Qed.
#[export] Instance wire_PeerHello_laws : WireLaws PeerHello.
Proof. apply wire_via_laws. by intros []. Qed.
#[export] Instance wire_ChatMessage_laws : WireLaws ChatMessage.
Proof. apply wire_via_laws. by intros []. Qed.
#[export] Instance wire_PeerExchange_laws : WireLaws PeerExchange.
Proof. apply wire_via_laws. by intros []. Qed.

#[export] Instance wire_proto : Proto := {|
  proto_Envelope := wire_codec Envelope;
  proto_PeerHello := wire_codec PeerHello;
  proto_ChatMessage := wire_codec ChatMessage;
  proto_PeerExchange := wire_codec PeerExchange
|}.

#[export] Instance wire_proto_laws : ProtoLaws.
Proof. split; apply wire_codec_laws. Qed.

(** ** A transparent stand-in for the primitives

    A private key is 32 bytes of seed and the 32-byte public key, as in Go;
    the digest keeps the last 32 bytes, a signature is the signer's public
    key and the digest. *)

Definition toy_digest (b : bytes) : bytes := be_put 32 (be_get b).

#[export] Instance toy_crypto : Crypto := {|
  sha256 := toy_digest;
  ed25519_Sign priv m := be_put 32 (be_get (drop 32 priv)) ++ toy_digest m;
  ed25519_Verify pub m sig := bool_decide (sig = be_put 32 (be_get pub) ++ toy_digest m);
  ed25519_Public priv := be_put 32 (be_get (drop 32 priv))
|}.

#[export] Instance toy_crypto_laws : CryptoLaws.
Proof.
  split.
  - intros b. change (sha256 b) with (be_put 32 (be_get b)). by rewrite length_be_put.
  - intros priv m _. 
    change (ed25519_Sign priv m) with (be_put 32 (be_get (drop 32 priv)) ++ be_put 32 (be_get m)).
    by rewrite length_app, !length_be_put.
  - intros priv _. change (ed25519_Public priv) with (be_put 32 (be_get (drop 32 priv))). by rewrite length_be_put.
  - intros priv m _. apply bool_decide_eq_true.
    change (be_put 32 (be_get (drop 32 priv)) ++ toy_digest m =
            be_put 32 (be_get (be_put 32 (be_get (drop 32 priv)))) ++ toy_digest m).
    f_equal. generalize (be_get (drop 32 priv)). intros v.
    pose proof (be_put_get (be_put 32 v)) as E. by rewrite length_be_put in E.
Qed.

(** Key pairs: [toy_priv n] has the public key [toy_pub n]. *)
Definition toy_pub (n : Z) : bytes := be_put 32 n.
Definition toy_priv (n : Z) : bytes := be_put 32 0 ++ toy_pub n.
Definition toy_id (n : Z) : string := node_id (toy_pub n).

(** ** Examples of the signature theorems *)

Lemma Sign_then_Verify_witness :
  let signed := SignEnvelope (mkEnvelope "m" (toy_id 7) 0 10 3 (to_bytes "hi") [] (toy_pub 7)) (toy_priv 7) in
  VerifyEnvelope (mkEnvelope (MessageId signed) (SenderId signed) (LamportTs signed) 9
    (MsgType signed) (Payload signed) (Signature signed) []) (ed25519_Public (toy_priv 7)) = true.
Proof.
  apply (Sign_then_Verify (mkEnvelope "m" (toy_id 7) 0 10 3 (to_bytes "hi") [] (toy_pub 7)) (toy_priv 7)).
  vm_compute. reflexivity.
Defined.
