(* ===== verification/Gossip.v ===== *)
(** * Gossip: the engine

    Models [internal/gossip/gossip.go].  The engine calls out to the rest of
    the node in two ways: it runs the registered [MessageHandler]s and it
    calls the [Send] function of peer handles.  Both act on a world [W] that
    is a parameter: the transport and the partyline instantiate it.  What the
    code reads from its environment during one call (two clock readings and
    the random shuffle) is the argument [oracle]. *)

From S2P Require Import Prelude Bytes Messages Float64 Dedup Seen KeyRing RateLimit.
From Stdlib Require Import Permutation.

Definition DefaultFanout : Z := 3.
Definition DefaultMaxHops : Z := 10.
Definition MaxGossipPayload : Z := Z.shiftl 64 10.
Definition MaxFieldLen : Z := 128.

Record Stats := mkStats {
  sReceived : Z;
  sDelivered : Z;
  sBroadcast : Z;
  sForwarded : Z;
  sDropped : Z
}.

Record PeerHandle (W : Type) := mkPeerHandle {
  ph_NodeID : string;
  ph_Send : bytes -> W -> bool * W   (* false: the send buffer is full *)
}.
Arguments mkPeerHandle {W}.
Arguments ph_NodeID {W}.
Arguments ph_Send {W}.

Definition MessageHandler (W : Type) := string -> bytes -> W -> W.

Record Engine (W : Type) := mkEngine {
  eLocalID : string;
  eSeen : SeenCache;
  eKeyRing : KeyRing;
  eLimiter : RateLimiter;
  eFanout : Z;
  eMaxHops : Z;
  eGetPeers : W -> list (PeerHandle W);
  eHandlers : gmap Z (MessageHandler W);
  eStats : Stats
}.
Arguments mkEngine {W}.
Arguments eLocalID {W}.
Arguments eSeen {W}.
Arguments eKeyRing {W}.
Arguments eLimiter {W}.
Arguments eFanout {W}.
Arguments eMaxHops {W}.
Arguments eGetPeers {W}.
Arguments eHandlers {W}.
Arguments eStats {W}.

Definition NewEngine {W} (localID : string) (getPeers : W -> list (PeerHandle W)) : Engine W :=
  mkEngine localID (NewSeenCache DefaultSeenTTL) NewKeyRing (NewRateLimiter DefaultMaxPerSec)
    DefaultFanout DefaultMaxHops getPeers ∅ (mkStats 0 0 0 0 0).

(** The environment of one [HandleIncoming] call. *)
Record Oracle (W : Type) := mkOracle {
  o_now_allow : Z;                                      (* [time.Now()] in [Limiter.Allow] *)
  o_now_seen : Z;                                       (* [time.Now()] in [Seen.Check] *)
  o_shuffle : list (PeerHandle W) -> list (PeerHandle W) (* [rand.Shuffle] *)
}.
Arguments mkOracle {W}.
Arguments o_now_allow {W}.
Arguments o_now_seen {W}.
Arguments o_shuffle {W}.

(** [rand.Shuffle] permutes. *)
Definition shuffles {W} (o : Oracle W) : Prop := forall l, Permutation (o_shuffle o l) l.

(** Which [return] a call took. *)
Inductive Outcome :=
| EmptyId | OversizedField | OversizedPayload | Duplicate | UnknownSender
| InvalidSignature | RateLimited | RaceDuplicate
| Accepted.

#[export] Instance Outcome_eq_dec : EqDecision Outcome.
Proof. solve_decision. Defined.

Section Engine.
Context `{Crypto} `{Proto} {W : Type}.
Implicit Types (e : Engine W) (w : W) (env : Envelope).

(** ** Field updates *)

Definition set_Seen e (s : SeenCache) : Engine W :=
  mkEngine (eLocalID e) s (eKeyRing e) (eLimiter e) (eFanout e) (eMaxHops e) (eGetPeers e) (eHandlers e) (eStats e).
Definition set_KeyRing e (k : KeyRing) : Engine W :=
  mkEngine (eLocalID e) (eSeen e) k (eLimiter e) (eFanout e) (eMaxHops e) (eGetPeers e) (eHandlers e) (eStats e).
Definition set_Limiter e (l : RateLimiter) : Engine W :=
  mkEngine (eLocalID e) (eSeen e) (eKeyRing e) l (eFanout e) (eMaxHops e) (eGetPeers e) (eHandlers e) (eStats e).
Definition set_Handlers e (h : gmap Z (MessageHandler W)) : Engine W :=
  mkEngine (eLocalID e) (eSeen e) (eKeyRing e) (eLimiter e) (eFanout e) (eMaxHops e) (eGetPeers e) h (eStats e).
Definition set_Stats e (s : Stats) : Engine W :=
  mkEngine (eLocalID e) (eSeen e) (eKeyRing e) (eLimiter e) (eFanout e) (eMaxHops e) (eGetPeers e) (eHandlers e) s.

(** The atomic counters are [uint64]. *)
Definition add_Received (s : Stats) (n : Z) : Stats :=
  mkStats (u64 (sReceived s + n)) (sDelivered s) (sBroadcast s) (sForwarded s) (sDropped s).
Definition add_Delivered (s : Stats) (n : Z) : Stats :=
  mkStats (sReceived s) (u64 (sDelivered s + n)) (sBroadcast s) (sForwarded s) (sDropped s).
Definition add_Broadcast (s : Stats) (n : Z) : Stats :=
  mkStats (sReceived s) (sDelivered s) (u64 (sBroadcast s + n)) (sForwarded s) (sDropped s).
Definition add_Forwarded (s : Stats) (n : Z) : Stats :=
  mkStats (sReceived s) (sDelivered s) (sBroadcast s) (u64 (sForwarded s + n)) (sDropped s).
Definition add_Dropped (s : Stats) (n : Z) : Stats :=
  mkStats (sReceived s) (sDelivered s) (sBroadcast s) (sForwarded s) (u64 (sDropped s + n)).

Definition RegisterHandler e (msgType : Z) (h : MessageHandler W) : Engine W :=
  set_Handlers e (<[msgType := h]> (eHandlers e)).

(** ** Sending *)

(** The loop of [p.Send(raw)] calls; the result counts the accepted ones. *)
Fixpoint send_all (raw : bytes) (ps : list (PeerHandle W)) w : Z * W :=
  match ps with
  | [] => (0, w)
  | p :: ps' =>
      let '(ok, w1) := ph_Send p raw w in
      let '(sent, w2) := send_all raw ps' w1 in
      ((if ok : bool then 1 else 0) + sent, w2)
  end.

(** The peers [forwardTo] sends to: everyone but the sender, and a random
    subset of [fanout] when there are more. *)
Definition forward_targets e (o : Oracle W) (peers : list (PeerHandle W)) (excludePeerID : string)
  : list (PeerHandle W) :=
  let candidates := filter (fun p => ph_NodeID p <> excludePeerID) peers in
  if eFanout e <? len candidates then take (Z.to_nat (eFanout e)) (o_shuffle o candidates)
  else candidates.

Definition forwardTo e (o : Oracle W) (raw : bytes) (excludePeerID : string) w : Engine W * W :=
  let candidates := forward_targets e o (eGetPeers e w) excludePeerID in
  match candidates with
  | [] => (e, w)
  | _ =>
      let total := len candidates in
      let '(sent, w') := send_all raw candidates w in
      let st := add_Forwarded (eStats e) sent in
      let dropped := total - sent in
      (set_Stats e (if 0 <? dropped then add_Dropped st dropped else st), w')
  end.

(** ** HandleIncoming, stage by stage *)

(** Lines 142-165: the checks on the envelope alone. *)
Definition check_fields env : option Outcome :=
  if bool_decide (MessageId env = ""%string) || bool_decide (SenderId env = ""%string) then Some EmptyId
  else if (MaxFieldLen <? slen (MessageId env)) || (MaxFieldLen <? slen (SenderId env)) then Some OversizedField
  else if MaxGossipPayload <? len (Payload env) then Some OversizedPayload
  else None.

(** Lines 178-197: the sender's key, learned from the envelope if it is
    unknown and the envelope proves it. *)
Definition lookup_or_learn (kr : KeyRing) env : option KeyEntry * KeyRing :=
  match KeyRing_Lookup kr (SenderId env) with
  | Some entry => (Some entry, kr)
  | None =>
      if (len (SenderPubkey env) =? PublicKeySize) && bool_decide (node_id (SenderPubkey env) = SenderId env)
      then
        let kr' := KeyRing_Add kr (SenderId env) (SenderPubkey env) TrustGossipLearned in
        (KeyRing_Lookup kr' (SenderId env), kr')
      else (None, kr)
  end.

(** Lines 221-246: delivery and forwarding of an accepted message. *)
Definition deliver e env w : Engine W * W :=
  match eHandlers e !! MsgType env with
  | Some handler => (set_Stats e (add_Delivered (eStats e) 1), handler (SenderId env) (Payload env) w)
  | None => (e, w)
  end.

Definition forward e (o : Oracle W) (fromPeerID : string) env w : Engine W * W :=
  if HopCount env <=? 1 then (e, w)
  else
    match Marshal (set_HopCount env (u32 (HopCount env - 1))) with
    | None => (e, w)
    | Some raw => forwardTo e o raw fromPeerID w
    end.

Definition process e (o : Oracle W) (fromPeerID : string) env w : Engine W * W :=
  let e1 := set_Stats e (add_Received (eStats e) 1) in
  let '(e2, w2) := deliver e1 env w in
  forward e2 o fromPeerID env w2.

Definition HandleIncoming e (o : Oracle W) (fromPeerID : string) env w : Engine W * W * Outcome :=
  match check_fields env with
  | Some reason => (e, w, reason)
  | None =>
      if SeenCache_Has (eSeen e) (MessageId env) then (e, w, Duplicate)
      else
        let '(entry, kr) := lookup_or_learn (eKeyRing e) env in
        let e1 := set_KeyRing e kr in
        match entry with
        | None => (e1, w, UnknownSender)
        | Some entry =>
            if negb (VerifyEnvelope env (PubKey entry)) then (e1, w, InvalidSignature)
            else
              let '(allowed, lim) := RateLimiter_Allow (eLimiter e1) (SenderId env) (o_now_allow o) in
              let e2 := set_Limiter e1 lim in
              if negb allowed then (e2, w, RateLimited)
              else
                let '(dup, seen) := SeenCache_Check (eSeen e2) (MessageId env) (o_now_seen o) in
                let e3 := set_Seen e2 seen in
                if dup then (e3, w, RaceDuplicate)
                else
                  let '(e4, w') := process e3 o fromPeerID env w in
                  (e4, w', Accepted)
        end
  end.

(** ** Broadcast *)

Definition Broadcast e (now : Z) env w : Engine W * W * (Z * Z) :=
  let e1 := set_Seen e (SeenCache_Check (eSeen e) (MessageId env) now).2 in
  match Marshal env with
  | None => (e1, w, (0, 0))
  | Some raw =>
      let peers := eGetPeers e1 w in
      let total := len peers in
      let '(sent, w') := send_all raw peers w in
      let st := add_Broadcast (eStats e1) sent in
      let dropped := total - sent in
      (set_Stats e1 (if 0 <? dropped then add_Dropped st dropped else st), w', (sent, total))
  end.

Definition cleanup_Seen e (now : Z) : Engine W := set_Seen e (SeenCache_cleanup (eSeen e) now).
Definition cleanup_Limiter e (now : Z) : Engine W := set_Limiter e (RateLimiter_cleanup (eLimiter e) now).
End Engine.
