(* ===== verification/GossipProps.v ===== *)
(** * GossipProps: what one call of the engine does

    The functional behaviour of [HandleIncoming] and [Broadcast]
    ([internal/gossip/gossip.go]) on every branch: when a message is
    accepted, that a rejected one leaves no trace, whom it is forwarded to,
    and how the counters move. *)

From S2P Require Import Prelude Bytes Messages Float64 Dedup Seen KeyRing RateLimit Gossip Concrete.
From Stdlib Require Import Permutation.

(** The key an envelope is verified against: the one in the ring, or, for an
    unknown sender, the one the envelope carries if it hashes to the sender
    identifier. *)
Definition key_for `{Crypto} (kr : KeyRing) (env : Envelope) (key : bytes) : Prop :=
  (exists entry, keys kr !! SenderId env = Some entry /\ PubKey entry = key) \/
  (keys kr !! SenderId env = None /\ len (SenderPubkey env) = PublicKeySize /\
   node_id (SenderPubkey env) = SenderId env /\ key = SenderPubkey env).

(** The identifiers of a ring are the hashes of its keys. *)
Definition ring_bound `{Crypto} (kr : KeyRing) : Prop :=
  KeyRing_Forall (fun id key => node_id key = id) kr.

Section Props.
Context `{Crypto} `{Proto} {W : Type}.
Implicit Types (e : Engine W) (o : Oracle W) (w : W) (env : Envelope) (from : string).

(** ** The stages *)

Lemma check_fields_None env :
  check_fields env = None <->
  MessageId env <> ""%string /\ SenderId env <> ""%string /\
  slen (MessageId env) <= 128 /\ slen (SenderId env) <= 128 /\ len (Payload env) <= 65536.
Proof.
  unfold check_fields, MaxFieldLen. change MaxGossipPayload with 65536.
  destruct (decide (MessageId env = ""%string)) as [Hm|Hm];
    [rewrite (bool_decide_true _ Hm); simpl; split; [done|tauto]|rewrite (bool_decide_false _ Hm)].
  destruct (decide (SenderId env = ""%string)) as [Hs|Hs];
    [rewrite (bool_decide_true _ Hs); simpl; split; [done|tauto]|rewrite (bool_decide_false _ Hs)].
  simpl. destruct (Z.ltb_spec 128 (slen (MessageId env))); simpl; [split; [done|lia]|].
  destruct (Z.ltb_spec 128 (slen (SenderId env))); simpl; [split; [done|lia]|].
  split_if; split; try done; lia.
Qed.

Lemma check_fields_outcome env r : check_fields env = Some r -> r <> Accepted /\ r <> RateLimited.
Proof. unfold check_fields. repeat split_if; intros [= <-]; done. Qed.

Lemma lookup_or_learn_key kr env key :
  key_for kr env key <-> exists entry, (lookup_or_learn kr env).1 = Some entry /\ PubKey entry = key.
Proof.
  unfold key_for, lookup_or_learn, KeyRing_Lookup. split.
  - intros [(entry & E & <-)|(E & Hl & Hid & ->)].
    + rewrite E. eauto.
    + rewrite E, (proj2 (Z.eqb_eq _ _) Hl), (bool_decide_true _ Hid). simpl.
      rewrite KeyRing_Add_new by done. eauto.
  - intros (entry & E & <-). destruct (keys kr !! SenderId env) as [en|] eqn:Ek; simpl in E.
    + simplify_eq. eauto.
    + split_if_in E; simpl in E; [|done]. rewrite KeyRing_Add_new in E by done.
      simplify_eq. right. done.
Qed.

Lemma lookup_or_learn_ring kr env :
  (lookup_or_learn kr env).2 = kr \/
  (lookup_or_learn kr env).2 = KeyRing_Add kr (SenderId env) (SenderPubkey env) TrustGossipLearned /\
  node_id (SenderPubkey env) = SenderId env.
Proof.
  unfold lookup_or_learn. destruct (KeyRing_Lookup _ _); [by left|]. split_if; [by right|by left].
Qed.

(** ** Sending *)

Lemma send_all_sent raw (ps : list (PeerHandle W)) w : 0 <= (send_all raw ps w).1 <= len ps.
Proof.
  revert w. induction ps as [|p ps IH]; intros w; simpl; [lia|].
  destruct (ph_Send p raw w) as [ok w1]. specialize (IH w1). destruct (send_all raw ps w1) as [s w2].
  simpl in *. destruct ok; lia.
Qed.

(** [forwardTo] in terms of its targets. *)
Lemma forwardTo_world e o raw from w :
  (forwardTo e o raw from w).2 = (send_all raw (forward_targets e o (eGetPeers e w) from) w).2.
Proof.
  unfold forwardTo. destruct (forward_targets e o (eGetPeers e w) from) as [|p ps]; [done|].
  by destruct (send_all raw (p :: ps) w).
Qed.

(** Forwarding and delivery only touch the counters. *)
Definition same_tables e e' : Prop :=
  eSeen e' = eSeen e /\ eKeyRing e' = eKeyRing e /\ eLimiter e' = eLimiter e /\
  eFanout e' = eFanout e /\ eGetPeers e' = eGetPeers e /\ eHandlers e' = eHandlers e /\
  eLocalID e' = eLocalID e /\ eMaxHops e' = eMaxHops e.

Lemma forwardTo_tables e o raw from w : same_tables e (forwardTo e o raw from w).1.
Proof.
  unfold forwardTo. destruct (forward_targets _ _ _ _) as [|p ps]; [done|].
  by destruct (send_all raw (p :: ps) w).
Qed.

Lemma forward_tables e o from env w : same_tables e (forward e o from env w).1.
Proof.
  unfold forward. split_if; [done|]. destruct (Marshal _); [|done]. apply forwardTo_tables.
Qed.

Lemma process_tables e o from env w : same_tables e (process e o from env w).1.
Proof.
  unfold process, deliver. simpl. destruct (eHandlers e !! MsgType env);
    match goal with |- context [forward ?e1 o from env ?w1] =>
      pose proof (forward_tables e1 o from env w1) as Hf end; exact Hf.
Qed.

(** The bytes a relay sends on: the same envelope with one hop less. *)
Definition relay_bytes env : option bytes :=
  if HopCount env <=? 1 then None else Marshal (set_HopCount env (u32 (HopCount env - 1))).

Lemma forward_relay e o from env w :
  forward e o from env w =
  match relay_bytes env with Some raw => forwardTo e o raw from w | None => (e, w) end.
Proof. unfold forward, relay_bytes. by split_if. Qed.

(** Counters far from wrapping around, as they are for centuries. *)
Definition counters_low (s : Stats) : Prop :=
  Forall (fun n => 0 <= n < 2 ^ 62) [sReceived s; sDelivered s; sBroadcast s; sForwarded s; sDropped s].

Lemma counters_low_elim s : counters_low s ->
  0 <= sReceived s < 2 ^ 62 /\ 0 <= sDelivered s < 2 ^ 62 /\ 0 <= sBroadcast s < 2 ^ 62 /\
  0 <= sForwarded s < 2 ^ 62 /\ 0 <= sDropped s < 2 ^ 62.
Proof. unfold counters_low. rewrite !Forall_cons. tauto. Qed.

Lemma length_forward_targets e o peers from :
  shuffles o -> (length (forward_targets e o peers from) <= length peers)%nat.
Proof.
  intros Hs. unfold forward_targets.
  pose proof (length_filter_le (fun p => ph_NodeID p <> from) peers).
  split_if; [|done]. rewrite length_take, (Permutation_length (Hs _)). lia.
Qed.

(** What [forwardTo] counts: the attempted sends, split into two. *)
Lemma forwardTo_stats e o raw from w :
  shuffles o -> 0 <= sForwarded (eStats e) < 2 ^ 63 -> 0 <= sDropped (eStats e) < 2 ^ 63 ->
  len (eGetPeers e w) < 2 ^ 62 ->
  let ts := forward_targets e o (eGetPeers e w) from in
  let sent := (send_all raw ts w).1 in
  let st := eStats e in
  eStats (forwardTo e o raw from w).1 =
  mkStats (sReceived st) (sDelivered st) (sBroadcast st) (sForwarded st + sent)
    (sDropped st + (len ts - sent)).
Proof.
  intros Hs Hf Hd Hlen ts sent st.
  pose proof (length_forward_targets e o (eGetPeers e w) from Hs) as Hts. fold ts in Hts.
  pose proof (send_all_sent raw ts w) as Hsent. fold sent in Hsent.
  unfold forwardTo. fold ts. subst sent st. clearbody ts. destruct ts as [|p ps].
  - simpl. rewrite !Z.add_0_r. by destruct (eStats e).
  - remember (p :: ps) as ts. destruct (send_all raw ts w) as [sent w']. simpl in *.
    unfold add_Dropped, add_Forwarded. split_if; simpl; f_equal; rewrite ?u64_small; lia.
Qed.

(** ** One call *)

(** The outcome and the state of a call, by cases on its stages. *)
Lemma HandleIncoming_cases e o from env w :
  let lk := lookup_or_learn (eKeyRing e) env in
  let al := RateLimiter_Allow (eLimiter e) (SenderId env) (o_now_allow o) in
  let r := HandleIncoming e o from env w in
  (exists reason, check_fields env = Some reason /\ r = (e, w, reason)) \/
  check_fields env = None /\
  (SeenCache_Has (eSeen e) (MessageId env) = true /\ r = (e, w, Duplicate) \/
   SeenCache_Has (eSeen e) (MessageId env) = false /\
   (lk.1 = None /\ r = (set_KeyRing e lk.2, w, UnknownSender) \/
    exists entry, lk.1 = Some entry /\
     (VerifyEnvelope env (PubKey entry) = false /\ r = (set_KeyRing e lk.2, w, InvalidSignature) \/
      VerifyEnvelope env (PubKey entry) = true /\
      (al.1 = false /\ r = (set_Limiter (set_KeyRing e lk.2) al.2, w, RateLimited) \/
       al.1 = true /\
       r = (process (set_Seen (set_Limiter (set_KeyRing e lk.2) al.2)
                       (SeenCache_Check (eSeen e) (MessageId env) (o_now_seen o)).2) o from env w,
            Accepted))))).
Proof.
  intros lk al r. subst lk al r. unfold HandleIncoming.
  destruct (check_fields env) as [reason|]; [left; eauto|right; split; [done|]].
  destruct (SeenCache_Has (eSeen e) (MessageId env)) eqn:Eseen; [by left|right; split; [done|]].
  destruct (lookup_or_learn (eKeyRing e) env) as [[entry|] kr]; [right|by left].
  exists entry. split; [done|]. simpl.
  destruct (VerifyEnvelope env (PubKey entry)); [right; split; [done|]|by left]. simpl.
  destruct (RateLimiter_Allow (eLimiter e) (SenderId env) (o_now_allow o)) as [ok lim]. simpl.
  destruct ok; [right; split; [done|]|by left]. simpl.
  pose proof (SeenCache_Check_fst (eSeen e) (MessageId env) (o_now_seen o)) as Hc. rewrite Eseen in Hc.
  destruct (SeenCache_Check (eSeen e) (MessageId env) (o_now_seen o)) as [dup seen]. simpl in *. subst dup.
  by destruct (process _ o from env w).
Qed.
End Props.

(** Case analysis on the stages of a call [r]. *)
Ltac handle_cases e o from env w :=
  pose proof (HandleIncoming_cases e o from env w) as Hcases; simpl in Hcases;
  destruct Hcases as [(?reason & ?Hfields & ?Hr)|(?Hfields & [(?Hseen & ?Hr)|(?Hseen & [(?Hkey & ?Hr)
    |(?entry & ?Hkey & [(?Hsig & ?Hr)|(?Hsig & [(?Hallow & ?Hr)|(?Hallow & ?Hr)])])])])].

Section Theorems.
Context `{Crypto} `{Proto} {W : Type}.
Implicit Types (e : Engine W) (o : Oracle W) (w : W) (env : Envelope) (from : string).

Lemma accepted_iff e o from env w :
  (HandleIncoming e o from env w).2 = Accepted <->
  (MessageId env <> ""%string /\ SenderId env <> ""%string /\
   slen (MessageId env) <= 128 /\ slen (SenderId env) <= 128 /\ len (Payload env) <= 65536) /\
  SeenCache_Has (eSeen e) (MessageId env) = false /\
  (exists key, key_for (eKeyRing e) env key /\ VerifyEnvelope env key = true) /\
  (RateLimiter_Allow (eLimiter e) (SenderId env) (o_now_allow o)).1 = true.
Proof.
  rewrite <- check_fields_None. setoid_rewrite lookup_or_learn_key.
  handle_cases e o from env w; rewrite Hr; simpl; (split; [intros Hacc|intros (?&?&(?&(?&?&<-)&?)&?)]);
    try congruence.
  - by apply check_fields_outcome in Hfields as [? _].
  - split_and!; eauto.
Qed.

(** C8. Acceptance, completely: a message is accepted exactly when its fields
    are within bounds, its identifier is not in the seen cache, its sender's
    key is known or provably carried by the message, the signature verifies
    under that key and the sender is within its rate. *)
Theorem HandleIncoming_accepts_iff e o from env w :
  (HandleIncoming e o from env w).2 = Accepted <->
  (MessageId env <> ""%string /\ SenderId env <> ""%string /\
   slen (MessageId env) <= 128 /\ slen (SenderId env) <= 128 /\ len (Payload env) <= 65536) /\
  SeenCache_Has (eSeen e) (MessageId env) = false /\
  (exists key, key_for (eKeyRing e) env key /\ VerifyEnvelope env key = true) /\
  (RateLimiter_Allow (eLimiter e) (SenderId env) (o_now_allow o)).1 = true.
Proof. apply accepted_iff. Qed.

(** C16. A rejected message leaves no trace that could block a retry: the world,
    the seen cache and the counters are untouched, the limiter is charged
    only when the signature was valid, and the key ring has at most gained
    the self-certified key of the sender. *)
Theorem HandleIncoming_rejected e o from env w
  (Hrej : (HandleIncoming e o from env w).2 <> Accepted) :
  let e' := (HandleIncoming e o from env w).1.1 in
  (HandleIncoming e o from env w).1.2 = w /\
  eSeen e' = eSeen e /\ eStats e' = eStats e /\
  ((HandleIncoming e o from env w).2 <> RateLimited -> eLimiter e' = eLimiter e) /\
  (eKeyRing e' = eKeyRing e \/
   node_id (SenderPubkey env) = SenderId env /\
   eKeyRing e' = KeyRing_Add (eKeyRing e) (SenderId env) (SenderPubkey env) TrustGossipLearned).
Proof.
  destruct (lookup_or_learn_ring (eKeyRing e) env) as [Hk|[Hk Hid]];
    handle_cases e o from env w; rewrite Hr in *; simpl in *; rewrite ?Hk; split_and!; auto; done.
Qed.

(** C17. Authenticity: the engine keeps identifiers and keys bound together, so
    whatever it accepts is signed by a key that hashes to the claimed
    sender. The binding is preserved by every call, accepted or not. *)
Theorem HandleIncoming_authentic e o from env w (Hring : ring_bound (eKeyRing e)) :
  ring_bound (eKeyRing (HandleIncoming e o from env w).1.1) /\
  ((HandleIncoming e o from env w).2 = Accepted ->
   exists key, node_id key = SenderId env /\ VerifyEnvelope env key = true).
Proof.
  assert (ring_bound (lookup_or_learn (eKeyRing e) env).2) as Hring'.
  { destruct (lookup_or_learn_ring (eKeyRing e) env) as [->|[-> Hid]]; [done|].
    by apply KeyRing_Forall_Add. }
  split.
  - handle_cases e o from env w; rewrite Hr; try done. simpl.
    match goal with |- context [process ?e1 o from env w] =>
      destruct (process_tables e1 o from env w) as (_ & -> & _) end. done.
  - intros Hacc. apply accepted_iff in Hacc as (_ & _ & (key & Hkey & Hver) & _).
    exists key. split; [|done]. destruct Hkey as [(entry & E & <-)|(_ & _ & Hid & ->)]; [|done].
    by apply Hring.
Qed.

(** An accepted identifier is marked: whoever sends it again, in whatever
    envelope, is answered "duplicate" and changes nothing. *)
Theorem HandleIncoming_then_duplicate e o from env w o' from' env' w'
  (Hacc : (HandleIncoming e o from env w).2 = Accepted)
  (Hid : MessageId env' = MessageId env) (Hf : check_fields env' = None) :
  let e1 := (HandleIncoming e o from env w).1.1 in
  HandleIncoming e1 o' from' env' w' = (e1, w', Duplicate).
Proof.
  intros e1.
  assert (SeenCache_Has (eSeen e1) (MessageId env') = true) as Hmark.
  { rewrite Hid. subst e1. handle_cases e o from env w; rewrite Hr in *; simpl in *; try done.
    - by apply check_fields_outcome in Hfields as [? _].
    - match goal with |- context [process ?e1 o from env w] =>
        destruct (process_tables e1 o from env w) as (-> & _) end.
      apply SeenCache_Check_marks. }
  handle_cases e1 o' from' env' w'; congruence.
Qed.

(** A message refused by the rate limit is not lost: the same envelope,
    delivered again at least 100 milliseconds later, is accepted. *)
Theorem HandleIncoming_retry e o from env w o' from' t
  (Hlim : limiter_ok t (eLimiter e)) (Ht : t <= o_now_allow o)
  (Hrate : (HandleIncoming e o from env w).2 = RateLimited)
  (Hlater : o_now_allow o + 100000000 <= o_now_allow o') :
  (HandleIncoming (HandleIncoming e o from env w).1.1 o' from' env w).2 = Accepted.
Proof.
  apply accepted_iff. rewrite <- check_fields_None. setoid_rewrite lookup_or_learn_key.
  handle_cases e o from env w; rewrite Hr in *; simpl in *; try done.
  - by apply check_fields_outcome in Hfields as [_ ?].
  - split_and!; [done..| |].
    + exists (PubKey entry). split; [|done]. exists entry. split; [|done].
      clear -Hkey. unfold lookup_or_learn, KeyRing_Lookup in *.
      destruct (keys (eKeyRing e) !! SenderId env) as [en|] eqn:E; simpl in *; [by rewrite E|].
      split_if_in Hkey; simpl in *; [by rewrite Hkey|done].
    + destruct (Allow_state t (eLimiter e) (SenderId env) _ Hlim Ht) as (st & Hst & Hlast & Htok).
      rewrite Hst. unfold RateLimiter_Allow. simpl. rewrite lookup_insert_eq.
      pose proof (refill_100ms (set_sender (eLimiter e) (SenderId env) st) st (o_now_allow o')
        (default_limiter_set _ _ _ (lo_default _ _ Hlim)) ltac:(lia) ltac:(lia)).
      by rewrite (proj2 (Z.leb_le _ _)).
Qed.

(** C18. The counters balance. An accepted message counts once as received, once
    as delivered if its type has a handler, and every send attempted while
    relaying it counts once, as forwarded or as dropped. A rejected message
    counts nowhere. *)
Theorem HandleIncoming_stats e o from env w
  (Hlow : counters_low (eStats e)) (Hshuf : shuffles o)
  (Hpeers : forall w, len (eGetPeers e w) < 2 ^ 62) :
  let st := eStats e in
  let w1 := (deliver e env w).2 in
  let ts := forward_targets e o (eGetPeers e w1) from in
  let handled := match eHandlers e !! MsgType env with Some _ => 1 | None => 0 end in
  eStats (HandleIncoming e o from env w).1.1 =
  if decide ((HandleIncoming e o from env w).2 = Accepted) then
    match relay_bytes env with
    | Some raw =>
        let sent := (send_all raw ts w1).1 in
        mkStats (sReceived st + 1) (sDelivered st + handled) (sBroadcast st)
          (sForwarded st + sent) (sDropped st + (len ts - sent))
    | None => mkStats (sReceived st + 1) (sDelivered st + handled) (sBroadcast st)
                (sForwarded st) (sDropped st)
    end
  else st.
Proof.
  apply counters_low_elim in Hlow. intros st w1 ts handled.
  handle_cases e o from env w; rewrite Hr; simpl; try done.
  { apply check_fields_outcome in Hfields as [? _]. by rewrite decide_False. }
  unfold process, deliver in *. simpl. subst st w1 ts handled.
  destruct (eHandlers e !! MsgType env) as [h|] eqn:Eh; simpl; rewrite forward_relay;
    destruct (relay_bytes env) as [raw|]; simpl;
    try (rewrite forwardTo_stats; simpl; [|done|lia|lia|by auto]);
    unfold add_Received, add_Delivered; simpl; rewrite ?(u64_small (sReceived _ + 1)), 
    ?(u64_small (sDelivered _ + 1)), ?Z.add_0_r by lia; done.
Qed.

(** C19. Whom a message is forwarded to: connected peers other than the one it
    came from, none of them twice, and as many as the fanout allows. *)
Theorem forward_targets_spec e o (peers : list (PeerHandle W)) from
  (Hshuf : shuffles o) (Hfan : 0 <= eFanout e) (Hnd : NoDup (ph_NodeID <$> peers)) :
  let ts := forward_targets e o peers from in
  let others := filter (fun p => ph_NodeID p <> from) peers in
  (forall p, p ∈ ts -> p ∈ peers /\ ph_NodeID p <> from) /\
  NoDup (ph_NodeID <$> ts) /\ len ts = Z.min (eFanout e) (len others).
Proof.
  intros ts others. subst ts. unfold forward_targets. fold others.
  assert (NoDup (ph_NodeID <$> others)) as Hno.
  { subst others. eapply sublist_NoDup; [exact Hnd|]. apply fmap_sublist, sublist_filter. }
  assert (forall p, p ∈ others -> p ∈ peers /\ ph_NodeID p <> from) as Hin.
  { intros p Hp. subst others. apply list_elem_of_filter in Hp. tauto. }
  split_if; [|split_and!; [done|done|lia]].
  pose proof (Hshuf others) as Hperm. split_and!.
  - intros p Hp%elem_of_take. apply Hin. by rewrite <- Hperm.
  - rewrite fmap_take. apply NoDup_take. by rewrite Hperm.
  - rewrite length_take, Hperm. lia.
Qed.

(** C20. The originator sends to every connected peer, accounts for each send as
    broadcast or dropped, and marks its own message: a copy reflected by any
    peer is a duplicate and changes nothing. *)
Theorem Broadcast_spec e (now : Z) env w (raw : bytes)
  (Hlow : counters_low (eStats e)) (Hpeers : len (eGetPeers e w) < 2 ^ 62)
  (Hraw : Marshal env = Some raw) :
  let '(e', w', (sent, total)) := Broadcast e now env w in
  let st := eStats e in
  total = len (eGetPeers e w) /\ (sent, w') = send_all raw (eGetPeers e w) w /\
  0 <= sent <= total /\
  eStats e' = mkStats (sReceived st) (sDelivered st) (sBroadcast st + sent) (sForwarded st)
                (sDropped st + (total - sent)) /\
  (forall o from env' w2, check_fields env' = None -> MessageId env' = MessageId env ->
   HandleIncoming e' o from env' w2 = (e', w2, Duplicate)).
Proof.
  apply counters_low_elim in Hlow. unfold Broadcast. rewrite Hraw. simpl.
  pose proof (send_all_sent raw (eGetPeers e w) w) as Hsent.
  destruct (send_all raw (eGetPeers e w) w) as [sent w']. simpl in Hsent. split_and!; [done|done|lia|lia|..].
  - unfold add_Dropped, add_Broadcast. split_if; simpl; f_equal; rewrite ?u64_small; lia.
  - intros o from env' w2 Hf Hid.
    match goal with |- HandleIncoming ?e1 _ _ _ _ = _ => handle_cases e1 o from env' w2 end;
      try congruence; simpl in Hseen; rewrite Hid, SeenCache_Check_marks in Hseen; done.
Qed.
End Theorems.

(** ** Examples

    A node with four peers whose log is the list of what was sent and
    delivered, and a message of sender 7. *)

Definition ex_world : Type := list (string * bytes).
Definition ex_handle (n : string) : PeerHandle ex_world :=
  mkPeerHandle n (fun raw w => (true, w ++ [(n, raw)])).
Definition ex_engine : Engine ex_world :=
  RegisterHandler (NewEngine "me" (fun _ => ex_handle <$> ["p1"; "p2"; "p3"; "p4"; "p5"]%string)) 3
    (fun sender payload w => w ++ [(sender, payload)]).
Definition ex_oracle (now : Z) : Oracle ex_world := mkOracle now now (fun l => rev l).
Definition ex_env (id : string) : Envelope :=
  SignEnvelope (mkEnvelope id (toy_id 7) 0 2 3 (to_bytes "hi") [] (toy_pub 7)) (toy_priv 7).

Lemma ex_shuffles now : shuffles (ex_oracle now).
Proof. intros l. apply Permutation_sym, Permutation_rev. Qed.

Lemma HandleIncoming_rejected_witness :
  let e := ex_engine in
  let env := set_Signature (ex_env "m") [] in
  let r := HandleIncoming e (ex_oracle 0) "p1" env [] in
  r.2 = InvalidSignature /\ r.1.2 = [] /\ eStats r.1.1 = eStats e.
Proof.
  split; [vm_compute; reflexivity|].
  destruct (HandleIncoming_rejected ex_engine (ex_oracle 0) "p1" (set_Signature (ex_env "m") []) [])
    as (Hw & _ & Hst & _).
  - vm_compute. discriminate.
  - split; [exact Hw|exact Hst].
Defined.

Lemma HandleIncoming_authentic_witness :
  let env := ex_env "m" in
  (HandleIncoming ex_engine (ex_oracle 0) "p1" env []).2 = Accepted /\
  exists key, node_id key = SenderId env /\ VerifyEnvelope env key = true.
Proof.
  split; [vm_compute; reflexivity|].
  apply (HandleIncoming_authentic ex_engine (ex_oracle 0) "p1" (ex_env "m") []).
  - intros id k Hk. vm_compute in Hk. discriminate.
  - vm_compute. reflexivity.
Defined.

Lemma HandleIncoming_then_duplicate_witness :
  let e1 := (HandleIncoming ex_engine (ex_oracle 0) "p1" (ex_env "m") []).1.1 in
  HandleIncoming e1 (ex_oracle 5) "p2" (ex_env "m") [] = (e1, [], Duplicate).
Proof.
  apply (HandleIncoming_then_duplicate ex_engine (ex_oracle 0) "p1" (ex_env "m") [] (ex_oracle 5) "p2"
           (ex_env "m") []); vm_compute; reflexivity.
Defined.

(** Twenty messages at one instant use up the burst; the twenty-first is rate
    limited and accepted 100 milliseconds later. *)
Definition ex_busy : Engine ex_world :=
  set_Limiter ex_engine
    (limiter_run (NewRateLimiter DefaultMaxPerSec) (replicate 20 (LAllow (toy_id 7) 0))).2.

Lemma HandleIncoming_retry_witness :
  (HandleIncoming ex_busy (ex_oracle 0) "p1" (ex_env "m") []).2 = RateLimited /\
  (HandleIncoming (HandleIncoming ex_busy (ex_oracle 0) "p1" (ex_env "m") []).1.1
     (ex_oracle 100000000) "p2" (ex_env "m") []).2 = Accepted.
Proof.
  split; [vm_compute; reflexivity|].
  apply (HandleIncoming_retry ex_busy (ex_oracle 0) "p1" (ex_env "m") [] (ex_oracle 100000000) "p2" 0).
  - apply (limiter_ok_run 0); [apply limiter_ok_new| |lia|].
    + simpl. lia.
    + simpl. repeat constructor; simpl; lia.
  - simpl. lia.
  - vm_compute. reflexivity.
  - simpl. lia.
Defined.

Lemma HandleIncoming_stats_witness :
  eStats (HandleIncoming ex_engine (ex_oracle 0) "p1" (ex_env "m") []).1.1 = mkStats 1 1 0 3 0 /\
  eStats (HandleIncoming ex_engine (ex_oracle 0) "p1" (set_Signature (ex_env "m") []) []).1.1 =
  eStats ex_engine.
Proof.
  split; [vm_compute; reflexivity|].
  rewrite (HandleIncoming_stats ex_engine (ex_oracle 0) "p1" (set_Signature (ex_env "m") []) []).
  - vm_compute. reflexivity.
  - repeat constructor; simpl; lia.
  - apply ex_shuffles.
  - intros w. simpl. lia.
Defined.

Lemma forward_targets_spec_witness :
  let ts := forward_targets ex_engine (ex_oracle 0) (ex_handle <$> ["p1"; "p2"; "p3"; "p4"; "p5"]%string) "p1" in
  ph_NodeID <$> ts = ["p5"; "p4"; "p3"]%string /\ len ts = 3.
Proof.
  split; [vm_compute; reflexivity|].
  destruct (forward_targets_spec ex_engine (ex_oracle 0)
              (ex_handle <$> ["p1"; "p2"; "p3"; "p4"; "p5"]%string) "p1") as (_ & _ & Hlen).
  - apply ex_shuffles.
  - simpl. discriminate.
  - apply (bool_decide_eq_true_1 _). vm_compute. reflexivity.
  - exact Hlen.
Defined.

Lemma Broadcast_spec_witness :
  let '(e', w', (sent, total)) := Broadcast ex_engine 0 (ex_env "m") [] in
  total = 5 /\ sent = 5 /\
  HandleIncoming e' (ex_oracle 9) "p2" (ex_env "m") [] = (e', [], Duplicate).
Proof.
  pose proof (Broadcast_spec ex_engine 0 (ex_env "m") [] (put (ex_env "m"))) as Hb.
  destruct (Broadcast ex_engine 0 (ex_env "m") []) as [[e' w'] [sent total]].
  destruct Hb as (Ht & Hs & _ & _ & Hdup).
  - repeat constructor; simpl; lia.
  - simpl. lia.
  - reflexivity.
  - split; [exact Ht|]. split; [apply (f_equal fst) in Hs; exact Hs|].
    apply Hdup; vm_compute; reflexivity.
Defined.
