(* ===== verification/GossipConc.v ===== *)
(** * GossipConc: concurrent calls of the engine

    Every connected peer has its own receive goroutine, so several
    [HandleIncoming] calls ([internal/gossip/gossip.go]) run at once on one
    engine, next to broadcasts, handshakes that add keys and the two cleanup
    loops.  Each access to the seen cache, the key ring and the limiter holds
    that component's mutex: the program counter [pc] of a call stops between
    any two such accesses, and the step relation interleaves all calls
    arbitrarily.  A call run without interruption is [Gossip.HandleIncoming]; the lemma
    [sequential_refinement] says so. *)

From S2P Require Import Prelude Bytes Messages Float64 Dedup Seen KeyRing RateLimit Gossip GossipProps.
From S2P Require Import Concrete.
From Stdlib Require Import Permutation.

(** Where a call stands: before the field checks and [Seen.Has]; before the
    key lookup; before [KeyRing.Add] of a self-certified key; before the
    second lookup; before the signature check; before [Limiter.Allow]; before
    [Seen.Check]; accepted at time [t] and about to deliver; returned. *)
Inductive pc :=
| PHas | PLookup | PAdd | PRelookup | PVerify (entry : KeyEntry) | PAllow | PCheck
| PProcess (t : Z) | PDone (r : Outcome).

Record call := mkCall {
  c_from : string;
  c_env : Envelope;
  c_pc : pc
}.

Section Conc.
Context `{Crypto} `{Proto} {W : Type}.
Implicit Types (e : Engine W) (w : W) (now : Z).

(** One atomic step of a call. *)
Definition call_step (o : Oracle W) now e w (c : call) : Engine W * W * pc :=
  let env := c_env c in
  match c_pc c with
  | PHas =>
      match check_fields env with
      | Some reason => (e, w, PDone reason)
      | None => if SeenCache_Has (eSeen e) (MessageId env) then (e, w, PDone Duplicate) else (e, w, PLookup)
      end
  | PLookup =>
      match KeyRing_Lookup (eKeyRing e) (SenderId env) with
      | Some entry => (e, w, PVerify entry)
      | None =>
          if (len (SenderPubkey env) =? PublicKeySize) && bool_decide (node_id (SenderPubkey env) = SenderId env)
          then (e, w, PAdd) else (e, w, PDone UnknownSender)
      end
  | PAdd => (set_KeyRing e (KeyRing_Add (eKeyRing e) (SenderId env) (SenderPubkey env) TrustGossipLearned),
             w, PRelookup)
  | PRelookup =>
      match KeyRing_Lookup (eKeyRing e) (SenderId env) with
      | Some entry => (e, w, PVerify entry)
      | None => (e, w, PDone UnknownSender)
      end
  | PVerify entry =>
      if negb (VerifyEnvelope env (PubKey entry)) then (e, w, PDone InvalidSignature) else (e, w, PAllow)
  | PAllow =>
      let '(allowed, lim) := RateLimiter_Allow (eLimiter e) (SenderId env) now in
      (set_Limiter e lim, w, if negb allowed then PDone RateLimited else PCheck)
  | PCheck =>
      let '(dup, seen) := SeenCache_Check (eSeen e) (MessageId env) now in
      (set_Seen e seen, w, if dup then PDone RaceDuplicate else PProcess now)
  | PProcess _ => let '(e', w') := process e o (c_from c) env w in (e', w', PDone Accepted)
  | PDone r => (e, w, PDone r)
  end.

(** The node's shared state, the calls in progress, and the log of the
    deliveries: which call delivered which identifier, and when its
    [Seen.Check] accepted it. *)
Record node := mkNode {
  n_engine : Engine W;
  n_world : W;
  n_now : Z;
  n_calls : list call;
  n_delivered : list (nat * string * Z)
}.

(** The deliveries a step of call [i] adds to the log. *)
Definition deliveries (i : nat) (c : call) : list (nat * string * Z) :=
  match c_pc c with PProcess t => [(i, MessageId (c_env c), t)] | _ => [] end.

(** Which bindings the handshakes and the exchanges may add to the key ring. *)
Context (may_learn : string -> bytes -> Prop).

Inductive step : node -> node -> Prop :=
| step_call e w now cs ds i c o e' w' p :
    cs !! i = Some c -> shuffles o -> call_step o now e w c = (e', w', p) ->
    step (mkNode e w now cs ds)
         (mkNode e' w' now (<[i := mkCall (c_from c) (c_env c) p]> cs) (ds ++ deliveries i c))
| step_receive e w now cs ds from env :
    step (mkNode e w now cs ds) (mkNode e w now (cs ++ [mkCall from env PHas]) ds)
| step_clock e w now now' cs ds :
    now <= now' -> step (mkNode e w now cs ds) (mkNode e w now' cs ds)
| step_broadcast e w now cs ds env :
    step (mkNode e w now cs ds)
         (mkNode (Broadcast e now env w).1.1 (Broadcast e now env w).1.2 now cs ds)
| step_cleanup_seen e w now cs ds :
    step (mkNode e w now cs ds) (mkNode (cleanup_Seen e now) w now cs ds)
| step_cleanup_limiter e w now cs ds :
    step (mkNode e w now cs ds) (mkNode (cleanup_Limiter e now) w now cs ds)
| step_learn e w now cs ds id key trust :
    may_learn id key ->
    step (mkNode e w now cs ds)
         (mkNode (set_KeyRing e (KeyRing_Add (eKeyRing e) id key trust)) w now cs ds)
| step_world e w w' now cs ds :
    step (mkNode e w now cs ds) (mkNode e w' now cs ds).

Inductive reachable (s0 : node) : node -> Prop :=
| reach_refl : reachable s0 s0
| reach_step s s' : reachable s0 s -> step s s' -> reachable s0 s'.

(** ** The invariant

    A call is "accepted" from its [Seen.Check] on; [accepted_at] is the time
    it was, for the calls about to deliver and for those in the log. *)

Definition accepted_at (s : node) (i : nat) (id : string) (t : Z) : Prop :=
  (exists c, n_calls s !! i = Some c /\ c_pc c = PProcess t /\ MessageId (c_env c) = id) \/
  (i, id, t) ∈ n_delivered s.

Record conc_inv (ttl : Z) (s : node) : Prop := {
  ci_ttl : seen_ttl (eSeen (n_engine s)) = ttl;
  (* the identifier of an accepted call stays marked for [ttl] *)
  ci_marked i id t : accepted_at s i id t ->
    (exists t', seen_entries (eSeen (n_engine s)) !! id = Some t' /\ t <= t') \/ t + ttl < n_now s;
  (* the marks are not in the future *)
  ci_past id t' : seen_entries (eSeen (n_engine s)) !! id = Some t' -> t' <= n_now s;
  (* two accepted calls of one identifier are more than [ttl] apart *)
  ci_apart i j id t u : accepted_at s i id t -> accepted_at s j id u -> i <> j ->
    t + ttl < u \/ u + ttl < t;
  (* a delivered call has returned *)
  ci_done i id t : (i, id, t) ∈ n_delivered s ->
    exists c r, n_calls s !! i = Some c /\ c_pc c = PDone r;
  (* and delivered once *)
  ci_once : NoDup (n_delivered s).*1.*1
}.
End Conc.

Section Invariant.
Context `{Crypto} `{Proto} {W : Type}.
Implicit Types (s : node (W := W)).

Lemma conc_inv_init (e : Engine W) (w : W) (now : Z) :
  eSeen e = NewSeenCache (seen_ttl (eSeen e)) ->
  conc_inv (seen_ttl (eSeen e)) (mkNode e w now [] []).
Proof.
  intros He. split; simpl; try done.
  - intros i id t [(c & Hc & _)|Hd]; simpl in *; [done|by apply elem_of_nil in Hd].
  - intros id t'. rewrite He. simpl. by rewrite lookup_empty.
  - intros i j id t u [(c & Hc & _)|Hd]; simpl in *; [done|by apply elem_of_nil in Hd].
  - intros i id t Hd%elem_of_nil. done.
  - constructor.
Qed.

(** Steps that leave the calls alone: time passes, marks are added, and
    marks older than [ttl] go. *)
Lemma conc_inv_env ttl s s' :
  conc_inv ttl s ->
  n_calls s' = n_calls s -> n_delivered s' = n_delivered s -> n_now s <= n_now s' ->
  seen_ttl (eSeen (n_engine s')) = ttl ->
  (forall id t', seen_entries (eSeen (n_engine s)) !! id = Some t' ->
     seen_entries (eSeen (n_engine s')) !! id = Some t' \/ t' + ttl < n_now s') ->
  (forall id t', seen_entries (eSeen (n_engine s')) !! id = Some t' ->
     seen_entries (eSeen (n_engine s)) !! id = Some t' \/ t' <= n_now s') ->
  conc_inv ttl s'.
Proof.
  intros [Httl Hm Hp Ha Hd Ho] Hc Hds Hnow Httl' Hkeep Hnew.
  assert (forall i id t, accepted_at s' i id t <-> accepted_at s i id t) as Hacc.
  { intros. unfold accepted_at. by rewrite Hc, Hds. }
  split; [done| | | | |].
  - intros i id t Hi%Hacc. destruct (Hm i id t Hi) as [(t' & Ht' & Hle)|Hlt]; [|right; lia].
    destruct (Hkeep _ _ Ht'); [left; eauto|right; lia].
  - intros id t' Ht'. destruct (Hnew _ _ Ht') as [Hold|]; [|done]. specialize (Hp _ _ Hold). lia.
  - intros i j id t u Hi%Hacc Hj%Hacc. by apply (Ha i j id).
  - by rewrite Hds, Hc.
  - by rewrite Hds.
Qed.

(** Steps of a call that neither accept nor deliver. *)
Lemma conc_inv_quiet ttl s s' i c p :
  conc_inv ttl s ->
  n_calls s !! i = Some c -> n_calls s' = <[i := mkCall (c_from c) (c_env c) p]> (n_calls s) ->
  n_delivered s' = n_delivered s -> n_now s' = n_now s ->
  eSeen (n_engine s') = eSeen (n_engine s) ->
  (forall t, p <> PProcess t) -> (forall r, c_pc c = PDone r -> p = PDone r) ->
  conc_inv ttl s'.
Proof.
  intros [Httl Hm Hp Ha Hd Ho] Hi Hcs Hds Hnow Hseen Hnp Hdone.
  assert (forall j id t, accepted_at s' j id t -> accepted_at s j id t) as Hacc.
  { intros j id t. unfold accepted_at. rewrite Hcs, Hds. intros [(c' & Hc' & Hpc & Hid)|]; [left|by right].
    apply list_lookup_insert_Some in Hc' as [(_ & <- & _)|[_ Hc']]; [|eauto]. simpl in Hpc. by eapply Hnp in Hpc. }
  split.
  - by rewrite Hseen.
  - intros j id t Hj%Hacc. rewrite Hseen, Hnow. by apply (Hm j).
  - rewrite Hseen, Hnow. done.
  - intros j k id t u Hj%Hacc Hk%Hacc. by apply (Ha j k id).
  - intros j id t. rewrite Hds, Hcs. intros Hin. destruct (Hd _ _ _ Hin) as (c' & r & Hc' & Hr).
    destruct (decide (i = j)) as [->|Hne].
    + simplify_eq. eexists _, r. rewrite list_lookup_insert_eq by by eapply lookup_lt_Some.
      split; [done|]. simpl. by apply Hdone.
    + exists c', r. by rewrite list_lookup_insert_ne.
  - by rewrite Hds.
Qed.

(** The accepting step: the identifier was unmarked. *)
Lemma conc_inv_accept ttl s s' i c :
  conc_inv ttl s ->
  n_calls s !! i = Some c -> c_pc c = PCheck ->
  n_calls s' = <[i := mkCall (c_from c) (c_env c) (PProcess (n_now s))]> (n_calls s) ->
  n_delivered s' = n_delivered s -> n_now s' = n_now s ->
  seen_entries (eSeen (n_engine s)) !! MessageId (c_env c) = None ->
  seen_entries (eSeen (n_engine s')) =
    <[MessageId (c_env c) := n_now s]> (seen_entries (eSeen (n_engine s))) ->
  seen_ttl (eSeen (n_engine s')) = ttl ->
  conc_inv ttl s'.
Proof.
  intros [Httl Hm Hp Ha Hd Ho] Hi Hpc Hcs Hds Hnow Hfree Hent Httl'.
  assert (forall j id t, accepted_at s' j id t ->
            j <> i /\ accepted_at s j id t \/ j = i /\ id = MessageId (c_env c) /\ t = n_now s) as Hacc.
  { intros j id t. unfold accepted_at. rewrite Hcs, Hds. intros [(c' & Hc' & Hpc' & Hid)|Hin].
    - apply list_lookup_insert_Some in Hc' as [(<- & <- & _)|[Hne Hc']]; [|naive_solver].
      simpl in Hpc'. right. naive_solver.
    - left. split; [|naive_solver]. intros ->. destruct (Hd _ _ _ Hin) as (c' & r & Hc' & Hr).
      congruence. }
  assert (forall j t, accepted_at s j (MessageId (c_env c)) t -> t + ttl < n_now s) as Hold.
  { intros j t Hj. destruct (Hm _ _ _ Hj) as [(t' & Ht' & _)|]; [congruence|done]. }
  split; [done| | | | |by rewrite Hds].
  - intros j id t Hj. rewrite Hent, Hnow.
    destruct (Hacc _ _ _ Hj) as [[_ Hj']|(_ & -> & ->)]; [|left; rewrite lookup_insert_eq; eauto with lia].
    destruct (decide (id = MessageId (c_env c))) as [->|Hne]; [right; by eapply Hold|].
    rewrite lookup_insert_ne by done. by apply (Hm j).
  - intros id t'. rewrite Hent, Hnow, lookup_insert_Some. intros [[_ <-]|[_ Ht']]; [lia|by eapply Hp].
  - intros j k id t u Hj Hk Hne.
    destruct (Hacc _ _ _ Hj) as [[_ Hj']|(-> & -> & ->)], (Hacc _ _ _ Hk) as [[_ Hk']|(-> & ? & ->)]; subst; try done.
    + by apply (Ha j k id).
    + left. by eapply Hold.
    + right. by eapply Hold.
  - intros j id t. rewrite Hds, Hcs. intros Hin. destruct (Hd _ _ _ Hin) as (c' & r & Hc' & Hr).
    exists c', r. rewrite list_lookup_insert_ne; [done|]. congruence.
Qed.

(** The delivering step: the call moves from "accepted" to the log. *)
Lemma conc_inv_deliver ttl s s' i c t0 :
  conc_inv ttl s ->
  n_calls s !! i = Some c -> c_pc c = PProcess t0 ->
  n_calls s' = <[i := mkCall (c_from c) (c_env c) (PDone Accepted)]> (n_calls s) ->
  n_delivered s' = n_delivered s ++ [(i, MessageId (c_env c), t0)] -> n_now s' = n_now s ->
  eSeen (n_engine s') = eSeen (n_engine s) ->
  conc_inv ttl s'.
Proof.
  intros [Httl Hm Hp Ha Hd Ho] Hi Hpc Hcs Hds Hnow Hseen.
  assert (forall j id t, accepted_at s' j id t -> accepted_at s j id t) as Hacc.
  { intros j id t. unfold accepted_at. rewrite Hcs, Hds. intros [(c' & Hc' & Hpc' & Hid)|Hin].
    - apply list_lookup_insert_Some in Hc' as [(<- & <- & _)|[Hne Hc']]; [done|naive_solver].
    - apply elem_of_app in Hin as [Hin|Hin%list_elem_of_singleton]; [by right|].
      simplify_eq. left. eauto. }
  assert (forall id t, (i, id, t) ∉ n_delivered s) as Hnew.
  { intros id t Hin. destruct (Hd _ _ _ Hin) as (c' & r & Hc' & Hr). congruence. }
  split.
  - by rewrite Hseen.
  - intros j id t Hj%Hacc. rewrite Hseen, Hnow. by apply (Hm j).
  - rewrite Hseen, Hnow. done.
  - intros j k id t u Hj%Hacc Hk%Hacc. by apply (Ha j k id).
  - intros j id t. rewrite Hds, Hcs. intros [Hin|Hin%list_elem_of_singleton]%elem_of_app.
    + destruct (Hd _ _ _ Hin) as (c' & r & Hc' & Hr). exists c', r.
      rewrite list_lookup_insert_ne; [done|]. intros ->. by eapply Hnew.
    + simplify_eq. eexists _, _. rewrite list_lookup_insert_eq by by eapply lookup_lt_Some. done.
  - rewrite Hds, !fmap_app. apply NoDup_app. split_and!; [done| |apply NoDup_singleton].
    intros j Hj Hin. apply list_elem_of_singleton in Hin as ->. simpl in Hj.
    apply list_elem_of_fmap in Hj as ([j id] & -> & Hj).
    apply list_elem_of_fmap in Hj as ([[j' id'] t'] & [= -> ->] & Hj). by eapply Hnew.
Qed.
End Invariant.

(** ** Authenticity

    What a call has established where it stands, when every key of the ring
    hashes to the id it is filed under. *)

Section Authentic.
Context `{Crypto} `{Proto} {W : Type}.
Implicit Types (s : node (W := W)) (e : Engine W) (w : W) (env : Envelope).

Definition verified env : Prop :=
  check_fields env = None /\ exists key, node_id key = SenderId env /\ VerifyEnvelope env key = true.

Definition call_ok (c : call) : Prop :=
  let env := c_env c in
  match c_pc c with
  | PHas => True
  | PLookup | PRelookup => check_fields env = None
  | PAdd => check_fields env = None /\ node_id (SenderPubkey env) = SenderId env
  | PVerify entry => check_fields env = None /\ node_id (PubKey entry) = SenderId env
  | PAllow | PCheck | PProcess _ => verified env
  | PDone r => r = Accepted -> verified env
  end.

Record auth_inv s : Prop := {
  ai_ring : ring_bound (eKeyRing (n_engine s));
  ai_call : Forall call_ok (n_calls s);
  (* the log holds the accepted calls and no other *)
  ai_log i id : (exists t, (i, id, t) ∈ n_delivered s) <->
    exists c, n_calls s !! i = Some c /\ MessageId (c_env c) = id /\ c_pc c = PDone Accepted
}.

Lemma call_step_ok o now e w c e' w' p :
  ring_bound (eKeyRing e) -> call_ok c -> call_step o now e w c = (e', w', p) ->
  ring_bound (eKeyRing e') /\ call_ok (mkCall (c_from c) (c_env c) p).
Proof.
  intros Hring. destruct c as [from env q]. unfold call_ok, call_step. cbn [c_pc c_env c_from].
  destruct q as [| | | |entry| | |t0|r]; intros Hc Hs.
  - destruct (check_fields env) eqn:Ef; [apply check_fields_outcome in Ef as [? _]; by simplify_eq|].
    destruct (SeenCache_Has _ _); by simplify_eq.
  - destruct (KeyRing_Lookup _ _) as [en|] eqn:Ek; [simplify_eq; split; [done|split; [done|by apply Hring]]|].
    split_if_in Hs; simplify_eq; [|done]. by split_and!.
  - simplify_eq. destruct Hc. split; [by apply KeyRing_Forall_Add|done].
  - destruct (KeyRing_Lookup _ _) as [en|] eqn:Ek; simplify_eq; split; [done|split; [done|by apply Hring]|done|done].
  - destruct (VerifyEnvelope env (PubKey entry)) eqn:Ev; cbn in Hs; simplify_eq; [|done].
    destruct Hc. split; [done|]. split; [done|]. by eexists.
  - destruct (RateLimiter_Allow _ _ _) as [[] lim]; by simplify_eq.
  - destruct (SeenCache_Check _ _ _) as [[] seen]; by simplify_eq.
  - destruct (process_tables e o from env w) as (_ & Hk & _). destruct (process e o from env w) as [e1 w1].
    simplify_eq. cbn in Hk. by rewrite Hk.
  - by simplify_eq.
Qed.

(** A step of a call goes on to [Accepted] by delivering, and only so. *)
Lemma call_step_accepts o now e w c e' w' p :
  call_step o now e w c = (e', w', p) -> p = PDone Accepted <-> deliveries 0 c <> [] \/ c_pc c = PDone Accepted.
Proof.
  unfold call_step, deliveries. destruct c as [from env q]. cbn [c_pc c_env c_from].
  destruct q as [| | | |entry| | |t0|r]; intros Hs.
  - destruct (check_fields env) eqn:Ef; [apply check_fields_outcome in Ef as [? _]; naive_solver|].
    destruct (SeenCache_Has _ _); naive_solver.
  - destruct (KeyRing_Lookup _ _); [naive_solver|]. split_if_in Hs; naive_solver.
  - naive_solver.
  - destruct (KeyRing_Lookup _ _); naive_solver.
  - destruct (negb _); naive_solver.
  - destruct (RateLimiter_Allow _ _ _) as [[] lim]; naive_solver.
  - destruct (SeenCache_Check _ _ _) as [[] seen]; naive_solver.
  - destruct (process _ _ _ _ _). naive_solver.
  - naive_solver.
Qed.

Lemma deliveries_elem i c j id t : (j, id, t) ∈ deliveries i c <-> j = i /\ id = MessageId (c_env c) /\ c_pc c = PProcess t.
Proof.
  unfold deliveries. destruct (c_pc c); try (split; [by intros ?%elem_of_nil|by intros (_ & _ & ?)]).
  rewrite list_elem_of_singleton. naive_solver.
Qed.

Lemma auth_inv_call o e w now cs ds i c e' w' p :
  auth_inv (mkNode e w now cs ds) -> cs !! i = Some c -> call_step o now e w c = (e', w', p) ->
  auth_inv (mkNode e' w' now (<[i := mkCall (c_from c) (c_env c) p]> cs) (ds ++ deliveries i c)).
Proof.
  intros [Hring Hcalls Hlog] Hi Hs. cbn in *.
  destruct (call_step_ok _ _ _ _ _ _ _ _ Hring (proj1 (Forall_lookup _ _) Hcalls _ _ Hi) Hs) as [Hring' Hc'].
  apply call_step_accepts in Hs as Hacc. split; cbn; [done|by apply Forall_insert|]. intros j id. split.
  - intros (t & [Hin|(-> & -> & Hpc)%deliveries_elem]%elem_of_app).
    + destruct (proj1 (Hlog j id)) as (c1 & Hj & Hid & Hpc); [by exists t|]. destruct (decide (j = i)) as [->|Hne].
      * simplify_eq. exists (mkCall (c_from c) (c_env c) p). rewrite list_lookup_insert_eq by by eapply lookup_lt_Some.
        split_and!; [done|done|]. cbn. tauto.
      * exists c1. by rewrite list_lookup_insert_ne.
    + exists (mkCall (c_from c) (c_env c) p). rewrite list_lookup_insert_eq by by eapply lookup_lt_Some.
      split_and!; [done|done|]. apply Hacc. left. unfold deliveries. by rewrite Hpc.
  - intros (c1 & Hj & Hid & Hpc). apply list_lookup_insert_Some in Hj as [(<- & <- & _)|[Hne Hj]].
    + cbn in Hid, Hpc. subst id p. destruct Hacc as [[Hd|Hd] _]; [done| |].
      * unfold deliveries in Hd. destruct (c_pc c) eqn:E; try done. exists t. apply elem_of_app. right. by apply deliveries_elem.
      * destruct (proj2 (Hlog i (MessageId (c_env c)))) as [t Ht]; [by exists c|]. exists t. apply elem_of_app. by left.
    + destruct (proj2 (Hlog j id)) as [t Ht]; [by exists c1|]. exists t. apply elem_of_app. by left.
Qed.

Lemma Broadcast_ring e now env w : eKeyRing (Broadcast e now env w).1.1 = eKeyRing e.
Proof. unfold Broadcast. destruct (Marshal env) as [raw|]; [|done]. by destruct (send_all raw _ w). Qed.

Lemma auth_inv_step ml s s' : (forall id key, ml id key -> node_id key = id) -> auth_inv s -> step ml s s' -> auth_inv s'.
Proof.
  intros Hml Hinv Hs. destruct Hs as [e w now cs ds i c o e' w' p Hi _ Hc|e w now cs ds from env|e w now now' cs ds Hle
    |e w now cs ds env|e w now cs ds|e w now cs ds|e w now cs ds id key trust Hl|e w w' now cs ds];
    [by eapply auth_inv_call|destruct Hinv as [Hring Hcalls Hlog]; split; cbn in *; try done..].
  - apply Forall_app; by repeat constructor.
  - intros j id. rewrite Hlog. split; intros (c & Hj & Hid & Hpc).
    + exists c. split; [apply lookup_app_Some; by left|done].
    + apply lookup_app_Some in Hj as [Hj|[_ Hj]]; [by exists c|].
      apply list_lookup_singleton_Some in Hj as [_ <-]. done.
  - by rewrite Broadcast_ring.
  - apply KeyRing_Forall_Add; auto.
Qed.

(** C7. Concurrent calls authenticate. If the handshakes and the exchanges
    add only keys that hash to the id they are filed under, then, however the calls of
    all receive loops interleave with each other and with these additions, every key of the ring
    hashes to its id; and the delivered messages are exactly those of the calls that were
    accepted, each within the field limits and signed with a key that hashes to its
    sender id, even when another call changed the ring between a call's two lookups. *)
Theorem deliver_authentic (may_learn : string -> bytes -> Prop) e w now s (i : nat) (id : string)
  (Hlearn : forall nid key, may_learn nid key -> node_id key = nid)
  (Hring : ring_bound (eKeyRing e))
  (Hreach : reachable may_learn (mkNode e w now [] []) s) :
  ring_bound (eKeyRing (n_engine s)) /\
  ((exists t, (i, id, t) ∈ n_delivered s) <->
   exists c, n_calls s !! i = Some c /\ MessageId (c_env c) = id /\ c_pc c = PDone Accepted) /\
  (forall c, n_calls s !! i = Some c -> c_pc c = PDone Accepted ->
   check_fields (c_env c) = None /\
   exists key, node_id key = SenderId (c_env c) /\ VerifyEnvelope (c_env c) key = true).
Proof.
  assert (auth_inv s) as [Hr Hc Hl].
  { remember (mkNode e w now [] []) as s0 eqn:E. induction Hreach as [|s s' _ IH Hs]; [|by eapply auth_inv_step; eauto].
    subst. split; [done|constructor|]. intros j nid. split; [by intros [? ?%elem_of_nil]|by intros (? & ? & _)]. }
  split_and!; [done|apply Hl|]. intros c Hi Hpc. pose proof (proj1 (Forall_lookup _ _) Hc _ _ Hi) as Hok.
  unfold call_ok in Hok. rewrite Hpc in Hok. by apply Hok.
Qed.
End Authentic.

Section Theorems.
Context `{Crypto} `{Proto} {W : Type}.
Implicit Types (s : node (W := W)) (e : Engine W) (w : W).

(** What the other steps do to the seen cache. *)
Lemma Broadcast_seen e now env w :
  eSeen (Broadcast e now env w).1.1 = (SeenCache_Check (eSeen e) (MessageId env) now).2.
Proof.
  unfold Broadcast. destruct (Marshal env) as [raw|]; [|done].
  by destruct (send_all raw _ w).
Qed.

Lemma conc_inv_call ttl e w now cs ds i c o e' w' p :
  conc_inv ttl (mkNode e w now cs ds) -> cs !! i = Some c ->
  call_step o now e w c = (e', w', p) ->
  conc_inv ttl (mkNode e' w' now (<[i := mkCall (c_from c) (c_env c) p]> cs) (ds ++ deliveries i c)).
Proof.
  intros Hinv Hi Hstep. unfold call_step in Hstep. unfold deliveries.
  assert (forall e1 w1 p1, eSeen e1 = eSeen e -> (forall t, p1 <> PProcess t) ->
    (forall t, c_pc c <> PProcess t) -> (forall r, c_pc c = PDone r -> p1 = PDone r) ->
    conc_inv ttl (mkNode e1 w1 now (<[i := mkCall (c_from c) (c_env c) p1]> cs) (ds ++ []))) as Hquiet.
  { intros e1 w1 p1 Hs Hp1 Hp2 Hd. eapply conc_inv_quiet; [exact Hinv|exact Hi|done|..]; simpl; try done.
    apply app_nil_r. }
  destruct (c_pc c) as [| | | |entry| | |t0|r] eqn:Epc.
  - destruct (check_fields (c_env c)); [simplify_eq; by apply Hquiet|].
    destruct (SeenCache_Has _ _); simplify_eq; by apply Hquiet.
  - destruct (KeyRing_Lookup _ _); [simplify_eq; by apply Hquiet|].
    split_if_in Hstep; simplify_eq; by apply Hquiet.
  - simplify_eq. by apply Hquiet.
  - destruct (KeyRing_Lookup _ _); simplify_eq; by apply Hquiet.
  - destruct (negb _); simplify_eq; by apply Hquiet.
  - destruct (RateLimiter_Allow _ _ _) as [[] lim]; simplify_eq; by apply Hquiet.
  - unfold SeenCache_Check in Hstep.
    destruct (seen_entries (eSeen e) !! MessageId (c_env c)) eqn:E; simplify_eq; [by apply Hquiet|].
    eapply conc_inv_accept; [exact Hinv|exact Hi|done|done|simpl; apply app_nil_r|done..|].
    simpl. apply (ci_ttl _ _ Hinv).
  - destruct (process_tables e o (c_from c) (c_env c) w) as [Hs _].
    destruct (process e o (c_from c) (c_env c) w) as [e1 w1]. simplify_eq.
    by eapply conc_inv_deliver; [exact Hinv|exact Hi|..].
  - simplify_eq. apply Hquiet; naive_solver.
Qed.

Lemma conc_inv_step ml ttl s s' : conc_inv ttl s -> step ml s s' -> conc_inv ttl s'.
Proof.
  intros Hinv Hstep. pose proof (ci_ttl _ _ Hinv) as Httl.
  destruct Hstep as [e w now cs ds i c o e' w' p Hi _ Hc|e w now cs ds from env|e w now now' cs ds Hle
    |e w now cs ds env|e w now cs ds|e w now cs ds|e w now cs ds id key trust _|e w w' now cs ds];
    simpl in Httl; try (eapply conc_inv_env; [exact Hinv|..]; simpl; auto; lia).
  - by eapply conc_inv_call.
  - (* a new call is neither accepted nor delivered *)
    destruct Hinv as [_ Hm Hp Ha Hd Ho]. simpl in *.
    assert (forall j id t, accepted_at (mkNode e w now (cs ++ [mkCall from env PHas]) ds) j id t ->
              accepted_at (mkNode e w now cs ds) j id t) as Hacc.
    { intros j id t [(c & Hc & Hpc & Hid)|Hin]; [left|by right].
      simpl in Hc. apply lookup_app_Some in Hc as [Hc|[_ Hc]]; [eauto|].
      apply list_lookup_singleton_Some in Hc as [_ <-]. done. }
    split; simpl; try done.
    + intros j id t Hj%Hacc. by apply (Hm j).
    + intros j k id t u Hj%Hacc Hk%Hacc. by apply (Ha j k id).
    + intros j id t Hin. destruct (Hd _ _ _ Hin) as (c & r & Hc & Hr). exists c, r.
      split; [|done]. apply lookup_app_Some. by left.
  - eapply conc_inv_env; [exact Hinv|done|done|simpl; lia|..]; simpl; rewrite Broadcast_seen.
    + unfold SeenCache_Check. by destruct (_ !! _).
    + intros id t' Ht'. left. rewrite SeenCache_Check_entries.
      destruct (seen_entries (eSeen e) !! MessageId env) eqn:E; [done|].
      rewrite lookup_insert_ne; [done|congruence].
    + intros id t'. rewrite SeenCache_Check_entries. destruct (_ !! MessageId env); [by left|].
      rewrite lookup_insert_Some. intros [[_ <-]|[_ ?]]; [right; lia|by left].
  - eapply conc_inv_env; [exact Hinv|done|done|simpl; lia|..]; simpl; [done| |].
    + intros id t' Ht'. destruct (decide (t' < now - seen_ttl (eSeen e))); [right; lia|left].
      by apply map_lookup_filter_Some.
    + intros id t' [Ht' _]%map_lookup_filter_Some. by left.
Qed.

Lemma conc_inv_reachable ml ttl s0 s : conc_inv ttl s0 -> reachable ml s0 s -> conc_inv ttl s.
Proof. intros H0' Hr. induction Hr as [|s s' _ IH Hs]; [done|]. by eapply conc_inv_step. Qed.

(** C3. At most one delivery per identifier and time-to-live, under concurrency:
    however the calls of all receive loops interleave with each other, with
    broadcasts, handshakes and cleanups, and whatever keys are added to the ring, two
    different deliveries of one message identifier were accepted more than [ttl] apart,
    and no call delivers twice. *)
Theorem deliver_once (may_learn : string -> bytes -> Prop) (e : Engine W) w now s (i j : nat) (id : string) (t u : Z)
  (Hnew : eSeen e = NewSeenCache (seen_ttl (eSeen e)))
  (Hreach : reachable may_learn (mkNode e w now [] []) s)
  (Hi : (i, id, t) ∈ n_delivered s) (Hj : (j, id, u) ∈ n_delivered s) :
  ((i, t) <> (j, u) -> t + seen_ttl (eSeen e) < u \/ u + seen_ttl (eSeen e) < t) /\
  NoDup (n_delivered s).*1.*1.
Proof.
  pose proof (conc_inv_reachable _ _ _ _ (conc_inv_init e w now Hnew) Hreach) as Hinv.
  split; [|apply (ci_once _ _ Hinv)]. intros Hne.
  destruct (decide (i = j)) as [<-|Hij].
  - exfalso. apply Hne. f_equal. pose proof (ci_once _ _ Hinv) as Hnd.
    apply list_elem_of_lookup in Hi as [a Ha], Hj as [b Hb].
    rewrite NoDup_alt in Hnd. assert (a = b) as ->; [|congruence].
    apply (Hnd a b i); rewrite !list_lookup_fmap; [by rewrite Ha|by rewrite Hb].
  - apply (ci_apart _ _ Hinv i j id); [by right|by right|done].
Qed.
End Theorems.

(** ** Executing schedules *)

Section Schedules.
Context `{Crypto} `{Proto} {W : Type}.
Implicit Types (s : node (W := W)) (e : Engine W) (w : W) (o : Oracle W).

(** Let the calls named by the schedule take one step each, in order. *)
Definition sched_step o (i : nat) s : node :=
  match n_calls s !! i with
  | None => s
  | Some c =>
      let '(e', w', p) := call_step o (n_now s) (n_engine s) (n_world s) c in
      mkNode e' w' (n_now s) (<[i := mkCall (c_from c) (c_env c) p]> (n_calls s))
        (n_delivered s ++ deliveries i c)
  end.

Definition run o (sched : list nat) s : node := fold_left (fun s i => sched_step o i s) sched s.

(** Any number of messages arriving. *)
Definition receive_all (ms : list (string * Envelope)) s : node :=
  mkNode (n_engine s) (n_world s) (n_now s)
    (n_calls s ++ map (fun m => mkCall m.1 m.2 PHas) ms) (n_delivered s).

Lemma reachable_trans ml s0 s1 s2 : reachable ml s0 s1 -> reachable ml s1 s2 -> reachable ml s0 s2.
Proof. intros H1 H2. induction H2; [done|]. by eapply reach_step. Qed.

Lemma run_reachable ml o sched s : shuffles o -> reachable ml s (run o sched s).
Proof.
  intros Ho. revert s. induction sched as [|i sched IH]; intros s; [constructor|].
  eapply reachable_trans; [|apply IH]. unfold sched_step.
  destruct (n_calls s !! i) as [c|] eqn:Ec; [|constructor].
  destruct s as [e w now cs ds]. simpl in *.
  destruct (call_step o now e w c) as [[e' w'] p] eqn:Es.
  eapply reach_step; [constructor|]. by eapply step_call.
Qed.

Lemma receive_all_reachable ml ms s : reachable ml s (receive_all ms s).
Proof.
  unfold receive_all. destruct s as [e w now cs ds]. simpl. revert cs.
  induction ms as [|[from env] ms IH]; intros cs; simpl; [rewrite app_nil_r; constructor|].
  eapply reachable_trans; [|rewrite cons_middle, app_assoc; apply IH].
  eapply reach_step; [constructor|]. apply step_receive.
Qed.

(** A call alone. *)
Fixpoint solo (n : nat) o now e w (c : call) : Engine W * W * pc * list Z :=
  match n with
  | O => (e, w, c_pc c, [])
  | S n' =>
      let '(e1, w1, p) := call_step o now e w c in
      let '(e2, w2, p2, ds) := solo n' o now e1 w1 (mkCall (c_from c) (c_env c) p) in
      (e2, w2, p2, (match c_pc c with PProcess t => [t] | _ => [] end) ++ ds)
  end.

Lemma run_solo n o i s c :
  n_calls s !! i = Some c ->
  run o (replicate n i) s =
  let '(e', w', p, ds) := solo n o (n_now s) (n_engine s) (n_world s) c in
  mkNode e' w' (n_now s) (<[i := mkCall (c_from c) (c_env c) p]> (n_calls s))
    (n_delivered s ++ map (fun t => (i, MessageId (c_env c), t)) ds).
Proof.
  revert s c. induction n as [|n IH]; intros s c Hi.
  - simpl. rewrite app_nil_r, list_insert_id; [by destruct s|]. by destruct c.
  - change (run o (replicate (S n) i) s) with (run o (replicate n i) (sched_step o i s)).
    unfold sched_step. rewrite Hi. cbn [solo].
    destruct (call_step o (n_now s) (n_engine s) (n_world s) c) as [[e1 w1] p].
    erewrite IH by (simpl; rewrite list_lookup_insert_eq; [done|by eapply lookup_lt_Some]).
    cbn [n_now n_engine n_world n_calls n_delivered].
    destruct (solo n o (n_now s) e1 w1 (mkCall (c_from c) (c_env c) p)) as [[[e2 w2] p2] ds]. simpl.
    rewrite list_insert_insert_eq, map_app, <- app_assoc. do 3 f_equal.
    unfold deliveries. by destruct (c_pc c).
Qed.

Lemma solo_S n o now e w c :
  solo (S n) o now e w c =
  let '(e1, w1, p) := call_step o now e w c in
  let '(e2, w2, p2, ds) := solo n o now e1 w1 (mkCall (c_from c) (c_env c) p) in
  (e2, w2, p2, (match c_pc c with PProcess t => [t] | _ => [] end) ++ ds).
Proof. done. Qed.

Lemma solo_done n o now e w from env r :
  solo n o now e w (mkCall from env (PDone r)) = (e, w, PDone r, []).
Proof. induction n as [|n IH]; [done|]. cbn [solo call_step c_pc c_env c_from]. by rewrite IH. Qed.

(** [HandleIncoming] from the signature check on. *)
Definition after_key e o from env w (entry : KeyEntry) : Engine W * W * Outcome :=
  if negb (VerifyEnvelope env (PubKey entry)) then (e, w, InvalidSignature)
  else
    let '(allowed, lim) := RateLimiter_Allow (eLimiter e) (SenderId env) (o_now_allow o) in
    if negb allowed then (set_Limiter e lim, w, RateLimited)
    else
      let '(dup, seen) := SeenCache_Check (eSeen e) (MessageId env) (o_now_seen o) in
      let e3 := set_Seen (set_Limiter e lim) seen in
      if dup then (e3, w, RaceDuplicate)
      else let '(e4, w') := process e3 o from env w in (e4, w', Accepted).

Lemma solo_after_key k o now e w from env entry :
  o_now_allow o = now -> o_now_seen o = now ->
  let r := after_key e o from env w entry in
  solo (4 + k) o now e w (mkCall from env (PVerify entry)) =
  (r.1.1, r.1.2, PDone r.2, if decide (r.2 = Accepted) then [now] else []).
Proof.
  intros Ha Hs r. subst r. unfold after_key. rewrite Ha, Hs.
  change (4 + k)%nat with (S (S (S (S k)))). cbn [solo call_step c_pc c_env c_from].
  destruct (VerifyEnvelope env (PubKey entry)); cbn [negb call_step c_pc c_env c_from];
    [|by rewrite solo_done].
  destruct (RateLimiter_Allow (eLimiter e) (SenderId env) now) as [[] lim];
    cbn [negb call_step c_pc c_env c_from]; [|by rewrite solo_done].
  cbn [eSeen set_Limiter].
  destruct (SeenCache_Check (eSeen e) (MessageId env) now) as [[] seen];
    cbn [negb call_step c_pc c_env c_from]; [by rewrite solo_done|].
  destruct (process _ o from env w) as [e4 w']. by rewrite solo_done.
Qed.

(** Uninterrupted, a call behaves as [HandleIncoming]: eight steps of one
    call, and no step of anybody else, leave the engine and the world of
    [HandleIncoming], the call returned with its outcome, and one delivery
    in the log exactly when it was accepted. *)
Lemma sequential_refinement o i s c
  (Hi : n_calls s !! i = Some c) (Hpc : c_pc c = PHas)
  (Hnow : o_now_allow o = n_now s /\ o_now_seen o = n_now s) :
  let r := HandleIncoming (n_engine s) o (c_from c) (c_env c) (n_world s) in
  run o (replicate 8 i) s =
  mkNode r.1.1 r.1.2 (n_now s) (<[i := mkCall (c_from c) (c_env c) (PDone r.2)]> (n_calls s))
    (n_delivered s ++ if decide (r.2 = Accepted) then [(i, MessageId (c_env c), n_now s)] else []).
Proof.
  intros r. erewrite run_solo by done.
  assert (solo 8 o (n_now s) (n_engine s) (n_world s) c =
          (r.1.1, r.1.2, PDone r.2, if decide (r.2 = Accepted) then [n_now s] else [])) as ->;
    [|by destruct (decide _)].
  destruct Hnow as [Ha Hs], c as [from env p]. simpl in Hpc. subst p r. simpl c_from. simpl c_env.
  generalize (n_engine s) (n_world s). intros e w.
  assert (HandleIncoming e o from env w =
    match check_fields env with
    | Some reason => (e, w, reason)
    | None =>
        if SeenCache_Has (eSeen e) (MessageId env) then (e, w, Duplicate)
        else match lookup_or_learn (eKeyRing e) env with
             | (None, kr) => (set_KeyRing e kr, w, UnknownSender)
             | (Some entry, kr) => after_key (set_KeyRing e kr) o from env w entry
             end
    end) as ->.
  { unfold HandleIncoming, after_key. destruct (check_fields env); [done|].
    destruct (SeenCache_Has _ _); [done|]. by destruct (lookup_or_learn _ env) as [[]]. }
  change 8%nat with (S (S (4 + 2))). unfold lookup_or_learn.
  rewrite solo_S. cbn [call_step c_pc c_env c_from].
  destruct (check_fields env) as [reason|] eqn:Ef.
  { apply check_fields_outcome in Ef as [Ef _]. rewrite solo_done. simpl. by rewrite decide_False. }
  destruct (SeenCache_Has (eSeen e) (MessageId env)); [by rewrite solo_done|].
  rewrite solo_S. cbn [call_step c_pc c_env c_from].
  destruct (KeyRing_Lookup (eKeyRing e) (SenderId env)) as [en|] eqn:Ek.
  - rewrite solo_after_key by done. by destruct e.
  - split_if; [|rewrite solo_done; by destruct e].
    change (4 + 2)%nat with (S (S (4 + 0))). rewrite solo_S. cbn [call_step c_pc c_env c_from].
    rewrite solo_S. cbn [call_step c_pc c_env c_from eKeyRing set_KeyRing].
    unfold KeyRing_Lookup in *. rewrite KeyRing_Add_new by done. by rewrite solo_after_key.
Qed.
End Schedules.

(** ** Examples

    Two peers deliver the same message; their calls take turns, so both pass
    [Seen.Has] and both verify, and [Seen.Check] lets one through.  Seven
    minutes and a cleanup later the message is accepted once more. *)

Definition ex_start : node := mkNode ex_engine [] 0 [] [].
Definition ex_raced : node :=
  run (ex_oracle 0) (concat (replicate 8 [0%nat; 1%nat]))
    (receive_all [("p1"%string, ex_env "m"); ("p2"%string, ex_env "m")] ex_start).
Definition ex_later : node :=
  mkNode (cleanup_Seen (n_engine ex_raced) (420 * second)) (n_world ex_raced) (420 * second)
    (n_calls ex_raced) (n_delivered ex_raced).
Definition ex_again : node :=
  run (ex_oracle 0) (replicate 8 2%nat) (receive_all [("p3"%string, ex_env "m")] ex_later).

Definition ex_learn (id : string) (key : bytes) : Prop := node_id key = id.

Lemma ex_later_reachable : reachable ex_learn ex_raced ex_later.
Proof.
  unfold ex_later. assert (n_now ex_raced <= 420 * second) as Hle by (vm_compute; discriminate).
  destruct ex_raced as [e w now cs ds]. simpl in *.
  eapply reach_step; [eapply reach_step; [constructor|]|].
  - apply (step_clock _ e w now (420 * second) cs ds Hle).
  - apply step_cleanup_seen.
Qed.

Lemma ex_again_reachable : reachable ex_learn ex_start ex_again.
Proof.
  apply (reachable_trans _ _ ex_raced).
  { eapply reachable_trans; [apply receive_all_reachable|apply run_reachable, ex_shuffles]. }
  apply (reachable_trans _ _ ex_later); [apply ex_later_reachable|].
  eapply reachable_trans; [apply receive_all_reachable|apply run_reachable, ex_shuffles].
Qed.

Lemma deliver_once_witness :
  map c_pc (n_calls ex_raced) = [PDone Accepted; PDone RaceDuplicate] /\
  0 + 300 * second < 420 * second.
Proof.
  split; [vm_compute; reflexivity|].
  assert (n_delivered ex_again = [(0%nat, "m"%string, 0); (2%nat, "m"%string, 420 * second)]) as E
    by (vm_compute; reflexivity).
  destruct (deliver_once ex_learn ex_engine [] 0 ex_again 0 2 "m" 0 (420 * second)) as [Hapart _].
  - vm_compute. reflexivity.
  - apply ex_again_reachable.
  - rewrite E. left.
  - rewrite E. right. left.
  - destruct Hapart as [Hlt|Hlt]; [intros Heq; injection Heq; discriminate|exact Hlt|]. exfalso. vm_compute in Hlt. discriminate.
Defined.

(** Between the two lookups of a call that learned the key of node 7, the
    handshake with node 7 adds the key once more, directly verified. *)
Definition ex_between : node :=
  let s := run (ex_oracle 0) [0; 0; 0]%nat (receive_all [("p1"%string, ex_env "m")] ex_start) in
  mkNode (set_KeyRing (n_engine s) (KeyRing_Add (eKeyRing (n_engine s)) (toy_id 7) (toy_pub 7) TrustDirectlyVerified))
    (n_world s) (n_now s) (n_calls s) (n_delivered s).
Definition ex_learned : node := run (ex_oracle 0) (replicate 5 0%nat) ex_between.

Lemma ex_learned_reachable : reachable ex_learn ex_start ex_learned.
Proof.
  apply (reachable_trans _ _ ex_between); [|apply run_reachable, ex_shuffles].
  unfold ex_between. set (s := run _ _ _).
  assert (reachable ex_learn ex_start s) as Hs.
  { eapply reachable_trans; [apply receive_all_reachable|apply run_reachable, ex_shuffles]. }
  destruct s as [e w now cs ds]. eapply reach_step; [exact Hs|]. by apply step_learn.
Qed.

Lemma deliver_authentic_witness :
  KeyRing_Lookup (eKeyRing (n_engine ex_learned)) (toy_id 7) = Some (mkKeyEntry (toy_pub 7) TrustDirectlyVerified) /\
  exists c, n_calls ex_learned !! 0%nat = Some c /\ MessageId (c_env c) = "m"%string /\
    exists key, node_id key = SenderId (c_env c) /\ VerifyEnvelope (c_env c) key = true.
Proof.
  destruct (deliver_authentic ex_learn ex_engine [] 0 ex_learned 0 "m") as (_ & Hlog & Hacc).
  - intros nid key Hk. exact Hk.
  - intros nid entry Hk. vm_compute in Hk. discriminate.
  - exact ex_learned_reachable.
  - split; [vm_compute; reflexivity|]. destruct (proj1 Hlog) as (c & Hi & Hid & Hpc).
    + exists 0. assert (n_delivered ex_learned = [(0%nat, "m"%string, 0)]) as E by (vm_compute; reflexivity).
      rewrite E. left.
    + exists c. split; [exact Hi|]. split; [exact Hid|]. exact (proj2 (Hacc c Hi Hpc)).
Defined.
