(* ===== verification/Stream.v ===== *)
(** * Stream: [io.Reader], [io.Writer] and [io.ReadFull]

    The interfaces through which the framing layer meets the encrypted
    connection.  A reader delivers a stream of bytes in pieces of its own
    choosing and then fails; [ReadFull] is the standard library's loop over
    [Read].  The laws say what the pieces add up to, so that the framing
    theorems hold over every reader that satisfies them. *)

From S2P Require Import Prelude Bytes.
From Stdlib Require Import Init.Byte.

(** The errors of a connection: its end, inside or outside what is being
    read, any other failure of the transport, and the two that the encrypted
    connection of [noise.go] raises itself. *)
Inductive io_error :=
| EOF
| UnexpectedEOF
| Broken
| NoiseMessageTooLarge (n : Z)
| NoiseDecrypt.

#[export] Instance io_error_eq_dec : EqDecision io_error.
Proof. solve_decision. Defined.

Inductive result (A E : Type) := Ok (a : A) | Err (e : E).
Arguments Ok {A E}.
Arguments Err {A E}.

(** [rd r n] is [r.Read(p)] with [len(p) = n]. *)
Class Reader (R : Type) := {
  rd : R -> nat -> result bytes io_error * R;
  rd_fuel : R -> nat   (* bounds the bytes and the empty reads to come *)
}.

(** [stream r] is what remains to be delivered before the error [final r]. *)
Class ReaderLaws (R : Type) `{Reader R} := {
  stream : R -> bytes;
  final : R -> io_error;
  rd_data r n : (0 < n)%nat -> stream r <> [] ->
    exists b r', rd r n = (Ok b, r') /\ (length b <= n)%nat /\
      stream r = b ++ stream r' /\ final r' = final r /\
      (rd_fuel r' + Nat.max 1 (length b) <= rd_fuel r)%nat;
  rd_end r n : (0 < n)%nat -> stream r = [] ->
    (exists r', rd r n = (Err (final r), r')) \/
    (exists r', rd r n = (Ok [], r') /\ stream r' = [] /\ final r' = final r /\
       (rd_fuel r' < rd_fuel r)%nat)
}.

Section ReadFull.
Context {R : Type} `{Reader R}.

(** [io.ReadAtLeast(r, buf, len(buf))]: read until [n] bytes are there. An
    [EOF] after some bytes becomes [UnexpectedEOF]. *)
Fixpoint read_full (fuel : nat) (r : R) (n : nat) (acc : bytes) : result bytes io_error * R :=
  if (n <=? length acc)%nat then (Ok acc, r)
  else
    match fuel with
    | O => (Err Broken, r)
    | S fuel' =>
        match rd r (n - length acc) with
        | (Ok b, r') => read_full fuel' r' n (acc ++ b)
        | (Err e, r') =>
            (Err (if bool_decide (e = EOF) && negb (bool_decide (acc = [])) then UnexpectedEOF else e), r')
        end
    end.

Definition ReadFull (r : R) (n : nat) : result bytes io_error * R := read_full (S (rd_fuel r)) r n [].

Lemma read_full_done fuel r n acc : (n <= length acc)%nat -> read_full fuel r n acc = (Ok acc, r).
Proof. intros Hn. destruct fuel; cbn [read_full]; by rewrite (proj2 (Nat.leb_le _ _) Hn). Qed.

(** A single read that fills the buffer. *)
Lemma ReadFull_one r n b r' : rd r n = (Ok b, r') -> length b = n -> (0 < n)%nat -> ReadFull r n = (Ok b, r').
Proof.
  intros Hr Hb Hn. unfold ReadFull. cbn [read_full length]. rewrite Nat.sub_0_r, Hr.
  destruct (Nat.leb_spec n 0); [lia|]. apply read_full_done. simpl. lia.
Qed.

Lemma ReadFull_0 r : ReadFull r 0 = (Ok [], r).
Proof. by apply read_full_done. Qed.

(** Whatever single reads preserve, [ReadFull] preserves. *)
Lemma ReadFull_preserves (P : R -> Prop) r n res r' :
  (forall r n res r', rd r n = (res, r') -> P r -> P r') ->
  ReadFull r n = (res, r') -> P r -> P r'.
Proof.
  intros HP. unfold ReadFull. generalize (S (rd_fuel r)) as fuel, (@nil byte) as acc. intros fuel.
  revert r. induction fuel as [|fuel IH]; intros r acc; cbn [read_full];
    destruct (n <=? length acc)%nat; try by intros [= <- <-].
  destruct (rd r (n - length acc)) as [[b|e] r1] eqn:Hr; [|intros [= <- <-]; eauto]. eauto.
Qed.
End ReadFull.

Section ReadFullSpec.
Context {R : Type} `{ReaderLaws R}.
Implicit Types (r : R) (n fuel : nat) (acc : bytes).

Lemma read_full_ok fuel r n acc :
  (rd_fuel r < fuel)%nat -> (length acc <= n)%nat -> (n <= length acc + length (stream r))%nat ->
  exists r', read_full fuel r n acc = (Ok (acc ++ take (n - length acc) (stream r)), r') /\
    stream r' = drop (n - length acc) (stream r) /\ final r' = final r /\
    (rd_fuel r' + (n - length acc) <= rd_fuel r)%nat.
Proof.
  revert r acc. induction fuel as [|fuel IH]; intros r acc Hf Ha Hn; [lia|]. cbn [read_full].
  destruct (Nat.leb_spec n (length acc)) as [Hle|Hlt].
  { exists r. replace (n - length acc)%nat with 0%nat by lia. rewrite take_0, app_nil_r. split_and!; [done|done|done|lia]. }
  destruct (rd_data r (n - length acc)) as (b & r1 & -> & Hb & Hs & Hfin & Hfuel); [lia| |].
  { intros E. rewrite E in Hn. simpl in Hn. lia. }
  rewrite Hs, length_app in Hn.
  destruct (IH r1 (acc ++ b)) as (r2 & -> & Hs2 & Hfin2 & Hfuel2); [lia|rewrite length_app; lia|rewrite length_app; lia|].
  exists r2. rewrite length_app in *. rewrite Hs.
  rewrite take_app_ge, drop_app_ge, <- app_assoc by lia.
  replace (n - length acc - length b)%nat with (n - (length acc + length b))%nat by lia.
  split_and!; [done|done|congruence|lia].
Qed.

(** [ReadFull] returns the next [n] bytes of the stream when there are that
    many, however the reader cuts them into pieces ... *)
Lemma ReadFull_ok r n :
  (n <= length (stream r))%nat ->
  exists r', ReadFull r n = (Ok (take n (stream r)), r') /\ stream r' = drop n (stream r) /\
    final r' = final r /\ (rd_fuel r' + n <= rd_fuel r)%nat.
Proof.
  intros Hn. destruct (read_full_ok (S (rd_fuel r)) r n []) as (r' & Hr & Hs & Hf & Hfu); simpl; [lia|lia|lia|].
  rewrite Nat.sub_0_r in *. eauto.
Qed.

Lemma read_full_short fuel r n acc :
  (rd_fuel r < fuel)%nat -> (length acc + length (stream r) < n)%nat ->
  exists r', read_full fuel r n acc =
    (Err (if bool_decide (final r = EOF) && negb (bool_decide (acc ++ stream r = []))
          then UnexpectedEOF else final r), r').
Proof.
  revert r acc. induction fuel as [|fuel IH]; intros r acc Hf Hn; [lia|]. cbn [read_full].
  destruct (Nat.leb_spec n (length acc)) as [Hle|Hlt]; [lia|].
  destruct (decide (stream r = [])) as [E|E].
  - rewrite E, app_nil_r.
    destruct (rd_end r (n - length acc)) as [(r' & ->)|(r' & -> & Hs & Hfin & Hfuel)]; [lia|done|eauto|].
    rewrite <- Hfin. destruct (IH r' (acc ++ [])) as (r2 & Hr2); [lia|rewrite app_nil_r, Hs; simpl; lia|].
    exists r2. rewrite app_nil_r in *. by rewrite Hr2, Hs, app_nil_r.
  - destruct (rd_data r (n - length acc)) as (b & r1 & -> & Hb & Hs & Hfin & Hfuel); [lia|done|].
    rewrite Hs, length_app in Hn. rewrite Hs, <- Hfin, app_assoc.
    apply IH; [lia|rewrite length_app; lia].
Qed.

(** ... and fails when there are not. *)
Lemma ReadFull_short r n :
  (length (stream r) < n)%nat ->
  exists r', ReadFull r n =
    (Err (if bool_decide (final r = EOF) && negb (bool_decide (stream r = [])) then UnexpectedEOF else final r), r').
Proof. intros Hn. apply (read_full_short (S (rd_fuel r)) r n []); simpl; lia. Qed.
End ReadFullSpec.

(** ** A reader over bytes that arrive in pieces *)

Record pieces := mkPieces { p_pieces : list bytes }.

(** One [Read] of a connection whose peer's bytes arrive in segments: it
    returns at most the rest of the current segment. *)
Definition pieces_read (r : pieces) (n : nat) : result bytes io_error * pieces :=
  match p_pieces r with
  | [] => (Err EOF, r)
  | b :: bs =>
      if (length b <=? n)%nat then (Ok b, mkPieces bs)
      else (Ok (take n b), mkPieces (drop n b :: bs))
  end.

#[export] Instance pieces_reader : Reader pieces := {
  rd := pieces_read;
  rd_fuel r := (length (concat (p_pieces r)) + length (p_pieces r))%nat
}.

#[export] Program Instance pieces_laws : ReaderLaws pieces := {
  stream r := concat (p_pieces r);
  final _ := EOF
}.
Next Obligation.
  intros [[|b bs]] n Hn Hs; simpl in *; [done|]. unfold pieces_read. simpl.
  destruct (Nat.leb_spec (length b) n).
  - eexists _, _. split; [done|]. simpl. rewrite length_app. split_and!; [lia|done|done|lia].
  - eexists _, _. split; [done|]. simpl. rewrite !length_app, length_take, length_drop.
    split_and!; [lia| |done|lia]. by rewrite app_assoc, take_drop.
Qed.
Next Obligation.
  intros [[|b bs]] n Hn Hs; simpl in *; [left; by eexists|]. right. apply app_nil in Hs as [-> Hs].
  unfold pieces_read. simpl. eexists. split; [done|]. simpl. split; [done|]. split; [done|lia].
Qed.

(** ** [io.Writer] and [net.Conn]

    [written] is everything a writer has accepted; writing to a connection
    leaves its incoming side alone. *)
Class Writer (T : Type) := wr : T -> bytes -> result unit io_error * T.

Class WriterLaws (T : Type) `{Writer T} := {
  written : T -> bytes;
  wr_ok w b w' : wr w b = (Ok tt, w') -> written w' = written w ++ b
}.

(** [SetReadDeadline] and [SetWriteDeadline]: whether the deadline could be
    set.  What happens when it passes is an error of a later read or write. *)
Class Conn (C : Type) := {
  #[global] conn_reader :: Reader C;
  #[global] conn_writer :: Writer C;
  SetReadDeadline : C -> bool;
  SetWriteDeadline : C -> bool
}.

(** What a user of a connection relies on: writing does not disturb what is
    still to be read. *)
Class DuplexLaws (C : Type) `{Conn C} := {
  #[global] duplex_reader_laws :: ReaderLaws C;
  duplex_wr c b res c' : wr c b = (res, c') -> stream c' = stream c /\ final c' = final c
}.

(** The promises of [net.Conn]. *)
Class ConnLaws (C : Type) `{Conn C} := {
  #[global] conn_reader_laws :: ReaderLaws C;
  #[global] conn_writer_laws :: WriterLaws C;
  writable : C -> Prop;
  wr_writable c b : writable c -> exists c', wr c b = (Ok tt, c') /\ writable c';
  rd_writable c n res c' : rd c n = (res, c') -> writable c -> writable c';
  rd_written c n res c' : rd c n = (res, c') -> written c' = written c;
  wr_stream c b res c' : wr c b = (res, c') ->
    stream c' = stream c /\ final c' = final c /\ rd_fuel c' = rd_fuel c
}.

#[export] Instance conn_duplex_laws {C} `{ConnLaws C} : DuplexLaws C := {
  duplex_reader_laws := conn_reader_laws;
  duplex_wr c b res c' Hw :=
    conj (proj1 (wr_stream c b res c' Hw)) (proj1 (proj2 (wr_stream c b res c' Hw)))
}.

(** A TCP connection: the incoming segments, the bytes sent so far, and
    whether it still takes bytes. *)
Record tcp := mkTcp { tcp_in : pieces; tcp_out : bytes; tcp_open : bool }.

#[export] Instance tcp_reader : Reader tcp := {
  rd c n := let (res, i) := pieces_read (tcp_in c) n in (res, mkTcp i (tcp_out c) (tcp_open c));
  rd_fuel c := rd_fuel (tcp_in c)
}.

#[export] Instance tcp_writer : Writer tcp := fun c b =>
  if tcp_open c then (Ok tt, mkTcp (tcp_in c) (tcp_out c ++ b) true) else (Err Broken, c).

#[export] Instance tcp_conn : Conn tcp := { SetReadDeadline := tcp_open; SetWriteDeadline := tcp_open }.

#[export] Program Instance tcp_reader_laws : ReaderLaws tcp := {
  stream c := stream (tcp_in c);
  final c := final (tcp_in c)
}.
Next Obligation.
  intros [i o op] n Hn Hs. destruct (rd_data i n Hn Hs) as (b & i' & Hr & Hrest).
  cbn in *. rewrite Hr. by eexists _, (mkTcp i' o op).
Qed.
Next Obligation.
  intros [i o op] n Hn Hs. destruct (rd_end i n Hn Hs) as [(i' & Hr)|(i' & Hr & Hrest)];
    cbn in *; rewrite Hr; [left|right]; by exists (mkTcp i' o op).
Qed.

#[export] Program Instance tcp_conn_laws : ConnLaws tcp := {
  conn_writer_laws := {| written := tcp_out |};
  writable c := tcp_open c = true
}.
Next Obligation. intros [i o op] b w'. unfold wr, conn_writer, tcp_conn, tcp_writer. simpl. destruct op; [by intros [= <-]|done]. Qed.
Next Obligation. intros [i o op] b. unfold wr, conn_writer, tcp_conn, tcp_writer. simpl. intros ->. eauto. Qed.
Next Obligation.
  intros [i o op] n res c'. cbn. destruct (pieces_read i n). by intros [= <- <-].
Qed.
Next Obligation.
  intros [i o op] n res c'. cbn. destruct (pieces_read i n). by intros [= <- <-].
Qed.
Next Obligation. intros [i o op] b res c'. unfold wr, conn_writer, tcp_conn, tcp_writer. simpl. by destruct op; intros [= <- <-]. Qed.

