(* ===== verification/Frame.v ===== *)
(** * Frame: the wire framing

    Models [internal/transport/frame.go], over any [io.Writer] and any
    [io.Reader]. *)

From S2P Require Import Prelude Bytes Stream.
From Stdlib Require Import Init.Byte.

Definition Magic : Z := 0x4D49.
Definition Version : Z := 0x0001.
Definition MaxPayload : Z := Z.shiftl 1 20.
Definition HeaderSize : Z := 8.

Inductive frame_error :=
| PayloadTooLarge (n : Z)
| InvalidMagic (m : Z)
| UnsupportedVersion (v : Z)
| HeaderError (e : io_error)
| PayloadError (e : io_error)
| WriteError (e : io_error).

(** The buffer [WriteFrame] builds. *)
Definition frame_bytes (payload : bytes) : bytes :=
  be_put 2 Magic ++ be_put 2 Version ++ be_put 4 (len payload) ++ payload.

Definition WriteFrame {T} `{Writer T} (w : T) (payload : bytes) : result unit frame_error * T :=
  if MaxPayload <? len payload then (Err (PayloadTooLarge (len payload)), w)
  else
    match wr w (frame_bytes payload) with
    | (Ok _, w') => (Ok tt, w')
    | (Err e, w') => (Err (WriteError e), w')
    end.

Definition ReadFrame {R} `{Reader R} (r : R) : result bytes frame_error * R :=
  match ReadFull r (Z.to_nat HeaderSize) with
  | (Err e, r1) => (Err (HeaderError e), r1)
  | (Ok hdr, r1) =>
      let magic := be_get (take 2 hdr) in
      if negb (magic =? Magic) then (Err (InvalidMagic magic), r1)
      else
        let version := be_get (take 2 (drop 2 hdr)) in
        if negb (version =? Version) then (Err (UnsupportedVersion version), r1)
        else
          let length := be_get (take 4 (drop 4 hdr)) in
          if MaxPayload <? length then (Err (PayloadTooLarge length), r1)
          else
            match ReadFull r1 (Z.to_nat length) with
            | (Err e, r2) => (Err (PayloadError e), r2)
            | (Ok payload, r2) => (Ok payload, r2)
            end
  end.

Lemma length_frame_bytes p : length (frame_bytes p) = (8 + length p)%nat.
Proof. unfold frame_bytes. rewrite !length_app, !length_be_put. lia. Qed.

Definition frame_hdr (v : Z) : bytes := be_put 2 Magic ++ be_put 2 Version ++ be_put 4 v.

Lemma length_frame_hdr v : length (frame_hdr v) = 8%nat.
Proof. unfold frame_hdr. by rewrite !length_app, !length_be_put. Qed.

Lemma frame_bytes_hdr p : frame_bytes p = frame_hdr (len p) ++ p.
Proof. unfold frame_bytes, frame_hdr. by rewrite <- !app_assoc. Qed.

(** Any eight bytes are the three fields the header is read as. *)
Lemma hdr_split (hdr : bytes) :
  length hdr = 8%nat -> hdr = take 2 hdr ++ take 2 (drop 2 hdr) ++ take 4 (drop 4 hdr).
Proof.
  intros H. rewrite <- (take_drop 2 hdr) at 1. f_equal.
  rewrite <- (take_drop 2 (drop 2 hdr)) at 1. f_equal. rewrite drop_drop.
  rewrite take_ge; [done|]. rewrite length_drop. lia.
Qed.

Lemma be_put_get_n n b : length b = n -> be_put n (be_get b) = b.
Proof. intros <-. apply be_put_get. Qed.

(** The header [ReadFrame] accepts is the one [WriteFrame] writes. *)
Lemma hdr_fields (hdr : bytes) :
  length hdr = 8%nat ->
  be_get (take 2 hdr) = Magic -> be_get (take 2 (drop 2 hdr)) = Version ->
  hdr = frame_hdr (be_get (take 4 (drop 4 hdr))).
Proof.
  intros Hl Hm Hv. unfold frame_hdr. rewrite <- Hm, <- Hv, !be_put_get_n.
  - by apply hdr_split.
  - rewrite length_take, length_drop. lia.
  - rewrite length_take, length_drop. lia.
  - rewrite length_take. lia.
Qed.

Lemma frame_hdr_fields v :
  0 <= v < 2 ^ 32 ->
  be_get (take 2 (frame_hdr v)) = Magic /\ be_get (take 2 (drop 2 (frame_hdr v))) = Version /\
  be_get (take 4 (drop 4 (frame_hdr v))) = v.
Proof.
  intros Hv. unfold frame_hdr. split_and!.
  - by rewrite take_app_length' by by rewrite length_be_put.
  - rewrite drop_app_length' by by rewrite length_be_put.
    by rewrite take_app_length' by by rewrite length_be_put.
  - rewrite app_assoc, drop_app_length' by by rewrite length_app, !length_be_put.
    rewrite take_ge by by rewrite length_be_put. rewrite be_get_put. by apply Z.mod_small.
Qed.

Section ReadFrameSpec.
Context {R : Type} `{ReaderLaws R}.
Implicit Types (r : R) (p : bytes).

(** What [ReadFrame] does when a whole header is there. *)
Lemma ReadFrame_header r v rest :
  0 <= v < 2 ^ 32 -> stream r = frame_hdr v ++ rest ->
  exists r1, stream r1 = rest /\ final r1 = final r /\
    ReadFrame r =
      (if MaxPayload <? v then (Err (PayloadTooLarge v), r1)
       else match ReadFull r1 (Z.to_nat v) with
            | (Err e, r2) => (Err (PayloadError e), r2)
            | (Ok payload, r2) => (Ok payload, r2)
            end).
Proof.
  intros Hv Hs. destruct (ReadFull_ok r 8) as (r1 & Hr & Hs1 & Hf1 & _).
  { rewrite Hs, length_app, length_frame_hdr. lia. }
  rewrite Hs in Hr, Hs1. rewrite take_app_length' in Hr by by rewrite length_frame_hdr.
  rewrite drop_app_length' in Hs1 by by rewrite length_frame_hdr.
  destruct (frame_hdr_fields v Hv) as (Hm & Hver & Hlen).
  exists r1. split_and!; [done|done|]. unfold ReadFrame. change (Z.to_nat HeaderSize) with 8%nat.
  rewrite Hr. cbv zeta. rewrite Hm, Hver, Hlen, !Z.eqb_refl. done.
Qed.

Lemma ReadFrame_frame r p rest :
  len p <= MaxPayload -> stream r = frame_bytes p ++ rest ->
  exists r', ReadFrame r = (Ok p, r') /\ stream r' = rest /\ final r' = final r.
Proof.
  intros Hp Hs. rewrite frame_bytes_hdr, <- app_assoc in Hs.
  change MaxPayload with (2 ^ 20) in Hp.
  destruct (ReadFrame_header r (len p) (p ++ rest)) as (r1 & Hs1 & Hf1 & ->); [lia|done|].
  destruct (Z.ltb_spec MaxPayload (len p)); [change MaxPayload with (2 ^ 20) in *; lia|].
  rewrite Nat2Z.id. destruct (ReadFull_ok r1 (length p)) as (r2 & -> & Hs2 & Hf2 & _).
  { rewrite Hs1, length_app. lia. }
  rewrite Hs1 in *. rewrite take_app_length, drop_app_length in *.
  exists r2. split_and!; [done|done|congruence].
Qed.

(** Reading [n] frames in a row. *)
Fixpoint read_frames (n : nat) (r : R) : list bytes * R :=
  match n with
  | O => ([], r)
  | S n' =>
      match ReadFrame r with
      | (Ok p, r1) => let (ps, r2) := read_frames n' r1 in (p :: ps, r2)
      | (Err _, r1) => ([], r1)
      end
  end.

Lemma read_frames_all ps r rest :
  Forall (fun p => len p <= MaxPayload) ps ->
  stream r = concat (frame_bytes <$> ps) ++ rest ->
  exists r', read_frames (length ps) r = (ps, r') /\ stream r' = rest /\ final r' = final r.
Proof.
  intros Hps. revert r. induction Hps as [|p ps Hp Hps IH]; intros r Hs; [by exists r|].
  cbn [fmap list_fmap concat] in Hs. rewrite <- app_assoc in Hs.
  destruct (ReadFrame_frame r p _ Hp Hs) as (r1 & Hr1 & Hs1 & Hf1).
  destruct (IH r1 Hs1) as (r2 & Hr2 & Hs2 & Hf2).
  exists r2. cbn [length read_frames]. rewrite Hr1, Hr2. split_and!; [done|done|congruence].
Qed.

(** The three shapes of a stream: too short for a header, a header that is
    not ours, or one of our headers with some announced length. *)
Lemma stream_shape r :
  (length (stream r) < 8)%nat \/
  (exists rest hdr, stream r = hdr ++ rest /\ length hdr = 8%nat /\
    (be_get (take 2 hdr) <> Magic \/
     be_get (take 2 hdr) = Magic /\ be_get (take 2 (drop 2 hdr)) <> Version)) \/
  (exists v rest, stream r = frame_hdr v ++ rest /\ 0 <= v < 2 ^ 32).
Proof.
  destruct (decide (length (stream r) < 8)%nat) as [Hl|Hl]; [by left|right].
  set (hdr := take 8 (stream r)).
  assert (length hdr = 8%nat) as Hh by (unfold hdr; rewrite length_take; lia).
  assert (stream r = hdr ++ drop 8 (stream r)) as Hs by (unfold hdr; by rewrite take_drop).
  destruct (decide (be_get (take 2 hdr) = Magic)) as [Hm|Hm]; [|left; eauto 10].
  destruct (decide (be_get (take 2 (drop 2 hdr)) = Version)) as [Hv|Hv]; [|left; eauto 10].
  right. exists (be_get (take 4 (drop 4 hdr))), (drop 8 (stream r)). split.
  - by rewrite <- hdr_fields.
  - pose proof (be_get_range (take 4 (drop 4 hdr))) as Hr.
    rewrite length_take, length_drop, Hh in Hr. exact Hr.
Qed.

(** What a successful read has consumed. *)
Lemma ReadFrame_inv r p r' : ReadFrame r = (Ok p, r') -> stream r = frame_bytes p ++ stream r' /\ len p <= MaxPayload.
Proof.
  destruct (stream_shape r) as [Hs|[(rest & hdr & Hs & Hh & Hbad)|(v & rest & Hs & Hv)]].
  - destruct (ReadFull_short r 8) as (r1 & Hr); [done|]. unfold ReadFrame.
    change (Z.to_nat HeaderSize) with 8%nat. by rewrite Hr.
  - destruct (ReadFull_ok r 8) as (r1 & Hr & _); [rewrite Hs, length_app; lia|].
    rewrite Hs, take_app_length' in Hr by done. unfold ReadFrame. change (Z.to_nat HeaderSize) with 8%nat.
    rewrite Hr. cbv zeta. destruct (Z.eqb_spec (be_get (take 2 hdr)) Magic); [|done]. cbn [negb].
    destruct (Z.eqb_spec (be_get (take 2 (drop 2 hdr))) Version); [|done]. by destruct Hbad as [?|[_ ?]].
  - destruct (ReadFrame_header r v rest Hv Hs) as (r1 & Hs1 & _ & ->).
    destruct (Z.ltb_spec MaxPayload v) as [Hbig|Hok]; [done|].
    destruct (decide (Z.to_nat v <= length rest)%nat) as [Hl|Hl].
    + destruct (ReadFull_ok r1 (Z.to_nat v)) as (r2 & -> & Hs2 & _); [by rewrite Hs1|]. intros [= <- <-].
      rewrite Hs, Hs2, Hs1, frame_bytes_hdr, length_take, Nat.min_l, Z2Nat.id by lia.
      by rewrite <- app_assoc, take_drop.
    + destruct (ReadFull_short r1 (Z.to_nat v)) as (r2 & ->); [rewrite Hs1; lia|done].
Qed.
End ReadFrameSpec.

(** ** Properties *)

(** C35. Frames survive the connection: whatever sequence of payloads
    within the limit is written, a reader of the concatenated bytes reads
    exactly those payloads in that order, however the connection cuts the
    bytes into pieces, and leaves what follows unread. *)
Theorem frames_roundtrip {R} `{ReaderLaws R} (ps : list bytes) (r : R) (rest : bytes)
  (Hsize : Forall (fun p => len p <= MaxPayload) ps)
  (Hstream : stream r = concat (frame_bytes <$> ps) ++ rest) :
  exists r', read_frames (length ps) r = (ps, r') /\ stream r' = rest /\ final r' = final r.
Proof. by apply read_frames_all. Qed.

Lemma frames_roundtrip_witness :
  exists r', read_frames 2 (mkPieces [take 5 (frame_bytes [x01]); drop 5 (frame_bytes [x01]) ++ take 3 (frame_bytes []);
                                      []; drop 3 (frame_bytes []) ++ [x07]]) = ([[x01]; []], r') /\
    stream r' = [x07] /\ final r' = EOF.
Proof.
  refine (frames_roundtrip [[x01]; []] _ [x07] _ _).
  - repeat constructor; vm_compute; discriminate.
  - vm_compute. reflexivity.
Defined.

(** C36. [ReadFrame] is total and accepts nothing else than what [WriteFrame]
    writes: it returns a payload only when the stream starts with that
    payload's frame, within the limit, which it has consumed entirely; and
    each error is raised exactly by the corresponding defect of the stream,
    where a header announcing more than [MaxPayload] bytes is refused before any
    of them is read. *)
Theorem ReadFrame_cases {R} `{ReaderLaws R} (r : R) :
  let s := stream r in
  match ReadFrame r with
  | (Ok p, r') => s = frame_bytes p ++ stream r' /\ len p <= MaxPayload
  | (Err (HeaderError _), _) => (length s < 8)%nat
  | (Err (InvalidMagic m), r') =>
      exists hdr, s = hdr ++ stream r' /\ length hdr = 8%nat /\ be_get (take 2 hdr) = m /\ m <> Magic
  | (Err (UnsupportedVersion v), r') =>
      exists hdr, s = hdr ++ stream r' /\ length hdr = 8%nat /\ be_get (take 2 hdr) = Magic /\
        be_get (take 2 (drop 2 hdr)) = v /\ v <> Version
  | (Err (PayloadTooLarge n), r') => s = frame_hdr n ++ stream r' /\ MaxPayload < n
  | (Err (PayloadError _), _) =>
      exists n rest, s = frame_hdr n ++ rest /\ len rest < n <= MaxPayload
  | (Err (WriteError _), _) => False
  end.
Proof.
  destruct (stream_shape r) as [Hs|[(rest & hdr & Hs & Hh & Hbad)|(v & rest & Hs & Hv)]].
  - destruct (ReadFull_short r 8) as (r' & Hr); [done|]. unfold ReadFrame.
    change (Z.to_nat HeaderSize) with 8%nat. rewrite Hr. done.
  - destruct (ReadFull_ok r 8) as (r1 & Hr & Hs1 & _); [rewrite Hs, length_app; lia|].
    rewrite Hs, take_app_length' in Hr by done. rewrite Hs, drop_app_length' in Hs1 by done.
    unfold ReadFrame. change (Z.to_nat HeaderSize) with 8%nat. rewrite Hr. cbv zeta.
    destruct Hbad as [Hm|[Hm Hv]].
    + destruct (Z.eqb_spec (be_get (take 2 hdr)) Magic); [done|]. cbn [negb].
      exists hdr. by rewrite Hs1.
    + rewrite Hm, Z.eqb_refl. destruct (Z.eqb_spec (be_get (take 2 (drop 2 hdr))) Version); [done|]. cbn [negb].
      exists hdr. by rewrite Hs1.
  - destruct (ReadFrame_header r v rest Hv Hs) as (r1 & Hs1 & _ & ->).
    destruct (Z.ltb_spec MaxPayload v) as [Hbig|Hok]; [by rewrite Hs1|].
    destruct (decide (Z.to_nat v <= length rest)%nat) as [Hl|Hl].
    + destruct (ReadFull_ok r1 (Z.to_nat v)) as (r2 & -> & Hs2 & _); [by rewrite Hs1|].
      rewrite Hs2, Hs1, frame_bytes_hdr, length_take, Nat.min_l, Z2Nat.id by lia.
      by rewrite <- app_assoc, take_drop.
    + destruct (ReadFull_short r1 (Z.to_nat v)) as (r2 & ->); [rewrite Hs1; lia|].
      exists v, rest. split; [done|lia].
Qed.

(** [WriteFrame] refuses exactly the payloads above the limit, without
    writing a byte of them, and otherwise hands the writer the whole frame in a single
    write. *)
Theorem WriteFrame_cases {T} `{Writer T} (w : T) (payload : bytes) :
  WriteFrame w payload =
    if bool_decide (len payload <= MaxPayload)
    then let (res, w') := wr w (frame_bytes payload) in
         (match res with Ok _ => Ok tt | Err e => Err (WriteError e) end, w')
    else (Err (PayloadTooLarge (len payload)), w).
Proof.
  unfold WriteFrame. case_bool_decide; destruct (Z.ltb_spec MaxPayload (len payload)); try lia; [|done].
  by destruct (wr w (frame_bytes payload)) as [[[]|e] w'].
Qed.
