(* ===== verification/Noise.v ===== *)
(** * Noise: the encrypted connection

    Models [internal/transport/noise.go]: the Noise XX handshake with its
    message framing, and [noiseConn], the encrypting [io.ReadWriter] between
    the framing layer and the TCP connection.  The Noise protocol itself
    ([github.com/flynn/noise]) is an interface: its cipher states and its
    handshake states, with the laws the program relies on. *)

From S2P Require Import Prelude Bytes Stream Frame.
From Stdlib Require Import Init.Byte.

(** ** The Noise library *)

(** A [CipherState]: encryption and decryption return the ciphertext or the
    plaintext and the state with the next nonce; a failed call leaves the
    state unchanged. *)
Class Cipher := {
  CipherState : Type;
  Encrypt : CipherState -> bytes -> option (bytes * CipherState);
  Decrypt : CipherState -> bytes -> option (bytes * CipherState)
}.

Definition tagSize : nat := 16.

Class CipherLaws `{Cipher} := {
  (* the sender's and the receiver's state of one direction *)
  cs_sync : CipherState -> CipherState -> Prop;
  Decrypt_Encrypt s r p c s' : cs_sync s r -> Encrypt s p = Some (c, s') ->
    exists r', Decrypt r c = Some (p, r') /\ cs_sync s' r';
  Encrypt_length s p c s' : Encrypt s p = Some (c, s') -> length c = (length p + tagSize)%nat;
  Decrypt_length r c p r' : Decrypt r c = Some (p, r') -> length c = (length p + tagSize)%nat
}.

(** A [HandshakeState] of the pattern XX with empty payloads. The last
    message of the pattern yields the two cipher states. *)
Record DHKey := mkDHKey { DHPrivate : bytes; DHPublic : bytes }.

Class NoiseXX `{Cipher} := {
  HandshakeState : Type;
  NewHandshakeState : bool -> DHKey -> option HandshakeState;
  WriteMessage : HandshakeState ->
    option (bytes * option (CipherState * CipherState) * HandshakeState);
  ReadMessage : HandshakeState -> bytes ->
    option (option (CipherState * CipherState) * HandshakeState);
  hs_PeerStatic : HandshakeState -> bytes
}.

(** ** Handshake messages: [[2B length][message]] *)

Inductive handshake_error :=
| HandshakeConfig
| HandshakeMessageTooLarge (n : Z)
| HandshakeIO (e : io_error)
| HandshakeWrite
| HandshakeRead
| HandshakeUnfinished.

Section Messages.
Context {C : Type} `{Conn C}.

Definition writeHandshakeMsg (w : C) (msg : bytes) : result unit handshake_error * C :=
  if 0xFFFF <? len msg then (Err (HandshakeMessageTooLarge (len msg)), w)
  else
    match wr w (be_put 2 (len msg)) with
    | (Err e, w1) => (Err (HandshakeIO e), w1)
    | (Ok _, w1) =>
        match wr w1 msg with
        | (Err e, w2) => (Err (HandshakeIO e), w2)
        | (Ok _, w2) => (Ok tt, w2)
        end
    end.

Definition readHandshakeMsg (r : C) : result bytes handshake_error * C :=
  match ReadFull r 2 with
  | (Err e, r1) => (Err (HandshakeIO e), r1)
  | (Ok lenBuf, r1) =>
      match ReadFull r1 (Z.to_nat (be_get lenBuf)) with
      | (Err e, r2) => (Err (HandshakeIO e), r2)
      | (Ok msg, r2) => (Ok msg, r2)
      end
  end.
End Messages.

(** ** The connection *)

Section NoiseConn.
Context `{Cipher} {C : Type} `{Conn C}.

Record noiseConn := mkNoiseConn {
  nc_conn : C;
  nc_send : CipherState;
  nc_recv : CipherState;
  nc_readBuf : bytes;
  nc_peerStatic : bytes
}.

Definition maxNoiseMsg : Z := MaxPayload + HeaderSize + 16.

Definition nc_set_conn (nc : noiseConn) (c : C) : noiseConn :=
  mkNoiseConn c (nc_send nc) (nc_recv nc) (nc_readBuf nc) (nc_peerStatic nc).

(** [noiseConn.Write]. A failed encryption is reported as a failure of the
    transport. *)
Definition noise_Write (nc : noiseConn) (p : bytes) : result unit io_error * noiseConn :=
  match Encrypt (nc_send nc) p with
  | None => (Err Broken, nc)
  | Some (ciphertext, s') =>
      let nc1 := mkNoiseConn (nc_conn nc) s' (nc_recv nc) (nc_readBuf nc) (nc_peerStatic nc) in
      match wr (nc_conn nc1) (be_put 4 (len ciphertext)) with
      | (Err e, c1) => (Err e, nc_set_conn nc1 c1)
      | (Ok _, c1) =>
          match wr c1 ciphertext with
          | (Err e, c2) => (Err e, nc_set_conn nc1 c2)
          | (Ok _, c2) => (Ok tt, nc_set_conn nc1 c2)
          end
      end
  end.

(** [noiseConn.Read] into a buffer of [n] bytes. *)
Definition noise_Read (nc : noiseConn) (n : nat) : result bytes io_error * noiseConn :=
  match nc_readBuf nc with
  | _ :: _ =>
      (Ok (take n (nc_readBuf nc)),
       mkNoiseConn (nc_conn nc) (nc_send nc) (nc_recv nc) (drop n (nc_readBuf nc)) (nc_peerStatic nc))
  | [] =>
      match ReadFull (nc_conn nc) 4 with
      | (Err e, c1) => (Err e, nc_set_conn nc c1)
      | (Ok lenBuf, c1) =>
          let msgLen := be_get lenBuf in
          if maxNoiseMsg <? msgLen then (Err (NoiseMessageTooLarge msgLen), nc_set_conn nc c1)
          else
            match ReadFull c1 (Z.to_nat msgLen) with
            | (Err e, c2) => (Err e, nc_set_conn nc c2)
            | (Ok ciphertext, c2) =>
                match Decrypt (nc_recv nc) ciphertext with
                | None => (Err NoiseDecrypt, nc_set_conn nc c2)
                | Some (plaintext, r') =>
                    (Ok (take n plaintext),
                     mkNoiseConn c2 (nc_send nc) r' (drop n plaintext) (nc_peerStatic nc))
                end
            end
      end
  end.

#[export] Instance noise_writer : Writer noiseConn := noise_Write.

#[export] Instance noise_reader : Reader noiseConn := {
  rd := noise_Read;
  rd_fuel nc := (rd_fuel (nc_conn nc) + length (nc_readBuf nc))%nat
}.

(** The deadlines are those of the connection below. *)
Definition noise_SetReadDeadline (nc : noiseConn) : bool := SetReadDeadline (nc_conn nc).
Definition noise_SetWriteDeadline (nc : noiseConn) : bool := SetWriteDeadline (nc_conn nc).

#[export] Instance noise_conn : Conn noiseConn := {
  SetReadDeadline := noise_SetReadDeadline;
  SetWriteDeadline := noise_SetWriteDeadline
}.
End NoiseConn.
Arguments noiseConn {_} C.

(** ** The handshake *)

Section Handshake.
Context `{NoiseXX} {C : Type} `{Conn C}.

(** One message in each direction: [hs.WriteMessage] and its framing, and
    the converse. *)
Definition hs_send (conn : C) (hs : HandshakeState) :
    result (option (CipherState * CipherState) * HandshakeState) handshake_error * C :=
  match WriteMessage hs with
  | None => (Err HandshakeWrite, conn)
  | Some (msg, cs, hs') =>
      match writeHandshakeMsg conn msg with
      | (Err e, c') => (Err e, c')
      | (Ok _, c') => (Ok (cs, hs'), c')
      end
  end.

Definition hs_recv (conn : C) (hs : HandshakeState) :
    result (option (CipherState * CipherState) * HandshakeState) handshake_error * C :=
  match readHandshakeMsg conn with
  | (Err e, c') => (Err e, c')
  | (Ok msg, c') =>
      match ReadMessage hs msg with
      | None => (Err HandshakeRead, c')
      | Some (cs, hs') => (Ok (cs, hs'), c')
      end
  end.

(** The three messages of the initiator and of the responder, ending in the
    pair (send, receive) of cipher states. The responder's cipher states are
    the initiator's in the other order. [HandshakeUnfinished] is the case in
    which the library does not return them with the third message. *)
Definition initiator_run (conn : C) (hs : HandshakeState) :
    result (CipherState * CipherState * HandshakeState) handshake_error * C :=
  match hs_send conn hs with
  | (Err e, c1) => (Err e, c1)
  | (Ok (_, hs1), c1) =>
      match hs_recv c1 hs1 with
      | (Err e, c2) => (Err e, c2)
      | (Ok (_, hs2), c2) =>
          match hs_send c2 hs2 with
          | (Err e, c3) => (Err e, c3)
          | (Ok (Some (cs1, cs2), hs3), c3) => (Ok (cs1, cs2, hs3), c3)
          | (Ok (None, _), c3) => (Err HandshakeUnfinished, c3)
          end
      end
  end.

Definition responder_run (conn : C) (hs : HandshakeState) :
    result (CipherState * CipherState * HandshakeState) handshake_error * C :=
  match hs_recv conn hs with
  | (Err e, c1) => (Err e, c1)
  | (Ok (_, hs1), c1) =>
      match hs_send c1 hs1 with
      | (Err e, c2) => (Err e, c2)
      | (Ok (_, hs2), c2) =>
          match hs_recv c2 hs2 with
          | (Err e, c3) => (Err e, c3)
          | (Ok (Some (cs1, cs2), hs3), c3) => (Ok (cs2, cs1, hs3), c3)
          | (Ok (None, _), c3) => (Err HandshakeUnfinished, c3)
          end
      end
  end.

Definition Handshake (conn : C) (initiator : bool) (staticKey : DHKey) :
    result (noiseConn C * bytes) handshake_error * C :=
  match NewHandshakeState initiator staticKey with
  | None => (Err HandshakeConfig, conn)
  | Some hs =>
      match (if initiator then initiator_run conn hs else responder_run conn hs) with
      | (Err e, c) => (Err e, c)
      | (Ok (send, recv, hs'), c) =>
          (Ok (mkNoiseConn c send recv [] (hs_PeerStatic hs'), hs_PeerStatic hs'), c)
      end
  end.
End Handshake.

(** ** What a [noiseConn] delivers *)

Section NoiseReader.
Context `{CipherLaws} {C : Type} `{ConnLaws C}.
Implicit Types (nc : noiseConn C) (s p : bytes) (r : CipherState).

(** The error of a read that finds [s] instead of enough bytes. *)
Definition short_err (s : bytes) (fin : io_error) : io_error :=
  if bool_decide (fin = EOF) && negb (bool_decide (s = [])) then UnexpectedEOF else fin.

(** The plaintext that a sequence of Noise messages carries up to the first
    one that cannot be read, and the error that one raises. *)
Fixpoint plain (fuel : nat) (r : CipherState) (s : bytes) (fin : io_error) : bytes * io_error :=
  match fuel with
  | O => ([], fin)
  | S fuel' =>
      if (length s <? 4)%nat then ([], short_err s fin)
      else
        let n := be_get (take 4 s) in
        if maxNoiseMsg <? n then ([], NoiseMessageTooLarge n)
        else
          let s1 := drop 4 s in
          if (length s1 <? Z.to_nat n)%nat then ([], short_err s1 fin)
          else
            match Decrypt r (take (Z.to_nat n) s1) with
            | None => ([], NoiseDecrypt)
            | Some (p, r') =>
                let (q, e) := plain fuel' r' (drop (Z.to_nat n) s1) fin in (p ++ q, e)
            end
  end.

Definition plain_stream (r : CipherState) (s : bytes) (fin : io_error) : bytes * io_error :=
  plain (S (length s)) r s fin.

Lemma plain_fuel fuel1 fuel2 r s fin :
  (length s < fuel1)%nat -> (length s < fuel2)%nat -> plain fuel1 r s fin = plain fuel2 r s fin.
Proof.
  revert fuel2 r s. induction fuel1 as [|fuel1 IH]; intros [|fuel2] r s Hl1 Hl2; try lia.
  cbn [plain]. destruct (Nat.ltb_spec (length s) 4); [done|]. cbv zeta.
  split_if; [done|]. split_if; [done|]. destruct (Decrypt _ _) as [[p r']|]; [|done].
  by rewrite (IH fuel2) by (rewrite !length_drop; lia).
Qed.

Lemma plain_stream_eq r s fin :
  plain_stream r s fin =
    if (length s <? 4)%nat then ([], short_err s fin)
    else
      let n := be_get (take 4 s) in
      if maxNoiseMsg <? n then ([], NoiseMessageTooLarge n)
      else
        let s1 := drop 4 s in
        if (length s1 <? Z.to_nat n)%nat then ([], short_err s1 fin)
        else
          match Decrypt r (take (Z.to_nat n) s1) with
          | None => ([], NoiseDecrypt)
          | Some (p, r') =>
              let (q, e) := plain_stream r' (drop (Z.to_nat n) s1) fin in (p ++ q, e)
          end.
Proof.
  unfold plain_stream at 1. cbn [plain]. destruct (Nat.ltb_spec (length s) 4); [done|]. cbv zeta.
  split_if; [done|]. split_if; [done|]. destruct (Decrypt _ _) as [[p r']|]; [|done].
  unfold plain_stream. by rewrite (plain_fuel _ (S (length (drop (Z.to_nat (be_get (take 4 s))) (drop 4 s)))))
    by (rewrite !length_drop; lia).
Qed.

(** A read with nothing buffered raises the error that ends the plaintext or
    returns the beginning of the next message, buffering the rest. *)
Lemma noise_Read_empty nc n :
  nc_readBuf nc = [] ->
  let c := nc_conn nc in
  let (q, e) := plain_stream (nc_recv nc) (stream c) (final c) in
  (q = [] /\ exists nc', noise_Read nc n = (Err e, nc')) \/
  (exists p r' c' q', noise_Read nc n =
      (Ok (take n p), mkNoiseConn c' (nc_send nc) r' (drop n p) (nc_peerStatic nc)) /\
    q = p ++ q' /\ plain_stream r' (stream c') (final c') = (q', e) /\
    (rd_fuel c' + length p + tagSize <= rd_fuel c)%nat).
Proof.
  intros Hbuf c. unfold noise_Read. rewrite Hbuf, plain_stream_eq. fold c.
  destruct (Nat.ltb_spec (length (stream c)) 4) as [Hs|Hs].
  { left. destruct (ReadFull_short c 4 Hs) as (c1 & ->). eauto. }
  destruct (ReadFull_ok c 4 Hs) as (c1 & -> & Hs1 & Hf1 & Hfu1). cbv zeta. rewrite <- Hs1, <- Hf1.
  set (m := be_get (take 4 (stream c))).
  destruct (maxNoiseMsg <? m); [left; eauto|].
  destruct (Nat.ltb_spec (length (stream c1)) (Z.to_nat m)) as [Hm|Hm].
  { left. destruct (ReadFull_short c1 _ Hm) as (c2 & ->). eauto. }
  destruct (ReadFull_ok c1 _ Hm) as (c2 & -> & Hs2 & Hf2 & Hfu2). rewrite <- Hs2, <- Hf2.
  destruct (Decrypt (nc_recv nc) _) as [[p r']|] eqn:Hd; [|left; eauto].
  destruct (plain_stream r' _ _) as [q e] eqn:Hp. right. exists p, r', c2, q. split_and!; [done|done|done|].
  apply Decrypt_length in Hd. rewrite length_take, Nat.min_l in Hd by done. lia.
Qed.

Definition noise_stream nc : bytes :=
  nc_readBuf nc ++ fst (plain_stream (nc_recv nc) (stream (nc_conn nc)) (final (nc_conn nc))).
Definition noise_final nc : io_error :=
  snd (plain_stream (nc_recv nc) (stream (nc_conn nc)) (final (nc_conn nc))).

Lemma noise_buffered nc n :
  (0 < n)%nat -> nc_readBuf nc <> [] ->
  exists b nc', noise_Read nc n = (Ok b, nc') /\ (length b <= n)%nat /\ b <> [] /\
    noise_stream nc = b ++ noise_stream nc' /\ noise_final nc' = noise_final nc /\
    (rd_fuel nc' + Nat.max 1 (length b) <= rd_fuel nc)%nat.
Proof.
  intros Hn Hb. destruct nc as [c s r buf ps]. unfold noise_Read. simpl in *.
  destruct buf as [|x buf]; [done|]. destruct n as [|n]; [lia|]. eexists _, _. split; [done|].
  unfold noise_stream, noise_final. simpl. rewrite length_take, length_drop.
  split_and!; [lia|done| |done|lia]. by rewrite app_assoc, take_drop.
Qed.

#[export] Program Instance noise_reader_laws : ReaderLaws (noiseConn C) := {
  stream := noise_stream;
  final := noise_final
}.
Next Obligation.
  intros nc n Hn Hs. destruct (decide (nc_readBuf nc = [])) as [Hb|Hb].
  2:{ destruct (noise_buffered nc n Hn Hb) as (b & nc' & ? & ? & ? & ? & ? & ?); eauto 10. }
  pose proof (noise_Read_empty nc n Hb) as Hr. unfold noise_stream, noise_final in *. rewrite Hb in *.
  destruct (plain_stream _ _ _) as [q e]. simpl in *.
  destruct Hr as [[-> _]|(p & r' & c' & q' & Hr & -> & Hp & Hfu)]; [done|].
  eexists _, _. split; [exact Hr|]. rewrite Hb. simpl. rewrite Hp, length_take, length_drop. simpl.
  unfold tagSize in Hfu. split_and!; [lia| |done|lia]. by rewrite app_assoc, take_drop.
Qed.
Next Obligation.
  intros nc n Hn Hs. destruct (decide (nc_readBuf nc = [])) as [Hb|Hb].
  2:{ unfold noise_stream in Hs. apply app_nil in Hs as [? _]. done. }
  pose proof (noise_Read_empty nc n Hb) as Hr. unfold noise_stream, noise_final in *. rewrite Hb in *.
  destruct (plain_stream _ _ _) as [q e]. simpl in *. subst q.
  destruct Hr as [[_ [nc' Hr]]|(p & r' & c' & q' & Hr & Hq & Hp & Hfu)]; [left; eauto|right].
  symmetry in Hq. apply app_nil in Hq as [-> ->].
  eexists. rewrite take_nil in Hr. split; [exact Hr|]. rewrite Hb. simpl. rewrite Hp, drop_nil. simpl.
  unfold tagSize in Hfu. split_and!; [done|done|lia].
Qed.

Lemma noise_Write_reads nc b res nc' :
  noise_Write nc b = (res, nc') ->
  nc_recv nc' = nc_recv nc /\ nc_readBuf nc' = nc_readBuf nc /\
  stream (nc_conn nc') = stream (nc_conn nc) /\ final (nc_conn nc') = final (nc_conn nc).
Proof.
  unfold noise_Write. destruct (Encrypt (nc_send nc) b) as [[c s']|]; [|by intros [= _ <-]].
  cbn [nc_conn]. destruct (wr (nc_conn nc) (be_put 4 (len c))) as [[[]|e] c1] eqn:Hw1.
  - destruct (wr c1 c) as [[[]|e] c2] eqn:Hw2; intros [= _ <-]; simpl;
      apply wr_stream in Hw1 as (? & ? & _); apply wr_stream in Hw2 as (? & ? & _); split_and!; congruence.
  - apply wr_stream in Hw1 as (? & ? & _). intros [= _ <-]. done.
Qed.

#[export] Program Instance noise_duplex_laws : DuplexLaws (noiseConn C) := {
  duplex_reader_laws := noise_reader_laws
}.
Next Obligation.
  intros nc b res nc' (Hr & Hb & Hs & Hf)%noise_Write_reads.
  cbn. unfold noise_stream, noise_final. by rewrite Hr, Hb, Hs, Hf.
Qed.
End NoiseReader.

(** ** The two ends of a connection *)

(** Writing payloads one after the other, stopping at the first failure. *)
Fixpoint write_frames {T} `{Writer T} (ps : list bytes) (w : T) : result unit frame_error * T :=
  match ps with
  | [] => (Ok tt, w)
  | p :: ps' =>
      match WriteFrame w p with
      | (Ok _, w') => write_frames ps' w'
      | (Err e, w') => (Err e, w')
      end
  end.

Lemma WriteFrame_ok {T} `{Writer T} (w w' : T) p :
  WriteFrame w p = (Ok tt, w') -> len p <= MaxPayload /\ wr w (frame_bytes p) = (Ok tt, w').
Proof.
  unfold WriteFrame. destruct (Z.ltb_spec MaxPayload (len p)); [done|].
  destruct (wr w (frame_bytes p)) as [[[]|e] w1]; [|done]. by intros [= <-].
Qed.

Section Channel.
Context `{CipherLaws} {C : Type} `{ConnLaws C}.
Implicit Types (a b : noiseConn C) (p : bytes).

Definition noise_msg (c : bytes) : bytes := be_put 4 (len c) ++ c.

Lemma noise_Write_ok a a' p :
  noise_Write a p = (Ok tt, a') ->
  exists c, Encrypt (nc_send a) p = Some (c, nc_send a') /\
    written (nc_conn a') = written (nc_conn a) ++ noise_msg c.
Proof.
  unfold noise_Write. destruct (Encrypt (nc_send a) p) as [[c s']|]; [|done]. simpl.
  destruct (wr (nc_conn a) _) as [[[]|e] c1] eqn:Hw1; [|done].
  destruct (wr c1 c) as [[[]|e] c2] eqn:Hw2; [|done]. intros [= <-]. simpl.
  apply wr_ok in Hw1, Hw2. exists c. split; [done|]. unfold noise_msg. by rewrite Hw2, Hw1, <- app_assoc.
Qed.

(** Every frame within the payload limit makes a Noise message within the
    receiver's limit. *)
Lemma frame_fits s p c s' :
  len p <= MaxPayload -> Encrypt s (frame_bytes p) = Some (c, s') -> len c <= maxNoiseMsg.
Proof.
  intros Hp Hc. apply Encrypt_length in Hc. rewrite Hc, length_frame_bytes.
  unfold maxNoiseMsg, HeaderSize, tagSize. lia.
Qed.

Lemma noise_Read_msg b n c r' pt rest :
  nc_readBuf b = [] -> stream (nc_conn b) = noise_msg c ++ rest -> len c <= maxNoiseMsg ->
  Decrypt (nc_recv b) c = Some (pt, r') ->
  exists c2, noise_Read b n =
      (Ok (take n pt), mkNoiseConn c2 (nc_send b) r' (drop n pt) (nc_peerStatic b)) /\
    stream c2 = rest.
Proof.
  intros Hb Hs Hc Hd. unfold noise_msg in Hs. rewrite <- app_assoc in Hs.
  assert (be_get (be_put 4 (len c)) = len c) as Hlen.
  { rewrite be_get_put. apply Z.mod_small. unfold maxNoiseMsg in Hc. change MaxPayload with (2 ^ 20) in Hc.
    unfold HeaderSize in Hc. simpl. lia. }
  unfold noise_Read. rewrite Hb.
  destruct (ReadFull_ok (nc_conn b) 4) as (c1 & -> & Hs1 & _).
  { rewrite Hs, length_app, length_be_put. lia. }
  rewrite Hs in *. rewrite take_app_length' by by rewrite length_be_put.
  rewrite drop_app_length' in Hs1 by by rewrite length_be_put. rewrite Hlen.
  destruct (Z.ltb_spec maxNoiseMsg (len c)); [lia|]. rewrite Nat2Z.id.
  destruct (ReadFull_ok c1 (length c)) as (c2 & -> & Hs2 & _); [rewrite Hs1, length_app; lia|].
  rewrite Hs1 in *. rewrite take_app_length, drop_app_length in *. rewrite Hd. eauto.
Qed.

(** One frame through the encrypted connection: the reader has consumed
    exactly its message and has nothing buffered. *)
Lemma noise_ReadFrame s s' b c p rest :
  cs_sync s (nc_recv b) -> nc_readBuf b = [] -> len p <= MaxPayload ->
  Encrypt s (frame_bytes p) = Some (c, s') -> stream (nc_conn b) = noise_msg c ++ rest ->
  exists b', ReadFrame b = (Ok p, b') /\ nc_readBuf b' = [] /\ stream (nc_conn b') = rest /\
    cs_sync s' (nc_recv b') /\ nc_peerStatic b' = nc_peerStatic b.
Proof.
  intros Hsync Hb Hp Hc Hs. pose proof (frame_fits _ _ _ _ Hp Hc) as Hfit.
  destruct (Decrypt_Encrypt _ _ _ _ _ Hsync Hc) as (r' & Hd & Hsync').
  destruct (noise_Read_msg b 8 c r' (frame_bytes p) rest Hb Hs Hfit Hd) as (c2 & Hr & Hs2).
  rewrite frame_bytes_hdr in Hr.
  rewrite take_app_length', drop_app_length' in Hr by by rewrite length_frame_hdr.
  unfold ReadFrame. change (Z.to_nat HeaderSize) with 8%nat.
  pose proof (ReadFull_one b 8 _ _ (Hr : rd b 8 = _)) as Hrf.
  rewrite length_frame_hdr in Hrf. rewrite Hrf by lia. cbv zeta.
  change MaxPayload with (2 ^ 20) in *.
  destruct (frame_hdr_fields (len p)) as (-> & -> & ->); [lia|]. rewrite !Z.eqb_refl. cbn [negb].
  destruct (Z.ltb_spec (2 ^ 20) (len p)); [lia|]. rewrite Nat2Z.id.
  destruct p as [|x p]; [rewrite ReadFull_0; by eexists|].
  erewrite ReadFull_one; [|reflexivity| |simpl; lia]; [|by rewrite firstn_all].
  rewrite firstn_all. eexists. split; [done|]. simpl. by rewrite skipn_all.
Qed.

Lemma write_frames_written ps a a' :
  write_frames ps a = (Ok tt, a') -> exists out, written (nc_conn a') = written (nc_conn a) ++ out.
Proof.
  revert a. induction ps as [|p ps IH]; intros a; cbn [write_frames].
  - intros [= <-]. exists []. by rewrite app_nil_r.
  - destruct (WriteFrame a p) as [[[]|e] a1] eqn:Hw; [|done]. intros (out & Hout)%IH.
    apply WriteFrame_ok in Hw as [_ Hw]. destruct (noise_Write_ok _ _ _ Hw) as (c & _ & Hw1).
    rewrite Hout, Hw1, <- app_assoc. eauto.
Qed.

(** The same for a sequence of frames. *)
Lemma channel_frames ps a a' b out rest :
  cs_sync (nc_send a) (nc_recv b) -> nc_readBuf b = [] ->
  write_frames ps a = (Ok tt, a') -> written (nc_conn a') = written (nc_conn a) ++ out ->
  stream (nc_conn b) = out ++ rest ->
  exists b', read_frames (length ps) b = (ps, b') /\ nc_readBuf b' = [] /\
    stream (nc_conn b') = rest /\ cs_sync (nc_send a') (nc_recv b').
Proof.
  revert a b out. induction ps as [|p ps IH]; intros a b out Hsync Hb Hw Hout Hs; cbn in Hw.
  - injection Hw as <-. rewrite <- (app_nil_r (written (nc_conn a))) in Hout at 1.
    apply app_inv_head in Hout as <-. by exists b.
  - destruct (WriteFrame a p) as [[[]|e] a1] eqn:Hw1; [|done].
    apply WriteFrame_ok in Hw1 as [Hp Hw1]. destruct (noise_Write_ok _ _ _ Hw1) as (c & Hc & Hwr).
    destruct (write_frames_written _ _ _ Hw) as (out1 & Hout1).
    assert (out = noise_msg c ++ out1) as ->.
    { rewrite Hout1, Hwr, <- app_assoc in Hout. by apply app_inv_head in Hout. }
    rewrite <- app_assoc in Hs.
    destruct (noise_ReadFrame _ _ b c p _ Hsync Hb Hp Hc Hs) as (b1 & Hr1 & Hb1 & Hs1 & Hsync1 & _).
    destruct (IH a1 b1 out1 Hsync1 Hb1 Hw Hout1 Hs1) as (b2 & Hr2 & Hrest).
    exists b2. cbn [length read_frames]. by rewrite Hr1, Hr2.
Qed.
End Channel.

(** ** The handshake of the two ends *)

Class NoiseXXLaws `{NoiseXX, !CipherLaws} : Prop := {
  (* the pattern XX run between two honest ends *)
  XX_run ki kr hi hr :
    NewHandshakeState true ki = Some hi -> NewHandshakeState false kr = Some hr ->
    exists m1 m2 m3 hi1 hi2 hi3 hr1 hr2 hr3 c1 c2 c1' c2',
      WriteMessage hi = Some (m1, None, hi1) /\ ReadMessage hr m1 = Some (None, hr1) /\
      WriteMessage hr1 = Some (m2, None, hr2) /\ ReadMessage hi1 m2 = Some (None, hi2) /\
      WriteMessage hi2 = Some (m3, Some (c1, c2), hi3) /\
      ReadMessage hr2 m3 = Some (Some (c1', c2'), hr3) /\
      cs_sync c1 c1' /\ cs_sync c2' c2 /\
      hs_PeerStatic hi3 = DHPublic kr /\ hs_PeerStatic hr3 = DHPublic ki /\
      len m1 <= 0xFFFF /\ len m2 <= 0xFFFF /\ len m3 <= 0xFFFF
}.

Section HandshakeProps.
Context `{NoiseXXLaws} {C : Type} `{ConnLaws C}.
Implicit Types (conn : C).

Definition hs_wire (m : bytes) : bytes := be_put 2 (len m) ++ m.

Lemma writeHandshakeMsg_ok conn m :
  len m <= 0xFFFF -> writable conn ->
  exists conn', writeHandshakeMsg conn m = (Ok tt, conn') /\ writable conn' /\
    written conn' = written conn ++ hs_wire m /\ stream conn' = stream conn.
Proof.
  intros Hm Hw. unfold writeHandshakeMsg. destruct (Z.ltb_spec 0xFFFF (len m)); [lia|].
  destruct (wr_writable conn (be_put 2 (len m)) Hw) as (c1 & Hc1 & Hw1). rewrite Hc1.
  destruct (wr_writable c1 m Hw1) as (c2 & Hc2 & Hw2). rewrite Hc2.
  exists c2. apply wr_stream in Hc1 as Hs1. apply wr_stream in Hc2 as Hs2. apply wr_ok in Hc1, Hc2.
  split_and!; [done|done| |]; [|destruct Hs1, Hs2; congruence].
  unfold hs_wire. by rewrite Hc2, Hc1, <- app_assoc.
Qed.

Lemma readHandshakeMsg_ok conn m rest :
  len m <= 0xFFFF -> stream conn = hs_wire m ++ rest ->
  exists conn', readHandshakeMsg conn = (Ok m, conn') /\ stream conn' = rest /\
    written conn' = written conn /\ (writable conn -> writable conn').
Proof.
  intros Hm Hs. unfold hs_wire in Hs. rewrite <- app_assoc in Hs. unfold readHandshakeMsg.
  destruct (ReadFull_ok conn 2) as (c1 & Hr1 & Hs1 & _); [rewrite Hs, length_app, length_be_put; lia|].
  rewrite Hs in *. rewrite take_app_length' in Hr1 by by rewrite length_be_put.
  rewrite drop_app_length' in Hs1 by by rewrite length_be_put. rewrite Hr1.
  rewrite be_get_put, Z.mod_small, Nat2Z.id by (simpl; lia).
  destruct (ReadFull_ok c1 (length m)) as (c2 & Hr2 & Hs2 & _); [rewrite Hs1, length_app; lia|].
  rewrite Hs1 in *. rewrite take_app_length in Hr2. rewrite drop_app_length in Hs2. rewrite Hr2.
  exists c2. split_and!; [done|done| |].
  - apply (ReadFull_preserves (fun c => written c = written conn) c1 _ _ _) in Hr2; [done| |].
    + intros ???? Hrd <-. by eapply rd_written.
    + eapply (ReadFull_preserves (fun c => written c = written conn)) in Hr1; [done| |done].
      intros ???? Hrd <-. by eapply rd_written.
  - intros Hw. eapply (ReadFull_preserves writable) in Hr1; [|by eauto using rd_writable|done].
    eapply (ReadFull_preserves writable) in Hr2; [done|by eauto using rd_writable|done].
Qed.

Lemma hs_send_ok conn hs m cs hs' :
  WriteMessage hs = Some (m, cs, hs') -> len m <= 0xFFFF -> writable conn ->
  exists conn', hs_send conn hs = (Ok (cs, hs'), conn') /\ writable conn' /\
    written conn' = written conn ++ hs_wire m /\ stream conn' = stream conn.
Proof.
  intros Hm Hl Hw. destruct (writeHandshakeMsg_ok conn m Hl Hw) as (c' & Hc & Hrest).
  exists c'. unfold hs_send. by rewrite Hm, Hc.
Qed.

Lemma hs_recv_ok conn hs m cs hs' rest :
  ReadMessage hs m = Some (cs, hs') -> len m <= 0xFFFF -> stream conn = hs_wire m ++ rest ->
  exists conn', hs_recv conn hs = (Ok (cs, hs'), conn') /\ stream conn' = rest /\
    written conn' = written conn /\ (writable conn -> writable conn').
Proof.
  intros Hm Hl Hs. destruct (readHandshakeMsg_ok conn m rest Hl Hs) as (c' & Hc & Hrest).
  exists c'. unfold hs_recv. by rewrite Hc, Hm.
Qed.
End HandshakeProps.

(** ** Properties *)

(** C13. The handshake of two honest ends completes: there are three
    messages such that, when each end reads from its connection exactly what
    the other end writes to it, both handshakes succeed; each end obtains the
    other's static key, the sending state of each end is the receiving state
    of the other, nothing is buffered, and bytes that follow the handshake
    stay unread on the connections. *)
Theorem Handshake_agrees `{NoiseXXLaws} {C} `{ConnLaws C} (ki kr : DHKey) hi hr
  (Hi : NewHandshakeState true ki = Some hi) (Hr : NewHandshakeState false kr = Some hr) :
  exists m1 m2 m3, forall (ci cr : C) (resti restr : bytes),
    writable ci -> writable cr ->
    stream cr = (hs_wire m1 ++ hs_wire m3) ++ restr -> stream ci = hs_wire m2 ++ resti ->
    exists nci ncr ci' cr',
      Handshake ci true ki = (Ok (nci, DHPublic kr), ci') /\
      Handshake cr false kr = (Ok (ncr, DHPublic ki), cr') /\
      written ci' = written ci ++ hs_wire m1 ++ hs_wire m3 /\ written cr' = written cr ++ hs_wire m2 /\
      cs_sync (nc_send nci) (nc_recv ncr) /\ cs_sync (nc_send ncr) (nc_recv nci) /\
      nc_readBuf nci = [] /\ nc_readBuf ncr = [] /\
      stream (nc_conn nci) = resti /\ stream (nc_conn ncr) = restr.
Proof.
  destruct (XX_run ki kr hi hr Hi Hr) as (m1 & m2 & m3 & hi1 & hi2 & hi3 & hr1 & hr2 & hr3 &
    c1 & c2 & c1' & c2' & Hw1 & Hr1 & Hw2 & Hr2 & Hw3 & Hr3 & Hs1 & Hs2 & Hpi & Hpr & Hl1 & Hl2 & Hl3).
  exists m1, m2, m3. intros ci cr resti restr Hwi Hwr Hsr Hsi. rewrite <- app_assoc in Hsr.
  destruct (hs_send_ok ci hi _ _ _ Hw1 Hl1 Hwi) as (ci1 & Ei1 & Hwi1 & Hwri1 & Hsi1).
  rewrite Hsi in Hsi1.
  destruct (hs_recv_ok ci1 hi1 _ _ _ _ Hr2 Hl2 Hsi1) as (ci2 & Ei2 & Hsi2 & Hwri2 & Hwi2).
  destruct (hs_send_ok ci2 hi2 _ _ _ Hw3 Hl3 (Hwi2 Hwi1)) as (ci3 & Ei3 & _ & Hwri3 & Hsi3).
  destruct (hs_recv_ok cr hr _ _ _ _ Hr1 Hl1 Hsr) as (cr1 & Er1 & Hsr1 & Hwrr1 & Hwr1).
  destruct (hs_send_ok cr1 hr1 _ _ _ Hw2 Hl2 (Hwr1 Hwr)) as (cr2 & Er2 & Hwr2 & Hwrr2 & Hsr2).
  rewrite Hsr1 in Hsr2.
  destruct (hs_recv_ok cr2 hr2 _ _ _ _ Hr3 Hl3 Hsr2) as (cr3 & Er3 & Hsr3 & Hwrr3 & _).
  unfold Handshake. rewrite Hi, Hr. unfold initiator_run, responder_run.
  rewrite Ei1, Ei2, Ei3, Er1, Er2, Er3, Hpi, Hpr.
  eexists _, _, _, _. do 2 (split; [reflexivity|]). cbn.
  rewrite Hwri3, Hwri2, Hwri1, Hwrr3, Hwrr2, Hwrr1, <- app_assoc. split_and!; congruence.
Qed.

(** The secure channel: the payloads that one end writes as frames
    are read by the other end, in order and each exactly once, through
    encryption and whatever segments TCP makes of the bytes. Afterwards the
    reader has nothing buffered, as the comment on [SetReadDeadline] says,
    has consumed exactly what was sent, and the two cipher states still match. *)
Theorem channel_in_order `{CipherLaws} {C} `{ConnLaws C} (ps : list bytes) (a a' b : noiseConn C)
  (out rest : bytes)
  (Hsync : cs_sync (nc_send a) (nc_recv b)) (Hbuf : nc_readBuf b = [])
  (Hwrite : write_frames ps a = (Ok tt, a'))
  (Hout : written (nc_conn a') = written (nc_conn a) ++ out)
  (Hnet : stream (nc_conn b) = out ++ rest) :
  exists b', read_frames (length ps) b = (ps, b') /\ nc_readBuf b' = [] /\
    stream (nc_conn b') = rest /\ cs_sync (nc_send a') (nc_recv b').
Proof. by eapply channel_frames. Qed.

(** ** Concrete instances

    A toy cipher that authenticates a message counter, and a toy handshake
    that exchanges the static keys, to evaluate the model on. *)

Definition toy_decrypt (r : Z) (c : bytes) : option (bytes * Z) :=
  let n := (length c - tagSize)%nat in
  if (tagSize <=? length c)%nat && bool_decide (drop n c = be_put tagSize r)
  then Some (take n c, r + 1) else None.

#[export] Instance toy_cipher : Cipher := {
  CipherState := Z;
  Encrypt s p := Some (p ++ be_put tagSize s, s + 1);
  Decrypt := toy_decrypt
}.

#[export] Program Instance toy_cipher_laws : CipherLaws := { cs_sync := eq }.
Next Obligation.
  intros s ? p c s' <- [= <- <-]. exists (s + 1). split; [|done]. cbn. unfold toy_decrypt. cbv zeta.
  rewrite length_app, length_be_put, Nat.add_sub. rewrite drop_app_length, take_app_length.
  rewrite (proj2 (Nat.leb_le _ _)) by lia. by rewrite bool_decide_true.
Qed.
Next Obligation. intros s p c s' [= <- <-]. by rewrite length_app, length_be_put. Qed.
Next Obligation.
  intros r c p r'. cbn. unfold toy_decrypt. destruct (Nat.leb_spec tagSize (length c)); [|done].
  case_bool_decide; [|done]. intros [= <- <-]. rewrite length_take. lia.
Qed.

Record toy_hs := mkToyHs { th_init : bool; th_step : nat; th_key : DHKey; th_peer : bytes }.

#[export] Instance toy_xx : NoiseXX := {
  HandshakeState := toy_hs;
  NewHandshakeState i k := if bool_decide (length (DHPublic k) = 32%nat) then Some (mkToyHs i 0 k []) else None;
  WriteMessage h :=
    match h with
    | mkToyHs true 0 k p => Some ([], None, mkToyHs true 1 k p)
    | mkToyHs false 1 k p => Some (DHPublic k, None, mkToyHs false 2 k p)
    | mkToyHs true 2 k p => Some (DHPublic k, Some (0, 2 ^ 64), mkToyHs true 3 k p)
    | _ => None
    end;
  ReadMessage h m :=
    match h with
    | mkToyHs false 0 k p => Some (None, mkToyHs false 1 k p)
    | mkToyHs true 1 k p => Some (None, mkToyHs true 2 k m)
    | mkToyHs false 2 k p => Some (Some (0, 2 ^ 64), mkToyHs false 3 k m)
    | _ => None
    end;
  hs_PeerStatic := th_peer
}.

#[export] Instance toy_xx_laws : NoiseXXLaws.
Proof.
  split. intros ki kr hi hr. cbn. do 2 (case_bool_decide; [|done]). intros [= <-] [= <-].
  eexists _, _, _, _, _, _, _, _, _, _, _, _, _. repeat (split; [reflexivity|]). cbn. lia.
Qed.

Lemma Handshake_agrees_witness :
  exists m1 m2 m3, forall (ci cr : tcp) (resti restr : bytes),
    writable ci -> writable cr ->
    stream cr = (hs_wire m1 ++ hs_wire m3) ++ restr -> stream ci = hs_wire m2 ++ resti ->
    exists nci ncr ci' cr',
      Handshake ci true (mkDHKey [] (repeat x01 32)) = (Ok (nci, repeat x02 32), ci') /\
      Handshake cr false (mkDHKey [] (repeat x02 32)) = (Ok (ncr, repeat x01 32), cr') /\
      written ci' = written ci ++ hs_wire m1 ++ hs_wire m3 /\ written cr' = written cr ++ hs_wire m2 /\
      cs_sync (nc_send nci) (nc_recv ncr) /\ cs_sync (nc_send ncr) (nc_recv nci) /\
      nc_readBuf nci = [] /\ nc_readBuf ncr = [] /\
      stream (nc_conn nci) = resti /\ stream (nc_conn ncr) = restr.
Proof.
  refine (Handshake_agrees (C := tcp) (mkDHKey [] (repeat x01 32)) (mkDHKey [] (repeat x02 32))
    (mkToyHs true 0 (mkDHKey [] (repeat x01 32)) []) (mkToyHs false 0 (mkDHKey [] (repeat x02 32)) []) _ _);
    reflexivity.
Defined.

(** Two frames over a connection whose segments split the first message. *)
Definition ex_out : bytes :=
  be_put 4 25 ++ frame_bytes [x01] ++ be_put 16 0 ++ be_put 4 24 ++ frame_bytes [] ++ be_put 16 1.
Definition ex_a : noiseConn tcp := mkNoiseConn (mkTcp (mkPieces []) [] true) 0 (2 ^ 64) [] [].
Definition ex_a' : noiseConn tcp := mkNoiseConn (mkTcp (mkPieces []) ex_out true) 2 (2 ^ 64) [] [].
Definition ex_b : noiseConn tcp :=
  mkNoiseConn (mkTcp (mkPieces [take 7 ex_out; drop 7 ex_out ++ [x09]]) [] true) (2 ^ 64) 0 [] [].

Lemma channel_in_order_witness :
  exists b', read_frames 2 ex_b = ([[x01]; []], b') /\ nc_readBuf b' = [] /\
    stream (nc_conn b') = [x09] /\ cs_sync (nc_send ex_a') (nc_recv b').
Proof.
  refine (channel_in_order [[x01]; []] ex_a ex_a' ex_b ex_out [x09] _ _ _ _ _); reflexivity.
Defined.
