(* ===== verification/Strs.v ===== *)
(** * Strs: the string routines of Go's standard library

    The functions of [strings], [net] and [path/filepath] that the program
    calls, on the bytes of a string: [net.SplitHostPort], [strings.TrimSpace],
    [strings.Fields], [strings.Join], [strings.HasPrefix] and
    [filepath.Join] (on Unix). *)

From S2P Require Import Prelude Bytes.
From Stdlib Require Import Strings.Ascii.

Abbreviation chars := (list ascii).

Definition explode (s : string) : chars := String.list_ascii_of_string s.
Definition implode (l : chars) : string := String.string_of_list_ascii l.

Lemma implode_explode s : implode (explode s) = s.
Proof. apply String.string_of_list_ascii_of_string. Qed.

Lemma explode_implode l : explode (implode l) = l.
Proof. apply String.list_ascii_of_string_of_list_ascii. Qed.

Lemma explode_inj s1 s2 : explode s1 = explode s2 -> s1 = s2.
Proof. intros E. by rewrite <- (implode_explode s1), E, implode_explode. Qed.

Lemma explode_app s1 s2 : explode (s1 ++ s2)%string = explode s1 ++ explode s2.
Proof. unfold explode. induction s1 as [|a s1 IH]; simpl; [done|]. by rewrite IH. Qed.

Lemma string_app_inj_l (s a b : string) : (s ++ a = s ++ b)%string -> a = b.
Proof. induction s as [|c s IH]; simpl; [done|]. intros [= E]. by apply IH. Qed.

(** ** Searching a byte *)

(** [bytealg.IndexByteString]: the first position of [c]. *)
Fixpoint index_byte (c : ascii) (l : chars) : option nat :=
  match l with
  | [] => None
  | x :: l' => if Ascii.eqb x c then Some 0%nat else S <$> index_byte c l'
  end.

(** [bytealg.LastIndexByteString]. *)
Fixpoint last_index_byte (c : ascii) (l : chars) : option nat :=
  match l with
  | [] => None
  | x :: l' =>
      match last_index_byte c l' with
      | Some i => Some (S i)
      | None => if Ascii.eqb x c then Some 0%nat else None
      end
  end.

Definition contains_byte (c : ascii) (l : chars) : bool := if index_byte c l is Some _ then true else false.

Lemma index_byte_None c l : index_byte c l = None <-> c ∉ l.
Proof.
  induction l as [|x l IH]; simpl; [split; [by intros _ ?%elem_of_nil|done]|].
  rewrite not_elem_of_cons, <- IH. destruct (Ascii.eqb_spec x c) as [->|Hne]; [by split; [|intros []]|].
  rewrite fmap_None. split; [intros; by split|by intros []].
Qed.

Lemma contains_byte_false c l : c ∉ l -> contains_byte c l = false.
Proof. intros Hc. unfold contains_byte. by rewrite (proj2 (index_byte_None c l) Hc). Qed.

Lemma index_byte_app c l1 l2 : c ∉ l1 -> index_byte c (l1 ++ c :: l2) = Some (length l1).
Proof.
  induction l1 as [|x l1 IH]; intros Hc; simpl.
  - by rewrite Ascii.eqb_refl.
  - apply not_elem_of_cons in Hc as [Hx Hc]. destruct (Ascii.eqb_spec x c); [congruence|]. by rewrite IH.
Qed.

Lemma last_index_byte_None c l : c ∉ l -> last_index_byte c l = None.
Proof.
  induction l as [|x l IH]; intros Hc; simpl; [done|].
  apply not_elem_of_cons in Hc as [Hx Hc]. rewrite IH by done. destruct (Ascii.eqb_spec x c); congruence.
Qed.

Lemma last_index_byte_app c l1 l2 : c ∉ l2 -> last_index_byte c (l1 ++ c :: l2) = Some (length l1).
Proof.
  intros Hc. induction l1 as [|x l1 IH]; simpl.
  - by rewrite last_index_byte_None, Ascii.eqb_refl.
  - by rewrite IH.
Qed.

(** ** [net.SplitHostPort]

    [None] is an error. *)

Definition split_host_port (l : chars) : option (chars * chars) :=
  match last_index_byte ":" l with
  | None => None
  | Some i =>
      match
        (if decide (head l = Some "["%char) then
           match index_byte "]" l with
           | None => None
           | Some e => if decide (S e = i) then Some (drop 1 (take e l), 1%nat, S e) else None
           end
         else
           let host := take i l in
           if contains_byte ":" host then None else Some (host, 0%nat, 0%nat))
      with
      | None => None
      | Some (host, j, k) =>
          if contains_byte "[" (drop j l) then None
          else if contains_byte "]" (drop k l) then None
          else Some (host, drop (S i) l)
      end
  end.

Definition SplitHostPort (hostport : string) : option (string * string) :=
  match split_host_port (explode hostport) with
  | None => None
  | Some (h, p) => Some (implode h, implode p)
  end.

Definition plain_host (h : chars) : Prop := (":"%char ∉ h) /\ ("["%char ∉ h) /\ ("]"%char ∉ h).

Lemma notin_mid (c d : ascii) (l1 l2 : chars) : c ∉ l1 -> c <> d -> c ∉ l2 -> c ∉ l1 ++ d :: l2.
Proof. intros H1 Hd H2. rewrite elem_of_app, elem_of_cons. by intros [?|[?|?]]. Qed.

Lemma split_host_port_plain h p :
  plain_host h -> plain_host p -> split_host_port (h ++ ":"%char :: p) = Some (h, p).
Proof.
  intros (Hh1 & Hh2 & Hh3) (Hp1 & Hp2 & Hp3). unfold split_host_port.
  rewrite last_index_byte_app by done.
  destruct (decide _) as [Hd|_].
  { destruct h as [|x h]; simpl in Hd; [done|]. injection Hd as ->. by apply not_elem_of_cons in Hh2 as [? _]. }
  rewrite take_app_length. rewrite (contains_byte_false _ h) by done. simpl. rewrite !drop_0.
  rewrite !contains_byte_false by by apply notin_mid.
  rewrite (cons_middle _ h p), app_assoc. by rewrite drop_app_length' by (rewrite length_app; simpl; lia).
Qed.

(** [net.JoinHostPort] puts brackets around a host with a colon. *)
Lemma split_host_port_bracket h p :
  "["%char ∉ h -> "]"%char ∉ h -> plain_host p ->
  split_host_port ("["%char :: h ++ "]"%char :: ":"%char :: p) = Some (h, p).
Proof.
  intros Hh2 Hh3 (Hp1 & Hp2 & Hp3). set (l := _ :: _). unfold split_host_port.
  assert (last_index_byte ":" l = Some (S (S (length h)))) as ->.
  { subst l. replace (_ :: _) with (("["%char :: h ++ ["]"%char]) ++ ":"%char :: p)
      by (simpl; by rewrite <- app_assoc).
    rewrite last_index_byte_app by done. simpl. rewrite length_app. simpl. do 2 f_equal. lia. }
  destruct (decide _) as [_|[]]; [|done].
  assert (l = ("["%char :: h) ++ "]"%char :: ":"%char :: p) as El by done.
  assert (index_byte "]" l = Some (S (length h))) as ->.
  { rewrite El, index_byte_app; [done|]. by apply not_elem_of_cons. }
  destruct (decide _) as [_|[]]; [|done].
  assert (drop 1 l = h ++ "]"%char :: ":"%char :: p) as -> by done.
  rewrite contains_byte_false by (apply notin_mid; [done|done|by apply not_elem_of_cons]).
  assert (drop (S (S (length h))) l = ":"%char :: p) as E2.
  { rewrite El, (cons_middle _ ("["%char :: h)), app_assoc. apply drop_app_length'. rewrite length_app. simpl. lia. }
  rewrite E2. rewrite contains_byte_false by by apply not_elem_of_cons.
  assert (drop (S (S (S (length h)))) l = p) as ->.
  { rewrite <- Nat.add_1_r, <- drop_drop, E2. done. }
  rewrite El. by rewrite take_app_length' by done.
Qed.

(** ** Splitting and joining *)

(** [strings.Split(s, sep)] with a one-byte separator. *)
Fixpoint split_byte (sep : ascii) (cur : chars) (l : chars) : list chars :=
  match l with
  | [] => [rev cur]
  | x :: l' => if Ascii.eqb x sep then rev cur :: split_byte sep [] l' else split_byte sep (x :: cur) l'
  end.

(** [strings.Join]. *)
Fixpoint join (sep : chars) (ls : list chars) : chars :=
  match ls with
  | [] => []
  | [l] => l
  | l :: ls' => l ++ sep ++ join sep ls'
  end.

Definition strings_Join (elems : list string) (sep : string) : string :=
  implode (join (explode sep) (explode <$> elems)).

Definition HasPrefix (s prefix : string) : bool := String.prefix prefix s.

(** ** [filepath.Clean] and [filepath.Join] *)

(** The components of a path, with [.] and empty ones dropped and [..]
    taking back the component before it; [acc] is reversed. *)
Fixpoint clean_comps (rooted : bool) (acc comps : list chars) : list chars :=
  match comps with
  | [] => rev acc
  | c :: comps' =>
      if bool_decide (c = []) || bool_decide (c = explode ".") then clean_comps rooted acc comps'
      else if bool_decide (c = explode "..") then
        match acc with
        | a :: acc' =>
            if bool_decide (a = explode "..") then clean_comps rooted (c :: acc) comps'
            else clean_comps rooted acc' comps'
        | [] => clean_comps rooted (if rooted then [] else [c]) comps'
        end
      else clean_comps rooted (c :: acc) comps'
  end.

Definition filepath_Clean (path : string) : string :=
  let l := explode path in
  let rooted := bool_decide (head l = Some "/"%char) in
  let out := join ["/"%char] (clean_comps rooted [] (split_byte "/" [] l)) in
  implode (if rooted then "/"%char :: out else if bool_decide (out = []) then ["."%char] else out).

Definition filepath_Join (elems : list string) : string :=
  match filter (fun e => e <> ""%string) elems with
  | [] => ""%string
  | es => filepath_Clean (strings_Join es "/")
  end.

(** A plain file name joined to a directory stays the last component. *)
Definition file_name (x : chars) : Prop :=
  ("/"%char ∉ x) /\ x <> [] /\ x <> explode "." /\ x <> explode "..".

Lemma join_snoc sep cs x : join sep (cs ++ [x]) = concat ((fun c => c ++ sep) <$> cs) ++ x.
Proof.
  induction cs as [|c cs IH]; [done|]. cbn [app fmap list_fmap concat]. rewrite <- app_assoc, <- app_assoc, <- IH.
  cbn [join]. destruct (cs ++ [x]) eqn:E; [|done]. by apply app_nil in E as [_ ?].
Qed.

Lemma split_byte_app sep cur l x :
  sep ∉ x -> split_byte sep cur (l ++ sep :: x) = split_byte sep cur l ++ [x].
Proof.
  intros Hx. revert cur. induction l as [|y l IH]; intros cur; simpl.
  - rewrite Ascii.eqb_refl. do 2 f_equal.
    assert (forall cur, split_byte sep cur x = [rev cur ++ x]) as E; [|by rewrite E].
    clear cur. induction x as [|z x IH]; intros cur; simpl; [by rewrite app_nil_r|].
    apply not_elem_of_cons in Hx as [Hz Hx]. destruct (Ascii.eqb_spec z sep); [congruence|].
    rewrite IH by done. simpl. by rewrite <- app_assoc.
  - destruct (Ascii.eqb_spec y sep); simpl; by rewrite IH.
Qed.

Lemma split_byte_plain sep x : sep ∉ x -> split_byte sep [] x = [x].
Proof.
  intros Hx. assert (forall cur, split_byte sep cur x = [rev cur ++ x]) as E; [|by rewrite E].
  induction x as [|z x IH]; intros cur; simpl; [by rewrite app_nil_r|].
  apply not_elem_of_cons in Hx as [Hz Hx]. destruct (Ascii.eqb_spec z sep); [congruence|].
  rewrite IH by done. simpl. by rewrite <- app_assoc.
Qed.

Lemma clean_comps_snoc rooted acc cs x :
  file_name x -> clean_comps rooted acc (cs ++ [x]) = clean_comps rooted acc cs ++ [x].
Proof.
  intros (_ & H1 & H2 & H3). revert acc. induction cs as [|c cs IH]; intros acc; cbn [app clean_comps].
  - by rewrite !bool_decide_false by done.
  - destruct (_ || _); [apply IH|]. case_bool_decide; [|apply IH].
    destruct acc as [|a acc]; [apply IH|]. case_bool_decide; apply IH.
Qed.

Lemma filepath_Join_last es :
  exists dir, forall x, file_name x -> filepath_Join (es ++ [implode x]) = implode (dir ++ x).
Proof.
  set (es' := filter (fun e => e <> ""%string) es).
  set (l := concat ((fun c => c ++ ["/"%char]) <$> (explode <$> es'))).
  set (rooted := bool_decide (head l = Some "/"%char)).
  set (cs := match es' with [] => [] | _ => clean_comps rooted [] (split_byte "/" [] (removelast l)) end).
  exists ((if rooted then ["/"%char] else []) ++ concat ((fun c => c ++ ["/"%char]) <$> cs)).
  intros x Hx. pose proof Hx as (Hsl & Hne & _).
  assert (implode x <> ""%string) as Hne'.
  { intros E. apply (f_equal explode) in E. by rewrite explode_implode in E. }
  unfold filepath_Join. rewrite filter_app. fold es'. rewrite filter_cons_True, filter_nil by done.
  assert (strings_Join (es' ++ [implode x]) "/" = implode (l ++ x)) as Hj.
  { unfold strings_Join. rewrite fmap_app. cbn [fmap list_fmap]. by rewrite explode_implode, join_snoc. }
  replace (match es' ++ [implode x] with [] => _ | _ => _ end) with (filepath_Clean (implode (l ++ x)))
    by (rewrite <- Hj; by destruct es').
  unfold filepath_Clean. rewrite explode_implode.
  assert (join ["/"%char] (cs ++ [x]) = concat ((fun c => c ++ ["/"%char]) <$> cs) ++ x) as Hout by apply join_snoc.
  rewrite <- app_assoc, <- Hout. clear Hj Hout.
  assert (bool_decide (head (l ++ x) = Some "/"%char) = rooted) as ->.
  { subst rooted cs. clearbody l. destruct l; [|simpl; done]. destruct x as [|c x]; [done|]. simpl.
    apply not_elem_of_cons in Hsl as [Hc _]. rewrite !bool_decide_false; [done|congruence..]. }
  assert (clean_comps rooted [] (split_byte "/" [] (l ++ x)) = cs ++ [x]) as ->.
  { destruct es' as [|e es'']; [|].
    - subst l. simpl. rewrite split_byte_plain by done. by apply (clean_comps_snoc rooted [] []).
    - assert (exists l0, l = l0 ++ ["/"%char]) as [l0 Hl].
      { destruct (exists_last (l := e :: es'')) as (es0 & e0 & E); [done|].
        exists (concat ((fun c => c ++ ["/"%char]) <$> (explode <$> es0)) ++ explode e0).
        subst l. rewrite E, !fmap_app, concat_app. cbn. by rewrite app_nil_r, app_assoc. }
      subst cs. rewrite Hl, removelast_last, <- app_assoc. cbn [app].
      rewrite split_byte_app by done. by rewrite clean_comps_snoc. }
  destruct rooted; [done|]. cbn [app]. rewrite bool_decide_false; [done|].
  rewrite join_snoc. by intros [_ ?]%app_nil.
Qed.

(** Two files of one directory have different paths. *)
Lemma filepath_Join_inj es x y :
  file_name x -> file_name y -> filepath_Join (es ++ [implode x]) = filepath_Join (es ++ [implode y]) -> x = y.
Proof.
  intros Hx Hy. destruct (filepath_Join_last es) as [dir Hdir]. rewrite !Hdir by done.
  intros E%(f_equal explode). rewrite !explode_implode in E. by apply app_inv_head in E.
Qed.

(** ** White space *)

(** The UTF-8 encodings of the runes of [unicode.IsSpace]. *)
Definition space_seqs : list (list N) :=
  [[9]; [10]; [11]; [12]; [13]; [32]; [194; 133]; [194; 160]; [225; 154; 128];
   [226; 128; 128]; [226; 128; 129]; [226; 128; 130]; [226; 128; 131]; [226; 128; 132];
   [226; 128; 133]; [226; 128; 134]; [226; 128; 135]; [226; 128; 136]; [226; 128; 137];
   [226; 128; 138]; [226; 128; 168]; [226; 128; 169]; [226; 128; 175]; [226; 129; 159];
   [227; 128; 128]]%N.

Fixpoint is_prefix (p : list N) (l : chars) : bool :=
  match p, l with
  | [], _ => true
  | n :: p', x :: l' => N.eqb n (N_of_ascii x) && is_prefix p' l'
  | _, _ => false
  end.

(** The length of the space at the front of [l], 0 if there is none, among
    the sequences [seqs]. *)
Definition space_len (seqs : list (list N)) (l : chars) : nat :=
  match List.find (fun s => is_prefix s l) seqs with Some s => length s | None => 0 end.

Fixpoint trim_front (fuel : nat) (seqs : list (list N)) (l : chars) : chars :=
  match fuel with
  | O => l
  | S fuel' =>
      match space_len seqs l with
      | O => l
      | n => trim_front fuel' seqs (drop n l)
      end
  end.

Definition trim (seqs : list (list N)) (l : chars) : chars := trim_front (length l) seqs l.

(** [strings.TrimSpace]: no proper suffix of one of the encodings is another,
    so the right end can be trimmed on the reversed bytes. *)
Definition TrimSpace (s : string) : string :=
  implode (rev (trim ((@rev N) <$> space_seqs) (rev (trim space_seqs (explode s))))).

(** [strings.Fields]; [cur] is the current field, reversed. *)
Fixpoint fields (fuel : nat) (cur l : chars) : list chars :=
  let flush := if cur is [] then [] else [rev cur] in
  match fuel with
  | O => flush
  | S fuel' =>
      match l with
      | [] => flush
      | x :: l' =>
          match space_len space_seqs l with
          | O => fields fuel' (x :: cur) l'
          | n => flush ++ fields fuel' [] (drop n l)
          end
      end
  end.

Definition Fields (s : string) : list string :=
  implode <$> fields (S (String.length s)) [] (explode s).

Example SplitHostPort_ex1 : SplitHostPort "[::1]:4000" = Some ("::1", "4000")%string.
Proof. reflexivity. Qed.
Example SplitHostPort_ex2 : SplitHostPort "::1:4000" = None.
Proof. reflexivity. Qed.
Example SplitHostPort_ex3 : SplitHostPort ":4000" = Some ("", "4000")%string.
Proof. reflexivity. Qed.
Example Fields_ex : Fields "  /nick   bob x " = ["/nick"; "bob"; "x"]%string.
Proof. reflexivity. Qed.
Example TrimSpace_ex : TrimSpace "  a b " = "a b"%string.
Proof. reflexivity. Qed.
Example filepath_Join_ex : filepath_Join ["/home/u/"; "../v"; ""; "identity"] = "/home/v/identity"%string.
Proof. reflexivity. Qed.
