(* ===== verification/Text.v ===== *)
(** * Text: runes and addresses

    What the program uses of [unicode/utf8], [strings.ToLower], the padding of
    [fmt] and [net.ParseIP]. *)

From S2P Require Import Prelude Bytes Strs.
From Stdlib Require Import Ascii.

(** ** Runes *)

Definition cont (c : ascii) : bool := let n := N_of_ascii c in (128 <=? n)%N && (n <=? 191)%N.
Definition within (lo hi : N) (c : ascii) : bool := let n := N_of_ascii c in (lo <=? n)%N && (n <=? hi)%N.

(** The number of bytes of the first rune ([utf8.DecodeRune]); a byte that
    starts no valid encoding is a rune by itself. *)
Definition rune_len (l : chars) : nat :=
  match l with
  | [] => 0
  | a :: l' =>
      let n := N_of_ascii a in
      if (n <? 128)%N then 1
      else if within 194 223 a then match l' with b :: _ => if cont b then 2 else 1 | _ => 1 end
      else if within 224 239 a then
        match l' with
        | b :: c :: _ =>
            let ok := if (n =? 224)%N then within 160 191 b else if (n =? 237)%N then within 128 159 b else cont b in
            if ok && cont c then 3 else 1
        | _ => 1
        end
      else if within 240 244 a then
        match l' with
        | b :: c :: d :: _ =>
            let ok := if (n =? 240)%N then within 144 191 b else if (n =? 244)%N then within 128 143 b else cont b in
            if ok && cont c && cont d then 4 else 1
        | _ => 1
        end
      else 1
  end.

Fixpoint rune_count (fuel : nat) (l : chars) : nat :=
  match fuel, l with
  | S fuel', _ :: _ => S (rune_count fuel' (drop (rune_len l) l))
  | _, _ => O
  end.

(** [utf8.RuneCountInString]. *)
Definition RuneCount (s : string) : nat := rune_count (String.length s) (explode s).

(** [%-14s]: padded on the right with spaces to 14 runes. *)
Definition pad_right (width : nat) (s : string) : string :=
  (s ++ implode (replicate (width - RuneCount s) " "%char))%string.

(** [strings.ToLower] of a string whose lower case is ASCII; [None] when the
    result has a rune outside ASCII. Two runes outside ASCII have an ASCII
    lower case: the Kelvin sign and the dotted capital I. *)
Definition lower_byte (c : ascii) : ascii :=
  if within 65 90 c then ascii_of_N (N_of_ascii c + 32) else c.

Fixpoint lower_ascii (fuel : nat) (l : chars) : option chars :=
  match fuel, l with
  | _, [] => Some []
  | O, _ => None
  | S fuel', c :: l' =>
      if (N_of_ascii c <? 128)%N then (fun r => lower_byte c :: r) <$> lower_ascii fuel' l'
      else if is_prefix [226; 132; 170]%N l then (fun r => "k"%char :: r) <$> lower_ascii fuel' (drop 3 l)
      else if is_prefix [196; 176]%N l then (fun r => "i"%char :: r) <$> lower_ascii fuel' (drop 2 l)
      else None
  end.

Definition ToLower (s : string) : option string := implode <$> lower_ascii (String.length s) (explode s).

(** ** IP addresses *)

Definition digit (c : ascii) : option Z := if within 48 57 c then Some (Z.of_N (N_of_ascii c) - 48) else None.

Definition hex_digit (c : ascii) : option Z :=
  match digit c with
  | Some d => Some d
  | None =>
      if within 97 102 c then Some (Z.of_N (N_of_ascii c) - 87)
      else if within 65 70 c then Some (Z.of_N (N_of_ascii c) - 55)
      else None
  end.

(** [netip.parseIPv4Fields]: [val] and [digLen] of the current field, the
    fields before it, reversed. *)
Fixpoint ipv4_fields (l : chars) (val : Z) (digLen : nat) (fields : list Z) : option (list Z) :=
  match l with
  | [] => if (length fields =? 3)%nat && negb (digLen =? 0)%nat then Some (rev (val :: fields)) else None
  | c :: l' =>
      match digit c with
      | Some d =>
          if (digLen =? 1)%nat && (val =? 0) then None
          else if 255 <? val * 10 + d then None
          else ipv4_fields l' (val * 10 + d) (S digLen) fields
      | None =>
          if negb (bool_decide (c = "."%char)) then None
          else if (digLen =? 0)%nat || (length fields =? 3)%nat then None
          else ipv4_fields l' 0 0 (val :: fields)
      end
  end.

Definition parseIPv4 (l : chars) : option (list Z) := ipv4_fields l 0 0 [].

(** The hex digits at the front of [l], at most four. *)
Fixpoint hex_group (l : chars) (off : nat) (acc : Z) : option (nat * Z * chars) :=
  match l with
  | c :: l' =>
      match hex_digit c with
      | Some d => if (3 <? off)%nat then None else hex_group l' (S off) (acc * 16 + d)
      | None => Some (off, acc, l)
      end
  | [] => Some (off, acc, [])
  end.

(** The loop of [netip.parseIPv6]: the bytes so far, the position of the
    ellipsis, and what is left. Each turn adds two bytes. *)
Fixpoint ipv6_loop (fuel : nat) (ip : list Z) (ellipsis : option nat) (s : chars)
    : option (list Z * option nat * chars) :=
  match fuel with
  | O => Some (ip, ellipsis, s)
  | S fuel' =>
      match hex_group s 0 0 with
      | None | Some (O, _, _) => None
      | Some (_, _, "."%char :: _) =>
          if bool_decide (ellipsis = None) && negb (length ip =? 12)%nat then None
          else if (16 <? length ip + 4)%nat then None
          else
            match parseIPv4 s with
            | None => None
            | Some b => Some (ip ++ b, ellipsis, [])
            end
      | Some (_, acc, rest) =>
          let ip := ip ++ [acc / 256; acc mod 256] in
          match rest with
          | [] => Some (ip, ellipsis, [])
          | c :: rest' =>
              if negb (bool_decide (c = ":"%char)) then None
              else
                match rest' with
                | [] => None
                | ":"%char :: rest'' =>
                    if bool_decide (is_Some ellipsis) then None
                    else if bool_decide (rest'' = []) then Some (ip, Some (length ip), [])
                    else ipv6_loop fuel' ip (Some (length ip)) rest''
                | _ => ipv6_loop fuel' ip ellipsis rest'
                end
          end
      end
  end.

Definition parseIPv6 (s : chars) : option (list Z) :=
  let r := match s with
           | ":"%char :: ":"%char :: s' =>
               if bool_decide (s' = []) then Some ([], Some 0%nat, []) else ipv6_loop 8 [] (Some 0%nat) s'
           | _ => ipv6_loop 8 [] None s
           end in
  match r with
  | None => None
  | Some (ip, ellipsis, rest) =>
      if negb (bool_decide (rest = [])) then None
      else if (length ip <? 16)%nat then
        match ellipsis with
        | None => None
        | Some e => Some (take e ip ++ replicate (16 - length ip) 0 ++ drop e ip)
        end
      else if bool_decide (is_Some ellipsis) then None
      else Some ip
  end.

(** [net.ParseIP], as 16 bytes; addresses with a zone are refused. *)
Definition ParseIP (s : string) : option (list Z) :=
  let l := explode s in
  match List.find (fun c => bool_decide (c = "."%char) || bool_decide (c = ":"%char) || bool_decide (c = "%"%char)) l with
  | Some "."%char => (fun b => replicate 10 0 ++ [255; 255] ++ b) <$> parseIPv4 l
  | Some ":"%char => if contains_byte "%"%char l then None else parseIPv6 l
  | _ => None
  end.

(** [IP.IsUnspecified]: [0.0.0.0], also as an IPv4-mapped address, or [::]. *)
Definition IsUnspecified (ip : list Z) : bool :=
  bool_decide (ip = replicate 10 0 ++ [255; 255; 0; 0; 0; 0]) || bool_decide (ip = replicate 16 0).

Definition wildcard (host : string) : bool :=
  match ParseIP host with Some ip => IsUnspecified ip | None => false end.

Example ParseIP_ex1 : ParseIP "1.2.3.4" = Some [0;0;0;0;0;0;0;0;0;0;255;255;1;2;3;4].
Proof. reflexivity. Qed.
Example ParseIP_ex2 : ParseIP "2001:db8::8:800" = Some [32;1;13;184;0;0;0;0;0;0;0;0;0;8;8;0].
Proof. reflexivity. Qed.
Example ParseIP_ex3 : ParseIP <$> ["1.2.3"; "01.2.3.4"; "::1::"; "1:2:3:4:5:6:7"; "fe80::1%eth0"; "host"; "1.2.3.4."]%string = replicate 7 None.
Proof. reflexivity. Qed.
Example wildcard_ex : wildcard <$> ["0.0.0.0"; "::"; "0:0:0:0:0:0:0:0"; "0::0"; "::0.0.0.0"; "::ffff:0.0.0.0"]%string = replicate 6 true.
Proof. reflexivity. Qed.
Example wildcard_ex2 : wildcard <$> ["10.0.0.1"; "::1"; "localhost"; ""; "0"]%string = replicate 5 false.
Proof. reflexivity. Qed.
Example RuneCount_ex : RuneCount "/nick — x" = 9%nat.
Proof. reflexivity. Qed.
Example ToLower_ex : ToLower "WaRn" = Some "warn"%string.
Proof. reflexivity. Qed.
