(* ===== verification/Identity.v ===== *)
(** * Identity: the node's keys

    Models [internal/identity/identity.go] over a file system, and
    [internal/crypto/keys.go]. *)

From S2P Require Import Prelude Bytes Messages Concrete Stream Noise Strs.
From Stdlib Require Import Init.Byte.

(** The key encodings and the curve arithmetic are library code. [None] is an
    error. *)
Class KeyLib := {
  ed25519_NewKeyFromSeed : bytes -> bytes;              (* the private key of 32 random bytes *)
  pem_Encode : string -> bytes -> bytes;                (* [pem.EncodeToMemory] *)
  pem_Decode : bytes -> option bytes;                   (* [pem.Decode]: the bytes of the block *)
  MarshalPKCS8PrivateKey : bytes -> option bytes;
  ParsePKCS8PrivateKey : bytes -> option (bytes + unit); (* an ED25519 key, or another kind of key *)
  MarshalAuthorizedKey : bytes -> option bytes;          (* [ssh.NewPublicKey] and its text form *)
  NewSignerFromKey : bytes -> option unit;
  sha512 : bytes -> bytes;
  EdPoint : Type;
  Point_SetBytes : bytes -> option EdPoint;
  BytesMontgomery : EdPoint -> bytes
}.

(** The private keys that [ed25519.GenerateKey] returns: each is the seed
    followed by the public key of the seed. PKCS8 stores the seed alone, so
    other byte strings do not survive the encoding. *)
Definition generated_key `{KeyLib} (priv : bytes) : Prop :=
  exists seed, len seed = 32 /\ priv = ed25519_NewKeyFromSeed seed.

Class KeyLibLaws `{KeyLib} : Prop := {
  pem_Decode_Encode t b : pem_Decode (pem_Encode t b) = Some b;
  Parse_MarshalPKCS8 priv b :
    generated_key priv -> MarshalPKCS8PrivateKey priv = Some b -> ParsePKCS8PrivateKey b = Some (inl priv)
}.

Record Identity := mkIdentity {
  PrivateKey : bytes;
  PublicKey : bytes;
  NodeID : string
}.

Inductive identity_error :=
| ReadPrivateKey | GenerateKey | CreateDir | MarshalKey | WritePrivateKey | ConvertPublicKey | WritePublicKey
| NoPEMBlock | ParseKey | NotEd25519 | CreateSigner.

Section Identity.
Context `{Crypto} `{KeyLib}.

Definition fromKeyPair (priv pub : bytes) : result Identity identity_error :=
  match NewSignerFromKey priv with
  | None => Err CreateSigner
  | Some _ => Ok (mkIdentity priv pub (node_id pub))
  end.

Definition loadFrom (privPEM : bytes) : result Identity identity_error :=
  match pem_Decode privPEM with
  | None => Err NoPEMBlock
  | Some block =>
      match ParsePKCS8PrivateKey block with
      | None => Err ParseKey
      | Some (inr _) => Err NotEd25519
      | Some (inl priv) => fromKeyPair priv (ed25519_Public priv)
      end
  end.

(** The files of the identity directory, and which operations of the
    operating system fail. *)
Record FS := mkFS {
  fs_files : gmap string bytes;
  fs_read_fails : string -> bool;    (* for another reason than absence *)
  fs_mkdir_fails : bool;
  fs_write_fails : string -> bool
}.

Definition WriteFile (fs : FS) (path : string) (b : bytes) : option FS :=
  if fs_write_fails fs path then None
  else Some (mkFS (<[path := b]> (fs_files fs)) (fs_read_fails fs) (fs_mkdir_fails fs) (fs_write_fails fs)).

(** [key] is what [ed25519.GenerateKey] returns: the private key of which the
    public key is a function, or an error. *)
Definition generate (fs : FS) (key : option bytes) (privPath pubPath : string)
    : result Identity identity_error * FS :=
  match key with
  | None => (Err GenerateKey, fs)
  | Some priv =>
      let pub := ed25519_Public priv in
      if fs_mkdir_fails fs then (Err CreateDir, fs)
      else
        match MarshalPKCS8PrivateKey priv with
        | None => (Err MarshalKey, fs)
        | Some pkcs8 =>
            match WriteFile fs privPath (pem_Encode "PRIVATE KEY" pkcs8) with
            | None => (Err WritePrivateKey, fs)
            | Some fs1 =>
                match MarshalAuthorizedKey pub with
                | None => (Err ConvertPublicKey, fs1)
                | Some pubLine =>
                    match WriteFile fs1 pubPath pubLine with
                    | None => (Err WritePublicKey, fs1)
                    | Some fs2 => (fromKeyPair priv pub, fs2)
                    end
                end
            end
        end
  end.

Definition Load (fs : FS) (key : option bytes) (dataDir : string) : result Identity identity_error * FS :=
  let keyDir := filepath_Join [dataDir; "identity"%string] in
  let privPath := filepath_Join [keyDir; "node.key"%string] in
  let pubPath := filepath_Join [keyDir; "node.pub"%string] in
  if fs_read_fails fs privPath then (Err ReadPrivateKey, fs)
  else
    match fs_files fs !! privPath with
    | None => generate fs key privPath pubPath
    | Some privPEM => (loadFrom privPEM, fs)
    end.

(** ** [internal/crypto/keys.go] *)

Definition EdPrivateToX25519 (edPriv : bytes) : bytes :=
  let seed := take 32 edPriv in take 32 (sha512 seed).

Definition EdPublicToX25519 (edPub : bytes) : option bytes :=
  match Point_SetBytes edPub with
  | None => None
  | Some p => Some (BytesMontgomery p)
  end.

Definition EdToNoiseKeypair (id : Identity) : option DHKey :=
  let priv := EdPrivateToX25519 (PrivateKey id) in
  match EdPublicToX25519 (PublicKey id) with
  | None => None
  | Some pub => Some (mkDHKey priv pub)
  end.

(** What [Load] establishes of an identity. *)
Record identity_ok (id : Identity) : Prop := {
  id_pub : PublicKey id = ed25519_Public (PrivateKey id);
  id_node : NodeID id = node_id (PublicKey id)
}.

Lemma fromKeyPair_ok priv id :
  fromKeyPair priv (ed25519_Public priv) = Ok id -> PrivateKey id = priv /\ identity_ok id.
Proof. unfold fromKeyPair. destruct (NewSignerFromKey priv); [|done]. by intros [= <-]. Qed.

Lemma loadFrom_ok b id : loadFrom b = Ok id -> identity_ok id.
Proof.
  unfold loadFrom. destruct (pem_Decode b) as [blk|]; [|done].
  destruct (ParsePKCS8PrivateKey blk) as [[priv|]|]; [|done..]. intros Hid. by apply fromKeyPair_ok in Hid as [_ ?].
Qed.

Lemma loadFrom_encode priv pkcs8 `{!KeyLibLaws} :
  generated_key priv -> MarshalPKCS8PrivateKey priv = Some pkcs8 ->
  loadFrom (pem_Encode "PRIVATE KEY" pkcs8) = fromKeyPair priv (ed25519_Public priv).
Proof. intros Hg Hm. unfold loadFrom. by rewrite pem_Decode_Encode, (Parse_MarshalPKCS8 _ _ Hg Hm). Qed.

Lemma WriteFile_fs fs path b fs' :
  WriteFile fs path b = Some fs' ->
  fs_files fs' = <[path := b]> (fs_files fs) /\ fs_read_fails fs' = fs_read_fails fs.
Proof. unfold WriteFile. destruct (fs_write_fails fs path); [done|]. by intros [= <-]. Qed.

Lemma generate_ok fs key privPath pubPath id fs' :
  privPath <> pubPath -> generate fs key privPath pubPath = (Ok id, fs') ->
  exists priv pkcs8, key = Some priv /\ MarshalPKCS8PrivateKey priv = Some pkcs8 /\
    fromKeyPair priv (ed25519_Public priv) = Ok id /\
    fs_files fs' !! privPath = Some (pem_Encode "PRIVATE KEY" pkcs8) /\
    fs_read_fails fs' = fs_read_fails fs.
Proof.
  intros Hne. unfold generate. destruct key as [priv|]; [|done]. split_if; [done|].
  destruct (MarshalPKCS8PrivateKey priv) as [pkcs8|] eqn:Hm; [|done].
  destruct (WriteFile fs privPath _) as [fs1|] eqn:Hw1; [|done].
  destruct (MarshalAuthorizedKey _) as [line|]; [|done].
  destruct (WriteFile fs1 pubPath line) as [fs2|] eqn:Hw2; [|done]. intros [= Hk <-].
  apply WriteFile_fs in Hw1 as [Hf1 Hr1]. apply WriteFile_fs in Hw2 as [Hf2 Hr2].
  exists priv, pkcs8. split_and!; try done; [|congruence].
  by rewrite Hf2, lookup_insert_ne, Hf1, lookup_insert_eq.
Qed.

Lemma key_paths_differ keyDir :
  filepath_Join [keyDir; "node.key"%string] <> filepath_Join [keyDir; "node.pub"%string].
Proof.
  intros E. assert (explode "node.key" = explode "node.pub"); [|done].
  apply (filepath_Join_inj [keyDir]); [| |by rewrite !implode_explode];
    split_and!; by apply (bool_decide_unpack _).
Qed.

(** An identity that [Load] returns is consistent. *)
Lemma Load_ok fs fs1 key dataDir id : Load fs key dataDir = (Ok id, fs1) -> identity_ok id.
Proof.
  unfold Load. destruct (fs_read_fails fs _); [done|]. destruct (fs_files fs !! _) as [b|].
  - intros [= Hid _]. by eapply loadFrom_ok.
  - intros Hg. apply generate_ok in Hg as (priv & pkcs8 & _ & _ & Hid & _); [|apply key_paths_differ].
    by apply fromKeyPair_ok in Hid as [_ ?].
Qed.
End Identity.

(** ** Properties *)

(** C37. A node keeps its identity: an identity that [Load] returns, be it
    generated or read back, has the public key of its private key and that
    key's hash as node id, and a later [Load] of the same directory, whatever
    key the generator would produce then, returns the very same identity and leaves the
    files alone. The key that the first [Load] may draw is one that
    [ed25519.GenerateKey] can return. *)
Theorem Load_stable `{Crypto} `{KeyLib} `{!KeyLibLaws} (fs fs1 : FS) (key key' : option bytes)
  (dataDir : string) (id : Identity)
  (Hkey : forall priv, key = Some priv -> generated_key priv)
  (Hload : Load fs key dataDir = (Ok id, fs1)) :
  identity_ok id /\ Load fs1 key' dataDir = (Ok id, fs1).
Proof.
  split; [by eapply Load_ok|]. unfold Load in *. destruct (fs_read_fails fs _) eqn:Hr; [done|].
  destruct (fs_files fs !! _) as [b|] eqn:Hf.
  - injection Hload as Hid <-. by rewrite Hr, Hf, Hid.
  - apply generate_ok in Hload as (priv & pkcs8 & Ekey & Hm & Hid & Hf1 & Hr1); [|apply key_paths_differ].
    by rewrite Hr1, Hr, Hf1, (loadFrom_encode priv pkcs8 (Hkey priv Ekey) Hm), Hid.
Qed.

(** A library on which to evaluate the model. *)
#[export] Instance toy_keylib : KeyLib := {|
  ed25519_NewKeyFromSeed seed := be_put 32 0 ++ seed;
  pem_Encode _ b := x00 :: b;
  pem_Decode b := match b with [] => None | _ :: b' => Some b' end;
  MarshalPKCS8PrivateKey priv := Some (drop 32 priv);
  ParsePKCS8PrivateKey seed := Some (inl (be_put 32 0 ++ seed));
  MarshalAuthorizedKey b := Some b;
  NewSignerFromKey _ := Some tt;
  sha512 b := b;
  EdPoint := bytes;
  Point_SetBytes pub := if len pub =? 32 then Some pub else None;
  BytesMontgomery p := rev p
|}.

#[export] Instance toy_keylib_laws : KeyLibLaws.
Proof. split; [done|]. by intros priv b (seed & _ & ->) [= <-]. Qed.

Definition ex_identity (n : Z) : Identity := mkIdentity (toy_priv n) (toy_pub n) (toy_id n).

Definition ex_fs : FS := mkFS ∅ (fun _ => false) false (fun _ => false).
Definition ex_fs1 : FS :=
  mkFS {[ "/data/identity/node.key"%string := x00 :: toy_pub 7;
          "/data/identity/node.pub"%string := toy_pub 7 ]}
    (fun _ => false) false (fun _ => false).

Lemma Load_stable_witness :
  identity_ok (ex_identity 7) /\ Load ex_fs1 None "/data" = (Ok (ex_identity 7), ex_fs1).
Proof.
  apply (Load_stable ex_fs ex_fs1 (Some (toy_priv 7)) None "/data" (ex_identity 7)); [|reflexivity].
  intros priv [= <-]. exists (toy_pub 7). split; reflexivity.
Defined.
