(* ===== verification/Peer.v ===== *)
(** * Peer: one connection to a remote node

    Models [internal/transport/peer.go]: the hello exchange that binds the
    connection to a node identity, the bounded send queue, the two loops and
    the per-peer duplicate table.  A peer runs over any connection [N]; the
    program uses [noiseConn].  Setting a deadline may fail; an expired one is one of
    the errors a connection may raise; [Keepalive] has the times. *)

From S2P Require Import Prelude Bytes Messages Dedup Stream Frame Noise Identity.

Definition MsgTypePeerHello : Z := 1.
Definition MsgTypePeerHelloAck : Z := 2.
Definition MsgTypeChat : Z := 3.
Definition MsgTypePeerExchange : Z := 4.
Definition MsgTypeKeepalive : Z := 5.

(** [time.Duration]s are in nanoseconds. *)
Definition Second : Z := 1000000000.
Definition Minute : Z := 60 * Second.
Definition seenTTL : Z := 5 * Minute.
Definition defaultIdleTimeout : Z := 60 * Second.
Definition defaultKeepaliveInterval : Z := 20 * Second.
Definition defaultWriteTimeout : Z := 10 * Second.
Definition defaultHandshakeTimeout : Z := 10 * Second.

(** The capacity of [sendCh]. *)
Definition sendChCap : nat := 64.

Record HelloConfig := mkHelloConfig {
  hc_Tags : list string;
  hc_Reachable : bool;
  hc_ListenAddr : string
}.

Record Peer (N : Type) := mkPeer {
  pNodeID : string;
  edPubKey : bytes;
  conn : N;
  peerX25519 : bytes;
  localID : Identity;
  initiator : bool;
  remoteReachable : bool;
  remoteListenAddr : string;
  onPeerExchange : bool;       (* whether the manager has set the callback *)
  onGossipMessage : bool;
  sendCh : list bytes;
  done : bool;                 (* whether the channel [done] is closed *)
  idleTimeout : Z;
  keepaliveInterval : Z;
  writeTimeout : Z;
  handshakeTimeout : Z;
  pseen : gmap string Z
}.
Arguments mkPeer {N}.
Arguments pNodeID {N}.
Arguments edPubKey {N}.
Arguments conn {N}.
Arguments peerX25519 {N}.
Arguments localID {N}.
Arguments initiator {N}.
Arguments remoteReachable {N}.
Arguments remoteListenAddr {N}.
Arguments onPeerExchange {N}.
Arguments onGossipMessage {N}.
Arguments sendCh {N}.
Arguments done {N}.
Arguments idleTimeout {N}.
Arguments keepaliveInterval {N}.
Arguments writeTimeout {N}.
Arguments handshakeTimeout {N}.
Arguments pseen {N}.

Definition newPeer {N} (c : N) (x25519 : bytes) (id : Identity) (init : bool) : Peer N :=
  mkPeer "" [] c x25519 id init false "" false false [] false
    defaultIdleTimeout defaultKeepaliveInterval defaultWriteTimeout defaultHandshakeTimeout ∅.

(** Field updates. *)
Definition set_conn {N} (p : Peer N) (c : N) : Peer N :=
  mkPeer (pNodeID p) (edPubKey p) c (peerX25519 p) (localID p) (initiator p) (remoteReachable p)
    (remoteListenAddr p) (onPeerExchange p) (onGossipMessage p) (sendCh p) (done p) (idleTimeout p)
    (keepaliveInterval p) (writeTimeout p) (handshakeTimeout p) (pseen p).
Definition set_sendCh {N} (p : Peer N) (q : list bytes) : Peer N :=
  mkPeer (pNodeID p) (edPubKey p) (conn p) (peerX25519 p) (localID p) (initiator p) (remoteReachable p)
    (remoteListenAddr p) (onPeerExchange p) (onGossipMessage p) q (done p) (idleTimeout p)
    (keepaliveInterval p) (writeTimeout p) (handshakeTimeout p) (pseen p).
Definition set_pseen {N} (p : Peer N) (s : gmap string Z) : Peer N :=
  mkPeer (pNodeID p) (edPubKey p) (conn p) (peerX25519 p) (localID p) (initiator p) (remoteReachable p)
    (remoteListenAddr p) (onPeerExchange p) (onGossipMessage p) (sendCh p) (done p) (idleTimeout p)
    (keepaliveInterval p) (writeTimeout p) (handshakeTimeout p) s.
Definition set_timeouts {N} (p : Peer N) (idle keepalive write : Z) : Peer N :=
  mkPeer (pNodeID p) (edPubKey p) (conn p) (peerX25519 p) (localID p) (initiator p) (remoteReachable p)
    (remoteListenAddr p) (onPeerExchange p) (onGossipMessage p) (sendCh p) (done p) idle
    keepalive write (handshakeTimeout p) (pseen p).
Definition set_callbacks {N} (p : Peer N) : Peer N :=
  mkPeer (pNodeID p) (edPubKey p) (conn p) (peerX25519 p) (localID p) (initiator p) (remoteReachable p)
    (remoteListenAddr p) true true (sendCh p) (done p) (idleTimeout p)
    (keepaliveInterval p) (writeTimeout p) (handshakeTimeout p) (pseen p).

(** [Close]; the second call does nothing. *)
Definition Close {N} (p : Peer N) : Peer N :=
  mkPeer (pNodeID p) (edPubKey p) (conn p) (peerX25519 p) (localID p) (initiator p) (remoteReachable p)
    (remoteListenAddr p) (onPeerExchange p) (onGossipMessage p) (sendCh p) true (idleTimeout p)
    (keepaliveInterval p) (writeTimeout p) (handshakeTimeout p) (pseen p).

Inductive peer_error :=
| DeadlineFailed
| MarshalHello | MarshalEnvelope | WriteFailed (e : frame_error)
| ReadHello (e : frame_error) | UnmarshalEnvelope | WrongType (got : Z) | UnmarshalHello
| BadSignature | SenderMismatch | NodeIdMismatch | InvalidEdKey | X25519Mismatch.

(** How the receive loop ends: without an error once the peer is closed; because
    the deadline could not be set; because of a read. *)
Inductive recv_end := RecvClosed | RecvDeadline | RecvRead (e : frame_error).

(** What an iteration of the receive loop hands to the manager's callbacks. *)
Inductive RecvAction :=
| RSkip
| RPeerExchange (nodeID : string) (infos : list PeerInfo)
| RGossip (fromPeerID : string) (env : Envelope).

Section Peer.
Context `{Crypto} `{Proto} `{KeyLib} {N : Type} `{Conn N}.
Implicit Types (p : Peer N) (env : Envelope).

(** ** The hello exchange *)

(** The bytes [sendHello] writes; [uuid] is the fresh message id. *)
Definition hello_envelope (id : Identity) (msgType : Z) (uuid : string) (payload : bytes) : Envelope :=
  SignEnvelope (mkEnvelope uuid (NodeID id) 0 1 msgType payload [] []) (PrivateKey id).

Definition sendHello p (hello : PeerHello) (msgType : Z) (uuid : string) : result unit peer_error * Peer N :=
  match Marshal hello with
  | None => (Err MarshalHello, p)
  | Some payload =>
      match Marshal (hello_envelope (localID p) msgType uuid payload) with
      | None => (Err MarshalEnvelope, p)
      | Some envBytes =>
          match WriteFrame (conn p) envBytes with
          | (Err e, c) => (Err (WriteFailed e), set_conn p c)
          | (Ok _, c) => (Ok tt, set_conn p c)
          end
      end
  end.

(** The checks of [recvHello] on the bytes of a frame. *)
Definition parseHello (data : bytes) (expectedType : Z) : result PeerHello peer_error :=
  match (Unmarshal data : option Envelope) with
  | None => Err UnmarshalEnvelope
  | Some env =>
      if negb (MsgType env =? expectedType) then Err (WrongType (MsgType env))
      else
        match (Unmarshal (Payload env) : option PeerHello) with
        | None => Err UnmarshalHello
        | Some hello =>
            if negb (VerifyEnvelope env (hello_Ed25519Pubkey hello)) then Err BadSignature
            else if negb (bool_decide (SenderId env = hello_NodeId hello)) then Err SenderMismatch
            else Ok hello
        end
  end.

Definition recvHello p (expectedType : Z) : result PeerHello peer_error * Peer N :=
  match ReadFrame (conn p) with
  | (Err e, c) => (Err (ReadHello e), set_conn p c)
  | (Ok data, c) => (parseHello data expectedType, set_conn p c)
  end.

Definition verifyPeerIdentity p (hello : PeerHello) : result unit peer_error * Peer N :=
  let pubKey := hello_Ed25519Pubkey hello in
  let expectedNodeID := node_id pubKey in
  if negb (bool_decide (hello_NodeId hello = expectedNodeID)) then (Err NodeIdMismatch, p)
  else
    match EdPublicToX25519 pubKey with
    | None => (Err InvalidEdKey, p)
    | Some x25519Pub =>
        if negb (bool_decide (x25519Pub = peerX25519 p)) then (Err X25519Mismatch, p)
        else
          (Ok tt,
           mkPeer (hello_NodeId hello) pubKey (conn p) (peerX25519 p) (localID p) (initiator p)
             (hello_Reachable hello) (hello_ListenAddr hello) (onPeerExchange p) (onGossipMessage p)
             (sendCh p) (done p) (idleTimeout p) (keepaliveInterval p) (writeTimeout p)
             (handshakeTimeout p) (pseen p))
    end.

Definition local_hello (id : Identity) (cfg : HelloConfig) : PeerHello :=
  mkPeerHello (NodeID id) "0.1.0" (hc_Tags cfg) (hc_Reachable cfg) (hc_ListenAddr cfg) (PublicKey id).

Definition ExchangeHello p (localCfg : HelloConfig) (uuid : string) : result unit peer_error * Peer N :=
  let hello := local_hello (localID p) localCfg in
  if negb (SetReadDeadline (conn p)) then (Err DeadlineFailed, p)
  else if negb (SetWriteDeadline (conn p)) then (Err DeadlineFailed, p)
  else if initiator p then
    match sendHello p hello MsgTypePeerHello uuid with
    | (Err e, p1) => (Err e, p1)
    | (Ok _, p1) =>
        match recvHello p1 MsgTypePeerHelloAck with
        | (Err e, p2) => (Err e, p2)
        | (Ok ack, p2) => verifyPeerIdentity p2 ack
        end
    end
  else
    match recvHello p MsgTypePeerHello with
    | (Err e, p1) => (Err e, p1)
    | (Ok peerHello, p1) =>
        match verifyPeerIdentity p1 peerHello with
        | (Err e, p2) => (Err e, p2)
        | (Ok _, p2) => sendHello p2 hello MsgTypePeerHelloAck uuid
        end
    end.

(** ** Sending *)

(** [SendRaw]: false when the buffer is full. *)
Definition SendRaw p (data : bytes) : bool * Peer N :=
  if (length (sendCh p) <? sendChCap)%nat then (true, set_sendCh p (sendCh p ++ [data])) else (false, p).

Definition sendWithDeadline p (data : bytes) : result unit peer_error * Peer N :=
  if negb (SetWriteDeadline (conn p)) then (Err DeadlineFailed, p)
  else
  match WriteFrame (conn p) data with
  | (Err e, c) => (Err (WriteFailed e), set_conn p c)
  | (Ok _, c) => (Ok tt, set_conn p c)
  end.

Definition writeKeepalive p : result unit peer_error * Peer N :=
  match Marshal (mkEnvelope "" "" 0 0 MsgTypeKeepalive [] [] []) with
  | None => (Err MarshalEnvelope, p)
  | Some data => sendWithDeadline p data
  end.

(** One turn of [sendLoop]: the case of the [select] that is taken. [None] is
    a case that is not ready; an error ends the loop. *)
Inductive send_case := SendQueued | KeepaliveTick.

Definition sendLoop_turn p (s : send_case) : option (result unit peer_error * Peer N) :=
  match s with
  | SendQueued =>
      match sendCh p with
      | [] => None
      | data :: q => Some (sendWithDeadline (set_sendCh p q) data)
      end
  | KeepaliveTick => Some (writeKeepalive p)
  end.

(** ** Receiving *)

Definition isDuplicate p (messageID : string) (now : Z) : bool * Peer N :=
  match pseen p !! messageID with
  | Some _ => (true, p)
  | None => (false, set_pseen p (<[messageID := now]> (pseen p)))
  end.

(** One tick of [cleanupSeenLoop]. *)
Definition cleanupSeen p (now : Z) : Peer N :=
  let cutoff := now - seenTTL in
  set_pseen p (filter (fun e => ~ e.2 < cutoff) (pseen p)).

Definition handlePeerExchange p env : RecvAction :=
  match (Unmarshal (Payload env) : option PeerExchange) with
  | None => RSkip
  | Some px => if onPeerExchange p then RPeerExchange (pNodeID p) (px_Peers px) else RSkip
  end.

(** The [switch] of [recvLoop]. *)
Definition dispatch p env (now : Z) : RecvAction * Peer N :=
  if MsgType env =? MsgTypeKeepalive then (RSkip, p)
  else if MsgType env =? MsgTypePeerExchange then
    let '(dup, p1) := isDuplicate p (MessageId env) now in
    if dup then (RSkip, p1)
    else if negb (VerifyEnvelope env (edPubKey p1)) then (RSkip, p1)
    else if negb (bool_decide (SenderId env = pNodeID p1)) then (RSkip, p1)
    else (handlePeerExchange p1 env, p1)
  else if (MsgType env =? MsgTypePeerHello) || (MsgType env =? MsgTypePeerHelloAck) then (RSkip, p)
  else (if onGossipMessage p then RGossip (pNodeID p) env else RSkip, p).

(** One turn of [recvLoop]; [Err] ends the loop. *)
Definition recvLoop_turn p (now : Z) : result RecvAction recv_end * Peer N :=
  if negb (SetReadDeadline (conn p)) then (Err (if done p then RecvClosed else RecvDeadline), p)
  else
  match ReadFrame (conn p) with
  | (Err e, c) => (Err (if done p then RecvClosed else RecvRead e), set_conn p c)
  | (Ok data, c) =>
      let p1 := set_conn p c in
      match (Unmarshal data : option Envelope) with
      | None => (Ok RSkip, p1)
      | Some env => let '(a, p2) := dispatch p1 env now in (Ok a, p2)
      end
  end.

(** [recvLoop]: what it handed on before it ended, and how. [clock] gives the
    time of each turn and [closes] tells whether another goroutine closes the
    peer during it; the fuel bounds the number of turns. *)
Fixpoint recvLoop (fuel : nat) p (clock : nat -> Z) (closes : nat -> bool) : option (list RecvAction * recv_end * Peer N) :=
  match fuel with
  | O => None
  | S fuel' =>
      match recvLoop_turn (if closes fuel' then Close p else p) (clock fuel') with
      | (Err e, p1) => Some ([], e, p1)
      | (Ok a, p1) =>
          match recvLoop fuel' p1 clock closes with
          | None => None
          | Some (actions, e, p2) => Some (a :: actions, e, p2)
          end
      end
  end.
End Peer.
