(* ===== verification/PeerProps.v ===== *)
(** * PeerProps: the properties of a peer connection

    Mutual authentication by the hello exchange, the acceptance rule for
    PeerExchange messages, the duplicate table as an instance of the dedup
    interface, and the order and bound of the send queue. *)

From S2P Require Import Prelude Bytes Messages Concrete Dedup Stream Frame Noise Identity Peer.
From Stdlib Require Import Init.Byte.

Section Hello.
Context `{Crypto} `{Proto} `{KeyLib} {N : Type} `{DuplexLaws N}.
Implicit Types (p : Peer N) (env : Envelope).

(** What a successful exchange establishes about the remote end. *)
Record peer_verified p : Prop := {
  pv_id : pNodeID p = node_id (edPubKey p);
  pv_key : EdPublicToX25519 (edPubKey p) = Some (peerX25519 p)
}.

(** A hello received as the payload of the frame [data]: signed by the key it
    carries and by the node it names. *)
Definition hello_received (data : bytes) (ty : Z) (hello : PeerHello) : Prop :=
  exists env, Unmarshal data = Some env /\ MsgType env = ty /\ Unmarshal (Payload env) = Some hello /\
    VerifyEnvelope env (hello_Ed25519Pubkey hello) = true /\ SenderId env = hello_NodeId hello.

Lemma parseHello_ok data ty hello : parseHello data ty = Ok hello <-> hello_received data ty hello.
Proof.
  unfold parseHello, hello_received. split.
  - destruct (Unmarshal data : option Envelope) as [env|] eqn:He; [|done].
    destruct (Z.eqb_spec (MsgType env) ty); [|done].
    destruct (Unmarshal (Payload env) : option PeerHello) as [h|] eqn:Hh; [|done]. cbn [negb].
    destruct (VerifyEnvelope env _) eqn:Hv; [|done]. cbn [negb].
    case_bool_decide; [|done]. intros [= ->]. eauto 10.
  - intros (env & -> & -> & -> & -> & ->). rewrite Z.eqb_refl. cbn. by rewrite bool_decide_true.
Qed.

Lemma recvHello_ok p ty hello p' :
  recvHello p ty = (Ok hello, p') ->
  exists data c, ReadFrame (conn p) = (Ok data, c) /\ p' = set_conn p c /\ hello_received data ty hello.
Proof.
  unfold recvHello. destruct (ReadFrame (conn p)) as [[data|e] c]; [|done].
  intros [= Hp <-]. apply parseHello_ok in Hp. eauto.
Qed.

Lemma verifyPeerIdentity_ok p hello p' :
  verifyPeerIdentity p hello = (Ok tt, p') ->
  peer_verified p' /\ conn p' = conn p /\ localID p' = localID p /\ peerX25519 p' = peerX25519 p /\
  edPubKey p' = hello_Ed25519Pubkey hello /\ pNodeID p' = hello_NodeId hello /\
  remoteReachable p' = hello_Reachable hello /\ remoteListenAddr p' = hello_ListenAddr hello.
Proof.
  unfold verifyPeerIdentity. case_bool_decide as Hid; [|done]. cbn [negb].
  destruct (EdPublicToX25519 _) as [x|] eqn:Hx; [|done].
  case_bool_decide as Hk; [|done]. cbn [negb]. intros [= <-]. subst x. by split_and!.
Qed.

Lemma verifyPeerIdentity_accepts p hello :
  hello_NodeId hello = node_id (hello_Ed25519Pubkey hello) ->
  EdPublicToX25519 (hello_Ed25519Pubkey hello) = Some (peerX25519 p) ->
  exists p', verifyPeerIdentity p hello = (Ok tt, p').
Proof.
  intros Hid Hk. unfold verifyPeerIdentity. rewrite Hk, !bool_decide_true by done. cbn [negb]. eauto.
Qed.

(** The bytes of the hello of a node, when they can be encoded. *)
Definition hello_bytes (id : Identity) (cfg : HelloConfig) (ty : Z) (uuid : string) : option bytes :=
  match Marshal (local_hello id cfg) with
  | None => None
  | Some payload => Marshal (hello_envelope id ty uuid payload)
  end.

Lemma sendHello_bytes p cfg ty uuid data c :
  hello_bytes (localID p) cfg ty uuid = Some data -> len data <= MaxPayload ->
  wr (conn p) (frame_bytes data) = (Ok tt, c) ->
  sendHello p (local_hello (localID p) cfg) ty uuid = (Ok tt, set_conn p c).
Proof.
  unfold hello_bytes, sendHello. destruct (Marshal (local_hello _ _)) as [pl|]; [|done].
  intros -> Hl Hw. unfold WriteFrame. destruct (Z.ltb_spec MaxPayload (len data)); [lia|]. by rewrite Hw.
Qed.

Lemma sendHello_same p hello ty uuid p' :
  sendHello p hello ty uuid = (Ok tt, p') -> p' = set_conn p (conn p').
Proof.
  unfold sendHello. destruct (Marshal hello) as [pl|]; [|done]. destruct (Marshal _) as [d|]; [|done].
  destruct (WriteFrame (conn p) d) as [[[]|e] c]; [|done]. by intros [= <-].
Qed.

Lemma sendHello_conn p hello ty uuid p' :
  sendHello p hello ty uuid = (Ok tt, p') ->
  stream (conn p') = stream (conn p) /\ peerX25519 p' = peerX25519 p.
Proof.
  unfold sendHello. destruct (Marshal hello) as [pl|]; [|done]. destruct (Marshal _) as [d|]; [|done].
  destruct (WriteFrame (conn p) d) as [[[]|e] c] eqn:Hw; [|done]. intros [= <-].
  apply WriteFrame_ok in Hw as [_ Hw]. by apply duplex_wr in Hw as [? _].
Qed.

(** A signed hello passes the checks of the receiver. *)
Lemma hello_bytes_received id cfg ty uuid data `{!CryptoLaws} `{!ProtoLaws} :
  identity_ok id -> len (PrivateKey id) = PrivateKeySize -> 0 <= ty < 2 ^ 32 ->
  hello_bytes id cfg ty uuid = Some data -> hello_received data ty (local_hello id cfg).
Proof.
  intros [Hpub Hnode] Hpriv Hty. unfold hello_bytes.
  destruct (Marshal (local_hello id cfg)) as [pl|] eqn:Hpl; [|done]. intros Henv.
  exists (hello_envelope id ty uuid pl).
  unfold hello_envelope, SignEnvelope in *. rewrite Hpriv in *. cbn in *. split_and!; try done.
  - eapply Unmarshal_Marshal; [|exact Henv]. split; cbn; lia.
  - by eapply (Unmarshal_Marshal (ok := hello_ok)).
  - unfold VerifyEnvelope. cbn. rewrite Hpub, Public_length, Sign_length by done. cbn. by apply Verify_Sign.
Qed.
End Hello.

(** ** The duplicate table *)

(** A peer's seen map keeps the promise of the dedup interface. *)
#[export] Instance peer_dedup {N} : Dedup (Peer N) := {
  dd_entries p := pseen p;
  dd_ttl _ := seenTTL;
  dd_check p id now := isDuplicate p id now;
  dd_cleanup p now := cleanupSeen p now
}.

#[export] Instance peer_dedup_laws {N} : DedupLaws (Peer N).
Proof.
  split; intros; cbn in *.
  - unfold isDuplicate. by rewrite H.
  - unfold isDuplicate. rewrite H. done.
  - done.
  - done.
Qed.

Section Receive.
Context `{Crypto} `{Proto} {N : Type}.
Implicit Types (p : Peer N) (env : Envelope).

Definition direct_type (ty : Z) : Prop :=
  ty = MsgTypePeerHello \/ ty = MsgTypePeerHelloAck \/ ty = MsgTypePeerExchange \/ ty = MsgTypeKeepalive.

Lemma dispatch_exchange_eq p env now :
  MsgType env = MsgTypePeerExchange ->
  dispatch p env now =
    (match pseen p !! MessageId env with
     | Some _ => RSkip
     | None => if VerifyEnvelope env (edPubKey p) && bool_decide (SenderId env = pNodeID p)
               then handlePeerExchange p env else RSkip
     end, (isDuplicate p (MessageId env) now).2).
Proof.
  intros Ht. unfold dispatch. rewrite Ht. cbn. unfold isDuplicate.
  destruct (pseen p !! MessageId env); [done|]. cbn.
  destruct (VerifyEnvelope env (edPubKey p)); [|done]. cbn.
  case_bool_decide; done.
Qed.

Lemma dispatch_other p env now :
  MsgType env <> MsgTypePeerExchange ->
  dispatch p env now =
    (if bool_decide (direct_type (MsgType env)) then RSkip
     else if onGossipMessage p then RGossip (pNodeID p) env else RSkip, p).
Proof.
  intros Ht. unfold dispatch, direct_type. rewrite (proj2 (Z.eqb_neq _ MsgTypePeerExchange)) by done.
  destruct (Z.eqb_spec (MsgType env) MsgTypeKeepalive); [by rewrite bool_decide_true by auto|].
  destruct (Z.eqb_spec (MsgType env) MsgTypePeerHello); [by rewrite bool_decide_true by auto|].
  destruct (Z.eqb_spec (MsgType env) MsgTypePeerHelloAck); [by rewrite bool_decide_true by auto|].
  cbn [orb]. rewrite bool_decide_false; [done|]. by intros [?|[?|[?|?]]].
Qed.

(** The receive loop's state changes only in the duplicate table, and an
    exchange that is handled was new there. *)
Lemma dispatch_seen p env now :
  (dispatch p env now).2 =
    (if bool_decide (MsgType env = MsgTypePeerExchange) then (isDuplicate p (MessageId env) now).2 else p).
Proof.
  case_bool_decide as Ht; [by rewrite dispatch_exchange_eq|]. by rewrite dispatch_other.
Qed.

Lemma dispatch_exchange_fresh p env now id infos :
  (dispatch p env now).1 = RPeerExchange id infos ->
  MsgType env = MsgTypePeerExchange /\ (isDuplicate p (MessageId env) now).1 = false.
Proof.
  destruct (decide (MsgType env = MsgTypePeerExchange)) as [Ht|Ht].
  - rewrite dispatch_exchange_eq by done. unfold isDuplicate. by destruct (pseen p !! MessageId env).
  - rewrite dispatch_other by done. cbn. by repeat split_if.
Qed.

(** One use of the receiving side. *)
Inductive recv_event :=
| REnvelope (env : Envelope) (now : Z)
| RCleanup (now : Z).

(** The uses of the duplicate table in a sequence of events. *)
Definition seen_uses (e : recv_event) : list dedup_event :=
  match e with
  | REnvelope env now => if bool_decide (MsgType env = MsgTypePeerExchange) then [DCheck (MessageId env) now] else []
  | RCleanup now => [DCleanup now]
  end.

(** The exchanges handled in a sequence of events: message identifier, time,
    and what is handed to the manager. *)
Fixpoint recv_run p (es : list recv_event) : list (string * Z * list PeerInfo) * Peer N :=
  match es with
  | [] => ([], p)
  | REnvelope env now :: es' =>
      let '(a, p1) := dispatch p env now in
      let '(out, p2) := recv_run p1 es' in
      (match a with RPeerExchange _ infos => (MessageId env, now, infos) :: out | _ => out end, p2)
  | RCleanup now :: es' => recv_run (cleanupSeen p now) es'
  end.

Lemma recv_run_dedup p es id t infos :
  (id, t, infos) ∈ (recv_run p es).1 -> (id, t, false) ∈ (dedup_run p (es ≫= seen_uses)).1.
Proof.
  revert p. induction es as [|[env now|now] es IH]; intros p Hin; cbn in *.
  - by apply elem_of_nil in Hin.
  - destruct (dispatch p env now) as [a p1] eqn:Hd. destruct (recv_run p1 es) as [out p2] eqn:Hr. cbn in Hin.
    pose proof (dispatch_seen p env now) as Hp1. rewrite Hd in Hp1. cbn in Hp1.
    assert ((id, t, infos) ∈ out -> (id, t, false) ∈ (dedup_run p1 (es ≫= seen_uses)).1) as IHo.
    { intros Ho. apply IH. by rewrite Hr. }
    destruct a as [|i inf|]; [..|].
    + case_bool_decide; cbn; [|subst p1; auto].
      destruct (isDuplicate p (MessageId env) now) as [b p1'] eqn:Hb. cbn in Hp1. subst p1'.
      destruct (dedup_run p1 _) as [o1 p3] eqn:E. cbn in *. right. auto.
    + destruct (dispatch_exchange_fresh p env now i inf) as [Ht Hf]; [by rewrite Hd|].
      rewrite bool_decide_true in * by done. cbn.
      destruct (isDuplicate p (MessageId env) now) as [b p1'] eqn:Hb. cbn in Hp1, Hf. subst p1' b.
      destruct (dedup_run p1 _) as [o1 p3] eqn:E. cbn in *.
      apply elem_of_cons in Hin as [Heq|Hin]; [simplify_eq; left|right; auto].
    + case_bool_decide; cbn; [|subst p1; auto].
      destruct (isDuplicate p (MessageId env) now) as [b p1'] eqn:Hb. cbn in Hp1. subst p1'.
      destruct (dedup_run p1 _) as [o1 p3] eqn:E. cbn in *. right. auto.
  - auto.
Qed.
End Receive.

(** A turn of the receive loop that does not end it consumes a frame. *)
Lemma recvLoop_turn_consumes `{Crypto} `{Proto} {N} `{DuplexLaws N} (p : Peer N) now a p' :
  recvLoop_turn p now = (Ok a, p') -> (8 + length (stream (conn p')) <= length (stream (conn p)))%nat.
Proof.
  unfold recvLoop_turn. destruct (SetReadDeadline (conn p)); [|done]. cbn [negb].
  destruct (ReadFrame (conn p)) as [[data|e] c] eqn:Hr; [|done].
  apply ReadFrame_inv in Hr as [Hs _]. rewrite Hs, length_app, length_frame_bytes.
  destruct (Unmarshal data : option Envelope) as [env|].
  - pose proof (dispatch_seen (set_conn p c) env now) as Hd. destruct (dispatch _ env now) as [a' p2].
    intros [= <- <-]. cbn in Hd. rewrite Hd. case_bool_decide; [|cbn; lia]. unfold isDuplicate.
    destruct (pseen _ !! _); cbn; lia.
  - intros [= <- <-]. cbn. lia.
Qed.

(** A turn does not close the peer; one that ends the loop returns nil when it is closed. *)
Lemma recvLoop_turn_done `{Crypto} `{Proto} {N} `{Conn N} (p : Peer N) now r p' :
  recvLoop_turn p now = (r, p') ->
  done p' = done p /\ match r with Ok _ => True | Err e => e = RecvClosed <-> done p = true end.
Proof.
  unfold recvLoop_turn. destruct (SetReadDeadline (conn p)); cbn [negb].
  - destruct (ReadFrame (conn p)) as [[data|e] c].
    + destruct (Unmarshal data : option Envelope) as [env|]; [|by intros [= <- <-]].
      pose proof (dispatch_seen (set_conn p c) env now) as Hd. destruct (dispatch _ env now) as [a' p2].
      intros [= <- <-]. cbn in Hd. rewrite Hd. case_bool_decide; [|done]. unfold isDuplicate. by destruct (pseen _ !! _).
    + intros [= <- <-]. split; [done|]. by destruct (done p).
  - intros [= <- <-]. split; [done|]. by destruct (done p).
Qed.

Lemma recvLoop_ends `{Crypto} `{Proto} {N} `{DuplexLaws N} (clock : nat -> Z) (closes : nat -> bool) fuel (p : Peer N) :
  (length (stream (conn p)) < 8 * fuel)%nat ->
  exists actions e p', recvLoop fuel p clock closes = Some (actions, e, p') /\
    (8 * length actions <= length (stream (conn p)))%nat /\
    (e = RecvClosed <-> done p' = true) /\ (done p = true -> e = RecvClosed) /\
    ((forall i, closes i = false) -> e = RecvClosed -> done p = true).
Proof.
  revert p. induction fuel as [|fuel IH]; intros p Hp; [lia|]. cbn [recvLoop].
  set (q := if closes fuel then Close p else p).
  assert (conn q = conn p /\ (done p = true -> done q = true) /\
    ((forall i, closes i = false) -> done q = done p)) as (Hc & Hd1 & Hd2).
  { unfold q. destruct (closes fuel) eqn:E; [|done]. split_and!; [done|done|]. intros Hn. by rewrite Hn in E. }
  rewrite <- Hc in *. destruct (recvLoop_turn q (clock fuel)) as [[a|e] q'] eqn:Ht;
    pose proof (recvLoop_turn_done _ _ _ _ Ht) as [Hdone He].
  - apply recvLoop_turn_consumes in Ht. destruct (IH q') as (acts & e & q2 & -> & Hl & Hiff & Hcl1 & Hcl2); [lia|].
    exists (a :: acts), e, q2. rewrite Hdone in *. split_and!; [done|cbn [length]; lia|done|by auto|].
    intros Hn Hcl. rewrite <- Hd2 by done. by apply Hcl2.
  - exists [], e, q'. rewrite Hdone. split_and!; [done|cbn; lia|done|by intros ?%Hd1%He|].
    intros Hn Hcl. rewrite <- Hd2 by done. by apply He.
Qed.

(** ** The send queue *)

#[export] Instance send_case_eq_dec : EqDecision send_case.
Proof. solve_decision. Defined.

Section Send.
Context `{Proto} {N : Type} `{Conn N}.
Implicit Types (p : Peer N).

(** One use of the sending side: a [SendRaw] by the engine or the manager, or
    a turn of [sendLoop]. *)
Inductive queue_event :=
| QSend (data : bytes)
| QTurn (c : send_case).

Definition keepalive_bytes : option bytes := Marshal (mkEnvelope "" "" 0 0 MsgTypeKeepalive [] [] []).

(** A run without a write error: the payloads [SendRaw] accepted, and the
    payloads written with the case that wrote them. *)
Fixpoint queue_run p (es : list queue_event) : option (list bytes * list (send_case * bytes) * Peer N) :=
  match es with
  | [] => Some ([], [], p)
  | QSend data :: es' =>
      let '(ok, p1) := SendRaw p data in
      match queue_run p1 es' with
      | None => None
      | Some (acc, log, p2) => Some ((if ok then [data] else []) ++ acc, log, p2)
      end
  | QTurn c :: es' =>
      match sendLoop_turn p c with
      | None => queue_run p es'
      | Some (Err _, _) => None
      | Some (Ok _, p1) =>
          match queue_run p1 es' with
          | None => None
          | Some (acc, log, p2) =>
              let data := match c with SendQueued => head (sendCh p) | KeepaliveTick => keepalive_bytes end in
              Some (acc, (c, default [] data) :: log, p2)
          end
      end
  end.

Definition queued (log : list (send_case * bytes)) : list bytes :=
  (filter (fun e => e.1 = SendQueued) log).*2.

Lemma sendWithDeadline_ok p p1 data :
  sendWithDeadline p data = (Ok tt, p1) ->
  WriteFrame (conn p) data = (Ok tt, conn p1) /\ sendCh p1 = sendCh p.
Proof.
  unfold sendWithDeadline. destruct (SetWriteDeadline (conn p)); [cbn [negb]|done].
  destruct (WriteFrame (conn p) data) as [[[]|e] c]; [|done]. by intros [= <-].
Qed.

Lemma sendLoop_turn_ok p p1 c :
  sendLoop_turn p c = Some (Ok tt, p1) ->
  exists data, WriteFrame (conn p) data = (Ok tt, conn p1) /\
    match c with
    | SendQueued => sendCh p = data :: sendCh p1
    | KeepaliveTick => keepalive_bytes = Some data /\ sendCh p1 = sendCh p
    end.
Proof.
  destruct c; simpl.
  - destruct (sendCh p) as [|d q] eqn:Hq; [done|]. intros [= Hw]. apply sendWithDeadline_ok in Hw as [Hw Hs].
    exists d. split; [done|]. by rewrite Hs.
  - unfold writeKeepalive, keepalive_bytes. destruct (Marshal _) as [d|]; [|done].
    intros [= Hw]. apply sendWithDeadline_ok in Hw as [Hw Hs]. eauto.
Qed.

Lemma SendRaw_sendCh p data :
  sendCh (SendRaw p data).2 = sendCh p ++ (if (SendRaw p data).1 then [data] else []) /\
  conn (SendRaw p data).2 = conn p /\
  ((length (sendCh p) <= sendChCap)%nat -> (length (sendCh (SendRaw p data).2) <= sendChCap)%nat).
Proof.
  unfold SendRaw. destruct (Nat.ltb_spec (length (sendCh p)) sendChCap); simpl.
  - rewrite length_app. simpl. split_and!; [done|done|lia].
  - by rewrite app_nil_r.
Qed.

Lemma queue_run_ok p es acc log p' :
  queue_run p es = Some (acc, log, p') ->
  write_frames log.*2 (conn p) = (Ok tt, conn p') /\ sendCh p ++ acc = queued log ++ sendCh p' /\
  ((length (sendCh p) <= sendChCap)%nat -> (length (sendCh p') <= sendChCap)%nat).
Proof.
  revert p acc log. induction es as [|[d|c] es IH]; intros p acc log Hr; cbn [queue_run] in Hr.
  - injection Hr as <- <- <-. by rewrite app_nil_r.
  - pose proof (SendRaw_sendCh p d) as (Hq & Hc & Hl). destruct (SendRaw p d) as [ok p1].
    destruct (queue_run p1 es) as [[[acc1 log1] p2]|] eqn:Hr1; [|done]. injection Hr as <- <- <-.
    destruct (IH p1 _ _ Hr1) as (Hw & Ha & Hl'). cbn in Hq, Hc, Hl. rewrite Hc in Hw.
    rewrite <- Ha, Hq, app_assoc. auto.
  - destruct (sendLoop_turn p c) as [[[[]|e] p1]|] eqn:Ht; [|done|by apply IH].
    destruct (queue_run p1 es) as [[[acc1 log1] p2]|] eqn:Hr1; [|done]. injection Hr as <- <- <-.
    destruct (IH p1 _ _ Hr1) as (Hw & Ha & Hl'). apply sendLoop_turn_ok in Ht as (data & Hwf & Hc).
    assert (default [] (match c with SendQueued => head (sendCh p) | KeepaliveTick => keepalive_bytes end)
            = data) as ->.
    { destruct c; [by rewrite Hc|]. by destruct Hc as [-> _]. }
    cbn [fmap list_fmap write_frames snd]. rewrite Hwf. split; [done|]. unfold queued. destruct c.
    + rewrite filter_cons_True by done. cbn [fmap list_fmap snd]. rewrite Hc. cbn [app length].
      split; [by f_equal|]. intros Hlen. apply Hl'. lia.
    + rewrite filter_cons_False by done. destruct Hc as [_ <-]. auto.
Qed.
End Send.

(** ** Properties *)

(** C11. Authentication of the hello exchange, in both roles: when
    [ExchangeHello] succeeds, the frame received carried a hello that was signed
    by the key in it under the node id in it, that id is the hash of the key,
    and the key is, converted to X25519, the static key of the Noise
    handshake; these become the peer's identity and advertised address. *)
Theorem ExchangeHello_authenticates `{Crypto} `{Proto} `{KeyLib} {N} `{DuplexLaws N}
  (p p' : Peer N) (cfg : HelloConfig) (uuid : string)
  (Hok : ExchangeHello p cfg uuid = (Ok tt, p')) :
  exists data rest hello,
    stream (conn p) = frame_bytes data ++ rest /\
    hello_received data (if initiator p then MsgTypePeerHelloAck else MsgTypePeerHello) hello /\
    pNodeID p' = hello_NodeId hello /\ edPubKey p' = hello_Ed25519Pubkey hello /\
    pNodeID p' = node_id (edPubKey p') /\ EdPublicToX25519 (edPubKey p') = Some (peerX25519 p) /\
    remoteReachable p' = hello_Reachable hello /\ remoteListenAddr p' = hello_ListenAddr hello.
Proof.
  unfold ExchangeHello in Hok. destruct (SetReadDeadline (conn p)), (SetWriteDeadline (conn p)); try done. cbn [negb] in Hok.
  destruct (initiator p).
  - destruct (sendHello p _ _ _) as [[[]|e] p1] eqn:Hs; [|done].
    destruct (recvHello p1 _) as [[ack|e] p2] eqn:Hr; [|done].
    apply recvHello_ok in Hr as (data & c & Hrf & -> & Hrec).
    apply verifyPeerIdentity_ok in Hok as ([Hid Hk] & Hc & Hl & Hx & Hkey & Hnid & Hreach & Hla).
    destruct (sendHello_conn _ _ _ _ _ Hs) as (Hst & Hx1).
    apply ReadFrame_inv in Hrf as [Hstream _].
    exists data, (stream c), ack. rewrite <- Hst, Hk, Hx. cbn. rewrite Hx1. by split_and!.
  - destruct (recvHello p _) as [[hello|e] p1] eqn:Hr; [|done].
    apply recvHello_ok in Hr as (data & c & Hrf & -> & Hrec).
    destruct (verifyPeerIdentity _ hello) as [[[]|e] p2] eqn:Hv; [|done].
    apply verifyPeerIdentity_ok in Hv as ([Hid Hk] & Hc & Hl & Hx & Hkey & Hnid & Hreach & Hla).
    apply ReadFrame_inv in Hrf as [Hstream _].
    exists data, (stream c), hello. apply sendHello_same in Hok as ->. cbn in *.
    rewrite <- Hx. by split_and!.
Qed.

(** C12. Two honest nodes accept each other: when each reads the hello the other
    sends, and the X25519 keys of the handshake are those of their
    identities, both exchanges succeed and each knows the other's node id,
    key and advertised address. *)
Theorem ExchangeHello_completes `{CryptoLaws} `{ProtoLaws} `{KeyLib} {N} `{DuplexLaws N}
  (a b : Peer N) (cfga cfgb : HelloConfig) (uuida uuidb : string) (da db resta restb : bytes) (ca : N)
  (Hra : initiator a = true) (Hrb : initiator b = false)
  (Hida : identity_ok (localID a)) (Hidb : identity_ok (localID b))
  (Hpriva : len (PrivateKey (localID a)) = PrivateKeySize)
  (Hprivb : len (PrivateKey (localID b)) = PrivateKeySize)
  (Hxa : EdPublicToX25519 (PublicKey (localID a)) = Some (peerX25519 b))
  (Hxb : EdPublicToX25519 (PublicKey (localID b)) = Some (peerX25519 a))
  (Hda : hello_bytes (localID a) cfga MsgTypePeerHello uuida = Some da) (Hsa : len da <= MaxPayload)
  (Hdb : hello_bytes (localID b) cfgb MsgTypePeerHelloAck uuidb = Some db) (Hsb : len db <= MaxPayload)
  (Hina : stream (conn a) = frame_bytes db ++ resta) (Hinb : stream (conn b) = frame_bytes da ++ restb)
  (Hdla : SetReadDeadline (conn a) = true /\ SetWriteDeadline (conn a) = true)
  (Hdlb : SetReadDeadline (conn b) = true /\ SetWriteDeadline (conn b) = true)
  (Hwa : wr (conn a) (frame_bytes da) = (Ok tt, ca))
  (Hwb : forall c, ReadFrame (conn b) = (Ok da, c) -> exists c', wr c (frame_bytes db) = (Ok tt, c')) :
  exists a' b', ExchangeHello a cfga uuida = (Ok tt, a') /\ ExchangeHello b cfgb uuidb = (Ok tt, b') /\
    pNodeID a' = NodeID (localID b) /\ edPubKey a' = PublicKey (localID b) /\
    remoteListenAddr a' = hc_ListenAddr cfgb /\ remoteReachable a' = hc_Reachable cfgb /\
    pNodeID b' = NodeID (localID a) /\ edPubKey b' = PublicKey (localID a) /\
    remoteListenAddr b' = hc_ListenAddr cfga /\ remoteReachable b' = hc_Reachable cfga.
Proof.
  assert (hello_received da MsgTypePeerHello (local_hello (localID a) cfga)) as Hreca
    by (by eapply hello_bytes_received).
  assert (hello_received db MsgTypePeerHelloAck (local_hello (localID b) cfgb)) as Hrecb
    by (by eapply hello_bytes_received).
  destruct Hida as [Hpa Hna], Hidb as [Hpb Hnb].
  destruct (duplex_wr _ _ _ _ Hwa) as [Hsa1 _]. rewrite Hina in Hsa1.
  destruct (ReadFrame_frame ca db resta Hsb Hsa1) as (ca2 & Hra2 & _).
  destruct (ReadFrame_frame (conn b) da restb Hsa Hinb) as (cb1 & Hrb1 & _).
  destruct (Hwb _ Hrb1) as [cb2 Hwb2].
  destruct (verifyPeerIdentity_accepts (set_conn (set_conn a ca) ca2) (local_hello (localID b) cfgb))
    as [a' Ha']; [done|done|].
  destruct (verifyPeerIdentity_accepts (set_conn b cb1) (local_hello (localID a) cfga)) as [b' Hb']; [done|done|].
  pose proof (verifyPeerIdentity_ok _ _ _ Ha') as (_ & _ & _ & _ & Hka & Hia & Hrca & Hlaa).
  pose proof (verifyPeerIdentity_ok _ _ _ Hb') as (_ & Hcb & Hlb & _ & Hkb & Hib & Hrcb & Hlab).
  exists a', (set_conn b' cb2). unfold ExchangeHello. destruct Hdla as [-> ->], Hdlb as [-> ->]. cbn [negb]. rewrite Hra, Hrb.
  rewrite (sendHello_bytes a cfga _ _ da ca) by done. unfold recvHello. cbn [conn set_conn].
  rewrite Hra2, Hrb1, (proj2 (parseHello_ok _ _ _) Hreca), (proj2 (parseHello_ok _ _ _) Hrecb).
  rewrite Hb'. split_and!; try done.
  cbn in Hlb. rewrite <- Hlb. apply sendHello_bytes with (data := db); [by rewrite Hlb|done|by rewrite Hcb].
Qed.

(** Which messages leave the receive loop: a PeerExchange reaches the manager
    exactly when its identifier is new to this connection and it is signed by
    the authenticated key of the connection under the authenticated node id;
    hello and keepalive messages never do; every other type reaches the
    gossip engine, unchecked and with the state untouched. *)
Theorem dispatch_spec `{Crypto} `{Proto} {N} (p : Peer N) (env : Envelope) (now : Z) :
  dispatch p env now =
    if bool_decide (MsgType env = MsgTypePeerExchange) then
      (match pseen p !! MessageId env with
       | Some _ => RSkip
       | None =>
           match VerifyEnvelope env (edPubKey p) && bool_decide (SenderId env = pNodeID p),
                 (Unmarshal (Payload env) : option PeerExchange) with
           | true, Some px => if onPeerExchange p then RPeerExchange (pNodeID p) (px_Peers px) else RSkip
           | _, _ => RSkip
           end
       end,
       match pseen p !! MessageId env with
       | Some _ => p
       | None => set_pseen p (<[MessageId env := now]> (pseen p))
       end)
    else
      (if bool_decide (direct_type (MsgType env)) then RSkip
       else if onGossipMessage p then RGossip (pNodeID p) env else RSkip, p).
Proof.
  case_bool_decide as Ht; [|by apply dispatch_other].
  rewrite dispatch_exchange_eq by done. unfold isDuplicate.
  destruct (pseen p !! MessageId env); [done|].
  destruct (VerifyEnvelope env (edPubKey p)); [|done]. case_bool_decide; [|done]. done.
Qed.

(** C33. Whatever a peer sends and however often the table is cleaned, two
    PeerExchange messages with one identifier are handled at least the
    time-to-live (five minutes) apart. *)
Theorem exchange_handled_once `{Crypto} `{Proto} {N} (p : Peer N) (env : Envelope) (t0 t : Z)
  (id : string) (infos0 infos : list PeerInfo) (es : list recv_event)
  (Hfirst : (dispatch p env t0).1 = RPeerExchange id infos0)
  (Hord : dedup_ordered t0 (es ≫= seen_uses))
  (Hagain : (MessageId env, t, infos) ∈ (recv_run (dispatch p env t0).2 es).1) :
  t0 + seenTTL < t.
Proof.
  apply dispatch_exchange_fresh in Hfirst as [Ht Hf].
  rewrite dispatch_seen, bool_decide_true in Hagain by done.
  apply recv_run_dedup in Hagain.
  exact (dedup_accept_once p (MessageId env) t0 _ t Hf Hord Hagain).
Qed.

(** The send queue is a bounded FIFO: in any interleaving of [SendRaw] calls
    and turns of [sendLoop] (keepalives included) without a write error, the
    payloads written from the queue followed by those still waiting are those
    that were waiting followed by those [SendRaw] accepted, in order; the
    connection has received exactly the frames of the log; and at most 64
    payloads wait, the only state in which [SendRaw] refuses. *)
Theorem send_queue_fifo `{Proto} {N} `{Conn N} (p p' : Peer N) (es : list queue_event)
  (acc : list bytes) (log : list (send_case * bytes))
  (Hcap : (length (sendCh p) <= sendChCap)%nat)
  (Hrun : queue_run p es = Some (acc, log, p')) :
  sendCh p ++ acc = queued log ++ sendCh p' /\
  write_frames log.*2 (conn p) = (Ok tt, conn p') /\
  (length (sendCh p') <= sendChCap)%nat /\
  (forall data, (SendRaw p' data).1 = false <-> length (sendCh p') = sendChCap).
Proof.
  apply queue_run_ok in Hrun as (Hw & Hq & Hl). specialize (Hl Hcap). split_and!; try done.
  intros data. unfold SendRaw. destruct (Nat.ltb_spec (length (sendCh p')) sendChCap); simpl; split; try done; lia.
Qed.

(** C14. Everything a peer's queue accepts arrives: when the queue of one end has
    been drained over the encrypted connection, the other end's frame reader
    returns the written payloads in order, and those among them that were
    queued are exactly those [SendRaw] accepted. *)
Theorem peer_link_delivers `{Proto} `{CipherLaws} {C} `{ConnLaws C} (a a' : Peer (noiseConn C))
  (b : noiseConn C) (es : list queue_event) (acc : list bytes) (log : list (send_case * bytes))
  (out rest : bytes)
  (Hempty : sendCh a = []) (Hrun : queue_run a es = Some (acc, log, a')) (Hdrained : sendCh a' = [])
  (Hsync : cs_sync (nc_send (conn a)) (nc_recv b)) (Hbuf : nc_readBuf b = [])
  (Hout : written (nc_conn (conn a')) = written (nc_conn (conn a)) ++ out)
  (Hnet : stream (nc_conn b) = out ++ rest) :
  exists b', read_frames (length log) b = (log.*2, b') /\ queued log = acc /\
    nc_readBuf b' = [] /\ stream (nc_conn b') = rest /\ cs_sync (nc_send (conn a')) (nc_recv b').
Proof.
  apply queue_run_ok in Hrun as (Hw & Hq & _). rewrite Hempty, Hdrained, app_nil_r in Hq.
  destruct (channel_frames _ _ _ b out rest Hsync Hbuf Hw Hout Hnet) as (b' & Hr & Hrest).
  exists b'. rewrite length_fmap in Hr. destruct Hrest as (? & ? & ?). by split_and!.
Qed.

(** C34. The receive loop ends: on a connection over which finitely many bytes
    arrive, [recvLoop] returns after at most one turn per eight bytes and one more,
    whatever the bytes are, whatever the clock shows and whenever another
    goroutine closes the peer; it returns nil exactly when the peer has been
    closed by then, and an error otherwise. *)
Theorem recvLoop_terminates `{Crypto} `{Proto} {N} `{DuplexLaws N} (p : Peer N) (clock : nat -> Z) (closes : nat -> bool) :
  exists actions e p', recvLoop (S (length (stream (conn p)) / 8)) p clock closes = Some (actions, e, p') /\
    (8 * length actions <= length (stream (conn p)))%nat /\
    (e = RecvClosed <-> done p' = true) /\ (done p = true -> e = RecvClosed) /\
    ((forall i, closes i = false) -> e = RecvClosed -> done p = true).
Proof.
  apply recvLoop_ends. pose proof (Nat.div_mod (length (stream (conn p))) 8 ltac:(done)).
  pose proof (Nat.mod_upper_bound (length (stream (conn p))) 8 ltac:(done)). lia.
Qed.

(** ** Witnesses *)

Definition ex_cfg (n : Z) : HelloConfig := mkHelloConfig [] true (if n =? 7 then "10.0.0.7:4000" else "10.0.0.8:4000").
Definition ex_hello (n ty : Z) : bytes := default [] (hello_bytes (ex_identity n) (ex_cfg n) ty "u").
Definition ex_tcp (b : bytes) : tcp := mkTcp (mkPieces [b]) [] true.

(** Node 7 dials node 8. *)
Definition ex_dialer : Peer tcp :=
  newPeer (ex_tcp (frame_bytes (ex_hello 8 MsgTypePeerHelloAck))) (rev (toy_pub 8)) (ex_identity 7) true.
Definition ex_listener : Peer tcp :=
  newPeer (ex_tcp (frame_bytes (ex_hello 7 MsgTypePeerHello))) (rev (toy_pub 7)) (ex_identity 8) false.

Lemma ExchangeHello_completes_witness :
  exists a' b', ExchangeHello ex_dialer (ex_cfg 7) "u" = (Ok tt, a') /\
    ExchangeHello ex_listener (ex_cfg 8) "u" = (Ok tt, b') /\
    pNodeID a' = toy_id 8 /\ edPubKey a' = toy_pub 8 /\
    remoteListenAddr a' = "10.0.0.8:4000"%string /\ remoteReachable a' = true /\
    pNodeID b' = toy_id 7 /\ edPubKey b' = toy_pub 7 /\
    remoteListenAddr b' = "10.0.0.7:4000"%string /\ remoteReachable b' = true.
Proof.
  refine (ExchangeHello_completes ex_dialer ex_listener (ex_cfg 7) (ex_cfg 8) "u" "u"
    (ex_hello 7 MsgTypePeerHello) (ex_hello 8 MsgTypePeerHelloAck) [] []
    (mkTcp (mkPieces [frame_bytes (ex_hello 8 MsgTypePeerHelloAck)]) (frame_bytes (ex_hello 7 MsgTypePeerHello)) true)
    eq_refl eq_refl _ _ _ _ _ _ _ _ _ _ _ _ _ _ _ _).
  - split; vm_compute; reflexivity.
  - split; vm_compute; reflexivity.
  - vm_compute; reflexivity.
  - vm_compute; reflexivity.
  - vm_compute; reflexivity.
  - vm_compute; reflexivity.
  - vm_compute; reflexivity.
  - vm_compute; discriminate.
  - vm_compute; reflexivity.
  - vm_compute; discriminate.
  - reflexivity.
  - reflexivity.
  - split; reflexivity.
  - split; reflexivity.
  - reflexivity.
  - intros c Hc. assert (tcp_open c = true) as Ho.
    { apply (f_equal (fun x => tcp_open x.2)) in Hc. cbn [snd] in Hc. rewrite <- Hc. vm_compute. reflexivity. }
    destruct c as [i o op]. cbn in Ho. rewrite Ho. eexists. reflexivity.
Defined.

Definition ex_listener' : Peer tcp := (ExchangeHello ex_listener (ex_cfg 8) "u").2.

Lemma ExchangeHello_authenticates_witness :
  exists data rest hello,
    stream (conn ex_listener) = frame_bytes data ++ rest /\
    hello_received data MsgTypePeerHello hello /\
    pNodeID ex_listener' = hello_NodeId hello /\ edPubKey ex_listener' = hello_Ed25519Pubkey hello /\
    pNodeID ex_listener' = node_id (edPubKey ex_listener') /\
    EdPublicToX25519 (edPubKey ex_listener') = Some (peerX25519 ex_listener) /\
    remoteReachable ex_listener' = hello_Reachable hello /\ remoteListenAddr ex_listener' = hello_ListenAddr hello.
Proof.
  assert (ExchangeHello ex_listener (ex_cfg 8) "u" = (Ok tt, ex_listener')) as Hok.
  { assert ((ExchangeHello ex_listener (ex_cfg 8) "u").1 = Ok tt) as <- by (vm_compute; reflexivity).
    apply surjective_pairing. }
  exact (ExchangeHello_authenticates ex_listener ex_listener' (ex_cfg 8) "u" Hok).
Defined.

(** The exchange of node 8, received twice. *)
Definition ex_px : Envelope :=
  SignEnvelope (mkEnvelope "px" (toy_id 8) 0 1 MsgTypePeerExchange
    (put (mkPeerExchange [mkPeerInfo (toy_id 9) "10.0.0.9:4000" true (toy_pub 9) 5])) [] []) (toy_priv 8).
Definition ex_peer : Peer tcp :=
  set_callbacks (mkPeer (toy_id 8) (toy_pub 8) (ex_tcp []) (rev (toy_pub 8)) (ex_identity 7) true true
    "10.0.0.8:4000" false false [] false 1 1 1 1 ∅).

Lemma exchange_handled_once_witness :
  (dispatch ex_peer ex_px 0).1 = RPeerExchange (toy_id 8) [mkPeerInfo (toy_id 9) "10.0.0.9:4000" true (toy_pub 9) 5] /\
  ((recv_run (dispatch ex_peer ex_px 0).2 [REnvelope ex_px 1]).1 = []) /\
  0 + seenTTL < 2 * seenTTL.
Proof.
  split; [vm_compute; reflexivity|]. split; [vm_compute; reflexivity|].
  apply (exchange_handled_once ex_peer ex_px 0 (2 * seenTTL) (toy_id 8)
           [mkPeerInfo (toy_id 9) "10.0.0.9:4000" true (toy_pub 9) 5]
           [mkPeerInfo (toy_id 9) "10.0.0.9:4000" true (toy_pub 9) 5]
           [REnvelope ex_px 1; RCleanup (seenTTL + 1); REnvelope ex_px (2 * seenTTL)]).
  - vm_compute. reflexivity.
  - vm_compute. repeat split; discriminate.
  - match goal with |- ?x ∈ ?l => assert (l = [x]) as -> by (vm_compute; reflexivity) end. left.
Defined.

(** Two payloads queued with a keepalive between their turns. *)
Definition ex_keepalive : bytes := default [] keepalive_bytes.
Definition ex_events : list queue_event := [QSend [x01]; QSend [x02]; QTurn SendQueued; QTurn KeepaliveTick; QTurn SendQueued].
Definition ex_log : list (send_case * bytes) := [(SendQueued, [x01]); (KeepaliveTick, ex_keepalive); (SendQueued, [x02])].
Definition ex_sender {N} (c : N) : Peer N := newPeer c [] (ex_identity 7) true.

Lemma send_queue_fifo_witness :
  let p' := ex_sender (mkTcp (mkPieces [[]])
    (frame_bytes [x01] ++ frame_bytes ex_keepalive ++ frame_bytes [x02]) true) in
  sendCh (ex_sender (ex_tcp [])) ++ [[x01]; [x02]] = queued ex_log ++ sendCh p' /\
  write_frames ex_log.*2 (conn (ex_sender (ex_tcp []))) = (Ok tt, conn p') /\
  (length (sendCh p') <= sendChCap)%nat /\
  (forall data, (SendRaw p' data).1 = false <-> length (sendCh p') = sendChCap).
Proof.
  refine (send_queue_fifo (ex_sender (ex_tcp [])) _ ex_events [[x01]; [x02]] ex_log _ _).
  - vm_compute. lia.
  - vm_compute. reflexivity.
Defined.

Definition ex_link_out : bytes :=
  noise_msg (frame_bytes [x01] ++ be_put 16 0) ++ noise_msg (frame_bytes ex_keepalive ++ be_put 16 1) ++
  noise_msg (frame_bytes [x02] ++ be_put 16 2).
Definition ex_link_a (out : bytes) (n : Z) : Peer (noiseConn tcp) :=
  ex_sender (mkNoiseConn (mkTcp (mkPieces []) out true) n (2 ^ 64) [] []).
Definition ex_link_b : noiseConn tcp :=
  mkNoiseConn (mkTcp (mkPieces [take 5 ex_link_out; drop 5 ex_link_out]) [] true) (2 ^ 64) 0 [] [].

Lemma peer_link_delivers_witness :
  exists b', read_frames 3 ex_link_b = (ex_log.*2, b') /\ queued ex_log = [[x01]; [x02]] /\
    nc_readBuf b' = [] /\ stream (nc_conn b') = [] /\
    cs_sync (nc_send (conn (ex_link_a ex_link_out 3))) (nc_recv b').
Proof.
  refine (peer_link_delivers (ex_link_a [] 0) (ex_link_a ex_link_out 3) ex_link_b ex_events
    [[x01]; [x02]] ex_log ex_link_out [] _ _ _ _ _ _ _); reflexivity.
Defined.
