(* ===== verification/Keepalive.v ===== *)
(** * Keepalive: the timers of a connection

    When [sendLoop] and [recvLoop] of [internal/transport/peer.go] act, in
    nanoseconds of one clock: the keepalive timer and the write deadline of the
    sender, the read deadline of the receiver.  What the loops do at these
    times is in [Peer].  *)

From S2P Require Import Prelude Bytes Peer.

Section Timers.
Context (keepalive write idle : Z).

(** A turn of [sendLoop] that starts at [now] with the timer set to [timer]:
    [queued] is when an item is in the queue, if one comes; [first]: the
    choice of [select] when both are ready; [took]: how long the write lasts.
    It returns the case, and when the write ends; the deadline ends the loop. *)
Definition send_case_at (now timer : Z) (queued : option Z) (first : bool) : send_case * Z :=
  let tick := Z.max now timer in
  match queued with
  | Some q =>
      let item := Z.max now q in
      if (item <? tick) || ((item =? tick) && first) then (SendQueued, item) else (KeepaliveTick, tick)
  | None => (KeepaliveTick, tick)
  end.

Definition send_turn_at (now timer : Z) (queued : option Z) (first : bool) (took : Z) : option (send_case * Z) :=
  let '(c, start) := send_case_at now timer queued first in
  if write <? took then None else Some (c, start + took).

(** The times at which the writes of a run end. Each turn resets the timer. *)
Fixpoint send_times (now timer : Z) (turns : list (option Z * bool * Z)) : option (list Z) :=
  match turns with
  | [] => Some []
  | (queued, first, took) :: turns' =>
      match send_turn_at now timer queued first took with
      | None => None
      | Some (_, ended) =>
          match send_times ended (ended + keepalive) turns' with
          | None => None
          | Some ts => Some (ended :: ts)
          end
      end
  end.

(** [recvLoop]: each turn sets the deadline, reads the next frame, which is
    complete at [arrival], and handles it, which takes [took]; [None]: the deadline
    passed. *)
Definition recv_turn_at (now arrival : Z) : option Z := if now + idle <? arrival then None else Some (Z.max now arrival).

Fixpoint recv_times (now : Z) (frames : list (Z * Z)) : option (list Z) :=
  match frames with
  | [] => Some []
  | (arrival, took) :: frames' =>
      match recv_turn_at now arrival with
      | None => None
      | Some read =>
          match recv_times (read + took) frames' with
          | None => None
          | Some ts => Some (read :: ts)
          end
      end
  end.

(** A frame whose write ended at [c] is complete at the receiver at most
    [delay] later. *)
Definition arrives (delay : Z) (c : Z) (frame : Z * Z) : Prop := c <= frame.1 <= c + delay /\ 0 <= frame.2.

(** Consecutive writes end at most a keepalive interval and a write apart. *)
Lemma send_turn_ended now timer queued first took c ended :
  0 <= took -> send_turn_at now timer queued first took = Some (c, ended) -> ended <= Z.max now timer + write.
Proof.
  unfold send_turn_at, send_case_at. intros Ht. destruct queued as [q|]; [destruct (_ || _) eqn:Eb|];
    destruct (write <? took) eqn:Ew; try done; intros [= _ <-]; apply Z.ltb_ge in Ew; [|lia..].
  assert (Z.max now q <= Z.max now timer); [|lia].
  apply orb_true_iff in Eb as [Eb|Eb]; [apply Z.ltb_lt in Eb; lia|]. apply andb_true_iff in Eb as [Eb _].
  apply Z.eqb_eq in Eb. lia.
Qed.

Lemma recv_follows delay now timer r turns ts frames :
  0 <= keepalive -> Forall (fun t => 0 <= t.2) turns -> Z.max now timer + write + delay <= r + idle -> keepalive + write + delay <= idle ->
  send_times now timer turns = Some ts -> Forall2 (arrives delay) ts frames -> is_Some (recv_times r frames).
Proof.
  intros Hk Htook Hstart Hidle. revert now timer r ts frames Hstart Htook.
  induction turns as [|[[queued first] took] turns IH]; intros now timer r ts frames Hstart Htook; cbn [send_times].
  { intros [= <-] ->%Forall2_nil_inv_l. by eexists. }
  apply Forall_cons in Htook as [Ht Htook]. cbn in Ht.
  destruct (send_turn_at now timer queued first took) as [[c ended]|] eqn:Eturn; [|done].
  apply (send_turn_ended _ _ _ _ _ _ _ Ht) in Eturn.
  destruct (send_times ended (ended + keepalive) turns) as [ts'|] eqn:Ets; [|done]. intros [= <-] Hall.
  apply Forall2_cons_inv_l in Hall as ([arrival h] & frames' & [[Ha1 Ha2] Hh] & Hall & ->). cbn in *.
  unfold recv_turn_at. destruct (r + idle <? arrival) eqn:El; [apply Z.ltb_lt in El; lia|].
  destruct (IH ended (ended + keepalive) (Z.max r arrival + h) ts' frames') as [l Hl]; [lia|done..|].
  rewrite Hl. by eexists.
Qed.
End Timers.

(** ** Properties *)

(** C15. Keepalives keep a connection. Let the sender's loop start at [now] and the
    receiver's at [r]. If the sender's keepalive interval, its write timeout, the delay of
    the network and the time by which the sender starts later than the receiver, if it does,
    add up to at most the receiver's idle timeout, then the receiver's read deadline never
    passes, whatever is queued when, however the timer and the queue race, and however long
    the receiver takes for each message. With the defaults 30 seconds are left for the
    delay and the later start together. *)
Theorem keepalive_prevents_timeout (keepalive write idle delay now r : Z) (turns : list (option Z * bool * Z)) (ts : list Z)
  (frames : list (Z * Z))
  (Hk : 0 <= keepalive) (Htook : Forall (fun t => 0 <= t.2) turns)
  (Hidle : keepalive + write + delay + Z.max 0 (now - r) <= idle)
  (Hsend : send_times keepalive write now (now + keepalive) turns = Some ts)
  (Harrive : Forall2 (arrives delay) ts frames) :
  is_Some (recv_times idle r frames).
Proof. apply (recv_follows keepalive write idle delay now (now + keepalive) r turns ts frames); [lia|done|lia|lia|done..]. Qed.

(** The converse: when the keepalive interval is larger than the idle timeout,
    an idle connection is closed by its receiver at the first turn. *)
Theorem keepalive_too_slow (keepalive write idle now : Z) (first : bool) (took arrival handling : Z) (frames : list (Z * Z))
  (Hslow : idle < keepalive) (Htook : 0 <= took <= write) (Hpos : 0 <= keepalive)
  (Harrive : now + keepalive + took <= arrival) :
  send_times keepalive write now (now + keepalive) [(None, first, took)] = Some [now + keepalive + took] /\
  recv_times idle now ((arrival, handling) :: frames) = None.
Proof.
  split.
  - cbn. unfold send_turn_at, send_case_at. destruct (write <? took) eqn:E; [apply Z.ltb_lt in E; lia|].
    by replace (Z.max now (now + keepalive)) with (now + keepalive) by lia.
  - cbn. unfold recv_turn_at. destruct (now + idle <? arrival) eqn:E; [done|]. apply Z.ltb_ge in E. lia.
Qed.

(** ** Witnesses *)

Definition ex_turns : list (option Z * bool * Z) :=
  [(None, true, Second); (Some (25 * Second), false, 10 * Second); (None, false, 0); (Some (51 * Second), true, 0)].
Definition ex_ends : list Z := [21 * Second; 35 * Second; 55 * Second; 55 * Second].
Definition ex_frames : list (Z * Z) :=
  [(46 * Second, 0); (60 * Second, 40 * Second); (80 * Second, 0); (80 * Second, Second)].

Lemma keepalive_prevents_timeout_witness :
  defaultKeepaliveInterval + defaultWriteTimeout + 25 * Second + 5 * Second = defaultIdleTimeout /\
  is_Some (recv_times defaultIdleTimeout (-5 * Second) ex_frames).
Proof.
  split; [vm_compute; reflexivity|].
  apply (keepalive_prevents_timeout defaultKeepaliveInterval defaultWriteTimeout defaultIdleTimeout (25 * Second) 0 (-5 * Second)
    ex_turns ex_ends).
  - vm_compute. discriminate.
  - repeat constructor; vm_compute; discriminate.
  - vm_compute. discriminate.
  - vm_compute. reflexivity.
  - repeat constructor; vm_compute; discriminate.
Defined.

Lemma keepalive_too_slow_witness :
  recv_times (5 * Second) 0 [(9 * Second, 0)] = None.
Proof.
  apply (keepalive_too_slow (8 * Second) Second (5 * Second) 0 true 0 (9 * Second) 0 []); vm_compute; first [reflexivity|split; discriminate|discriminate].
Defined.
