(* ===== verification/Partyline.v ===== *)
(** * Partyline: the chat hub

    Models [internal/partyline/partyline.go].  One goroutine owns the session
    map; everything reaches it through channels.  The model keeps the
    sessions on a heap, because clients hold pointers to them: a session
    changes its nick, its channel is written and closed through the pointer,
    and a message in the [broadcast] channel holds one. The hub's [select] is
    the function [hub_step], one case per constructor of [hub_event]; a run
    is a sequence of events.  Sending on a closed channel, closing one twice
    and dereferencing nil are recorded in [panicked]. *)

From S2P Require Import Prelude Bytes.

Record RemoteMsg := mkRemoteMsg { rNick : string; rText : string }.

#[export] Instance RemoteMsg_eq_dec : EqDecision RemoteMsg.
Proof. solve_decision. Defined.

(** A pointer to a [Session]. *)
Abbreviation ptr := nat.

Record Session := mkSession {
  sID : Z;
  sNick : string;
  sSend : list string;     (* what waits in the channel [Send] *)
  sClosed : bool           (* whether [Send] is closed *)
}.

(** The capacity of [Send] and of [remoteSend]. *)
Definition chanCap : nat := 64.

Record bcastMsg := mkBcastMsg {
  bFrom : option ptr;      (* nil for system messages *)
  bText : string;
  bSystem : bool
}.

Record Hub := mkHub {
  nodeName : string;
  sessionCounter : Z;                    (* the [atomic.Uint64] *)
  heap : gmap ptr Session;
  next_ptr : ptr;
  sessions : gmap Z ptr;
  broadcast : list bcastMsg;             (* senders that wait are at the end *)
  remoteSend : option (list RemoteMsg);  (* None: no P2P *)
  stopped : bool;
  panicked : bool
}.

Definition NewHub (name : string) : Hub := mkHub name 0 ∅ 0 ∅ [] None false false.

Definition set_heap (h : Hub) (m : gmap ptr Session) : Hub :=
  mkHub (nodeName h) (sessionCounter h) m (next_ptr h) (sessions h) (broadcast h) (remoteSend h) (stopped h) (panicked h).
Definition set_sessions (h : Hub) (s : gmap Z ptr) : Hub :=
  mkHub (nodeName h) (sessionCounter h) (heap h) (next_ptr h) s (broadcast h) (remoteSend h) (stopped h) (panicked h).
Definition set_broadcast (h : Hub) (q : list bcastMsg) : Hub :=
  mkHub (nodeName h) (sessionCounter h) (heap h) (next_ptr h) (sessions h) q (remoteSend h) (stopped h) (panicked h).
Definition set_remoteSend (h : Hub) (r : option (list RemoteMsg)) : Hub :=
  mkHub (nodeName h) (sessionCounter h) (heap h) (next_ptr h) (sessions h) (broadcast h) r (stopped h) (panicked h).
Definition set_panicked (h : Hub) : Hub :=
  mkHub (nodeName h) (sessionCounter h) (heap h) (next_ptr h) (sessions h) (broadcast h) (remoteSend h) (stopped h) true.

(** [SetRemoteSend], with a fresh channel. *)
Definition SetRemoteSend (h : Hub) : Hub := set_remoteSend h (Some []).

(** ** Channels of a session *)

(** [select { case s.Send <- line: default: }]. *)
Definition trySend (h : Hub) (p : ptr) (line : string) : Hub :=
  match heap h !! p with
  | None => set_panicked h
  | Some s =>
      if sClosed s then set_panicked h
      else if (length (sSend s) <? chanCap)%nat
      then set_heap h (<[p := mkSession (sID s) (sNick s) (sSend s ++ [line]) false]> (heap h))
      else h
  end.

(** [close(s.Send)]. *)
Definition closeSend (h : Hub) (p : ptr) : Hub :=
  match heap h !! p with
  | None => set_panicked h
  | Some s =>
      if sClosed s then set_panicked h
      else set_heap h (<[p := mkSession (sID s) (sNick s) (sSend s) true]> (heap h))
  end.

(** The identifier of the session that [sendAll] leaves out, if any. *)
Definition excludedID (h : Hub) (exclude : option ptr) : option Z :=
  sID <$> (exclude ≫= (fun x => heap h !! x)).

(** [sendAll]: the loop over the map, in the order of [map_to_list]; the key
    of an entry is its session's identifier. *)
Definition sendAll (h : Hub) (exclude : option ptr) (line : string) : Hub :=
  foldl (fun h' e => if bool_decide (Some e.1 = excludedID h exclude) then h' else trySend h' e.2 line)
    h (map_to_list (sessions h)).

(** ** The cases of [Run]'s [select] *)

(** [h.join]: the new session, and the pointer handed back to the caller. *)
Definition join_alloc (h : Hub) (nick : string) : Hub :=
  let id := u64 (sessionCounter h + 1) in
  let p := next_ptr h in
  mkHub (nodeName h) id (<[p := mkSession id nick [] false]> (heap h)) (S p)
    (<[id := p]> (sessions h)) (broadcast h) (remoteSend h) (stopped h) (panicked h).

Definition do_join (h : Hub) (nick : string) : Hub * ptr :=
  (sendAll (join_alloc h nick) None ("* " ++ nick ++ " joined the partyline"), next_ptr h).

Definition do_leave (h : Hub) (p : ptr) : Hub :=
  match heap h !! p with
  | None => set_panicked h
  | Some s =>
      match sessions h !! sID s with
      | None => h
      | Some _ =>
          let h1 := closeSend (set_sessions h (delete (sID s) (sessions h))) p in
          sendAll h1 None ("* " ++ sNick s ++ " left the partyline")
      end
  end.

(** The non-blocking send to the transport. *)
Definition forwardRemote (h : Hub) (m : RemoteMsg) : Hub :=
  match remoteSend h with
  | None => h
  | Some q => if (length q <? chanCap)%nat then set_remoteSend h (Some (q ++ [m])) else h
  end.

Definition do_broadcast (h : Hub) (msg : bcastMsg) : Hub :=
  if bSystem msg then sendAll h (bFrom msg) (bText msg)
  else
    match bFrom msg ≫= (fun p => heap h !! p) with
    | None => set_panicked h
    | Some from =>
        forwardRemote (sendAll h (bFrom msg) ("[" ++ sNick from ++ "] " ++ bText msg))
          (mkRemoteMsg (sNick from) (bText msg))
    end.

Definition do_who (h : Hub) : list string :=
  omap (fun e => sNick <$> heap h !! e.2) (map_to_list (sessions h)).

Definition do_setNick (h : Hub) (p : ptr) (nick : string) : Hub * string :=
  match heap h !! p with
  | None => (set_panicked h, ""%string)
  | Some s =>
      let h1 := set_heap h (<[p := mkSession (sID s) nick (sSend s) (sClosed s)]> (heap h)) in
      (sendAll h1 None ("* " ++ sNick s ++ " is now known as " ++ nick), sNick s)
  end.

Definition do_stop (h : Hub) : Hub :=
  let h1 := foldl (fun h' e => closeSend h' e.2) h (map_to_list (sessions h)) in
  mkHub (nodeName h1) (sessionCounter h1) (heap h1) (next_ptr h1) (sessions h1) (broadcast h1) (remoteSend h1) true (panicked h1).

(** ** Clients *)

(** [Hub.Broadcast], [Hub.SystemMessage] and [Hub.DeliverRemote] send on the
    buffered channel. *)
Definition Hub_Broadcast (h : Hub) (from : ptr) (text : string) : Hub :=
  set_broadcast h (broadcast h ++ [mkBcastMsg (Some from) text false]).
Definition SystemMessage (h : Hub) (text : string) : Hub :=
  set_broadcast h (broadcast h ++ [mkBcastMsg None text true]).
Definition DeliverRemote (h : Hub) (nick text : string) : Hub :=
  set_broadcast h (broadcast h ++ [mkBcastMsg None ("[" ++ nick ++ "] " ++ text) true]).

(** The calls that wait for the loop: the request goes through an unbuffered
    channel and the reply comes through one of capacity one, so the loop never
    waits for a client. [None]: nobody receives the request any more. *)
Definition Hub_Join (h : Hub) (nick : string) : option (Hub * ptr) :=
  if stopped h then None else Some (do_join h nick).
Definition Hub_Leave (h : Hub) (s : ptr) : option Hub := if stopped h then None else Some (do_leave h s).
Definition Hub_Who (h : Hub) : option (list string) := if stopped h then None else Some (do_who h).
Definition Hub_SetNick (h : Hub) (s : ptr) (nick : string) : option (Hub * string) :=
  if stopped h then None else Some (do_setNick h s nick).

(** [Stop] closes a channel, which the loop sees; a second call panics. *)
Definition Hub_Stop (h : Hub) : Hub := if stopped h then set_panicked h else do_stop h.

(** A step: a case of the [select], a client's send, a session reading its
    channel, or the transport reading [remoteSend]. *)
Inductive hub_event :=
| EJoin (nick : string)
| ELeave (p : ptr)
| EDequeue
| EWho
| ESetNick (p : ptr) (nick : string)
| EStop
| EBroadcast (p : ptr) (text : string)
| ESystem (text : string)
| ERemote (nick text : string)
| ESessionRead (p : ptr)
| ETransportRead.

Definition session_read (h : Hub) (p : ptr) : Hub :=
  match heap h !! p with
  | Some (mkSession id nick (_ :: q) c) => set_heap h (<[p := mkSession id nick q c]> (heap h))
  | _ => h
  end.

Definition transport_read (h : Hub) : Hub :=
  match remoteSend h with Some (_ :: q) => set_remoteSend h (Some q) | _ => h end.

(** [None]: the event cannot happen, because the hub's loop has returned or
    because its channel is empty. *)
Definition hub_step (h : Hub) (e : hub_event) : option Hub :=
  match e with
  | EJoin nick => if stopped h then None else Some (do_join h nick).1
  | ELeave p => if stopped h then None else Some (do_leave h p)
  | EDequeue =>
      if stopped h then None
      else match broadcast h with [] => None | m :: q => Some (do_broadcast (set_broadcast h q) m) end
  | EWho => if stopped h then None else Some h
  | ESetNick p nick => if stopped h then None else Some (do_setNick h p nick).1
  | EStop => if stopped h then None else Some (do_stop h)
  | EBroadcast p text => Some (Hub_Broadcast h p text)
  | ESystem text => Some (SystemMessage h text)
  | ERemote nick text => Some (DeliverRemote h nick text)
  | ESessionRead p => Some (session_read h p)
  | ETransportRead => Some (transport_read h)
  end.

(** ** What the loops over the sessions do *)

(** The effect of a send that finds the channel open. *)
Definition push (s : Session) (line : string) : Session :=
  if (length (sSend s) <? chanCap)%nat then mkSession (sID s) (sNick s) (sSend s ++ [line]) (sClosed s) else s.

Lemma trySend_open h p line s :
  heap h !! p = Some s -> sClosed s = false -> trySend h p line = set_heap h (<[p := push s line]> (heap h)).
Proof.
  intros Hp Hc. unfold trySend, push. rewrite Hp, Hc. destruct (_ <? _)%nat; [done|].
  rewrite insert_id by done. by destruct h.
Qed.

(** The sessions of a list of map entries. *)
Definition targets (l : list (Z * ptr)) (ex : option Z) (p : ptr) : Prop :=
  exists id, (id, p) ∈ l /\ Some id <> ex.

Definition all_open (h : Hub) (l : list (Z * ptr)) : Prop :=
  forall id p, (id, p) ∈ l -> exists s, heap h !! p = Some s /\ sClosed s = false.

Lemma sendAll_fold h ex line l :
  NoDup l.*2 -> all_open h l ->
  exists m, foldl (fun h' e => if bool_decide (Some e.1 = ex) then h' else trySend h' e.2 line) h l = set_heap h m /\
    (forall p, targets l ex p -> exists s, heap h !! p = Some s /\ m !! p = Some (push s line)) /\
    (forall p, ~ targets l ex p -> m !! p = heap h !! p).
Proof.
  revert h. induction l as [|[id p] l IH]; intros h Hnd Hop; cbn [foldl].
  { exists (heap h). split; [by destruct h|]. split; [|done]. intros p (id & Hin & _). by apply elem_of_nil in Hin. }
  cbn [fmap list_fmap fst snd] in Hnd. apply NoDup_cons in Hnd as [Hp Hnd].
  assert (forall q, targets l ex q -> q <> p) as Hne.
  { intros q (i & Hin & _) ->. apply Hp. apply list_elem_of_fmap. by exists (i, p). }
  cbn [fst snd]. case_bool_decide as Hex.
  - destruct (IH h Hnd) as (m & Hm & Ht & Hnt); [intros i q Hin; apply (Hop i); by right|].
    exists m. split; [done|]. split.
    + intros q (i & Hin & Hi). apply elem_of_cons in Hin as [[= -> ->]|Hin]; [done|]. apply Ht. by exists i.
    + intros q Hq. apply Hnt. intros (i & Hin & Hi). apply Hq. exists i. split; [by right|done].
  - destruct (Hop id p) as (s & Hs & Hc); [left|]. rewrite (trySend_open _ _ _ _ Hs Hc).
    destruct (IH (set_heap h (<[p := push s line]> (heap h))) Hnd) as (m & Hm & Ht & Hnt).
    { intros i q Hin. cbn. destruct (Hop i q) as (s' & Hs' & Hc'); [by right|].
      assert (q <> p) by (intros ->; apply Hp, list_elem_of_fmap; by exists (i, p)).
      rewrite lookup_insert_ne by done. eauto. }
    exists m. split; [exact Hm|]. cbn in Ht, Hnt. split.
    + intros q Hq. destruct (decide (q = p)) as [->|Hqp].
      * exists s. split; [done|]. rewrite Hnt, lookup_insert_eq; [done|]. intros Hl. by apply Hne in Hl.
      * destruct (Ht q) as (s' & Hs' & Hm'); [|rewrite lookup_insert_ne in Hs' by done; eauto].
        destruct Hq as (i & Hin & Hi). apply elem_of_cons in Hin as [[= _ ?]|Hin]; [done|]. by exists i.
    + intros q Hq. assert (q <> p) by (intros ->; apply Hq; exists id; split; [left|done]).
      rewrite Hnt, lookup_insert_ne; [done|done|].
      intros (i & Hin & Hi). apply Hq. exists i. split; [by right|done].
Qed.

Lemma closeSend_open h p s :
  heap h !! p = Some s -> sClosed s = false ->
  closeSend h p = set_heap h (<[p := mkSession (sID s) (sNick s) (sSend s) true]> (heap h)).
Proof. intros Hp Hc. unfold closeSend. by rewrite Hp, Hc. Qed.

Lemma closeAll_fold h l :
  NoDup l.*2 -> all_open h l ->
  exists m, foldl (fun h' e => closeSend h' e.2) h l = set_heap h m /\
    (forall p, p ∈ l.*2 -> exists s, heap h !! p = Some s /\
       m !! p = Some (mkSession (sID s) (sNick s) (sSend s) true)) /\
    (forall p, p ∉ l.*2 -> m !! p = heap h !! p).
Proof.
  revert h. induction l as [|[id p] l IH]; intros h Hnd Hop; cbn [foldl fmap list_fmap snd].
  { exists (heap h). split; [by destruct h|]. split; [by intros p ?%elem_of_nil|done]. }
  cbn [fmap list_fmap snd] in Hnd. apply NoDup_cons in Hnd as [Hp Hnd].
  destruct (Hop id p) as (s & Hs & Hc); [left|]. rewrite (closeSend_open _ _ _ Hs Hc).
  destruct (IH (set_heap h (<[p := mkSession (sID s) (sNick s) (sSend s) true]> (heap h))) Hnd) as (m & Hm & Ht & Hnt).
  { intros i q Hin. cbn. destruct (Hop i q) as (s' & Hs' & Hc'); [by right|].
    assert (q <> p) by (intros ->; apply Hp, list_elem_of_fmap; by exists (i, p)).
    rewrite lookup_insert_ne by done. eauto. }
  exists m. split; [exact Hm|]. cbn in Ht, Hnt. split.
  - intros q [->|Hq]%elem_of_cons.
    + exists s. by rewrite Hnt, lookup_insert_eq.
    + destruct (Ht q Hq) as (s' & Hs' & Hm'). rewrite lookup_insert_ne in Hs' by (by intros ->). eauto.
  - intros q [Hqp Hq]%not_elem_of_cons. rewrite Hnt by done. by rewrite lookup_insert_ne.
Qed.
