(* ===== verification/PartylineProps.v ===== *)
(** * PartylineProps: the hub's guarantees

    The hub never sends on a closed channel nor closes one twice, delivers a
    message to exactly the other sessions, and hands to the transport only
    what local users wrote, so that remote messages do not loop. *)

From S2P Require Import Prelude Bytes Partyline.

(** The invariant of the hub. Pointers and identifiers are allocated
    together, so an identifier determines the session. *)
Record hub_inv (h : Hub) : Prop := {
  hi_panic : panicked h = false;
  hi_count : sessionCounter h = Z.of_nat (next_ptr h) /\ sessionCounter h < 2 ^ 64;
  hi_heap p s : heap h !! p = Some s ->
    (p < next_ptr h)%nat /\ sID s = Z.of_nat (S p) /\ (length (sSend s) <= chanCap)%nat;
  hi_sess id p : sessions h !! id = Some p ->
    id = Z.of_nat (S p) /\ exists s, heap h !! p = Some s /\ sClosed s = stopped h;
  hi_closed p s : heap h !! p = Some s -> sessions h !! sID s = None -> sClosed s = true;
  hi_queue m : m ∈ broadcast h ->
    if bSystem m then bFrom m = None else exists p, bFrom m = Some p /\ is_Some (heap h !! p);
  hi_remote q : remoteSend h = Some q -> (length q <= chanCap)%nat
}.

(** A session that [sendAll] reaches. *)
Definition receives (h : Hub) (exclude : option ptr) (p : ptr) (s : Session) : Prop :=
  sessions h !! sID s = Some p /\ exclude <> Some p.

#[export] Instance receives_dec h exclude p s : Decision (receives h exclude p s).
Proof. unfold receives. apply _. Defined.

Lemma NewHub_inv name : hub_inv (NewHub name).
Proof.
  split; cbn; try done. by intros m ?%elem_of_nil.
Qed.

Lemma push_same s line :
  sID (push s line) = sID s /\ sNick (push s line) = sNick s /\ sClosed (push s line) = sClosed s /\
  ((length (sSend s) <= chanCap)%nat -> (length (sSend (push s line)) <= chanCap)%nat).
Proof.
  unfold push. destruct (Nat.ltb_spec (length (sSend s)) chanCap); [|done]. cbn.
  split_and!; try done. rewrite length_app. cbn. lia.
Qed.

(** Changing the contents of channels and nicks keeps the invariant. *)
Lemma hub_inv_set_heap h m :
  hub_inv h ->
  (forall p, match heap h !! p, m !! p with
             | Some s, Some s' => sID s' = sID s /\ sClosed s' = sClosed s /\ (length (sSend s') <= chanCap)%nat
             | None, None => True
             | _, _ => False
             end) ->
  hub_inv (set_heap h m).
Proof.
  intros [Hp Hc Hh Hs Hcl Hq Hr] Hm. split; cbn; try done.
  - intros p s' Hs'. specialize (Hm p). rewrite Hs' in Hm. destruct (heap h !! p) as [s|] eqn:E; [|done].
    destruct Hm as (Hid & _ & Hl). apply Hh in E as (? & ? & _). split_and!; [done|congruence|done].
  - intros id p Hid. apply Hs in Hid as (? & s & E & ?). split; [done|]. specialize (Hm p). rewrite E in Hm.
    destruct (m !! p) as [s'|]; [|done]. exists s'. split; [done|]. destruct Hm as (_ & ? & _). congruence.
  - intros p s' Hs' Hno. specialize (Hm p). rewrite Hs' in Hm. destruct (heap h !! p) as [s|] eqn:E; [|done].
    destruct Hm as (Hid & -> & _). rewrite Hid in Hno. by eapply Hcl.
  - intros b Hb. specialize (Hq b Hb). destruct (bSystem b); [done|].
    destruct Hq as (p & Hf & [s E]). exists p. split; [done|]. specialize (Hm p). rewrite E in Hm. by destruct (m !! p).
Qed.

Lemma sessions_open h : hub_inv h -> stopped h = false ->
  NoDup (map_to_list (sessions h)).*2 /\ all_open h (map_to_list (sessions h)).
Proof.
  intros Hi Hst. split.
  - apply NoDup_alt. intros i j p Hpi Hpj.
    apply list_lookup_fmap_Some in Hpi as ([id1 p1] & -> & Hi1).
    apply list_lookup_fmap_Some in Hpj as ([id2 p2] & E & Hi2). cbn in E. subst p2.
    assert (id1 = id2) as ->.
    { apply list_elem_of_lookup_2, elem_of_map_to_list in Hi1, Hi2.
      apply (hi_sess h Hi) in Hi1 as [-> _], Hi2 as [-> _]. done. }
    by eapply (NoDup_lookup (map_to_list (sessions h))); [apply (NoDup_map_to_list (sessions h))|..].
  - intros id p Hin%elem_of_map_to_list. apply (hi_sess h Hi) in Hin as (_ & s & ? & ?). exists s. by rewrite <- Hst.
Qed.

(** [sendAll] appends the line to the channels of the sessions it reaches
    and changes nothing else. *)
Lemma sendAll_spec h exclude line :
  hub_inv h -> stopped h = false -> (forall x, exclude = Some x -> is_Some (heap h !! x)) ->
  exists m, sendAll h exclude line = set_heap h m /\ hub_inv (set_heap h m) /\
    forall p, m !! p = (fun s => if decide (receives h exclude p s) then push s line else s) <$> heap h !! p.
Proof.
  intros Hi Hst Hex. destruct (sessions_open h Hi Hst) as [Hnd Hop].
  destruct (sendAll_fold h (excludedID h exclude) line _ Hnd Hop) as (m & Hm & Ht & Hnt).
  assert (forall p, m !! p = (fun s => if decide (receives h exclude p s) then push s line else s) <$> heap h !! p) as Hp.
  { intros p. destruct (heap h !! p) as [s|] eqn:E; cbn.
    2:{ rewrite Hnt; [done|]. intros Hin%Ht. destruct Hin as (s & ? & _). congruence. }
    assert (targets (map_to_list (sessions h)) (excludedID h exclude) p <-> receives h exclude p s) as Htr.
    { pose proof (hi_heap h Hi p s E) as (_ & Hid & _). unfold targets, receives. split.
      - intros (id & Hin%elem_of_map_to_list & Hne). pose proof (hi_sess h Hi _ _ Hin) as [-> _].
        rewrite Hid. split; [done|]. intros ->. apply Hne. unfold excludedID. cbn. by rewrite E, <- Hid.
      - intros [Hin Hne]. exists (sID s). split; [by apply elem_of_map_to_list|]. unfold excludedID.
        destruct exclude as [x|]; [|done]. cbn. destruct (Hex x eq_refl) as [sx Hx]. rewrite Hx. cbn.
        pose proof (hi_heap h Hi x sx Hx) as (_ & Hidx & _). intros [= Heq]. apply Hne. f_equal. lia. }
    destruct (decide (receives h exclude p s)) as [Hr|Hr].
    - apply Htr, Ht in Hr as (s' & ? & ?). congruence.
    - rewrite Hnt; [done|]. by rewrite Htr. }
  exists m. split; [done|]. split; [|done]. apply hub_inv_set_heap; [done|]. intros p. rewrite Hp.
  destruct (heap h !! p) as [s|] eqn:E; cbn; [|done].
  destruct (decide (receives h exclude p s)).
  - destruct (push_same s line) as (-> & _ & -> & Hl). split_and!; [done|done|]. apply Hl. by eapply hi_heap.
  - split_and!; [done|done|]. by eapply hi_heap.
Qed.

(** ** Every step keeps the invariant *)

(** Clients use pointers that [Join] returned, and fewer than 2^64 sessions
    are ever created. *)
Definition valid_event (h : Hub) (e : hub_event) : Prop :=
  match e with
  | EJoin _ => sessionCounter h + 1 < 2 ^ 64
  | ELeave p | ESetNick p _ | EBroadcast p _ => is_Some (heap h !! p)
  | _ => True
  end.

Lemma join_alloc_inv h nick :
  hub_inv h -> stopped h = false -> sessionCounter h + 1 < 2 ^ 64 -> hub_inv (join_alloc h nick).
Proof.
  intros [Hp [Hc Hlt] Hh Hs Hcl Hq Hr] Hst Hn. unfold join_alloc. rewrite u64_small by lia.
  assert (heap h !! next_ptr h = None) as Hfresh.
  { destruct (heap h !! next_ptr h) as [s|] eqn:E; [|done]. apply Hh in E as (? & _). lia. }
  split; cbn; try done.
  - split; lia.
  - intros p s. rewrite lookup_insert_Some. intros [[<- <-]|[Hne E]].
    + cbn. split_and!; lia.
    + apply Hh in E as (? & ? & ?). split_and!; [lia|done|done].
  - intros id p. rewrite lookup_insert_Some. intros [[<- <-]|[Hne E]].
    + split; [lia|]. eexists. by rewrite lookup_insert_eq.
    + apply Hs in E as (-> & s & E & ?). split; [done|]. exists s. split; [|done].
      rewrite lookup_insert_ne; [done|]. intros <-. congruence.
  - intros p s. rewrite lookup_insert_Some, lookup_insert_None. intros [[<- <-]|[Hne E]] [Hno Hid].
    + by cbn in Hid.
    + by eapply Hcl.
  - intros m Hm. specialize (Hq m Hm). destruct (bSystem m); [done|]. destruct Hq as (p & ? & [s E]).
    exists p. split; [done|]. rewrite lookup_insert_ne; [by eexists|]. intros <-. congruence.
Qed.

Lemma join_inv h nick :
  hub_inv h -> stopped h = false -> sessionCounter h + 1 < 2 ^ 64 -> hub_inv (do_join h nick).1.
Proof.
  intros Hi Hst Hn. unfold do_join. cbn [fst]. pose proof (join_alloc_inv h nick Hi Hst Hn) as Hi1.
  by destruct (sendAll_spec (join_alloc h nick) None ("* " ++ nick ++ " joined the partyline") Hi1 Hst ltac:(done))
    as (m & -> & ? & _).
Qed.

Lemma close_inv h p s :
  hub_inv h -> heap h !! p = Some s ->
  hub_inv (set_heap (set_sessions h (delete (sID s) (sessions h)))
             (<[p := mkSession (sID s) (sNick s) (sSend s) true]> (heap h))).
Proof.
  intros [Hp Hc Hh Hs Hcl Hq Hr] E. pose proof (Hh p s E) as (Hlt & Hid & Hlen). split; cbn; try done.
  - intros q s'. rewrite lookup_insert_Some. intros [[<- <-]|[Hne E']]; [done|by apply Hh].
  - intros id q. rewrite lookup_delete_Some. intros [Hne Hin]. apply Hs in Hin as (-> & s' & E' & ?).
    split; [done|]. exists s'. split; [|done]. rewrite lookup_insert_ne; [done|]. intros <-. congruence.
  - intros q s'. rewrite lookup_insert_Some. intros [[<- <-]|[Hne E']]; [done|].
    rewrite lookup_delete_ne; [by eapply Hcl|]. pose proof (Hh q s' E') as (_ & Hid' & _). lia.
  - intros m Hm. specialize (Hq m Hm). destruct (bSystem m); [done|]. destruct Hq as (q & ? & [s' E']).
    exists q. split; [done|]. rewrite lookup_insert_is_Some. destruct (decide (p = q)); [by left|]. right. eauto.
Qed.

Lemma leave_inv h p : hub_inv h -> stopped h = false -> is_Some (heap h !! p) -> hub_inv (do_leave h p).
Proof.
  intros Hi Hst [s E]. unfold do_leave. rewrite E. destruct (sessions h !! sID s) as [q|] eqn:Hin; [|done].
  pose proof (hi_heap h Hi p s E) as (_ & Hid & _).
  assert (q = p) as ->. { pose proof (hi_sess h Hi _ _ Hin) as [Hq _]. lia. }
  pose proof (hi_sess h Hi _ _ Hin) as (_ & s' & E' & Hc). rewrite E in E'. injection E' as <-. rewrite Hst in Hc.
  rewrite (closeSend_open _ _ s) by done. set (h1 := set_heap _ _).
  assert (hub_inv h1) as Hi1 by exact (close_inv h p s Hi E).
  by destruct (sendAll_spec h1 None ("* " ++ sNick s ++ " left the partyline") Hi1 Hst ltac:(done)) as (m & -> & ? & _).
Qed.

Lemma rename_inv h p s nick :
  hub_inv h -> heap h !! p = Some s ->
  hub_inv (set_heap h (<[p := mkSession (sID s) nick (sSend s) (sClosed s)]> (heap h))).
Proof.
  intros Hi E. apply hub_inv_set_heap; [done|]. intros q. destruct (decide (p = q)) as [<-|Hne].
  - rewrite E, lookup_insert_eq. split_and!; try done. apply (hi_heap h Hi p s E).
  - rewrite lookup_insert_ne by done. destruct (heap h !! q) as [s'|] eqn:E'; [|done].
    split_and!; try done. apply (hi_heap h Hi q s' E').
Qed.

Lemma setNick_inv h p nick : hub_inv h -> stopped h = false -> is_Some (heap h !! p) -> hub_inv (do_setNick h p nick).1.
Proof.
  intros Hi Hst [s E]. unfold do_setNick. rewrite E. cbn [fst]. pose proof (rename_inv h p s nick Hi E) as Hi1.
  by destruct (sendAll_spec _ None ("* " ++ sNick s ++ " is now known as " ++ nick) Hi1 Hst ltac:(done))
    as (m & -> & ? & _).
Qed.

Lemma stop_inv h : hub_inv h -> stopped h = false -> hub_inv (do_stop h).
Proof.
  intros Hi Hst. unfold do_stop. destruct (sessions_open h Hi Hst) as [Hnd Hop].
  destruct (closeAll_fold h _ Hnd Hop) as (m & -> & Ht & Hnt).
  assert (forall p, m !! p = (fun s => if decide (p ∈ (map_to_list (sessions h)).*2)
            then mkSession (sID s) (sNick s) (sSend s) true else s) <$> heap h !! p) as Hm.
  { intros p. destruct (decide _) as [Hin|Hin]; [|rewrite Hnt by done; by destruct (heap h !! p)].
    destruct (Ht p Hin) as (s & -> & ->). done. }
  destruct Hi as [Hp Hc Hh Hs Hcl Hq Hr]. split; cbn; try done.
  - intros p s'. rewrite Hm, fmap_Some. intros (s & E & ->). apply Hh in E. by destruct (decide _).
  - intros id p Hin. pose proof (Hs id p Hin) as (-> & s & E & _). split; [done|].
    rewrite Hm, E. cbn. eexists. split; [done|]. rewrite decide_True; [done|].
    apply list_elem_of_fmap. exists (Z.of_nat (S p), p). split; [done|]. by apply elem_of_map_to_list.
  - intros p s'. rewrite Hm, fmap_Some. intros (s & E & ->). destruct (decide _); [done|]. by eapply Hcl.
  - intros b Hb. specialize (Hq b Hb). destruct (bSystem b); [done|]. destruct Hq as (p & ? & [s E]).
    exists p. split; [done|]. rewrite Hm, E. by eexists.
Qed.

Lemma set_broadcast_inv h q :
  hub_inv h -> (forall m, m ∈ q -> if bSystem m then bFrom m = None else exists p, bFrom m = Some p /\ is_Some (heap h !! p)) ->
  hub_inv (set_broadcast h q).
Proof. intros [Hp Hc Hh Hs Hcl Hq Hr] Hm. by split. Qed.

Lemma forwardRemote_inv h m : hub_inv h -> hub_inv (forwardRemote h m).
Proof.
  intros Hi. unfold forwardRemote. destruct (remoteSend h) as [q|] eqn:E; [|done].
  destruct (Nat.ltb_spec (length q) chanCap); [|done]. destruct Hi as [Hp Hc Hh Hs Hcl Hq Hr].
  split; cbn; try done. intros q' [= <-]. rewrite length_app. cbn. lia.
Qed.

Lemma do_broadcast_inv h m :
  hub_inv h -> stopped h = false ->
  (if bSystem m then bFrom m = None else exists p, bFrom m = Some p /\ is_Some (heap h !! p)) ->
  hub_inv (do_broadcast h m).
Proof.
  intros Hi Hst Hm. unfold do_broadcast. destruct (bSystem m).
  - rewrite Hm. by destruct (sendAll_spec h None (bText m) Hi Hst ltac:(done)) as (m' & -> & ? & _).
  - destruct Hm as (p & -> & [s E]). cbn. rewrite E. apply forwardRemote_inv.
    destruct (sendAll_spec h (Some p) ("[" ++ sNick s ++ "] " ++ bText m) Hi Hst) as (m' & -> & ? & _); [|done].
    intros x [= <-]. by eexists.
Qed.

Lemma session_read_inv h p : hub_inv h -> hub_inv (session_read h p).
Proof.
  intros Hi. unfold session_read. destruct (heap h !! p) as [[id nick [|l q] c]|] eqn:E; try done.
  apply hub_inv_set_heap; [done|]. intros q'. destruct (decide (p = q')) as [<-|Hne].
  - rewrite E, lookup_insert_eq. split_and!; try done. pose proof (hi_heap h Hi p _ E) as (_ & _ & Hl). cbn in *. lia.
  - rewrite lookup_insert_ne by done. destruct (heap h !! q') as [s|] eqn:E'; [|done].
    split_and!; try done. apply (hi_heap h Hi q' s E').
Qed.

Lemma hub_step_inv h e h' : hub_inv h -> valid_event h e -> hub_step h e = Some h' -> hub_inv h'.
Proof.
  intros Hi Hv Hstep. assert (forall m q, broadcast h = m :: q -> forall x, x ∈ m :: q ->
    if bSystem x then bFrom x = None else exists p, bFrom x = Some p /\ is_Some (heap h !! p)) as Hqs.
  { intros m q E x Hx. apply (hi_queue h Hi). by rewrite E. }
  destruct e as [nick|p| | |p nick| |p text|text|nick text|p|]; cbn [hub_step] in Hstep;
    try (destruct (stopped h) eqn:Hst; [done|]).
  - injection Hstep as <-. by apply join_inv.
  - injection Hstep as <-. by apply leave_inv.
  - destruct (broadcast h) as [|m q] eqn:Hb; [done|]. injection Hstep as <-.
    apply do_broadcast_inv; [|done|apply (Hqs m q eq_refl); left].
    apply set_broadcast_inv; [done|]. intros x Hx. apply (Hqs m q eq_refl). by right.
  - by injection Hstep as <-.
  - injection Hstep as <-. by apply setNick_inv.
  - injection Hstep as <-. by apply stop_inv.
  - injection Hstep as <-. apply set_broadcast_inv; [done|]. intros x [Hx| ->%list_elem_of_singleton]%elem_of_app.
    + by apply (hi_queue h Hi).
    + cbn. eauto.
  - injection Hstep as <-. apply set_broadcast_inv; [done|]. intros x [Hx| ->%list_elem_of_singleton]%elem_of_app; [|done].
    by apply (hi_queue h Hi).
  - injection Hstep as <-. apply set_broadcast_inv; [done|]. intros x [Hx| ->%list_elem_of_singleton]%elem_of_app; [|done].
    by apply (hi_queue h Hi).
  - injection Hstep as <-. by apply session_read_inv.
  - injection Hstep as <-. unfold transport_read. destruct (remoteSend h) as [[|r q]|] eqn:E; try done.
    destruct Hi as [Hp Hc Hh Hs Hcl Hq Hr]. split; cbn; try done. intros q' [= <-].
    specialize (Hr _ E). cbn in Hr. lia.
Qed.

(** A run of the hub. *)
Inductive hub_steps : Hub -> list hub_event -> Hub -> Prop :=
| hs_nil h : hub_steps h [] h
| hs_cons h e h1 es h2 :
    valid_event h e -> hub_step h e = Some h1 -> hub_steps h1 es h2 -> hub_steps h (e :: es) h2.

Lemma hub_steps_inv h es h' : hub_inv h -> hub_steps h es h' -> hub_inv h'.
Proof. intros Hi. induction 1; [done|]. eauto using hub_step_inv. Qed.

Lemma SetRemoteSend_inv h : hub_inv h -> hub_inv (SetRemoteSend h).
Proof. intros [Hp Hc Hh Hs Hcl Hq Hr]. split; cbn; try done. intros q [= <-]. cbn. lia. Qed.

#[export] Hint Resolve NewHub_inv SetRemoteSend_inv hub_steps_inv : micelio.

(** ** What reaches the transport *)

(** The loops change only the heap and the panic mark. *)
Definition same_queues (h h' : Hub) : Prop := broadcast h' = broadcast h /\ remoteSend h' = remoteSend h.

#[export] Instance same_queues_refl : Reflexive same_queues.
Proof. by split. Qed.
#[export] Instance same_queues_trans : Transitive same_queues.
Proof. intros h1 h2 h3 [E1 E2] [E3 E4]. split; congruence. Qed.

Lemma trySend_same_queues h p line : same_queues h (trySend h p line).
Proof. unfold trySend. destruct (heap h !! p); [|done]. by repeat split_if. Qed.

Lemma closeSend_same_queues h p : same_queues h (closeSend h p).
Proof. unfold closeSend. destruct (heap h !! p); [|done]. by split_if. Qed.

Lemma sendAll_same_queues h x line : same_queues h (sendAll h x line).
Proof. apply (foldl_preorder same_queues). intros h' a. case_bool_decide; [done|]. apply trySend_same_queues. Qed.

Lemma do_leave_same_queues h p : same_queues h (do_leave h p).
Proof.
  unfold do_leave. destruct (heap h !! p) as [s|]; [|done]. destruct (sessions h !! sID s); [|done].
  etransitivity; [|apply sendAll_same_queues]. apply (closeSend_same_queues (set_sessions h _)).
Qed.

Lemma do_setNick_same_queues h p nick : same_queues h (do_setNick h p nick).1.
Proof. unfold do_setNick. destruct (heap h !! p) as [s|]; [|done]. apply (sendAll_same_queues (set_heap h _)). Qed.

Lemma do_stop_same_queues h : same_queues h (do_stop h).
Proof.
  unfold do_stop. pose proof (foldl_preorder same_queues (fun h' (e : Z * ptr) => closeSend h' e.2) h (map_to_list (sessions h)))
    as [Hb Hr]; [intros; apply closeSend_same_queues|]. by split.
Qed.

(** The texts of the messages of users, where [RemoteMsg]s take them from. *)
Definition user_texts (q : list bcastMsg) : list string := bText <$> filter (fun m => bSystem m = false) q.
Definition remote_texts (h : Hub) : list string := rText <$> default [] (remoteSend h).
Definition event_texts (e : hub_event) : list string := match e with EBroadcast _ text => [text] | _ => [] end.
(** What the transport reads in a step. *)
Definition transport_reads (h : Hub) (e : hub_event) : list RemoteMsg :=
  match e, remoteSend h with ETransportRead, Some (m :: _) => [m] | _, _ => [] end.

Fixpoint hub_reads (h : Hub) (es : list hub_event) : list RemoteMsg :=
  match es with
  | [] => []
  | e :: es' =>
      transport_reads h e ++ match hub_step h e with Some h1 => hub_reads h1 es' | None => [] end
  end.

Lemma user_texts_app q1 q2 : user_texts (q1 ++ q2) = user_texts q1 ++ user_texts q2.
Proof. unfold user_texts. by rewrite filter_app, fmap_app. Qed.

Lemma user_texts_cons m q : user_texts (m :: q) = (if bSystem m then [] else [bText m]) ++ user_texts q.
Proof. unfold user_texts. rewrite filter_cons. destruct (bSystem m); by case_decide. Qed.

Lemma forwardRemote_texts h m :
  broadcast (forwardRemote h m) = broadcast h /\
  (remote_texts (forwardRemote h m) = remote_texts h \/
   remote_texts (forwardRemote h m) = remote_texts h ++ [rText m]).
Proof.
  unfold forwardRemote, remote_texts. destruct (remoteSend h) as [q|] eqn:E; [|rewrite E; auto].
  destruct (_ <? _)%nat; cbn; [|rewrite E; auto]. split; [done|]. right. by rewrite fmap_app.
Qed.

(** Processing a queued message adds at most its own text, and only if a user
    wrote it. *)
Lemma do_broadcast_texts h m :
  broadcast (do_broadcast h m) = broadcast h /\
  (remote_texts (do_broadcast h m) = remote_texts h \/
   bSystem m = false /\ remote_texts (do_broadcast h m) = remote_texts h ++ [bText m]).
Proof.
  unfold do_broadcast. destruct (bSystem m) eqn:Hm.
  - destruct (sendAll_same_queues h (bFrom m) (bText m)) as [Hb Hr]. unfold remote_texts. rewrite Hr. auto.
  - destruct (bFrom m ≫= _) as [s|]; [|cbn; auto]. set (line := ("[" ++ sNick s ++ "] " ++ bText m)%string).
    destruct (sendAll_same_queues h (bFrom m) line) as [Hb Hr].
    destruct (forwardRemote_texts (sendAll h (bFrom m) line) (mkRemoteMsg (sNick s) (bText m))) as [Hb' Ht].
    rewrite Hb', Hb. split; [done|]. unfold remote_texts in *. rewrite Hr in Ht. cbn in Ht.
    destruct Ht as [->| ->]; auto.
Qed.

Lemma enqueue_texts h m :
  remote_texts (set_broadcast h (broadcast h ++ [m])) ++ user_texts (broadcast h ++ [m]) `sublist_of`
  remote_texts h ++ user_texts (broadcast h) ++ (if bSystem m then [] else [bText m]).
Proof. rewrite user_texts_app, user_texts_cons. change (user_texts []) with (@nil string). by rewrite app_nil_r. Qed.

Lemma hub_step_texts h e h' :
  hub_step h e = Some h' ->
  (rText <$> transport_reads h e) ++ remote_texts h' ++ user_texts (broadcast h') `sublist_of`
  remote_texts h ++ user_texts (broadcast h) ++ event_texts e.
Proof.
  intros Hstep. assert (forall h', same_queues h h' ->
    remote_texts h' ++ user_texts (broadcast h') `sublist_of` remote_texts h ++ user_texts (broadcast h) ++ []) as Hsame.
  { intros h1 [Hb Hr]. unfold remote_texts. by rewrite Hb, Hr, app_nil_r. }
  destruct e as [nick|p| | |p nick| |p text|text|nick text|p|]; cbn [hub_step event_texts transport_reads] in *;
    try (destruct (stopped h); [done|]); cbn [fmap list_fmap app].
  - injection Hstep as <-. apply Hsame. apply (sendAll_same_queues (join_alloc h nick)).
  - injection Hstep as <-. apply Hsame, do_leave_same_queues.
  - destruct (broadcast h) as [|m q] eqn:Hb; [done|]. injection Hstep as <-. rewrite app_nil_r.
    destruct (do_broadcast_texts (set_broadcast h q) m) as [-> [->|[Hm ->]]]; cbn [broadcast set_broadcast].
    + change (remote_texts (set_broadcast h q)) with (remote_texts h). apply sublist_app; [done|].
      rewrite (user_texts_cons m q). by apply sublist_inserts_l.
    + change (remote_texts (set_broadcast h q)) with (remote_texts h). rewrite <- app_assoc.
      apply sublist_app; [done|]. rewrite (user_texts_cons m q), Hm. done.
  - injection Hstep as <-. by apply Hsame.
  - injection Hstep as <-. apply Hsame, do_setNick_same_queues.
  - injection Hstep as <-. apply Hsame, do_stop_same_queues.
  - injection Hstep as <-. apply (enqueue_texts h (mkBcastMsg (Some p) text false)).
  - injection Hstep as <-. apply (enqueue_texts h (mkBcastMsg None text true)).
  - injection Hstep as <-. apply (enqueue_texts h (mkBcastMsg None ("[" ++ nick ++ "] " ++ text) true)).
  - injection Hstep as <-. apply Hsame. unfold session_read. by destruct (heap h !! p) as [[? ? [|? ?] ?]|].
  - injection Hstep as <-. unfold transport_read, remote_texts. destruct (remoteSend h) as [[|r q]|] eqn:E;
      rewrite ?E; cbn; by rewrite app_nil_r.
Qed.

Lemma hub_steps_texts h es h' :
  hub_steps h es h' ->
  (rText <$> hub_reads h es) ++ remote_texts h' ++ user_texts (broadcast h') `sublist_of`
  remote_texts h ++ user_texts (broadcast h) ++ (es ≫= event_texts).
Proof.
  induction 1 as [h|h e h1 es h2 _ Hstep _ IH]; cbn [hub_reads].
  - cbn. by rewrite app_nil_r.
  - rewrite Hstep, fmap_app, <- app_assoc, bind_cons. apply hub_step_texts in Hstep.
    etransitivity; [by apply sublist_app; [|exact IH]|].
    rewrite !app_assoc in *. by apply sublist_app.
Qed.

(** ** After a session has left *)

(** A session that has left: its channel is closed and the map forgot it. *)
Definition gone (h : Hub) (p : ptr) (q : list string) : Prop :=
  exists s, heap h !! p = Some s /\ sClosed s = true /\ sessions h !! sID s = None /\ sSend s = q.

Lemma gone_sendAll h x line p q :
  hub_inv h -> stopped h = false -> (forall y, x = Some y -> is_Some (heap h !! y)) ->
  gone h p q -> gone (sendAll h x line) p q.
Proof.
  intros Hi Hst Hx (s & E & Hc & Hno & Hq). destruct (sendAll_spec h x line Hi Hst Hx) as (m & -> & _ & Hm).
  exists s. cbn. rewrite Hm, E. cbn. rewrite decide_False; [done|]. intros [Hin _]. congruence.
Qed.

Lemma gone_set_heap h p q r s :
  gone h p q -> r <> p -> gone (set_heap h (<[r := s]> (heap h))) p q.
Proof. intros (s' & E & ?) Hne. exists s'. cbn. by rewrite lookup_insert_ne. Qed.

Lemma gone_do_broadcast h m p q :
  hub_inv h -> stopped h = false ->
  (if bSystem m then bFrom m = None else exists p, bFrom m = Some p /\ is_Some (heap h !! p)) ->
  gone h p q -> gone (do_broadcast h m) p q.
Proof.
  intros Hi Hst Hm Hg. unfold do_broadcast. destruct (bSystem m).
  - rewrite Hm. by apply gone_sendAll.
  - destruct Hm as (r & -> & [s E]). cbn. rewrite E.
    assert (forall h' x, gone h' p q -> gone (forwardRemote h' x) p q) as Hf.
    { intros h' x Hg'. unfold forwardRemote. destruct (remoteSend h'); [|done]. by destruct (_ <? _)%nat. }
    apply Hf, gone_sendAll; [done|done| |done]. intros y [= <-]. by eexists.
Qed.

Lemma gone_step h e h' p q :
  hub_inv h -> valid_event h e -> hub_step h e = Some h' -> gone h p q ->
  exists q', gone h' p q' /\ q' `suffix_of` q.
Proof.
  intros Hi Hv Hstep Hg.
  enough (gone h' p q \/ exists l q', e = ESessionRead p /\ q = l :: q' /\ gone h' p q') as
    [?|(l & q' & -> & -> & ?)]; [by exists q|exists q'; split; [done|by apply suffix_cons_r]|].
  pose proof Hg as (s & E & Hc & Hno & Hq).
  destruct e as [nick|r| | |r nick| |r text|text|nick text|r|]; cbn [hub_step] in Hstep;
    try (destruct (stopped h) eqn:Hst; [done|]).
  - left. injection Hstep as <-. apply gone_sendAll; [by apply join_alloc_inv|done|done|].
    pose proof (hi_heap h Hi p s E) as (Hlt & Hid & _). pose proof (hi_count h Hi) as [Hcnt ?].
    cbn in Hv. exists s. unfold join_alloc. cbn. rewrite u64_small by lia. rewrite !lookup_insert_ne by lia. done.
  - left. injection Hstep as <-. destruct Hv as [s' E']. unfold do_leave. rewrite E'.
    destruct (sessions h !! sID s') as [r'|] eqn:Hin; [|done].
    pose proof (hi_heap h Hi r s' E') as (_ & Hid & _). pose proof (hi_sess h Hi _ _ Hin) as (Hr' & s'' & E'' & Hc'').
    assert (r' = r) as -> by lia. rewrite E' in E''. injection E'' as <-. rewrite Hst in Hc''.
    rewrite (closeSend_open _ _ s') by done.
    apply gone_sendAll; [exact (close_inv h r s' Hi E')|done|done|].
    assert (r <> p) by (intros ->; congruence).
    exists s. cbn. rewrite lookup_insert_ne, lookup_delete_None by done. auto.
  - left. destruct (broadcast h) as [|m b] eqn:Hb; [done|]. injection Hstep as <-.
    assert (forall x, x ∈ m :: b -> if bSystem x then bFrom x = None
      else exists p, bFrom x = Some p /\ is_Some (heap h !! p)) as Hqs by (rewrite <- Hb; apply (hi_queue h Hi)).
    apply gone_do_broadcast; [|done|apply Hqs; left|done].
    apply set_broadcast_inv; [done|]. intros x Hx. apply Hqs. by right.
  - left. by injection Hstep as <-.
  - left. injection Hstep as <-. destruct Hv as [s' E']. unfold do_setNick. rewrite E'. cbn [fst].
    apply gone_sendAll; [exact (rename_inv h r s' nick Hi E')|done|done|].
    destruct (decide (r = p)) as [->|Hne]; [|by apply gone_set_heap].
    rewrite E in E'. injection E' as <-. eexists. cbn. by rewrite lookup_insert_eq.
  - left. injection Hstep as <-. destruct (sessions_open h Hi Hst) as [Hnd Hop].
    unfold do_stop. destruct (closeAll_fold h _ Hnd Hop) as (m & -> & _ & Hnt).
    exists s. cbn. rewrite Hnt; [done|]. intros ([id r] & -> & Hin%elem_of_map_to_list)%list_elem_of_fmap.
    cbn in E. pose proof (hi_sess h Hi _ _ Hin) as (Hid & s' & E' & Hc'). congruence.
  - left. by injection Hstep as <-.
  - left. by injection Hstep as <-.
  - left. by injection Hstep as <-.
  - injection Hstep as <-. unfold session_read. destruct (heap h !! r) as [[id nick [|l b] c]|] eqn:Er; try by left.
    destruct (decide (r = p)) as [->|Hne]; [|left; by apply gone_set_heap]. right.
    rewrite E in Er. injection Er as ->. exists l, b. cbn in Hq. split_and!; [done|done|].
    eexists. cbn. rewrite lookup_insert_eq. done.
  - left. injection Hstep as <-. unfold transport_read. by destruct (remoteSend h) as [[|? ?]|].
Qed.

Lemma gone_steps h es h' p q :
  hub_inv h -> hub_steps h es h' -> gone h p q -> exists q', gone h' p q' /\ q' `suffix_of` q.
Proof.
  intros Hi Hs. revert q. induction Hs as [h|h e h1 es h2 Hv Hstep _ IH]; intros q Hg; [eauto|].
  destruct (gone_step h e h1 p q Hi Hv Hstep Hg) as (q1 & Hg1 & Hs1).
  destruct (IH (hub_step_inv _ _ _ Hi Hv Hstep) q1 Hg1) as (q2 & Hg2 & Hs2).
  exists q2. split; [done|]. by etransitivity.
Qed.

(** Leaving makes a session gone, also one that had left before. *)
Lemma leave_gone h p s :
  hub_inv h -> stopped h = false -> heap h !! p = Some s -> gone (do_leave h p) p (sSend s).
Proof.
  intros Hi Hst Hp. unfold do_leave. rewrite Hp. destruct (sessions h !! sID s) as [q|] eqn:Hin.
  - pose proof (hi_heap h Hi p s Hp) as (_ & Hid & _). destruct (hi_sess h Hi _ _ Hin) as (Hq & s' & E' & Hc).
    assert (q = p) as -> by lia. rewrite Hp in E'. injection E' as <-. rewrite Hst in Hc.
    rewrite (closeSend_open _ _ s) by done. apply gone_sendAll; [exact (close_inv h p s Hi Hp)|done|done|].
    eexists. cbn. rewrite lookup_insert_eq. split; [done|]. cbn. by rewrite lookup_delete_eq.
  - exists s. split_and!; try done. by apply (hi_closed h Hi p).
Qed.

(** ** Sessions stay on the heap *)

Definition heap_mono (h h' : Hub) : Prop := forall p, is_Some (heap h !! p) -> is_Some (heap h' !! p).

#[export] Instance heap_mono_refl : Reflexive heap_mono.
Proof. by intros h p. Qed.
#[export] Instance heap_mono_trans : Transitive heap_mono.
Proof. intros h1 h2 h3 H1 H2 p Hp. auto. Qed.

Lemma heap_mono_insert h p s : heap_mono h (set_heap h (<[p := s]> (heap h))).
Proof. intros r Hr. cbn. rewrite lookup_insert. destruct (decide (p = r)); [by eexists|done]. Qed.

Lemma trySend_heap_mono h p line : heap_mono h (trySend h p line).
Proof. unfold trySend. destruct (heap h !! p); [|by intros ?]. repeat split_if; try by intros ?. apply heap_mono_insert. Qed.

Lemma closeSend_heap_mono h p : heap_mono h (closeSend h p).
Proof. unfold closeSend. destruct (heap h !! p); [|by intros ?]. split_if; [by intros ?|]. apply heap_mono_insert. Qed.

Lemma sendAll_heap_mono h x line : heap_mono h (sendAll h x line).
Proof. apply (foldl_preorder heap_mono). intros h' a. case_bool_decide; [done|]. apply trySend_heap_mono. Qed.

Lemma hub_step_heap_mono h e h' : hub_step h e = Some h' -> heap_mono h h'.
Proof.
  destruct e as [nick|p| | |p nick| |p text|text|nick text|p|]; cbn [hub_step];
    try (destruct (stopped h); [done|]); try (by intros [= <-] ?).
  - intros [= <-]. unfold do_join. cbn [fst]. etransitivity; [|apply sendAll_heap_mono].
    intros r Hr. cbn. rewrite lookup_insert. destruct (decide (next_ptr h = r)); [by eexists|done].
  - intros [= <-]. unfold do_leave. destruct (heap h !! p) as [s|]; [|by intros ?]. destruct (sessions h !! sID s); [|by intros ?].
    etransitivity; [|apply sendAll_heap_mono]. apply (closeSend_heap_mono (set_sessions h _)).
  - destruct (broadcast h) as [|m q]; [done|]. intros [= <-]. unfold do_broadcast.
    assert (forall h' x, heap_mono h' (forwardRemote h' x)) as Hf.
    { intros h' x. unfold forwardRemote. destruct (remoteSend h'); [|by intros ?]. by split_if; intros ?. }
    destruct (bSystem m); [apply (sendAll_heap_mono (set_broadcast h q))|].
    destruct (_ ≫= _); [|by intros ?]. etransitivity; [apply (sendAll_heap_mono (set_broadcast h q))|apply Hf].
  - intros [= <-]. unfold do_setNick. destruct (heap h !! p) as [s|]; [|by intros ?]. cbn [fst].
    etransitivity; [apply (heap_mono_insert h p)|apply sendAll_heap_mono].
  - intros [= <-]. unfold do_stop.
    pose proof (foldl_preorder heap_mono (fun h' (e : Z * ptr) => closeSend h' e.2) h (map_to_list (sessions h))) as Hm.
    intros p Hp. apply Hm; [intros; apply closeSend_heap_mono|done].
  - intros [= <-]. unfold session_read. destruct (heap h !! p) as [[id nick [|l q] c]|]; try (by intros ?). apply heap_mono_insert.
  - intros [= <-]. unfold transport_read. by destruct (remoteSend h) as [[|? ?]|]; intros ?.
Qed.

(** ** The counter and the stop *)

Definition same_control (h h' : Hub) : Prop := sessionCounter h' = sessionCounter h /\ stopped h' = stopped h.

#[export] Instance same_control_refl : Reflexive same_control.
Proof. by split. Qed.
#[export] Instance same_control_trans : Transitive same_control.
Proof. intros h1 h2 h3 [E1 E2] [E3 E4]. split; congruence. Qed.

Lemma sendAll_same_control h x line : same_control h (sendAll h x line).
Proof.
  apply (foldl_preorder same_control). intros h' e. case_bool_decide; [done|].
  unfold trySend. destruct (heap h' !! e.2); [|done]. by repeat split_if.
Qed.

Lemma forwardRemote_same_control h m : same_control h (forwardRemote h m).
Proof. unfold forwardRemote. destruct (remoteSend h); [|done]. by split_if. Qed.

(** Only [Join] counts, and only [Stop] stops. *)
Lemma hub_step_control h e h' :
  hub_step h e = Some h' -> e <> EStop ->
  sessionCounter h' = (match e with EJoin _ => u64 (sessionCounter h + 1) | _ => sessionCounter h end) /\
  stopped h' = stopped h.
Proof.
  intros Hs He. destruct e as [nick|p| | |p nick| |p text|text|nick text|p|]; try done; cbn [hub_step] in Hs;
    try (destruct (stopped h) eqn:Est; [done|]); try (by injection Hs as <-).
  - injection Hs as <-. destruct (sendAll_same_control (join_alloc h nick) None ("* " ++ nick ++ " joined the partyline")) as [-> ->].
    by rewrite <- Est.
  - injection Hs as <-. rewrite <- Est. change (same_control h (do_leave h p)). unfold do_leave.
    destruct (heap h !! p) as [s|]; [|done]. destruct (sessions h !! sID s); [|done].
    etransitivity; [|apply sendAll_same_control]. unfold closeSend. cbn. destruct (heap h !! p); [|done]. by split_if.
  - destruct (broadcast h) as [|m q]; [done|]. injection Hs as <-. rewrite <- Est.
    change (same_control (set_broadcast h q) (do_broadcast (set_broadcast h q) m)). unfold do_broadcast.
    destruct (bSystem m); [apply sendAll_same_control|]. destruct (_ ≫= _); [|done].
    etransitivity; [apply sendAll_same_control|apply forwardRemote_same_control].
  - injection Hs as <-. rewrite <- Est. change (same_control h (do_setNick h p nick).1). unfold do_setNick.
    destruct (heap h !! p) as [s|]; [|done]. cbn [fst].
    apply (sendAll_same_control (set_heap h _)).
  - injection Hs as <-. unfold session_read. by destruct (heap h !! p) as [[? ? [] ?]|].
  - injection Hs as <-. unfold transport_read. by destruct (remoteSend h) as [[|? ?]|].
Qed.

(** Running a sequence of events, to evaluate examples. *)
#[export] Instance valid_event_dec h e : Decision (valid_event h e).
Proof. destruct e; cbn; apply _. Defined.

Fixpoint hub_run (h : Hub) (es : list hub_event) : option Hub :=
  match es with
  | [] => Some h
  | e :: es' =>
      if decide (valid_event h e) then
        match hub_step h e with Some h1 => hub_run h1 es' | None => None end
      else None
  end.

Lemma hub_steps_heap_mono h es h' : hub_steps h es h' -> heap_mono h h'.
Proof. induction 1 as [|h e h1 es h2 _ Hs _ IH]; [done|]. etrans; [by eapply hub_step_heap_mono|done]. Qed.

Lemma join_ptr h nick h1 p : do_join h nick = (h1, p) -> is_Some (heap h1 !! p).
Proof.
  unfold do_join. intros [= <- <-]. apply sendAll_heap_mono. cbn. rewrite lookup_insert_eq. by eexists.
Qed.

Lemma hub_run_steps h es h' : hub_run h es = Some h' -> hub_steps h es h'.
Proof.
  revert h. induction es as [|e es IH]; intros h; cbn [hub_run].
  - intros [= <-]. constructor.
  - destruct (decide (valid_event h e)); [|done]. destruct (hub_step h e) eqn:E; [|done].
    intros Hr. econstructor; eauto.
Qed.

(** ** Properties *)

(** C25. The hub never panics: in every state reachable through joins, leaves,
    messages, nick changes, reads and a stop, by clients that use the
    pointers they were given, no send on a closed channel, double close or
    nil dereference has happened; no session channel holds more than 64
    lines; and a session's channel is closed exactly when it has left or the
    hub has stopped. *)
Theorem hub_never_panics (name : string) (es : list hub_event) (h : Hub)
  (Hrun : hub_steps (SetRemoteSend (NewHub name)) es h) :
  panicked h = false /\
  forall p s, heap h !! p = Some s ->
    (length (sSend s) <= chanCap)%nat /\
    (sClosed s = true <-> sessions h !! sID s = None \/ stopped h = true).
Proof.
  assert (hub_inv h) as Hi by eauto with micelio. split; [by apply hi_panic|].
  intros p s E. pose proof (hi_heap h Hi p s E) as (_ & Hid & Hl). split; [done|].
  destruct (sessions h !! sID s) as [q|] eqn:Hin.
  - pose proof (hi_sess h Hi _ _ Hin) as (Hq & s' & E' & Hc). assert (q = p) as -> by lia.
    rewrite E in E'. injection E' as <-. rewrite Hc. split; [by right|by intros [?|?]].
  - split; [by left|]. intros _. by apply (hi_closed h Hi p).
Qed.

(** C26. Delivery: processing the next message of a joined or departed user [p] appends
    the line "[nick] text" to the channel of every other joined session that
    has room, leaves every other channel as it was, and offers the nick and
    the text to the transport, which drops them only when 64 wait. *)
Theorem hub_delivers (name : string) (es : list hub_event) (h : Hub) (p : ptr) (s : Session)
  (text : string) (q : list bcastMsg)
  (Hrun : hub_steps (SetRemoteSend (NewHub name)) es h) (Hstopped : stopped h = false)
  (Hqueue : broadcast h = mkBcastMsg (Some p) text false :: q) (Hp : heap h !! p = Some s) :
  exists h', hub_step h EDequeue = Some h' /\ broadcast h' = q /\
    (forall r t, heap h !! r = Some t -> heap h' !! r =
       Some (if decide (sessions h !! sID t = Some r /\ r <> p)
             then push t ("[" ++ sNick s ++ "] " ++ text) else t)) /\
    forall waiting, remoteSend h = Some waiting -> remoteSend h' =
      Some (waiting ++ if (length waiting <? chanCap)%nat then [mkRemoteMsg (sNick s) text] else []).
Proof.
  assert (hub_inv h) as Hi by eauto with micelio.
  assert (hub_inv (set_broadcast h q)) as Hi'.
  { apply set_broadcast_inv; [done|]. intros m Hm. apply (hi_queue h Hi). rewrite Hqueue. by right. }
  set (line := ("[" ++ sNick s ++ "] " ++ text)%string).
  destruct (sendAll_spec (set_broadcast h q) (Some p) line Hi' Hstopped) as (m & Hsend & _ & Hm).
  { intros x [= <-]. by exists s. }
  exists (forwardRemote (set_heap (set_broadcast h q) m) (mkRemoteMsg (sNick s) text)).
  split; [|split; [|split]].
  - cbn [hub_step]. rewrite Hstopped, Hqueue. f_equal. unfold do_broadcast.
    cbn [bSystem bFrom bText option_bind mbind heap set_broadcast]. rewrite Hp. fold line. by rewrite Hsend.
  - by destruct (forwardRemote_texts (set_heap (set_broadcast h q) m) (mkRemoteMsg (sNick s) text)) as [-> _].
  - intros r t Hr. assert (heap (forwardRemote (set_heap (set_broadcast h q) m) (mkRemoteMsg (sNick s) text)) = m) as ->.
    { unfold forwardRemote. destruct (remoteSend _); [|done]. by destruct (_ <? _)%nat. }
    rewrite Hm. cbn. rewrite Hr. cbn. f_equal. unfold receives. cbn.
    destruct (decide _) as [[H1 H2]|H1], (decide (_ /\ r <> p)) as [[H3 H4]|H3]; try done; exfalso.
    + apply H3. split; [done|congruence].
    + apply H1. split; [done|congruence].
  - intros waiting Hw. unfold forwardRemote.
    change (remoteSend (set_heap (set_broadcast h q) m)) with (remoteSend h). rewrite Hw.
    destruct (length waiting <? chanCap)%nat; [done|]. rewrite app_nil_r. exact Hw.
Qed.

(** No echo: the texts the transport has read from the hub, followed by
    those waiting for it, are a subsequence, in order, of the texts local
    users have broadcast. Neither a message delivered from a remote node nor a system
    message is ever handed to the transport. *)
Theorem hub_no_echo (name : string) (es : list hub_event) (h : Hub)
  (Hrun : hub_steps (SetRemoteSend (NewHub name)) es h) :
  (rText <$> hub_reads (SetRemoteSend (NewHub name)) es) ++ remote_texts h `sublist_of` es ≫= event_texts.
Proof.
  apply hub_steps_texts in Hrun. etransitivity; [|exact Hrun]. rewrite app_assoc. by apply sublist_inserts_r.
Qed.

(** A session that leaves is finished: [Leave] of a joined session closes its channel and
    takes it out of the map, and whatever happens afterwards (messages from
    or to it that were still queued, other sessions, a nick change, a second
    [Leave], the stop) its channel stays closed and only loses the lines it
    reads. *)
Theorem hub_leave_final (name : string) (es es' : list hub_event) (h h1 h2 : Hub) (p : ptr) (s : Session)
  (Hrun : hub_steps (SetRemoteSend (NewHub name)) es h)
  (Hp : heap h !! p = Some s) (Hjoined : sessions h !! sID s = Some p)
  (Hleave : hub_step h (ELeave p) = Some h1) (Hafter : hub_steps h1 es' h2) :
  exists s2, heap h2 !! p = Some s2 /\ sClosed s2 = true /\ sSend s2 `suffix_of` sSend s /\
    sessions h2 !! sID s2 = None.
Proof.
  assert (hub_inv h) as Hi by eauto with micelio.
  assert (gone h1 p (sSend s)) as Hg.
  { cbn [hub_step] in Hleave. destruct (stopped h) eqn:Hst; [done|]. injection Hleave as <-. by apply leave_gone. }
  assert (hub_inv h1) as Hi1 by (eapply hub_step_inv; [exact Hi| |exact Hleave]; by eexists).
  destruct (gone_steps h1 es' h2 p (sSend s) Hi1 Hafter Hg) as (q' & (s2 & E2 & Hc2 & Hno2 & <-) & Hsuf).
  by exists s2.
Qed.

(** ** Witnesses *)

Definition ex_hub0 : Hub := SetRemoteSend (NewHub "node").
Definition ex_run1 : list hub_event :=
  [EJoin "ann"; EJoin "bob"; ESessionRead 0; ESessionRead 0; ESessionRead 1; EBroadcast 0 "hi"; ERemote "eve" "yo"].
Definition ex_hub1 : Hub := default ex_hub0 (hub_run ex_hub0 ex_run1).
Definition ex_run2 : list hub_event := [EDequeue; EDequeue; ETransportRead; ELeave 1; EStop].
Definition ex_hub2 : Hub := default ex_hub0 (hub_run ex_hub0 (ex_run1 ++ ex_run2)).

Lemma ex_hub1_steps : hub_steps ex_hub0 ex_run1 ex_hub1.
Proof. apply hub_run_steps. vm_compute. reflexivity. Qed.

Lemma ex_hub2_steps : hub_steps ex_hub0 (ex_run1 ++ ex_run2) ex_hub2.
Proof. apply hub_run_steps. vm_compute. reflexivity. Qed.

Lemma hub_never_panics_witness :
  panicked ex_hub2 = false /\
  forall p s, heap ex_hub2 !! p = Some s ->
    (length (sSend s) <= chanCap)%nat /\
    (sClosed s = true <-> sessions ex_hub2 !! sID s = None \/ stopped ex_hub2 = true).
Proof. exact (hub_never_panics "node" (ex_run1 ++ ex_run2) ex_hub2 ex_hub2_steps). Defined.

Lemma hub_no_echo_witness :
  (rText <$> hub_reads ex_hub0 (ex_run1 ++ ex_run2)) ++ remote_texts ex_hub2 `sublist_of` ["hi"]%string /\
  (rText <$> hub_reads ex_hub0 (ex_run1 ++ ex_run2)) = ["hi"]%string.
Proof. split; [exact (hub_no_echo "node" (ex_run1 ++ ex_run2) ex_hub2 ex_hub2_steps)|vm_compute; reflexivity]. Defined.

Lemma hub_delivers_witness :
  exists h', hub_step ex_hub1 EDequeue = Some h' /\
    broadcast h' = [mkBcastMsg None "[eve] yo" true] /\
    (forall r t, heap ex_hub1 !! r = Some t -> heap h' !! r =
       Some (if decide (sessions ex_hub1 !! sID t = Some r /\ r <> 0%nat) then push t "[ann] hi" else t)) /\
    forall waiting, remoteSend ex_hub1 = Some waiting -> remoteSend h' =
      Some (waiting ++ if (length waiting <? chanCap)%nat then [mkRemoteMsg "ann" "hi"] else []).
Proof.
  refine (hub_delivers "node" ex_run1 ex_hub1 0 (mkSession 1 "ann" [] false) "hi"
           [mkBcastMsg None "[eve] yo" true] ex_hub1_steps _ _ _); vm_compute; reflexivity.
Defined.

(** Bob leaves after Ann's message has reached him, and Ann speaks again. *)
Definition ex_hub3 : Hub := default ex_hub0 (hub_run ex_hub0 (ex_run1 ++ [EDequeue])).
Definition ex_hub4 : Hub := default ex_hub0 (hub_step ex_hub3 (ELeave 1)).
Definition ex_run5 : list hub_event := [EBroadcast 0 "bye"; EDequeue; EDequeue; ESetNick 1 "rob"; ELeave 1].
Definition ex_hub5 : Hub := default ex_hub0 (hub_run ex_hub4 ex_run5).

Lemma hub_leave_final_witness :
  exists s2, heap ex_hub5 !! 1%nat = Some s2 /\ sClosed s2 = true /\
    sSend s2 `suffix_of` ["[ann] hi"]%string /\ sessions ex_hub5 !! sID s2 = None.
Proof.
  refine (hub_leave_final "node" (ex_run1 ++ [EDequeue]) ex_run5 ex_hub3 ex_hub4 ex_hub5 1
           (mkSession 2 "bob" ["[ann] hi"]%string false) _ _ _ _ _).
  - apply hub_run_steps. vm_compute. reflexivity.
  - vm_compute. reflexivity.
  - vm_compute. reflexivity.
  - vm_compute. reflexivity.
  - apply hub_run_steps. vm_compute. reflexivity.
Defined.
