(* ===== verification/Store.v ===== *)
(** * Store: the key-value store

    [internal/store/store.go] is the class [Store]; what its users rely on is
    [StoreLaws], stated over the map of each bucket.  [internal/store/bolt]
    implements it on a bbolt database, whose transactions are the interface
    [Bbolt]; the theorems here discharge the laws for it. *)

From S2P Require Import Prelude Bytes Stream.
From Stdlib Require Import Init.Byte.

(** The one error value that matters: the operation failed. *)
Inductive store_error := StoreFailed.

Class Store (S : Type) := {
  st_Get : S -> bytes -> bytes -> result (option bytes) store_error;   (* None: nil *)
  st_Set : S -> bytes -> bytes -> bytes -> result unit store_error * S;
  st_Delete : S -> bytes -> bytes -> result unit store_error * S;
  st_ForEach : forall {A}, S -> bytes -> (bytes -> bytes -> A -> option A) -> A -> result A store_error;
  st_Snapshot : S -> bytes -> result (gmap bytes bytes) store_error
}.

(** Iterating with an early exit. *)
Fixpoint each {A} (l : list (bytes * bytes)) (fn : bytes -> bytes -> A -> option A) (a : A) : option A :=
  match l with
  | [] => Some a
  | (k, v) :: l' => match fn k v a with Some a' => each l' fn a' | None => None end
  end.

Class StoreLaws (S : Type) `{Store S} := {
  kv : S -> bytes -> gmap bytes bytes;
  Get_ok s b k v : st_Get s b k = Ok v -> v = kv s b !! k;
  Set_ok s b k v s' : st_Set s b k v = (Ok tt, s') ->
    forall b', kv s' b' = if decide (b' = b) then <[k := v]> (kv s b) else kv s b';
  Set_err s b k v e s' : st_Set s b k v = (Err e, s') -> forall b', kv s' b' = kv s b';
  Delete_ok s b k s' : st_Delete s b k = (Ok tt, s') ->
    forall b', kv s' b' = if decide (b' = b) then delete k (kv s b) else kv s b';
  Delete_err s b k e s' : st_Delete s b k = (Err e, s') -> forall b', kv s' b' = kv s b';
  ForEach_ok {A} s b (fn : bytes -> bytes -> A -> option A) a a' : st_ForEach s b fn a = Ok a' ->
    exists l, Permutation l (map_to_list (kv s b)) /\ each l fn a = Some a';
  Snapshot_ok s b m : st_Snapshot s b = Ok m -> m = kv s b
}.

(** ** bbolt *)

(** The parts of a transaction the code uses, as functions of the database it
    runs on. [None] is an error, except for [tx_Bucket] and [b_Get], where it
    is nil. [begins] and [commits] tell whether a transaction can begin and
    whether the new contents can be committed. *)
Class Bbolt := {
  DB : Type;
  BBucket : Type;
  begins : DB -> bool;
  commits : DB -> DB -> bool;
  tx_Bucket : DB -> bytes -> option BBucket;
  b_Get : BBucket -> bytes -> option bytes;
  b_entries : BBucket -> list (bytes * bytes);
  tx_CreateBucketIfNotExists : DB -> bytes -> option DB;
  b_Put : DB -> bytes -> bytes -> bytes -> option DB;
  b_Delete : DB -> bytes -> bytes -> option DB
}.

Definition b_map `{Bbolt} (b : option BBucket) : gmap bytes bytes :=
  match b with Some b => list_to_map (b_entries b) | None => ∅ end.

Class BboltLaws `{Bbolt} : Prop := {
  entries_NoDup b : NoDup (b_entries b).*1;
  b_Get_entries b k : b_Get b k = b_map (Some b) !! k;
  Create_ok db n db' : tx_CreateBucketIfNotExists db n = Some db' ->
    is_Some (tx_Bucket db' n) /\ forall n', b_map (tx_Bucket db' n') = b_map (tx_Bucket db n');
  Put_ok db n k v db' : b_Put db n k v = Some db' ->
    forall n', b_map (tx_Bucket db' n') = if decide (n' = n) then <[k := v]> (b_map (tx_Bucket db n)) else b_map (tx_Bucket db n');
  b_Delete_ok db n k db' : b_Delete db n k = Some db' ->
    forall n', b_map (tx_Bucket db' n') = if decide (n' = n) then delete k (b_map (tx_Bucket db n)) else b_map (tx_Bucket db n')
}.

Section Bolt.
Context `{Bbolt}.

Record BoltStore := mkBoltStore { db : DB }.

(** [db.View] and [db.Update]: an error of the function or of the commit
    rolls the transaction back. *)
Definition View {A} (s : BoltStore) (fn : DB -> option A) : result A store_error :=
  if begins (db s) then match fn (db s) with Some a => Ok a | None => Err StoreFailed end else Err StoreFailed.

Definition Update (s : BoltStore) (fn : DB -> option DB) : result unit store_error * BoltStore :=
  if begins (db s) then
    match fn (db s) with
    | Some db' => if commits (db s) db' then (Ok tt, mkBoltStore db') else (Err StoreFailed, s)
    | None => (Err StoreFailed, s)
    end
  else (Err StoreFailed, s).

Definition bolt_Get (s : BoltStore) (bucket key : bytes) : result (option bytes) store_error :=
  View s (fun tx => match tx_Bucket tx bucket with None => Some None | Some b => Some (b_Get b key) end).

Definition bolt_Set (s : BoltStore) (bucket key value : bytes) : result unit store_error * BoltStore :=
  Update s (fun tx =>
    match tx_CreateBucketIfNotExists tx bucket with
    | None => None
    | Some tx' => b_Put tx' bucket key value
    end).

Definition bolt_Delete (s : BoltStore) (bucket key : bytes) : result unit store_error * BoltStore :=
  Update s (fun tx => match tx_Bucket tx bucket with None => Some tx | Some _ => b_Delete tx bucket key end).

Definition bolt_ForEach {A} (s : BoltStore) (bucket : bytes) (fn : bytes -> bytes -> A -> option A) (a : A)
    : result A store_error :=
  View s (fun tx => match tx_Bucket tx bucket with None => Some a | Some b => each (b_entries b) fn a end).

Definition bolt_Snapshot (s : BoltStore) (bucket : bytes) : result (gmap bytes bytes) store_error :=
  View s (fun tx =>
    match tx_Bucket tx bucket with
    | None => Some ∅
    | Some b => each (b_entries b) (fun k v result => Some (<[k := v]> result)) ∅
    end).

(** [Open] and [Close], over what bbolt's functions of these names do: [opens]
    is the database at a path, unless it cannot be opened; [closes] tells
    whether there was no error. *)
Definition bolt_Open (opens : string -> option DB) (path : string) : option BoltStore :=
  match opens path with None => None | Some d => Some (mkBoltStore d) end.

Definition bolt_Close (closes : DB -> bool * DB) (s : BoltStore) : result unit store_error * BoltStore :=
  let '(ok, d) := closes (db s) in (if ok then Ok tt else Err StoreFailed, mkBoltStore d).

#[export] Instance bolt_store : Store BoltStore := {
  st_Get := bolt_Get;
  st_Set := bolt_Set;
  st_Delete := bolt_Delete;
  st_ForEach := @bolt_ForEach;
  st_Snapshot := bolt_Snapshot
}.

(** The contents of a bucket. *)
Definition bolt_kv (s : BoltStore) (bucket : bytes) : gmap bytes bytes := b_map (tx_Bucket (db s) bucket).

Lemma View_ok {A} s (fn : DB -> option A) a : View s fn = Ok a -> fn (db s) = Some a.
Proof. unfold View. destruct (begins (db s)); [|done]. destruct (fn (db s)); [|done]. by intros [= ->]. Qed.

Lemma Update_ok s fn s' : Update s fn = (Ok tt, s') -> fn (db s) = Some (db s').
Proof.
  unfold Update. destruct (begins (db s)); [|done]. destruct (fn (db s)) as [d|]; [|done].
  destruct (commits (db s) d); [|done]. by intros [= <-].
Qed.

Lemma Update_err s fn e s' : Update s fn = (Err e, s') -> s' = s.
Proof.
  unfold Update. destruct (begins (db s)); [|congruence]. destruct (fn (db s)) as [d|]; [|congruence].
  destruct (commits (db s) d); congruence.
Qed.

(** Collecting the entries of a bucket rebuilds its map. *)
Lemma each_insert (l : list (bytes * bytes)) (m : gmap bytes bytes) :
  NoDup l.*1 -> each l (fun k v result => Some (<[k := v]> result)) m = Some (list_to_map l ∪ m).
Proof.
  revert m. induction l as [|[k v] l IH]; intros m Hnd; cbn; [by rewrite (left_id_L ∅ (∪))|].
  cbn [fmap list_fmap fst] in Hnd. apply NoDup_cons in Hnd as [Hk Hnd]. rewrite IH by done. f_equal.
  rewrite <- insert_union_r by by apply not_elem_of_list_to_map_1. by rewrite insert_union_l.
Qed.
End Bolt.

#[export] Program Instance bolt_laws `{BboltLaws} : StoreLaws BoltStore := { kv := bolt_kv }.
Next Obligation.
  intros ? ? s b k v Hg%View_ok. unfold bolt_kv. cbn in Hg.
  destruct (tx_Bucket (db s) b) as [bk|]; injection Hg as <-; [by rewrite b_Get_entries|done].
Qed.
Next Obligation.
  intros ? ? s b k v s' Hs%Update_ok b'. unfold bolt_kv.
  destruct (tx_CreateBucketIfNotExists (db s) b) as [d|] eqn:Hc; [|done].
  apply Create_ok in Hc as [_ Hc]. rewrite (Put_ok _ _ _ _ _ Hs), !Hc. done.
Qed.
Next Obligation. intros ? ? s b k v e s' Hs%Update_err b'. by rewrite Hs. Qed.
Next Obligation.
  intros ? ? s b k s' Hs%Update_ok b'. unfold bolt_kv.
  destruct (tx_Bucket (db s) b) as [bk|] eqn:Hb.
  - by rewrite (b_Delete_ok _ _ _ _ Hs), Hb.
  - injection Hs as Hs. rewrite <- Hs. destruct (decide _) as [->|]; [|done]. rewrite Hb. cbn. by rewrite delete_empty.
Qed.
Next Obligation. intros ? ? s b k e s' Hs%Update_err b'. by rewrite Hs. Qed.
Next Obligation.
  intros ? ? A s b fn a a' He%View_ok. unfold bolt_kv. cbn in He.
  destruct (tx_Bucket (db s) b) as [bk|].
  - exists (b_entries bk). split; [|done]. cbn. symmetry. apply map_to_list_to_map, entries_NoDup.
  - exists []. injection He as <-. cbn. by rewrite map_to_list_empty.
Qed.
Next Obligation.
  intros ? ? s b m He%View_ok. unfold bolt_kv. cbn in He.
  destruct (tx_Bucket (db s) b) as [bk|]; [|by injection He as <-].
  rewrite each_insert in He by apply entries_NoDup. injection He as <-. cbn. by rewrite (right_id_L ∅ (∪)).
Qed.

(** ** Properties *)

(** Read your writes, atomically: on the bolt store a successful
    [Set] makes [Get] and [Snapshot] of the bucket answer with the new value and every
    other entry as before, whatever sequence of other reads happens in between; a
    failed [Set] changes nothing. *)
Theorem bolt_Set_Get `{BboltLaws} (s s' : BoltStore) (b k v : bytes) (r : result unit store_error)
  (Hset : bolt_Set s b k v = (r, s')) :
  match r with
  | Ok _ =>
      (forall b' k' v', bolt_Get s' b' k' = Ok v' ->
         v' = if decide (b' = b /\ k' = k) then Some v else bolt_kv s b' !! k') /\
      (forall m, bolt_Snapshot s' b = Ok m -> m = <[k := v]> (bolt_kv s b))
  | Err _ => s' = s
  end.
Proof.
  destruct r as [[]|e]; [|by eapply Update_err].
  pose proof (Set_ok (H := bolt_store) s b k v s' Hset) as Hkv. cbn in Hkv. split.
  - intros b' k' v' Hg. apply (Get_ok (H := bolt_store)) in Hg. cbn in Hg. rewrite Hg, Hkv.
    destruct (decide (b' = b)) as [->|Hb]; [|by rewrite decide_False by (by intros [? _])].
    destruct (decide (k' = k)) as [->|Hk].
    + by rewrite lookup_insert_eq, decide_True.
    + rewrite lookup_insert_ne by done. by rewrite decide_False by (by intros [_ ?]).
  - intros m Hm. apply (Snapshot_ok (H := bolt_store)) in Hm. cbn in Hm. by rewrite Hm, Hkv, decide_True.
Qed.

(** On a closed store every operation fails and changes nothing: bbolt begins
    no transaction on a closed database. *)
Lemma bolt_closed `{Bbolt} (closes : DB -> bool * DB) (s s' : BoltStore) :
  (forall d d', closes d = (true, d') -> begins d' = false) -> bolt_Close closes s = (Ok tt, s') ->
  (forall b k, bolt_Get s' b k = Err StoreFailed) /\ (forall b k v, bolt_Set s' b k v = (Err StoreFailed, s')) /\
  (forall b k, bolt_Delete s' b k = (Err StoreFailed, s')) /\
  (forall A b (fn : bytes -> bytes -> A -> option A) a, bolt_ForEach s' b fn a = Err StoreFailed) /\
  (forall b, bolt_Snapshot s' b = Err StoreFailed).
Proof.
  unfold bolt_Close. intros Hlaw. destruct (closes (db s)) as [[|] d] eqn:E; [|done]. intros [= <-].
  apply Hlaw in E. split_and!; intros; unfold bolt_Get, bolt_Set, bolt_Delete, bolt_ForEach, bolt_Snapshot, View, Update; cbn;
    by rewrite E.
Qed.

(** ** A database in memory *)

#[export] Instance mem_bbolt : Bbolt := {
  DB := gmap bytes (gmap bytes bytes);
  BBucket := gmap bytes bytes;
  begins _ := true;
  commits _ _ := true;
  tx_Bucket db n := db !! n;
  b_Get b k := b !! k;
  b_entries b := map_to_list b;
  tx_CreateBucketIfNotExists db n :=
    if bool_decide (n = []) then None else Some (match db !! n with Some _ => db | None => <[n := ∅]> db end);
  b_Put db n k v := if bool_decide (k = []) then None else Some (<[n := <[k := v]> (default ∅ (db !! n))]> db);
  b_Delete db n k := Some (<[n := delete k (default ∅ (db !! n))]> db)
}.

Lemma mem_b_map (db : gmap bytes (gmap bytes bytes)) (n : bytes) :
  b_map (H := mem_bbolt) (db !! n) = default ∅ (db !! n).
Proof. unfold b_map. cbn. destruct (db !! n); cbn; [apply list_to_map_to_list|done]. Qed.

Lemma mem_b_map_insert (db : gmap bytes (gmap bytes bytes)) (n n' : bytes) m :
  b_map (H := mem_bbolt) (<[n := m]> db !! n') = if decide (n' = n) then m else default ∅ (db !! n').
Proof.
  rewrite (mem_b_map (<[n := m]> db)). destruct (decide (n' = n)) as [->|]; [by rewrite lookup_insert_eq|].
  by rewrite lookup_insert_ne.
Qed.

#[export] Instance mem_bbolt_laws : BboltLaws.
Proof.
  split.
  - intros b. apply NoDup_fst_map_to_list.
  - intros b k. cbn. by rewrite list_to_map_to_list.
  - intros db n db'. cbn in *. case_bool_decide; [done|]. intros [= <-]. destruct (db !! n) as [m|] eqn:E.
    { by rewrite E. }
    split; [by rewrite lookup_insert_eq|]. intros n'. rewrite mem_b_map_insert, mem_b_map.
    destruct (decide (n' = n)) as [->|]; [by rewrite E|done].
  - intros db n k v db'. cbn in *. case_bool_decide; [done|]. intros [= <-] n'.
    rewrite mem_b_map_insert, !mem_b_map. done.
  - intros db n k db'. cbn in *. intros [= <-] n'. rewrite mem_b_map_insert, !mem_b_map. done.
Qed.

Lemma bolt_Set_Get_witness :
  let s' := mkBoltStore (H := mem_bbolt) {[ [x01] := {[ [x02] := [x03] ]} ]} in
  (forall b' k' v', bolt_Get s' b' k' = Ok v' ->
     v' = if decide (b' = [x01] /\ k' = [x02]) then Some [x03] else bolt_kv (mkBoltStore (H := mem_bbolt) ∅) b' !! k') /\
  (forall m, bolt_Snapshot s' [x01] = Ok m -> m = <[[x02] := [x03]]> (bolt_kv (mkBoltStore (H := mem_bbolt) ∅) [x01])).
Proof.
  exact (bolt_Set_Get (mkBoltStore (H := mem_bbolt) ∅) _ [x01] [x02] [x03] (Ok tt) eq_refl).
Defined.
