(* ===== verification/Config.v ===== *)
(** * Config: the configuration

    Models [internal/config/config.go] and the way [cmd/micelio/main.go]
    settles the configuration of a node.  A [Duration] is in nanoseconds; the
    TOML decoder is a parameter. *)

From S2P Require Import Prelude Bytes Strs Text.

Record LoggingConfig := mkLoggingConfig { log_Level : string; log_Format : string }.

Record NodeConfig := mkNodeConfig { node_Name : string; node_Tags : list string; node_DataDir : string }.

Record SSHConfig := mkSSHConfig { ssh_Listen : string }.

Record NetworkConfig := mkNetworkConfig {
  net_Listen : string;
  net_AdvertiseAddr : string;
  net_Bootstrap : list string;
  net_MaxPeers : Z;
  net_ExchangeInterval : Z;
  net_DiscoveryInterval : Z
}.

Record Config := mkConfig {
  cfg_Node : NodeConfig;
  cfg_SSH : SSHConfig;
  cfg_Network : NetworkConfig;
  cfg_Logging : LoggingConfig
}.

Definition seconds (n : Z) : Z := n * 1000000000.

(** [Defaults]; [host] is what [os.Hostname] returns. *)
Definition Defaults (host : string) : Config :=
  let hostname := if bool_decide (host = ""%string) then "micelio"%string else host in
  mkConfig (mkNodeConfig hostname [] "~/.micelio") (mkSSHConfig "0.0.0.0:2222")
    (mkNetworkConfig "" "" [] 15 (seconds 30) (seconds 10)) (mkLoggingConfig "" "").

(** [expandHome]; [home] is what [os.UserHomeDir] returns, if no error. *)
Definition expandHome (home : option string) (path : string) : string :=
  if HasPrefix path "~/" then
    match home with
    | None => path
    | Some h => filepath_Join [h; implode (drop 2 (explode path))]
    end
  else path.

(** ** Loading *)

Inductive load_error := ReadingConfig | ParsingConfig.

(** What [os.Stat] and [os.ReadFile] do with a path. *)
Inductive file_state := FileMissing | FileUnreadable | FileBytes (b : bytes).

Section Load.
(** [toml.Decode] overwrites the fields the file sets. *)
Context (toml_Decode : bytes -> Config -> option Config).

Definition readConfig (files : string -> file_state) (cfg : Config) (path : string) : Config + load_error :=
  match files path with
  | FileMissing | FileUnreadable => inr ReadingConfig
  | FileBytes data => match toml_Decode data cfg with None => inr ParsingConfig | Some cfg' => inl cfg' end
  end.

Definition Load (host : string) (home : option string) (files : string -> file_state) (path : string)
    : Config + load_error :=
  let cfg := Defaults host in
  if bool_decide (path = ""%string) then
    let path := expandHome home "~/.micelio/config.toml" in
    match files path with
    | FileMissing => inl cfg
    | _ => readConfig files cfg path
    end
  else readConfig files cfg path.
End Load.

(** ** Validation *)

Inductive addr_error := AddrEmpty | AddrFormat | AddrMissingPort | AddrMissingHost | AddrWildcard.

Inductive config_error :=
| NetworkListen (e : addr_error) | SSHListen (e : addr_error)
| BootstrapAddr (i : nat) (e : addr_error) | AdvertiseAddr (e : addr_error)
| MaxPeersNegative (n : Z) | ExchangeIntervalNegative (d : Z) | DiscoveryIntervalNegative (d : Z)
| LogLevel (level : string).

Definition validateListenAddr (addr : string) : option addr_error :=
  let addr := TrimSpace addr in
  if bool_decide (addr = ""%string) then Some AddrEmpty
  else
    match SplitHostPort addr with
    | None => Some AddrFormat
    | Some (host, port) =>
        if bool_decide (port = ""%string) then Some AddrMissingPort
        else if bool_decide (host = ""%string) then Some AddrMissingHost
        else None
    end.

Definition validatePeerAddr (addr : string) : option addr_error :=
  let addr := TrimSpace addr in
  if bool_decide (addr = ""%string) then Some AddrEmpty
  else
    match SplitHostPort addr with
    | None => Some AddrFormat
    | Some (host, port) =>
        if bool_decide (port = ""%string) then Some AddrMissingPort
        else if bool_decide (host = ""%string) then Some AddrWildcard
        else if wildcard host then Some AddrWildcard
        else None
    end.

Definition validateLogLevel (level : string) : bool :=
  let trimmed := TrimSpace level in
  bool_decide (trimmed = ""%string) ||
  match ToLower trimmed with
  | Some l => bool_decide (l ∈ ["debug"; "info"; "warn"; "warning"; "error"]%string)
  | None => false
  end.

(** A check of an optional address. *)
Definition check_addr (validate : string -> option addr_error) (mk : addr_error -> config_error) (addr : string)
    : list config_error :=
  if bool_decide (addr = ""%string) then [] else match validate addr with Some e => [mk e] | None => [] end.

Definition validateBootstrap (addrs : list string) : list config_error :=
  concat (imap (fun i addr => match validatePeerAddr addr with Some e => [BootstrapAddr i e] | None => [] end) addrs).

Definition validateAddresses (c : Config) : list config_error :=
  check_addr validateListenAddr NetworkListen (net_Listen (cfg_Network c)) ++
  check_addr validateListenAddr SSHListen (ssh_Listen (cfg_SSH c)) ++
  validateBootstrap (net_Bootstrap (cfg_Network c)) ++
  check_addr validatePeerAddr AdvertiseAddr (net_AdvertiseAddr (cfg_Network c)).

Definition validateNumericFields (c : Config) : list config_error :=
  let n := cfg_Network c in
  (if net_MaxPeers n <? 0 then [MaxPeersNegative (net_MaxPeers n)] else []) ++
  (if net_ExchangeInterval n <? 0 then [ExchangeIntervalNegative (net_ExchangeInterval n)] else []) ++
  (if net_DiscoveryInterval n <? 0 then [DiscoveryIntervalNegative (net_DiscoveryInterval n)] else []).

(** All the errors; none means valid. *)
Definition Validate (c : Config) : list config_error :=
  validateAddresses c ++ validateNumericFields c ++
  (if validateLogLevel (log_Level (cfg_Logging c)) then [] else [LogLevel (log_Level (cfg_Logging c))]).

(** ** [logging.parseLevel] *)

Inductive Level := LevelDebug | LevelInfo | LevelWarn | LevelError.

Definition parseLevel (s : string) : Level :=
  match ToLower (TrimSpace s) with
  | Some l =>
      if bool_decide (l = "debug"%string) then LevelDebug
      else if bool_decide (l = "warn"%string) || bool_decide (l = "warning"%string) then LevelWarn
      else if bool_decide (l = "error"%string) then LevelError
      else LevelInfo
  | None => LevelInfo
  end.

(** ** The configuration a node runs with ([cmd/micelio/main.go]) *)

Record Flags := mkFlags { f_dataDir : string; f_sshListen : string; f_nodeName : string; f_logLevel : string }.

Definition or_else (flag value : string) : string := if bool_decide (flag = ""%string) then value else flag.

(** Flags override the file; the environment gives the log level when neither
    does. *)
Definition override (cfg : Config) (f : Flags) (env_level : string) : Config :=
  let level := or_else (f_logLevel f) (log_Level (cfg_Logging cfg)) in
  mkConfig
    (mkNodeConfig (or_else (f_nodeName f) (node_Name (cfg_Node cfg))) (node_Tags (cfg_Node cfg))
       (or_else (f_dataDir f) (node_DataDir (cfg_Node cfg))))
    (mkSSHConfig (or_else (f_sshListen f) (ssh_Listen (cfg_SSH cfg))))
    (cfg_Network cfg)
    (mkLoggingConfig (or_else level env_level) (log_Format (cfg_Logging cfg))).

(** The configuration after validation, with the data directory expanded;
    [None]: the program exits. *)
Definition settle (cfg : Config) (f : Flags) (env_level : string) (home : option string) : option Config :=
  let c := override cfg f env_level in
  match Validate c with
  | [] =>
      Some (mkConfig (mkNodeConfig (node_Name (cfg_Node c)) (node_Tags (cfg_Node c))
              (expandHome home (node_DataDir (cfg_Node c)))) (cfg_SSH c) (cfg_Network c) (cfg_Logging c))
  | _ => None
  end.

(** Whether a transport is started. *)
Definition has_transport (c : Config) : bool :=
  negb (bool_decide (net_Listen (cfg_Network c) = ""%string)) || negb (bool_decide (net_Bootstrap (cfg_Network c) = [])).
