(* ===== verification/Manager.v ===== *)
(** * Manager: the peers of a node

    Models [internal/transport/manager.go]: the state shared by all
    connections of a node and the operations on it.  The peers live on a heap,
    because their goroutines and the gossip engine's handles keep pointers to
    them; the table [peers] maps node identifiers to pointers.  The heap, the
    table and the chat hub form the [World] on which the engine's callbacks
    act.  The goroutines that save records are part of the state, with what each
    still has to save. *)

From S2P Require Import Prelude Bytes Messages Seen KeyRing RateLimit Gossip Stream Frame Noise Strs.
From S2P Require Import Concrete Identity Peer Partyline Store Config.

(** A known peer of the discovery table. *)
Record PeerRecord := mkPeerRecord {
  rec_NodeID : string;
  rec_Addr : string;
  rec_Reachable : bool;
  rec_PublicKey : string;   (* hex *)
  rec_LastSeen : Z;         (* unix seconds *)
  rec_FailCount : Z;
  rec_LastFail : Z
}.

#[export] Instance PeerRecord_eq_dec : EqDecision PeerRecord.
Proof. solve_decision. Defined.

(** The JSON form of a record is [encoding/json]'s. *)
Class RecordCodec := #[global] json_PeerRecord :: Codec PeerRecord.

(** A goroutine that is saving records outside the lock: those to come, and the peer
    whose dial it releases when it returns, if it is a [dialDiscovered]. *)
Record Saver := mkSaver { sv_recs : list PeerRecord; sv_release : option string }.

Record World (N : Type) := mkWorld {
  w_heap : gmap positive (Peer N);
  w_peers : gmap string positive;
  w_hub : Hub
}.
Arguments mkWorld {N}.
Arguments w_heap {N}.
Arguments w_peers {N}.
Arguments w_hub {N}.

Record Manager (N S : Type) := mkManager {
  m_cfg : Config;
  m_id : Identity;
  m_noiseKey : DHKey;
  m_store : option S;            (* None: no persistence *)
  m_gossip : Engine (World N);
  m_world : World N;             (* [peers] and [hub] *)
  m_knownPeers : gmap string PeerRecord;
  m_dialing : gset string;
  m_bootstrapAddrs : gset string;
  m_listenAddr : string;
  m_peerIdleTimeout : Z;
  m_peerKeepaliveInterval : Z;
  m_peerWriteTimeout : Z;
  m_savers : list Saver          (* the goroutines that are saving *)
}.
Arguments mkManager {N S}.
Arguments m_cfg {N S}.
Arguments m_id {N S}.
Arguments m_noiseKey {N S}.
Arguments m_store {N S}.
Arguments m_gossip {N S}.
Arguments m_world {N S}.
Arguments m_knownPeers {N S}.
Arguments m_dialing {N S}.
Arguments m_bootstrapAddrs {N S}.
Arguments m_listenAddr {N S}.
Arguments m_peerIdleTimeout {N S}.
Arguments m_peerKeepaliveInterval {N S}.
Arguments m_peerWriteTimeout {N S}.
Arguments m_savers {N S}.

(** ** Field updates *)

Definition upd_world {N S} (m : Manager N S) (w : World N) : Manager N S :=
  mkManager (m_cfg m) (m_id m) (m_noiseKey m) (m_store m) (m_gossip m) w (m_knownPeers m) (m_dialing m)
    (m_bootstrapAddrs m) (m_listenAddr m) (m_peerIdleTimeout m) (m_peerKeepaliveInterval m) (m_peerWriteTimeout m) (m_savers m).
Definition upd_gossip {N S} (m : Manager N S) (e : Engine (World N)) : Manager N S :=
  mkManager (m_cfg m) (m_id m) (m_noiseKey m) (m_store m) e (m_world m) (m_knownPeers m) (m_dialing m)
    (m_bootstrapAddrs m) (m_listenAddr m) (m_peerIdleTimeout m) (m_peerKeepaliveInterval m) (m_peerWriteTimeout m) (m_savers m).
Definition upd_known {N S} (m : Manager N S) (k : gmap string PeerRecord) : Manager N S :=
  mkManager (m_cfg m) (m_id m) (m_noiseKey m) (m_store m) (m_gossip m) (m_world m) k (m_dialing m)
    (m_bootstrapAddrs m) (m_listenAddr m) (m_peerIdleTimeout m) (m_peerKeepaliveInterval m) (m_peerWriteTimeout m) (m_savers m).
Definition upd_store {N S} (m : Manager N S) (s : option S) : Manager N S :=
  mkManager (m_cfg m) (m_id m) (m_noiseKey m) s (m_gossip m) (m_world m) (m_knownPeers m) (m_dialing m)
    (m_bootstrapAddrs m) (m_listenAddr m) (m_peerIdleTimeout m) (m_peerKeepaliveInterval m) (m_peerWriteTimeout m) (m_savers m).
Definition upd_dialing {N S} (m : Manager N S) (d : gset string) : Manager N S :=
  mkManager (m_cfg m) (m_id m) (m_noiseKey m) (m_store m) (m_gossip m) (m_world m) (m_knownPeers m) d
    (m_bootstrapAddrs m) (m_listenAddr m) (m_peerIdleTimeout m) (m_peerKeepaliveInterval m) (m_peerWriteTimeout m) (m_savers m).
Definition upd_listenAddr {N S} (m : Manager N S) (a : string) : Manager N S :=
  mkManager (m_cfg m) (m_id m) (m_noiseKey m) (m_store m) (m_gossip m) (m_world m) (m_knownPeers m) (m_dialing m)
    (m_bootstrapAddrs m) a (m_peerIdleTimeout m) (m_peerKeepaliveInterval m) (m_peerWriteTimeout m) (m_savers m).
Definition upd_timeouts {N S} (m : Manager N S) (idle keepalive write : Z) : Manager N S :=
  mkManager (m_cfg m) (m_id m) (m_noiseKey m) (m_store m) (m_gossip m) (m_world m) (m_knownPeers m) (m_dialing m)
    (m_bootstrapAddrs m) (m_listenAddr m) idle keepalive write (m_savers m).
Definition upd_savers {N S} (m : Manager N S) (l : list Saver) : Manager N S :=
  mkManager (m_cfg m) (m_id m) (m_noiseKey m) (m_store m) (m_gossip m) (m_world m) (m_knownPeers m) (m_dialing m)
    (m_bootstrapAddrs m) (m_listenAddr m) (m_peerIdleTimeout m) (m_peerKeepaliveInterval m) (m_peerWriteTimeout m) l.

Definition w_set_heap {N} (w : World N) (h : gmap positive (Peer N)) : World N := mkWorld h (w_peers w) (w_hub w).
Definition w_set_peers {N} (w : World N) (p : gmap string positive) : World N := mkWorld (w_heap w) p (w_hub w).
Definition w_set_hub {N} (w : World N) (h : Hub) : World N := mkWorld (w_heap w) (w_peers w) h.

(** A peer changed through its pointer. *)
Definition w_set_peer {N} (w : World N) (l : positive) (p : Peer N) : World N := w_set_heap w (<[l := p]> (w_heap w)).
Definition upd_peer {N S} (m : Manager N S) (l : positive) (p : Peer N) : Manager N S :=
  upd_world m (w_set_peer (m_world m) l p).

(** ** What the engine calls *)

(** The [Send] of a handle is the method value [peer.SendRaw]. *)
Definition handle_send {N} (l : positive) (data : bytes) (w : World N) : bool * World N :=
  match w_heap w !! l with
  | None => (true, w)
  | Some p => let '(ok, p') := SendRaw p data in (ok, w_set_peer w l p')
  end.

Definition peerHandles {N} (w : World N) : list (PeerHandle (World N)) :=
  omap (fun e => match w_heap w !! e.2 with
                 | None => None
                 | Some p => Some (mkPeerHandle (pNodeID p) (handle_send e.2))
                 end) (map_to_list (w_peers w)).

Section Manager.
Context `{Crypto} `{Proto} `{KeyLib} `{NoiseXX} {C : Type} `{Conn C} {S : Type} `{Store S} `{RecordCodec}.

Abbreviation N := (noiseConn C).
Abbreviation Mgr := (Manager N S).
Implicit Types (m : Mgr) (w : World N).

(** The handler registered for chat messages. *)
Definition chat_handler : MessageHandler (World N) := fun senderID payload w =>
  match (Unmarshal payload : option ChatMessage) with
  | None => w
  | Some chat => w_set_hub w (DeliverRemote (w_hub w) (chat_Nick chat) (chat_Text chat))
  end.

(** ** The table of peers *)

Definition PeerCount m : nat := size (w_peers (m_world m)).

Definition at_capacity m : bool :=
  (0 <? net_MaxPeers (cfg_Network (m_cfg m))) &&
  (net_MaxPeers (cfg_Network (m_cfg m)) <=? Z.of_nat (PeerCount m)).

(** [addPeer]: the reason is empty on success. *)
Definition addPeer m (l : positive) : string * Mgr :=
  match w_heap (m_world m) !! l with
  | None => ("nil"%string, m)
  | Some p =>
      match w_peers (m_world m) !! pNodeID p with
      | Some _ => ("duplicate"%string, m)
      | None =>
          if at_capacity m then ("max peers reached"%string, m)
          else
            let m1 := upd_peer m l (set_callbacks p) in
            (""%string, upd_world m1 (w_set_peers (m_world m1) (<[pNodeID p := l]> (w_peers (m_world m1)))))
      end
  end.

Definition removePeer m (nodeID : string) : Mgr :=
  upd_world m (w_set_peers (m_world m) (delete nodeID (w_peers (m_world m)))).

(** ** Addresses *)

Definition advertiseAddr m : string :=
  let a := net_AdvertiseAddr (cfg_Network (m_cfg m)) in
  if negb (bool_decide (a = ""%string)) then a
  else
    let addr := m_listenAddr m in
    if bool_decide (addr = ""%string) then ""%string
    else
      match SplitHostPort addr with
      | None => ""%string
      | Some (host, _) =>
          if bool_decide (host = "0.0.0.0"%string) || bool_decide (host = "::"%string) || bool_decide (host = ""%string)
          then ""%string
          else addr
      end.

Definition helloConfig m : HelloConfig :=
  let addr := advertiseAddr m in
  mkHelloConfig (node_Tags (cfg_Node (m_cfg m))) (negb (bool_decide (addr = ""%string))) addr.

(** ** Timeouts *)

Definition SetPeerTimeouts m (idle keepalive : Z) : Mgr :=
  let idle := if idle <? 0 then 0 else idle in
  let keepalive := if keepalive <? 0 then 0 else keepalive in
  upd_timeouts m idle keepalive (m_peerWriteTimeout m).

Definition set_peer_write {N} (p : Peer N) (d : Z) : Peer N :=
  set_timeouts p (idleTimeout p) (keepaliveInterval p) d.

(** The loop stores the timeout in every connected peer. *)
Definition SetPeerWriteTimeout m (d : Z) : Mgr :=
  let m1 := upd_timeouts m (m_peerIdleTimeout m) (m_peerKeepaliveInterval m) d in
  upd_world m1
    (foldl (fun w e => match w_heap w !! e.2 with
                       | None => w
                       | Some p => w_set_peer w e.2 (set_peer_write p d)
                       end) (m_world m1) (map_to_list (w_peers (m_world m1)))).

Definition applyPeerTimeouts m (p : Peer N) : Peer N :=
  let idle := m_peerIdleTimeout m in
  let keepalive := m_peerKeepaliveInterval m in
  let writeT := m_peerWriteTimeout m in
  let p1 := if 0 <? idle then set_timeouts p idle (keepaliveInterval p) (writeTimeout p) else p in
  let p2 := if 0 <? keepalive then set_timeouts p1 (idleTimeout p1) keepalive (writeTimeout p1) else p1 in
  if 0 <? writeT then set_peer_write p2 writeT else p2.

(** ** Reconnecting *)

Definition maxBackoff : Z := 30 * Second.

(** [dialWithBackoff]: for the outcomes of successive dials (true: connected
    until a disconnect), the waits before the next attempt. *)
Fixpoint dial_waits (backoff : Z) (outcomes : list bool) : list Z :=
  match outcomes with
  | [] => []
  | true :: os => 0 :: dial_waits Second os
  | false :: os => backoff :: dial_waits (Z.min (backoff * 2) maxBackoff) os
  end.

Definition dialWithBackoff (outcomes : list bool) : list Z := dial_waits Second outcomes.
End Manager.

(** ** Concrete managers

    A record codec and managers on which the examples evaluate: node [n] with
    the given known peers, listening on a fixed address. *)

#[export] Instance wire_PeerRecord : Wire PeerRecord :=
  wire_via (fun r => (rec_NodeID r, rec_Addr r, rec_Reachable r, rec_PublicKey r, rec_LastSeen r, rec_FailCount r,
               rec_LastFail r))
    (fun '(a, b, c, d, e, f, g) => mkPeerRecord a b c d e f g).
#[export] Instance wire_PeerRecord_laws : WireLaws PeerRecord.
Proof. apply wire_via_laws. by intros []. Qed.
#[export] Instance wire_record : RecordCodec := wire_codec PeerRecord.

Definition ex_config (maxPeers : Z) : Config :=
  mkConfig (mkNodeConfig "node" [] "/data") (mkSSHConfig "127.0.0.1:2222")
    (mkNetworkConfig "127.0.0.1:4000" "" [] maxPeers (30 * Second) (10 * Second)) (mkLoggingConfig "info" "text").

Definition ex_manager (n : Z) (known : list PeerRecord) : Manager (noiseConn tcp) BoltStore :=
  mkManager (ex_config 8) (ex_identity n) (mkDHKey [] []) (Some (mkBoltStore (H := mem_bbolt) ∅))
    (NewEngine (toy_id n) peerHandles)
    (mkWorld ∅ ∅ (SetRemoteSend (NewHub "node")))
    (list_to_map ((fun r => (rec_NodeID r, r)) <$> known)) ∅ ∅ "10.0.0.1:4000" 0 0 0 [].

Definition ex_record (n seen fails lastFail : Z) : PeerRecord :=
  mkPeerRecord (toy_id n) "10.0.0.9:4000" true (hex_encode (toy_pub n)) seen fails lastFail.
