(* ===== verification/Discovery.v ===== *)
(** * Discovery: known peers and their exchange

    Models [internal/transport/discovery.go].  Known peers are records in a
    map; the code changes them in place through the map's pointers, always
    under the manager's mutex, and copies what leaves it, so the model keeps
    the records themselves.  Times are arguments: [now] in nanoseconds,
    [now_s] in seconds ([time.Now().Unix()]). Loops over a map take the order
    of [map_to_list]; Go's order is random.  The goroutines that save records are
    the manager's [m_savers]: an operation adds one with [start_saving], and [save_turn] is
    one of its turns, so that saves of different goroutines happen in any order. *)

From S2P Require Import Prelude Bytes Messages KeyRing Gossip Stream Frame Noise Strs Identity Peer.
From S2P Require Import Partyline Store Config Manager.

Definition peersBucket : bytes := to_bytes "peers".
Definition maxDialsPerTick : nat := 3.

(** [backoff]: [math.Min(math.Pow(2, n-1), 30)] seconds; the powers of two up
    to 30 are exact, and beyond any rounding the minimum is 30. *)
Definition rec_backoff (r : PeerRecord) : Z :=
  if rec_FailCount r <=? 0 then 0
  else Z.min (2 ^ (rec_FailCount r - 1)) 30 * Second.

Definition isInvalidPeerAddr (addr : string) : bool :=
  match SplitHostPort addr with
  | None => true
  | Some (host, port) =>
      if bool_decide (port = ""%string) then true
      else bool_decide (host = ""%string) || bool_decide (host = "0.0.0.0"%string) || bool_decide (host = "::"%string)
  end.

Definition safeLastSeen (ts : Z) : Z := if MaxInt64 <? ts then MaxInt64 else ts.

Section Discovery.
Context `{Crypto} `{Proto} `{KeyLib} `{NoiseXX} {C : Type} `{Conn C} {S : Type} `{Store S} `{RecordCodec}.

Abbreviation N := (noiseConn C).
Abbreviation Mgr := (Manager N S).
Implicit Types (m : Mgr) (rec : PeerRecord).

(** ** Loading and saving *)

(** The checks of [loadKnownPeers] on one stored value. *)
Definition load_record (v : bytes) : option PeerRecord :=
  match (Unmarshal v : option PeerRecord) with
  | None => None
  | Some rec =>
      if bool_decide (rec_NodeID rec = ""%string) then None
      else if negb (bool_decide (rec_Addr rec = ""%string)) && isInvalidPeerAddr (rec_Addr rec) then None
      else if negb (bool_decide (rec_PublicKey rec = ""%string)) then
        match hex_decode (rec_PublicKey rec) with
        | None => None
        | Some pubBytes =>
            if negb (len pubBytes =? PublicKeySize) then None
            else if negb (bool_decide (node_id pubBytes = rec_NodeID rec)) then None
            else Some rec
        end
      else Some rec
  end.

Definition loadKnownPeers m : Mgr :=
  match m_store m with
  | None => m
  | Some st =>
      match st_Snapshot st peersBucket with
      | Err _ => m
      | Ok snap =>
          let valid := omap (fun e => load_record e.2) (map_to_list snap) in
          upd_known m (foldl (fun k rec => <[rec_NodeID rec := rec]> k) (m_knownPeers m) valid)
      end
  end.

Definition saveKnownPeer m rec : Mgr :=
  match m_store m with
  | None => m
  | Some st =>
      match Marshal rec with
      | None => m
      | Some data => upd_store m (Some (st_Set st peersBucket (to_bytes (rec_NodeID rec)) data).2)
      end
  end.

(** A goroutine starts to save [recs] and then returns. *)
Definition start_saving m (recs : list PeerRecord) (release : option string) : Mgr :=
  upd_savers m (m_savers m ++ [mkSaver recs release]).

(** A turn of the saving goroutine [i]: it saves its next record or returns. *)
Definition save_turn m (i : nat) : option Mgr :=
  match m_savers m !! i with
  | None => None
  | Some (mkSaver (rec :: recs) release) => Some (saveKnownPeer (upd_savers m (<[i := mkSaver recs release]> (m_savers m))) rec)
  | Some (mkSaver [] release) =>
      let m1 := upd_savers m (delete i (m_savers m)) in
      Some match release with None => m1 | Some id => upd_dialing m1 (m_dialing m1 ∖ {[id]}) end
  end.

(** ** Exchanging *)

(** A snapshot of a known peer as a [PeerInfo]; the key is decoded outside
    the lock. *)
Definition record_info rec : option PeerInfo :=
  if bool_decide (rec_PublicKey rec = ""%string) then None
  else
    match hex_decode (rec_PublicKey rec) with
    | None => None
    | Some pubKey =>
        if negb (len pubKey =? PublicKeySize) then None
        else Some (mkPeerInfo (rec_NodeID rec) (rec_Addr rec) (rec_Reachable rec) pubKey (u64 (rec_LastSeen rec)))
    end.

Definition exchangeable m (excludeNodeID : string) rec : bool :=
  negb (bool_decide (rec_NodeID rec = excludeNodeID) || bool_decide (rec_NodeID rec = NodeID (m_id m))) &&
  negb (negb (rec_Reachable rec) || bool_decide (rec_Addr rec = ""%string) || isInvalidPeerAddr (rec_Addr rec)).

Definition buildPeerInfoList m (excludeNodeID : string) (now_s : Z) : list PeerInfo :=
  let selfAddr := advertiseAddr m in
  let snapshots := filter (fun rec => exchangeable m excludeNodeID rec = true) (map_to_list (m_knownPeers m)).*2 in
  (if bool_decide (selfAddr = ""%string) then []
   else [mkPeerInfo (NodeID (m_id m)) selfAddr true (PublicKey (m_id m)) (u64 now_s)]) ++
  omap record_info snapshots.

Definition exchange_envelope m (uuid : string) (payload : bytes) : Envelope :=
  SignEnvelope (mkEnvelope uuid (NodeID (m_id m)) 0 1 MsgTypePeerExchange payload [] []) (PrivateKey (m_id m)).

Definition sendPeerExchangeTo m (l : positive) (now_s : Z) (uuid : string) : Mgr :=
  match w_heap (m_world m) !! l with
  | None => m
  | Some p =>
      match buildPeerInfoList m (pNodeID p) now_s with
      | [] => m
      | infos =>
          match Marshal (mkPeerExchange infos) with
          | None => m
          | Some payload =>
              match Marshal (exchange_envelope m uuid payload) with
              | None => m
              | Some envBytes => upd_peer m l (SendRaw p envBytes).2
              end
          end
      end
  end.

(** A turn of [exchangeLoop]; [uuids] supplies one identifier per peer. *)
Definition exchange_tick m (now_s : Z) (uuids : list string) : Mgr :=
  foldl (fun m' e => sendPeerExchangeTo m' e.1.2 now_s e.2) m (zip (map_to_list (w_peers (m_world m))) uuids).

Definition keyring_add m (nodeID : string) (pubKey : bytes) (trust : TrustLevel) : Mgr :=
  upd_gossip m (set_KeyRing (m_gossip m) (KeyRing_Add (eKeyRing (m_gossip m)) nodeID pubKey trust)).

(** [onPeerConnected]. The snapshot is saved in a goroutine of its own. *)
Definition onPeerConnected m (l : positive) (now_s : Z) (uuid : string) : Mgr :=
  match w_heap (m_world m) !! l with
  | None => m
  | Some p =>
      let m1 := keyring_add m (pNodeID p) (edPubKey p) TrustDirectlyVerified in
      let rec := mkPeerRecord (pNodeID p) (remoteListenAddr p) (remoteReachable p) (hex_encode (edPubKey p))
                   now_s 0 0 in
      let m2 := upd_known m1 (<[pNodeID p := rec]> (m_knownPeers m1)) in
      sendPeerExchangeTo (start_saving m2 [rec] None) l now_s uuid
  end.

(** ** Merging *)

(** The filter of [mergeDiscoveredPeers] on one entry: the entry's record
    when it is accepted. *)
Definition valid_info (self : string) (info : PeerInfo) : option PeerRecord :=
  if bool_decide (info_NodeId info = self) then None
  else if negb (info_Reachable info) || bool_decide (info_Addr info = ""%string) || isInvalidPeerAddr (info_Addr info)
  then None
  else if negb (len (info_Ed25519Pubkey info) =? PublicKeySize) then None
  else if negb (bool_decide (info_NodeId info = node_id (info_Ed25519Pubkey info))) then None
  else Some (mkPeerRecord (info_NodeId info) (info_Addr info) (info_Reachable info)
               (hex_encode (info_Ed25519Pubkey info)) (safeLastSeen (info_LastSeen info)) 0 0).

(** One update of the table: newer information replaces the address,
    reachability, key and time of an existing record and keeps its failure
    count. The second component is what is to be persisted. *)
Definition merge_one (k : gmap string PeerRecord) (v : PeerRecord) : gmap string PeerRecord * list PeerRecord :=
  match k !! rec_NodeID v with
  | Some existing =>
      if rec_LastSeen existing <? rec_LastSeen v then
        let rec := mkPeerRecord (rec_NodeID existing) (rec_Addr v) (rec_Reachable v) (rec_PublicKey v)
                     (rec_LastSeen v) (rec_FailCount existing) (rec_LastFail existing) in
        (<[rec_NodeID v := rec]> k, [rec])
      else (k, [])
  | None => (<[rec_NodeID v := v]> k, [v])
  end.

Fixpoint merge_all (k : gmap string PeerRecord) (vs : list PeerRecord) : gmap string PeerRecord * list PeerRecord :=
  match vs with
  | [] => (k, [])
  | v :: vs' =>
      let '(k1, ps) := merge_one k v in
      let '(k2, ps') := merge_all k1 vs' in
      (k2, ps ++ ps')
  end.

(** The key of an accepted entry goes to the gossip key ring. *)
Definition learn_key (kr : KeyRing) (self : string) (info : PeerInfo) : KeyRing :=
  match valid_info self info with
  | None => kr
  | Some _ => KeyRing_Add kr (info_NodeId info) (info_Ed25519Pubkey info) TrustGossipLearned
  end.

Definition mergeDiscoveredPeers m (infos : list PeerInfo) : Mgr :=
  let self := NodeID (m_id m) in
  let m1 := upd_gossip m (set_KeyRing (m_gossip m) (foldl (fun kr i => learn_key kr self i) (eKeyRing (m_gossip m)) infos)) in
  let validated := omap (valid_info self) infos in
  let '(k, toPersist) := merge_all (m_knownPeers m1) validated in
  match toPersist with
  | [] => upd_known m1 k
  | _ => start_saving (upd_known m1 k) toPersist None
  end.

(** ** Dialing *)

Definition dial_candidate m (now : Z) rec : bool :=
  negb (bool_decide (rec_NodeID rec = NodeID (m_id m))) &&
  rec_Reachable rec && negb (bool_decide (rec_Addr rec = ""%string)) &&
  negb (bool_decide (is_Some (w_peers (m_world m) !! rec_NodeID rec))) &&
  negb (bool_decide (rec_NodeID rec ∈ m_dialing m)) &&
  negb (bool_decide (rec_Addr rec ∈ m_bootstrapAddrs m)) &&
  negb ((0 <? rec_FailCount rec) && (now <? rec_LastFail rec * Second + rec_backoff rec)).

(** [tryDiscoveryDials]: the records whose dials are started, each marked as
    being dialed; [shuffle] is [rand.Shuffle]. *)
Definition tryDiscoveryDials m (now : Z) (shuffle : list PeerRecord -> list PeerRecord) : list PeerRecord * Mgr :=
  if at_capacity m then ([], m)
  else
    let candidates := filter (fun rec => dial_candidate m now rec = true) (map_to_list (m_knownPeers m)).*2 in
    match candidates with
    | [] => ([], m)
    | _ =>
        let chosen := take maxDialsPerTick (shuffle candidates) in
        (chosen, upd_dialing m (list_to_set (rec_NodeID <$> chosen) ∪ m_dialing m))
    end.

(** The end of [dialDiscovered]: [ok] tells whether [dial] returned without
    an error, [cancelled] whether the node stopped during the jitter. After a
    failure it saves the record outside the lock before it returns and thereby releases
    the peer. *)
Definition dialDiscovered m rec (cancelled ok : bool) (now_s : Z) : Mgr :=
  let return_now := upd_dialing m (m_dialing m ∖ {[rec_NodeID rec]}) in
  if cancelled || ok then return_now
  else
    match m_knownPeers m !! rec_NodeID rec with
    | None => return_now
    | Some r =>
        let r' := mkPeerRecord (rec_NodeID r) (rec_Addr r) (rec_Reachable r) (rec_PublicKey r) (rec_LastSeen r)
                    (i64 (rec_FailCount r + 1)) now_s in
        start_saving (upd_known m (<[rec_NodeID rec := r']> (m_knownPeers m))) [r'] (Some (rec_NodeID rec))
    end.
End Discovery.
