(* ===== verification/ConfigProps.v ===== *)
(** * ConfigProps: what a validated configuration guarantees *)

From S2P Require Import Prelude Bytes Strs Text Config Stream Noise Messages Identity Peer Partyline Store Manager.
From S2P Require Import Gossip Discovery.

(** A listen address: a host and a port. *)
Definition listen_ok (addr : string) : Prop :=
  exists host port, SplitHostPort (TrimSpace addr) = Some (host, port) /\ host <> ""%string /\ port <> ""%string.

(** A peer's address: in addition, the host is not a wildcard. *)
Definition peer_ok (addr : string) : Prop :=
  exists host port, SplitHostPort (TrimSpace addr) = Some (host, port) /\ host <> ""%string /\ port <> ""%string /\
    wildcard host = false.

Definition level_ok (level : string) : Prop :=
  TrimSpace level = ""%string \/
  exists l, ToLower (TrimSpace level) = Some l /\ l ∈ ["debug"; "info"; "warn"; "warning"; "error"]%string.

Lemma SplitHostPort_empty : SplitHostPort "" = None.
Proof. done. Qed.

Lemma validateListenAddr_None addr : validateListenAddr addr = None <-> listen_ok addr.
Proof.
  unfold validateListenAddr, listen_ok. case_bool_decide as He.
  { rewrite He. split; [done|]. intros (h & p & E & _). by rewrite SplitHostPort_empty in E. }
  destruct (SplitHostPort (TrimSpace addr)) as [[h p]|]; [|split; [done|]; by intros (? & ? & ? & _)].
  split.
  - repeat case_bool_decide; try done. intros _. eauto.
  - intros (h' & p' & [= <- <-] & Hh & Hp). by rewrite !bool_decide_false.
Qed.

Lemma validatePeerAddr_None addr : validatePeerAddr addr = None <-> peer_ok addr.
Proof.
  unfold validatePeerAddr, peer_ok. case_bool_decide as He.
  { rewrite He. split; [done|]. intros (h & p & E & _). by rewrite SplitHostPort_empty in E. }
  destruct (SplitHostPort (TrimSpace addr)) as [[h p]|]; [|split; [done|]; by intros (? & ? & ? & _)].
  split.
  - repeat case_bool_decide; try done. destruct (wildcard h) eqn:Hw; [done|]. intros _. by exists h, p.
  - intros (h' & p' & [= <- <-] & Hh & Hp & Hw). by rewrite !bool_decide_false, Hw.
Qed.

Lemma validateLogLevel_true level : validateLogLevel level = true <-> level_ok level.
Proof.
  unfold validateLogLevel, level_ok. rewrite orb_true_iff, bool_decide_eq_true.
  destruct (ToLower (TrimSpace level)) as [l|].
  - rewrite bool_decide_eq_true. split; (intros [?|Hl]; [by left|right]); [eauto|by destruct Hl as (l' & [= <-] & ?)].
  - split; (intros [?|Hl]; [by left|]); [done|]. by destruct Hl as (? & ? & _).
Qed.

Lemma check_addr_nil validate mk addr :
  check_addr validate mk addr = [] <-> addr = ""%string \/ validate addr = None.
Proof.
  unfold check_addr. case_bool_decide; [by split; [left|]|]. destruct (validate addr); split; try done; [|by right].
  by intros [?|?].
Qed.

Lemma concat_nil_iff {A} (l : list (list A)) : concat l = [] <-> Forall (fun x => x = []) l.
Proof.
  induction l as [|x l IH]; cbn; [by split|]. rewrite Forall_cons, app_nil, IH. done.
Qed.

Lemma validateBootstrap_nil addrs : validateBootstrap addrs = [] <-> Forall (fun a => validatePeerAddr a = None) addrs.
Proof.
  unfold validateBootstrap. rewrite concat_nil_iff, !Forall_lookup. split.
  - intros Hf i a Ha. specialize (Hf i). rewrite list_lookup_imap, Ha in Hf. specialize (Hf _ eq_refl).
    by destruct (validatePeerAddr a).
  - intros Hf i x Hx. rewrite list_lookup_imap in Hx. destruct (addrs !! i) as [a|] eqn:Ha; [|done].
    injection Hx as <-. by rewrite (Hf i a Ha).
Qed.

Lemma if_nil {A} (b : bool) (x : A) : (if b then [x] else []) = [] <-> b = false.
Proof. by destruct b. Qed.

(** ** Properties *)

(** C38. Validation accepts exactly the well-formed configurations: listen
    addresses, when set, have a host and a port; every bootstrap address and the
    advertised address, when set, have a port and a host that is no wildcard in any notation
    of IPv4 or IPv6; the peer limit and the intervals are not negative; and the log
    level is empty or one of the five names in any case. *)
Theorem Validate_iff (c : Config) :
  Validate c = [] <->
  (net_Listen (cfg_Network c) = ""%string \/ listen_ok (net_Listen (cfg_Network c))) /\
  (ssh_Listen (cfg_SSH c) = ""%string \/ listen_ok (ssh_Listen (cfg_SSH c))) /\
  Forall peer_ok (net_Bootstrap (cfg_Network c)) /\
  (net_AdvertiseAddr (cfg_Network c) = ""%string \/ peer_ok (net_AdvertiseAddr (cfg_Network c))) /\
  0 <= net_MaxPeers (cfg_Network c) /\ 0 <= net_ExchangeInterval (cfg_Network c) /\
  0 <= net_DiscoveryInterval (cfg_Network c) /\ level_ok (log_Level (cfg_Logging c)).
Proof.
  unfold Validate, validateAddresses, validateNumericFields. rewrite !app_nil, !check_addr_nil, !if_nil, !Z.ltb_ge.
  rewrite validateBootstrap_nil, !validateListenAddr_None, <- validateLogLevel_true.
  setoid_rewrite validatePeerAddr_None.
  destruct (validateLogLevel _); naive_solver.
Qed.

(** A validated peer address is one that discovery lets pass: written without
    surrounding space, no node that receives it in an exchange or loads it from
    its store refuses it as a wildcard or malformed. *)
Theorem validated_addr_accepted (addr : string)
  (Hvalid : validatePeerAddr addr = None) (Htrim : TrimSpace addr = addr) :
  isInvalidPeerAddr addr = false.
Proof.
  apply validatePeerAddr_None in Hvalid as (h & p & Hs & Hh & Hp & Hw). rewrite Htrim in Hs.
  unfold isInvalidPeerAddr. rewrite Hs, !bool_decide_false; [done|..]; try done; intros ->; by vm_compute in Hw.
Qed.

Lemma validated_addr_accepted_witness :
  validatePeerAddr "[2001:db8::1]:4000" = None /\ isInvalidPeerAddr "[2001:db8::1]:4000" = false.
Proof.
  split; [reflexivity|]. apply (validated_addr_accepted "[2001:db8::1]:4000"); reflexivity.
Defined.

(** The default configuration is valid, whatever the host is called. *)
Lemma Defaults_valid host : Validate (Defaults host) = [].
Proof. reflexivity. Qed.

(** Surrounding space passes the validation but stays in the address. *)
Example untrimmed_accepted :
  validatePeerAddr " 0.0.0.0:4000" = Some AddrWildcard /\ isInvalidPeerAddr " 0.0.0.0:4000" = false /\
  validatePeerAddr " 10.0.0.1:4000" = None /\ SplitHostPort " 10.0.0.1:4000" = Some (" 10.0.0.1", "4000")%string.
Proof. repeat split; reflexivity. Qed.
