(* ===== verification/Duration.v ===== *)
(** * Duration: durations in the configuration file

    [Duration] of [internal/config/config.go] is decoded by
    [time.ParseDuration], modelled here: a sign, then decimal numbers, each with
    a unit. Integers are [uint64]; fractions go through [float64]. *)

From S2P Require Import Prelude Bytes Float64 Strs Text.
From Stdlib Require Import Ascii.

Definition is_digit (c : ascii) : bool := within 48 57 c.
Definition digit_value (c : ascii) : Z := Z.of_N (N_of_ascii c) - 48.

(** [leadingInt]; [None]: it exceeds 2^63. *)
Fixpoint leadingInt (x : Z) (l : chars) : option (Z * chars) :=
  match l with
  | [] => Some (x, [])
  | c :: l' =>
      if is_digit c then
        if 2 ^ 63 / 10 <? x then None
        else
          let x := x * 10 + digit_value c in
          if 2 ^ 63 <? x then None else leadingInt x l'
      else Some (x, l)
  end.

(** [leadingFraction]: further digits are read and ignored once the number
    exceeds 2^63. *)
Fixpoint leadingFraction (x : Z) (scale : f64) (overflow : bool) (l : chars) : Z * f64 * chars :=
  match l with
  | [] => (x, scale, [])
  | c :: l' =>
      if is_digit c then
        if overflow then leadingFraction x scale true l'
        else if (2 ^ 63 - 1) / 10 <? x then leadingFraction x scale true l'
        else
          let y := x * 10 + digit_value c in
          if 2 ^ 63 <? y then leadingFraction x scale true l'
          else leadingFraction y (f64_mul scale (f64_of_Z 10)) false l'
      else (x, scale, l)
  end.

(** [unitMap], in nanoseconds; the micro sign and the Greek letter mu are the two
    other spellings of microseconds. *)
Definition unit_of (u : chars) : option Z :=
  let eq (s : string) := bool_decide (u = explode s) in
  if eq "ns"%string then Some 1
  else if eq "us"%string || bool_decide (u = ["194"; "181"; "115"]%char) || bool_decide (u = ["206"; "188"; "115"]%char) then Some 1000
  else if eq "ms"%string then Some 1000000
  else if eq "s"%string then Some 1000000000
  else if eq "m"%string then Some 60000000000
  else if eq "h"%string then Some 3600000000000
  else None.

(** The characters up to the next number. *)
Fixpoint span_unit (l : chars) : chars * chars :=
  match l with
  | [] => ([], [])
  | c :: l' => if Ascii.eqb c "." || is_digit c then ([], l) else let '(u, r) := span_unit l' in (c :: u, r)
  end.

(** A number and its unit in nanoseconds, and the rest. *)
Definition parse_component (l : chars) : option (Z * chars) :=
  match l with
  | c :: _ =>
      if negb (Ascii.eqb c "." || is_digit c) then None
      else
        match leadingInt 0 l with
        | None => None
        | Some (v, l1) =>
            let pre := negb (length l1 =? length l)%nat in
            let '(f, scale, l2, post) :=
              match l1 with
              | c1 :: l1' =>
                  if Ascii.eqb c1 "." then
                    let '(f, scale, l2) := leadingFraction 0 f64_scale false l1' in (f, scale, l2, negb (length l2 =? length l1')%nat)
                  else (0, f64_scale, l1, false)
              | [] => (0, f64_scale, l1, false)
              end in
            if negb pre && negb post then None
            else
              let '(u, l3) := span_unit l2 in
              match u with
              | [] => None
              | _ =>
                  match unit_of u with
                  | None => None
                  | Some unit =>
                      if 2 ^ 63 / unit <? v then None
                      else
                        let v := v * unit in
                        if 0 <? f then
                          let v := u64 (v + f64_mul (f64_of_Z f) (f64_div (f64_of_Z unit) scale) / f64_scale) in
                          if 2 ^ 63 <? v then None else Some (v, l3)
                        else Some (v, l3)
                  end
              end
        end
  | [] => None
  end.

(** The loop; each turn consumes a character. *)
Fixpoint parse_components (fuel : nat) (d : Z) (l : chars) : option Z :=
  match fuel, l with
  | _, [] => Some d
  | O, _ => None
  | S fuel', _ =>
      match parse_component l with
      | None => None
      | Some (v, l') =>
          let d := u64 (d + v) in
          if 2 ^ 63 <? d then None else parse_components fuel' d l'
      end
  end.

(** [time.ParseDuration] without the text of its error. *)
Definition ParseDuration (s : string) : option Z :=
  let l := explode s in
  let '(neg, l) :=
    match l with
    | c :: l' => if Ascii.eqb c "-" || Ascii.eqb c "+" then (Ascii.eqb c "-", l') else (false, l)
    | [] => (false, l)
    end in
  if bool_decide (l = ["0"]%char) then Some 0
  else
    match l with
    | [] => None
    | _ =>
        match parse_components (length l) 0 l with
        | None => None
        | Some d => if neg : bool then Some (- d) else if 2 ^ 63 - 1 <? d then None else Some d
        end
    end.

(** [UnmarshalText]: the field it sets, and whether there is no error. *)
Definition UnmarshalText (text : string) : Z * bool :=
  match ParseDuration text with Some d => (d, true) | None => (0, false) end.

Example ParseDuration_examples :
  ParseDuration "30s" = Some 30000000000 /\ ParseDuration "1h15m30.918273645s" = Some 4530918273645 /\
  ParseDuration "-.5h" = Some (-1800000000000) /\ ParseDuration "0" = Some 0 /\ ParseDuration "30" = None /\
  ParseDuration "1.5d" = None /\ ParseDuration "9223372036854775808ns" = None /\
  ParseDuration "-9223372036854775808ns" = Some (-9223372036854775808).
Proof. repeat split; vm_compute; reflexivity. Qed.

(** ** Reading numbers and units *)

Definition add_digit (x : Z) (c : ascii) : Z := x * 10 + digit_value c.

(** The value of a sequence of digits. *)
Definition decimal (ds : chars) : Z := foldl add_digit 0 ds.

Lemma digit_range c : is_digit c = true -> 0 <= digit_value c <= 9.
Proof.
  unfold is_digit, within, digit_value. intros Hd. apply andb_true_iff in Hd as [H1 H2].
  apply N.leb_le in H1. apply N.leb_le in H2. lia.
Qed.

(** A rest at which a number or a unit ends. *)
Definition no_digit (l : chars) : Prop := match l with c :: _ => is_digit c = false | [] => True end.
Definition no_unit (l : chars) : Prop := match l with c :: _ => is_digit c = true | [] => True end.

Lemma foldl_digits_ge ds x : 0 <= x -> Forall (fun c => is_digit c = true) ds -> x <= foldl add_digit x ds.
Proof.
  revert x. induction ds as [|c ds IH]; intros x Hx Hd; [done|]. apply Forall_cons in Hd as [Hc Hd]. cbn.
  apply digit_range in Hc. transitivity (add_digit x c); [unfold add_digit; lia|].
  apply IH; [unfold add_digit; lia|done].
Qed.

Lemma leadingInt_digits ds x rest :
  0 <= x -> Forall (fun c => is_digit c = true) ds -> no_digit rest -> foldl add_digit x ds <= 2 ^ 63 ->
  leadingInt x (ds ++ rest) = Some (foldl add_digit x ds, rest).
Proof.
  revert x. induction ds as [|c ds IH]; intros x Hx Hd Hr Hb; cbn [app leadingInt foldl].
  - destruct rest as [|c rest]; [done|]. cbn in *. by rewrite Hr.
  - apply Forall_cons in Hd as [Hc Hd]. rewrite Hc. pose proof (digit_range c Hc) as Hv. cbn in Hb.
    assert (x * 10 + digit_value c <= foldl add_digit (add_digit x c) ds) as Hge
      by (apply (foldl_digits_ge ds (add_digit x c)); [unfold add_digit; lia|done]).
    destruct (2 ^ 63 / 10 <? x) eqn:E1; [apply Z.ltb_lt in E1; change (2 ^ 63 / 10) with 922337203685477580 in E1; lia|].
    destruct (2 ^ 63 <? x * 10 + digit_value c) eqn:E2; [apply Z.ltb_lt in E2; lia|].
    apply (IH (add_digit x c)); [unfold add_digit; lia|done..].
Qed.

(** The units contain neither digits nor dots. *)
Lemma unit_chars u n : unit_of u = Some n ->
  u <> [] /\ Forall (fun c => Ascii.eqb c "." || is_digit c = false) u /\ 0 < n.
Proof.
  unfold unit_of. repeat case_bool_decide; cbn; intros Hn; simplify_eq;
    (split; [done|]; split; [|lia]); apply Forall_forall; intros c Hc; cbn in Hc;
    repeat (apply elem_of_cons in Hc as [->|Hc]; [reflexivity|]); by apply elem_of_nil in Hc.
Qed.

Lemma span_unit_app u rest :
  Forall (fun c => Ascii.eqb c "." || is_digit c = false) u -> no_unit rest -> span_unit (u ++ rest) = (u, rest).
Proof.
  intros Hu Hr. induction u as [|c u IH]; cbn [app span_unit].
  - destruct rest as [|c rest]; [done|]. cbn in *. by rewrite Hr, orb_true_r.
  - apply Forall_cons in Hu as [Hc Hu]. by rewrite Hc, (IH Hu).
Qed.

Lemma parse_component_ok ds u n rest :
  ds <> [] -> Forall (fun c => is_digit c = true) ds -> unit_of u = Some n -> no_unit rest -> decimal ds * n <= 2 ^ 63 ->
  parse_component (ds ++ u ++ rest) = Some (decimal ds * n, rest).
Proof.
  intros Hne Hd Hu Hr Hb. destruct (unit_chars u n Hu) as (Hune & Huc & Hn).
  pose proof (foldl_digits_ge ds 0 ltac:(lia) Hd) as H0. fold (decimal ds) in H0.
  assert (leadingInt 0 (ds ++ u ++ rest) = Some (decimal ds, u ++ rest)) as Hl.
  { apply leadingInt_digits; [done|done| |unfold decimal in *; nia]. destruct u as [|c u]; [done|]. cbn.
    apply Forall_cons in Huc as [Hc _]. by apply orb_false_iff in Hc as [_ ?]. }
  destruct ds as [|c ds]; [done|]. cbn [app] in *. unfold parse_component. rewrite Hl.
  apply Forall_cons in Hd as [Hc _]. rewrite Hc, orb_true_r. cbn [negb].
  assert (negb (length (u ++ rest) =? length (c :: ds ++ u ++ rest))%nat = true) as ->.
  { apply negb_true_iff, Nat.eqb_neq. cbn. rewrite !length_app. lia. }
  destruct u as [|cu u]; [done|]. cbn [app].
  pose proof Huc as [Hcu _]%Forall_cons. apply orb_false_iff in Hcu as [-> _]. cbn [negb andb].
  change (cu :: u ++ rest) with ((cu :: u) ++ rest). rewrite (span_unit_app (cu :: u) rest Huc Hr), Hu.
  assert ((2 ^ 63 / n <? decimal (c :: ds)) = false) as ->; [|done].
  apply Z.ltb_ge, Z.div_le_lower_bound; lia.
Qed.

(** ** Properties *)

(** A number with its unit, such as "90" and "m". *)
Definition component_ok (x : chars * chars * Z) : Prop :=
  x.1.1 <> [] /\ Forall (fun c => is_digit c = true) x.1.1 /\ unit_of x.1.2 = Some x.2.

Definition components_text (xs : list (chars * chars * Z)) : chars := xs ≫= (fun x => x.1.1 ++ x.1.2).
Definition components_total (xs : list (chars * chars * Z)) : Z := foldr (fun x t => decimal x.1.1 * x.2 + t) 0 xs.

Lemma components_total_nonneg xs : Forall component_ok xs -> 0 <= components_total xs.
Proof.
  induction 1 as [|x xs (_ & Hd & Hu) _ IH]; [done|].
  change (0 <= decimal x.1.1 * x.2 + components_total xs). apply unit_chars in Hu as (_ & _ & Hn).
  pose proof (foldl_digits_ge x.1.1 0 ltac:(lia) Hd) as H0. fold (decimal x.1.1) in H0. nia.
Qed.

Lemma components_no_unit xs : Forall component_ok xs -> no_unit (components_text xs).
Proof.
  destruct 1 as [|[[ds u] n] xs (Hne & Hd & _) _]; [done|]. cbn in *. destruct ds as [|c ds]; [done|].
  by apply Forall_cons in Hd as [? _].
Qed.

Lemma parse_components_ok xs fuel d :
  Forall component_ok xs -> 0 <= d -> (length (components_text xs) <= fuel)%nat -> d + components_total xs <= 2 ^ 63 ->
  parse_components fuel d (components_text xs) = Some (d + components_total xs).
Proof.
  intros Hxs. revert fuel d. induction Hxs as [|[[ds u] n] xs Hx Hxs IH]; intros fuel d H0 Hf Hb.
  - cbn. rewrite Z.add_0_r. by destruct fuel.
  - pose proof (components_total_nonneg xs Hxs) as Ht. pose proof Hx as (Hne & Hd & Hu). cbn in Hne, Hd, Hu.
    pose proof (components_total_nonneg [(ds, u, n)] ltac:(by constructor)) as Ht1.
    change (0 <= decimal ds * n + 0) in Ht1.
    change (components_total ((ds, u, n) :: xs)) with (decimal ds * n + components_total xs) in *.
    assert (components_text ((ds, u, n) :: xs) = ds ++ u ++ components_text xs) as E
      by (unfold components_text; rewrite bind_cons; cbn; by rewrite app_assoc).
    rewrite E in *. rewrite !length_app in Hf.
    destruct ds as [|c ds]; [done|]. destruct fuel as [|fuel]; [cbn in Hf; lia|]. cbn [app parse_components].
    change (c :: ds ++ u ++ components_text xs) with ((c :: ds) ++ u ++ components_text xs).
    rewrite (parse_component_ok (c :: ds) u n) by first [done|by apply components_no_unit|lia].
    rewrite u64_small by lia. destruct (2 ^ 63 <? d + decimal (c :: ds) * n) eqn:El; [apply Z.ltb_lt in El; lia|].
    rewrite IH; [f_equal; lia|lia|cbn in Hf; lia|lia].
Qed.

(** Durations are what they say: a sequence of decimal numbers with units,
    with or without a sign, such as "1h30m", is read as the sum of the numbers times their
    units as long as it fits an int64. *)
Theorem ParseDuration_components (sign : string) (xs : list (chars * chars * Z))
  (Hsign : sign = ""%string \/ sign = "+"%string \/ sign = "-"%string) (Hne : xs <> [])
  (Hxs : Forall component_ok xs) (Hfits : components_total xs <= MaxInt64) :
  ParseDuration (sign ++ implode (components_text xs)) =
  Some (if bool_decide (sign = "-"%string) then - components_total xs else components_total xs).
Proof.
  set (l := components_text xs).
  assert (exists c c2 l2, l = c :: c2 :: l2 /\ is_digit c = true) as (c & c2 & l2 & El & Hc).
  { destruct Hxs as [|[[ds u] n] xs (Hd0 & Hd & Hu) _]; [done|]. cbn in Hd0, Hd, Hu.
    apply unit_chars in Hu as (Hu0 & _ & _). unfold l, components_text. rewrite bind_cons. cbn.
    destruct ds as [|c ds]; [done|]. apply Forall_cons in Hd as [Hc _].
    destruct (ds ++ u) as [|c2 l2] eqn:E; [by apply app_nil in E as [_ ?]|]. cbn. rewrite E. cbn. by exists c, c2, (l2 ++ (xs ≫= (fun x => x.1.1 ++ x.1.2))). }
  pose proof (parse_components_ok xs (length l) 0 Hxs ltac:(lia) ltac:(done)) as Hp. unfold MaxInt64 in Hfits.
  specialize (Hp ltac:(lia)). fold l in Hp. rewrite Z.add_0_l in Hp.
  assert ((Ascii.eqb c "-" || Ascii.eqb c "+") = false) as Hns.
  { destruct (Ascii.eqb_spec c "-") as [->|]; [done|]. by destruct (Ascii.eqb_spec c "+") as [->|]. }
  assert (forall neg, (if bool_decide (l = ["0"]%char) then Some 0
    else match l with
         | [] => None
         | _ => match parse_components (length l) 0 l with
                | None => None
                | Some d => if neg : bool then Some (- d) else if 2 ^ 63 - 1 <? d then None else Some d
                end
         end) = Some (if neg then - components_total xs else components_total xs)) as Htail.
  { intros neg. rewrite bool_decide_false by (by rewrite El). rewrite El at 1. rewrite Hp.
    destruct neg; [done|]. destruct (2 ^ 63 - 1 <? components_total xs) eqn:E; [apply Z.ltb_lt in E; lia|done]. }
  unfold ParseDuration. rewrite explode_app, explode_implode. fold l.
  destruct Hsign as [->|[->| ->]]; cbn [explode String.list_ascii_of_string app].
  - rewrite El at 1. rewrite Hns. apply (Htail false).
  - apply (Htail false).
  - apply (Htail true).
Qed.

(** Whatever the text, the duration is an int64. *)
Theorem ParseDuration_range (s : string) (d : Z) (Hparse : ParseDuration s = Some d) : MinInt64 <= d <= MaxInt64.
Proof.
  assert (forall fuel x l r, 0 <= x <= 2 ^ 63 -> parse_components fuel x l = Some r -> 0 <= r <= 2 ^ 63) as Hc.
  { induction fuel as [|fuel IH]; intros x l r Hx; destruct l as [|c l]; cbn [parse_components]; try done; try (by intros [= <-]).
    destruct (parse_component (c :: l)) as [[v l']|]; [|done]. destruct (2 ^ 63 <? u64 (x + v)) eqn:E; [done|].
    apply IH. apply Z.ltb_ge in E. pose proof (u64_range (x + v)). lia. }
  unfold ParseDuration in Hparse. unfold MinInt64, MaxInt64.
  destruct (match explode s with [] => _ | _ => _ end) as [neg l].
  case_bool_decide; [injection Hparse as <-; lia|]. destruct l as [|c l]; [done|].
  destruct (parse_components _ 0 _) as [r|] eqn:E; [|done]. apply Hc in E; [|lia].
  destruct neg; [injection Hparse as <-; lia|]. destruct (2 ^ 63 - 1 <? r) eqn:El; [done|]. injection Hparse as <-.
  apply Z.ltb_ge in El. lia.
Qed.

(** ** Witnesses *)

Lemma ParseDuration_components_witness : ParseDuration "-1h30m" = Some (-5400000000000).
Proof.
  apply (ParseDuration_components "-" [(["1"]%char, ["h"]%char, 3600000000000); (["3"; "0"]%char, ["m"]%char, 60000000000)]).
  - right. right. reflexivity.
  - discriminate.
  - repeat constructor; discriminate.
  - vm_compute. discriminate.
Defined.

Lemma ParseDuration_range_witness : MinInt64 <= 1500000 <= MaxInt64.
Proof. apply (ParseDuration_range "1.5ms" 1500000). vm_compute. reflexivity. Defined.
