(* ===== verification/Logging.v ===== *)
(** * Logging: loggers and the capture of their records

    Models [internal/logging].  The global state is the default logger, the level
    variable, the output of the standard [log] package and what has been written to
    standard error.  A logger is its handler; the handlers of [log/slog] are [HStd]
    and, before the first [SetDefault], [HDefault], with the attributes and groups
    collected by [WithAttrs] and [WithGroup].  [HDefault] writes a text through the
    [log] package, and [slog.SetDefault] makes the [log] package write into the new
    default, unless that is [HDefault] itself. *)

From S2P Require Import Prelude Bytes Strs Text Config.
From Stdlib Require Import Ascii.

(** ** Records *)

(** [slog.Level]. *)
Definition level_value (l : Level) : Z :=
  match l with LevelDebug => -4 | LevelInfo => 0 | LevelWarn => 4 | LevelError => 8 end.

(** A key and its value as text. *)
Definition Attr : Type := string * string.

Record LogRecord := mkRecord { r_Level : Z; r_Message : string; r_Attrs : list Attr }.

(** ** Handlers *)

(** What [With] and [WithGroup] have added to a handler. *)
Inductive context_op := WithAttrs_op (attrs : list Attr) | WithGroup_op (name : string).

(** A handler that can be the default; [capture] is a pointer. *)
Inductive BaseHandler :=
| HStd (json : bool) (ops : list context_op)
| HDefault (ops : list context_op)
| HCapture (capture : nat) (attrs : list Attr) (group : string).

Inductive Handler :=
| HBase (h : BaseHandler)
| HDynamic (component : string).

Record Capture := mkCapture { c_records : list LogRecord; c_prev : BaseHandler; c_prevLevel : Z }.

(** What is written to standard error: a record by a handler, or a line by the
    [log] package. *)
Inductive Output :=
| OutRecord (json : bool) (ops : list context_op) (r : LogRecord)
| OutLine (line : string).

Record Log := mkLog {
  l_default : BaseHandler;
  l_logger : option BaseHandler;   (* where the log package writes; None: standard error *)
  l_level : Z;
  l_captures : gmap nat Capture;
  l_out : list Output
}.

(** [slog.SetDefault]. *)
Definition SetDefault (g : Log) (h : BaseHandler) : Log :=
  mkLog h (match h with HDefault _ => l_logger g | _ => Some h end) (l_level g) (l_captures g) (l_out g).

(** [SetLevel]. *)
Definition SetLevel (g : Log) (l : Z) : Log := mkLog (l_default g) (l_logger g) l (l_captures g) (l_out g).

Definition add_out (g : Log) (o : Output) : Log :=
  mkLog (l_default g) (l_logger g) (l_level g) (l_captures g) (l_out g ++ [o]).
Definition set_captures (g : Log) (m : gmap nat Capture) : Log :=
  mkLog (l_default g) (l_logger g) (l_level g) m (l_out g).

(** The text slog's initial handler makes of a record; theorems hold for any. *)
Class LogText := log_text : list context_op -> LogRecord -> string.

(** ** [Init] *)

(** [strings.EqualFold] with an ASCII string: besides the two cases of a
    letter, the long s folds to "s" and the Kelvin sign to "k". *)
Fixpoint fold_eq (l t : chars) {struct t} : bool :=
  match t with
  | [] => match l with [] => true | _ => false end
  | c :: t' =>
      match l with
      | [] => false
      | b :: l' =>
          if Ascii.eqb (lower_byte b) (lower_byte c) then fold_eq l' t'
          else if Ascii.eqb (lower_byte c) "s"%char && is_prefix [197; 191]%N l then fold_eq (drop 2 l) t'
          else if Ascii.eqb (lower_byte c) "k"%char && is_prefix [226; 132; 170]%N l then fold_eq (drop 3 l) t'
          else false
      end
  end.

Definition EqualFold (s t : string) : bool := fold_eq (explode s) (explode t).

Definition Init (g : Log) (levelStr format : string) : Log :=
  SetDefault (SetLevel g (level_value (parseLevel levelStr))) (HStd (EqualFold format "json") []).

(** [For]: the handler of a component's logger. *)
Definition For (component : string) : Handler := HDynamic component.

(** ** The methods of the handlers *)

Definition base_Enabled (g : Log) (h : BaseHandler) (l : Z) : bool :=
  match h with
  | HStd _ _ => l_level g <=? l
  | HDefault _ => level_value LevelInfo <=? l
  | HCapture _ _ _ => true
  end.

Definition Enabled (g : Log) (h : Handler) (l : Z) : bool :=
  match h with HBase b => base_Enabled g b l | HDynamic _ => base_Enabled g (l_default g) l end.

Section Handlers.
Context `{LogText}.

Definition capture_Handle (g : Log) (c : nat) (r : LogRecord) : Log :=
  match l_captures g !! c with
  | None => g
  | Some cap => set_captures g (<[c := mkCapture (c_records cap ++ [r]) (c_prev cap) (c_prevLevel cap)]> (l_captures g))
  end.

(** The [log] package writes a line; into a handler it goes as a record of level
    info.  [SetDefault] never makes [HDefault] that handler. *)
Definition log_write (g : Log) (line : string) : Log :=
  match l_logger g with
  | None | Some (HDefault _) => add_out g (OutLine line)
  | Some h =>
      let r := mkRecord (level_value LevelInfo) line [] in
      if negb (base_Enabled g h (level_value LevelInfo)) then g
      else match h with HStd json ops => add_out g (OutRecord json ops r) | HCapture c _ _ => capture_Handle g c r | HDefault _ => g end
  end.

Definition base_Handle (g : Log) (h : BaseHandler) (r : LogRecord) : Log :=
  match h with
  | HStd json ops => add_out g (OutRecord json ops r)
  | HDefault ops => log_write g (log_text ops r)
  | HCapture c _ _ => capture_Handle g c r
  end.

Definition Handle (g : Log) (h : Handler) (r : LogRecord) : Log :=
  match h with
  | HBase b => base_Handle g b r
  | HDynamic component =>
      base_Handle g (l_default g) (mkRecord (r_Level r) (r_Message r) (r_Attrs r ++ [("component"%string, component)]))
  end.

Definition WithAttrs (h : Handler) (attrs : list Attr) : Handler :=
  match h with
  | HBase (HStd json ops) => HBase (HStd json (ops ++ [WithAttrs_op attrs]))
  | HBase (HDefault ops) => HBase (HDefault (ops ++ [WithAttrs_op attrs]))
  | HBase (HCapture c attrs0 group) => HBase (HCapture c (attrs0 ++ attrs) group)
  | HDynamic _ => h
  end.

Definition WithGroup (h : Handler) (name : string) : Handler :=
  match h with
  | HBase (HStd json ops) => HBase (HStd json (ops ++ [WithGroup_op name]))
  | HBase (HDefault ops) => HBase (HDefault (ops ++ [WithGroup_op name]))
  | HBase (HCapture c attrs _) => HBase (HCapture c attrs name)
  | HDynamic _ => h
  end.

(** A call of [Debug], [Info], [Warn] or [Error] on a logger. *)
Definition Log_call (g : Log) (h : Handler) (l : Z) (msg : string) (attrs : list Attr) : Log :=
  if Enabled g h l then Handle g h (mkRecord l msg attrs) else g.
End Handlers.

(** ** Capture *)

(** [CaptureForTest]; [c] is the fresh pointer. *)
Definition CaptureForTest (g : Log) (c : nat) : Log :=
  let cap := mkCapture [] (l_default g) (l_level g) in
  SetLevel (SetDefault (set_captures g (<[c := cap]> (l_captures g))) (HCapture c [] ""))
    (level_value LevelDebug).

Definition Capture_Restore (g : Log) (c : nat) : Log :=
  match l_captures g !! c with None => g | Some cap => SetLevel (SetDefault g (c_prev cap)) (c_prevLevel cap) end.

(** [Records] copies. *)
Definition Capture_Records (cap : Capture) : list LogRecord := c_records cap.

(** [strings.Contains]. *)
Fixpoint Contains (s sub : string) : bool :=
  HasPrefix s sub || match s with EmptyString => false | String _ s' => Contains s' sub end.

Definition Capture_Has (cap : Capture) (l : Z) (msgSubstring : string) : bool :=
  existsb (fun r => (r_Level r =? l) && Contains (r_Message r) msgSubstring) (c_records cap).

Definition Capture_Count (cap : Capture) (l : Z) : nat := length (filter (fun r => r_Level r = l) (c_records cap)).
