(* ===== verification/LoggingProps.v ===== *)
(** * LoggingProps: what loggers write and what a capture sees

    The records of a capture over any calls and level changes, and what [Restore] brings
    back: the default and the level, but not the output of the [log] package. *)

From S2P Require Import Prelude Bytes Strs Text Config Logging.
From Stdlib Require Import Ascii.

(** The records of the calls of a capture's time, as the loggers make them. *)
Record log_call := mkLogCall { lc_logger : Handler; lc_level : Z; lc_msg : string; lc_attrs : list Attr }.

Definition call_record (lc : log_call) : LogRecord :=
  mkRecord (lc_level lc) (lc_msg lc)
    (lc_attrs lc ++ match lc_logger lc with HDynamic component => [("component"%string, component)] | HBase _ => [] end).

(** The loggers that a capture [c] sees: those of [For], also after [With] and
    [WithGroup], and those made from the default while the capture is installed. *)
Definition seen_by (c : nat) (h : Handler) : Prop :=
  match h with HDynamic _ => True | HBase (HCapture c' _ _) => c' = c | HBase _ => False end.

Lemma With_seen c h attrs name : seen_by c h -> seen_by c (WithAttrs h attrs) /\ seen_by c (WithGroup h name).
Proof. by destruct h as [[]|]. Qed.

Section Runs.
Context `{LogText}.

Inductive log_event :=
| LCall (lc : log_call)
| LSetLevel (l : Z).

Definition log_step (g : Log) (e : log_event) : Log :=
  match e with
  | LCall lc => Log_call g (lc_logger lc) (lc_level lc) (lc_msg lc) (lc_attrs lc)
  | LSetLevel l => SetLevel g l
  end.

Definition log_run (g : Log) (es : list log_event) : Log := foldl log_step g es.

Definition calls (es : list log_event) : list log_call := omap (fun e => match e with LCall lc => Some lc | _ => None end) es.

(** While [c] is installed the log is that of its installation, except for
    the records of [c] and the level. *)
Lemma capture_call g c cap lc a gr :
  l_default g = HCapture c a gr -> l_captures g !! c = Some cap -> seen_by c (lc_logger lc) ->
  log_step g (LCall lc) =
  set_captures g (<[c := mkCapture (c_records cap ++ [call_record lc]) (c_prev cap) (c_prevLevel cap)]> (l_captures g)).
Proof.
  intros Hd Hc Hs. destruct lc as [h l msg attrs]. cbn in *. unfold Log_call.
  destruct h as [[| |c' attrs' gr']|comp]; cbn in Hs; [done|done|..].
  - subst c'. cbn. unfold capture_Handle. rewrite Hc. unfold call_record. cbn. by rewrite app_nil_r.
  - cbn. rewrite Hd. cbn. unfold capture_Handle. by rewrite Hc.
Qed.

Lemma capture_run es g c cap a gr :
  l_default g = HCapture c a gr -> l_captures g !! c = Some cap ->
  Forall (fun lc => seen_by c (lc_logger lc)) (calls es) ->
  l_captures (log_run g es) !! c =
    Some (mkCapture (c_records cap ++ (call_record <$> calls es)) (c_prev cap) (c_prevLevel cap)) /\
  l_out (log_run g es) = l_out g /\ l_logger (log_run g es) = l_logger g /\
  (forall d, d <> c -> l_captures (log_run g es) !! d = l_captures g !! d).
Proof.
  revert g cap. induction es as [|[lc|l] es IH]; intros g cap Hd Hc Hs; cbn [log_run foldl].
  - cbn. rewrite app_nil_r. by destruct cap.
  - cbn [calls omap list_omap] in Hs. apply Forall_cons in Hs as [Hlc Hs].
    rewrite (capture_call g c cap lc a gr) by done.
    set (g1 := set_captures g _).
    destruct (IH g1 (mkCapture (c_records cap ++ [call_record lc]) (c_prev cap) (c_prevLevel cap))) as (E & Eo & El & Ed);
      [done|cbn; by rewrite lookup_insert_eq|done|].
    fold (log_run g1 es).
    split_and!; [|done|done|].
    + rewrite E. cbn [c_records c_prev c_prevLevel calls omap list_omap fmap list_fmap]. by rewrite <- app_assoc.
    + intros d Hdc. rewrite Ed by done. cbn. by rewrite lookup_insert_ne.
  - cbn [calls omap list_omap] in Hs. by apply (IH (SetLevel g l) cap).
Qed.

Lemma HasPrefix_iff s p : HasPrefix s p = true <-> exists q, s = (p ++ q)%string.
Proof.
  unfold HasPrefix. revert s. induction p as [|x p IH]; intros s; cbn [String.prefix].
  - split; [by exists s|]. intros _. by destruct s.
  - destruct s as [|y s]; [split; [by intros ?|by intros [q ?]]|].
    change (String.prefix (String x p) (String y s)) with (if Ascii.ascii_dec x y then String.prefix p s else false).
    destruct (Ascii.ascii_dec x y) as [->|Hne].
    + destruct (IH s) as [I1 I2]. split.
      * intros Hp. destruct (I1 Hp) as [q ->]. by exists q.
      * intros [q [= ->]]. apply I2. by exists q.
    + split; [done|]. intros [q [= ? _]]. congruence.
Qed.

Lemma Contains_iff s sub : Contains s sub = true <-> exists s1 s2, s = (s1 ++ sub ++ s2)%string.
Proof.
  induction s as [|x s IH]; cbn [Contains]; rewrite orb_true_iff.
  - split.
    + intros [Hp|?]; [|done]. apply HasPrefix_iff in Hp as [s2 Hs]. by exists ""%string, s2.
    + intros (s1 & s2 & E). left. destruct s1; [|done]. destruct sub; [done|done].
  - rewrite IH. split.
    + intros [Hp|(s1 & s2 & ->)]; [|by exists (String x s1), s2]. apply HasPrefix_iff in Hp as [s2 Hs]. by exists ""%string, s2.
    + intros ([|y s1] & s2 & E); [left|right].
      * cbn in E. rewrite E. apply HasPrefix_iff. by exists s2.
      * injection E as -> ->. by exists s1, s2.
Qed.

Lemma count_records l lcs :
  length (filter (fun r => r_Level r = l) (call_record <$> lcs)) = length (filter (fun lc => lc_level lc = l) lcs).
Proof.
  induction lcs as [|lc lcs IH]; [done|]. rewrite fmap_cons, !filter_cons.
  change (r_Level (call_record lc)) with (lc_level lc).
  destruct (decide (lc_level lc = l)); cbn [length]; [f_equal|]; exact IH.
Qed.

(** C24. A capture sees every record and is removed again. From its installation
    on, whatever is logged at whatever level through the loggers of components,
    the default logger and those derived from it, and however the level is set,
    the capture holds exactly these records, in order, those of a component
    tagged with its name after their own attributes, and nothing is written;
    [Has] and [Count] are membership and number; and [Restore] brings back the logger and the
    level of before. The standard [log] package writes into the restored logger, except when
    that is slog's initial one: then it goes on writing into the capture. *)
Theorem capture_complete (g : Log) (c : nat) (es : list log_event)
  (Hfresh : l_captures g !! c = None)
  (Hcalls : Forall (fun lc => seen_by c (lc_logger lc)) (calls es)) :
  exists cap, l_captures (log_run (CaptureForTest g c) es) !! c = Some cap /\
    Capture_Records cap = call_record <$> calls es /\
    (forall l sub, Capture_Has cap l sub = true <->
       exists lc s1 s2, lc ∈ calls es /\ lc_level lc = l /\ lc_msg lc = (s1 ++ sub ++ s2)%string) /\
    (forall l, Capture_Count cap l = length (filter (fun lc => lc_level lc = l) (calls es))) /\
    let g' := Capture_Restore (log_run (CaptureForTest g c) es) c in
    l_default g' = l_default g /\ l_level g' = l_level g /\ l_out g' = l_out g /\
    l_logger g' = Some (match l_default g with HDefault _ => HCapture c [] "" | h => h end).
Proof.
  destruct (capture_run es (CaptureForTest g c) c (mkCapture [] (l_default g) (l_level g)) [] "") as (E & Eo & El & Ed);
    [done|cbn; by rewrite lookup_insert_eq|done|].
  rewrite E. eexists. split; [done|]. cbn [app c_records c_prev c_prevLevel Capture_Records]. split; [done|]. split_and!.
  - intros l sub. unfold Capture_Has. cbn [c_records app]. rewrite existsb_exists. split.
    + intros (r & Hin & Hr). apply list_elem_of_In, list_elem_of_fmap in Hin as (lc & -> & Hin). reflect_bools. cbn in *.
      match goal with Hc : Contains _ _ = true |- _ => apply Contains_iff in Hc as (s1 & s2 & Es) end. by exists lc, s1, s2.
    + intros (lc & s1 & s2 & Hin & <- & Es). exists (call_record lc). split.
      * apply list_elem_of_In, list_elem_of_fmap. by exists lc.
      * apply andb_true_iff. cbn. split; [lia|]. apply Contains_iff. by exists s1, s2.
  - intros l. unfold Capture_Count. cbn [c_records app]. apply count_records.
  - unfold Capture_Restore. rewrite E. done.
  - unfold Capture_Restore. rewrite E. done.
  - unfold Capture_Restore. rewrite E. exact Eo.
  - unfold Capture_Restore. rewrite E. cbn. destruct (l_default g); [done|by rewrite El|done].
Qed.
End Runs.

(** ** After [Init] *)

(** What [Init] sets up: a component's call is written exactly when its
    level is at least the configured one, in the configured format, tagged with the component. *)
Theorem Init_call `{LogText} (g : Log) (levelStr format component : string) (l : Z) (msg : string) (attrs : list Attr) :
  let g1 := Init g levelStr format in
  l_out (Log_call g1 (For component) l msg attrs) =
  l_out g ++
  (if level_value (parseLevel levelStr) <=? l
   then [OutRecord (EqualFold format "json") [] (mkRecord l msg (attrs ++ [("component"%string, component)]))] else []).
Proof. unfold Log_call, Init. cbn. destruct (_ <=? l); [done|]. cbn. by rewrite app_nil_r. Qed.

Example EqualFold_long_s :
  EqualFold "JSON" "json" = true /\ EqualFold (implode ["106"; "197"; "191"; "111"; "110"]%char) "json" = true /\
  EqualFold "jsons" "json" = false /\ EqualFold "text" "json" = false.
Proof. repeat split; vm_compute; reflexivity. Qed.

(** ** Examples *)

#[local] Instance ex_log_text : LogText := fun _ r => ("INFO " ++ r_Message r)%string.

(** A capture that is installed before any [Init]: after [Restore] slog's initial
    handler is the default again, but it writes through the [log] package, whose
    output is still the capture. *)
Example Restore_redirected :
  let g := mkLog (HDefault []) None 0 ∅ [] in
  let g1 := Log_call (Capture_Restore (CaptureForTest g 3) 3) (For "ssh") 0 "client connected" [] in
  (l_default g1, l_out g1, c_records <$> l_captures g1 !! 3%nat, l_out (Log_call g (For "ssh") 0 "client connected" [])) =
  (HDefault [], [], Some [mkRecord 0 "INFO client connected" []], [OutLine "INFO client connected"]).
Proof. vm_compute. reflexivity. Qed.

(** ** Witness *)

Definition ex_log0 : Log := mkLog (HStd true []) (Some (HStd true [])) 4 ∅ [].
Definition ex_log_events : list log_event :=
  [LCall (mkLogCall (For "gossip") (-4) "seen twice" [("id", "7")]%string); LSetLevel 8;
   LCall (mkLogCall (WithAttrs (HBase (HCapture 3 [] "")) [("k", "v")]%string) 0 "hello" [])].

Lemma capture_complete_witness :
  exists cap, Capture_Count cap 0 = 1%nat /\ Capture_Has cap (-4) "twice" = true /\
    Capture_Records cap = [mkRecord (-4) "seen twice" [("id", "7"); ("component", "gossip")]; mkRecord 0 "hello" []]%string.
Proof.
  destruct (capture_complete ex_log0 3 ex_log_events) as (cap & _ & Hr & Hh & Hc & _).
  - reflexivity.
  - by repeat constructor.
  - exists cap. split; [exact (Hc 0)|]. split; [|exact Hr]. apply Hh.
    exists (mkLogCall (For "gossip") (-4) "seen twice" [("id", "7")]%string), "seen "%string, ""%string.
    split; [left|by split].
Defined.
