(* ===== verification/DiscoveryProps.v ===== *)
(** * DiscoveryProps: the properties of peer discovery

    Merging is last-writer-wins: monotone, idempotent and independent of the
    order of arrival; the table binds node identifiers to keys; dials respect
    the limits and the backoff; records survive exchange and restart. *)

From S2P Require Import Prelude Bytes Messages Concrete KeyRing Gossip GossipProps Stream Frame Noise Strs Identity Peer.
From S2P Require Import Partyline Store Config Manager Discovery.

(** ** Merging *)

Section Merge.
Implicit Types (k : gmap string PeerRecord) (v r : PeerRecord) (vs : list PeerRecord).

(** Accepted entries carry no failures of their own. *)
Definition fresh_record v : Prop := rec_FailCount v = 0 /\ rec_LastFail v = 0.

(** The record a merge of [v] leaves at its identifier. *)
Definition merged k v : PeerRecord :=
  match k !! rec_NodeID v with
  | Some e =>
      if rec_LastSeen e <? rec_LastSeen v then
        mkPeerRecord (rec_NodeID e) (rec_Addr v) (rec_Reachable v) (rec_PublicKey v) (rec_LastSeen v)
          (rec_FailCount e) (rec_LastFail e)
      else e
  | None => v
  end.

Lemma merge_one_map k v : (merge_one k v).1 = <[rec_NodeID v := merged k v]> k.
Proof.
  unfold merge_one, merged. destruct (k !! rec_NodeID v) as [e|] eqn:E; [|done].
  destruct (_ <? _); cbn; [done|]. by rewrite insert_id.
Qed.

Lemma merge_one_lookup k v id :
  (merge_one k v).1 !! id = if decide (id = rec_NodeID v) then Some (merged k v) else k !! id.
Proof.
  rewrite merge_one_map. destruct (decide (id = rec_NodeID v)) as [->|]; [by rewrite lookup_insert_eq|].
  by rewrite lookup_insert_ne.
Qed.

Lemma merge_all_cons k v vs : (merge_all k (v :: vs)).1 = (merge_all (merge_one k v).1 vs).1.
Proof. cbn. destruct (merge_one k v) as [k1 ps]. cbn. by destruct (merge_all k1 vs). Qed.

Lemma merged_LastSeen k v : rec_LastSeen v <= rec_LastSeen (merged k v).
Proof. unfold merged. destruct (k !! rec_NodeID v); [|lia]. destruct (Z.ltb_spec (rec_LastSeen p) (rec_LastSeen v)); cbn; lia. Qed.

(** No merge removes a record or makes one older. *)
Lemma merge_one_mono k v id r :
  k !! id = Some r -> exists r', (merge_one k v).1 !! id = Some r' /\ rec_LastSeen r <= rec_LastSeen r'.
Proof.
  intros Hr. rewrite merge_one_lookup. destruct (decide _) as [->|]; [|by exists r].
  exists (merged k v). split; [done|]. unfold merged. rewrite Hr.
  destruct (Z.ltb_spec (rec_LastSeen r) (rec_LastSeen v)); cbn; lia.
Qed.

Lemma merge_all_mono k vs id r :
  k !! id = Some r -> exists r', (merge_all k vs).1 !! id = Some r' /\ rec_LastSeen r <= rec_LastSeen r'.
Proof.
  revert k r. induction vs as [|v vs IH]; intros k r Hr; [by exists r|].
  rewrite merge_all_cons. destruct (merge_one_mono k v id r Hr) as (r1 & Hr1 & Hle).
  destruct (IH _ _ Hr1) as (r2 & Hr2 & Hle2). exists r2. split; [done|lia].
Qed.

(** What has been merged is at least as recent as every entry. *)
Lemma merge_all_covers k vs v :
  v ∈ vs -> exists r, (merge_all k vs).1 !! rec_NodeID v = Some r /\ rec_LastSeen v <= rec_LastSeen r.
Proof.
  revert k. induction vs as [|u vs IH]; intros k Hin; [by apply elem_of_nil in Hin|].
  rewrite merge_all_cons. apply elem_of_cons in Hin as [->|Hin]; [|by apply IH].
  destruct (merge_all_mono (merge_one k u).1 vs (rec_NodeID u) (merged k u)) as (r & Hr & Hle).
  { by rewrite merge_one_lookup, decide_True. }
  exists r. split; [done|]. pose proof (merged_LastSeen k u). lia.
Qed.

(** Entries that are not newer than the table change nothing and are not
    persisted. *)
Lemma merge_all_stale k vs :
  (forall v, v ∈ vs -> exists r, k !! rec_NodeID v = Some r /\ rec_LastSeen v <= rec_LastSeen r) ->
  merge_all k vs = (k, []).
Proof.
  induction vs as [|v vs IH]; intros Hst; [done|]. cbn. unfold merge_one.
  destruct (Hst v) as (r & -> & Hle); [left|]. destruct (Z.ltb_spec (rec_LastSeen r) (rec_LastSeen v)); [lia|].
  rewrite IH; [done|]. intros u Hu. apply Hst. by right.
Qed.

Lemma merge_all_idempotent k vs : merge_all (merge_all k vs).1 vs = ((merge_all k vs).1, []).
Proof. apply merge_all_stale. intros v Hv. by apply merge_all_covers. Qed.

(** Two entries about different nodes, or with different times, commute. *)
Lemma merge_one_comm k a b :
  fresh_record a -> fresh_record b ->
  (rec_NodeID a, rec_LastSeen a) <> (rec_NodeID b, rec_LastSeen b) ->
  (merge_one (merge_one k a).1 b).1 = (merge_one (merge_one k b).1 a).1.
Proof.
  intros [Fa1 Fa2] [Fb1 Fb2] Hne. apply map_eq. intros id. rewrite !merge_one_lookup.
  destruct (decide (rec_NodeID a = rec_NodeID b)) as [Hid|Hid].
  - destruct (decide (id = rec_NodeID b)) as [->|Hib].
    2:{ rewrite !(decide_False (P := id = rec_NodeID a)) by congruence. done. }
    rewrite decide_True by done. f_equal. unfold merged. rewrite !merge_one_lookup.
    rewrite !decide_True by done. unfold merged. rewrite !Hid.
    destruct a as [ia aa ra ka la fa ta], b as [ib ab rb kb lb fb tb]. cbn in *. subst.
    assert (la <> lb) by congruence. destruct (k !! ib) as [[ie ae re ke le fe te]|]; cbn.
    + destruct (Z.ltb_spec le la), (Z.ltb_spec le lb); cbn;
        repeat match goal with |- context [?x <? ?y] => destruct (Z.ltb_spec x y); cbn end; try done; lia.
    + destruct (Z.ltb_spec la lb), (Z.ltb_spec lb la); try done; lia.
  - destruct (decide (id = rec_NodeID a)) as [->|Ha].
    + rewrite decide_False by congruence. f_equal. unfold merged. rewrite merge_one_lookup.
      by rewrite decide_False by congruence.
    + destruct (decide (id = rec_NodeID b)) as [->|Hb]; [|done].
      f_equal. unfold merged. rewrite merge_one_lookup. by rewrite decide_False by congruence.
Qed.

Definition merge_key v : string * Z := (rec_NodeID v, rec_LastSeen v).

Lemma merge_all_perm k vs vs' :
  Permutation vs vs' -> Forall fresh_record vs -> NoDup (merge_key <$> vs) ->
  (merge_all k vs).1 = (merge_all k vs').1.
Proof.
  intros Hp. revert k. induction Hp as [|v vs vs' Hp IH|a b vs|vs1 vs2 vs3 H1 IH1 H2 IH2]; intros k Hf Hnd.
  - done.
  - rewrite !merge_all_cons. apply Forall_cons in Hf as [_ Hf]. cbn [fmap list_fmap] in Hnd.
    apply NoDup_cons in Hnd as [_ Hnd]. by apply IH.
  - rewrite !merge_all_cons. apply Forall_cons in Hf as [Hb Hf]. apply Forall_cons in Hf as [Ha _].
    cbn [fmap list_fmap] in Hnd. apply NoDup_cons in Hnd as [Hnb _]. apply not_elem_of_cons in Hnb as [Hne _].
    by rewrite (merge_one_comm k b a Hb Ha Hne).
  - rewrite IH1 by done. apply IH2; [by rewrite <- H1|by rewrite <- H1].
Qed.
End Merge.

(** ** Invariants of the tables *)

Section Tables.
Context `{Crypto} `{Proto} `{KeyLib} `{NoiseXX} {C : Type} `{Conn C} {S : Type} `{Store S} `{RecordCodec}.

Abbreviation N := (noiseConn C).
Abbreviation Mgr := (Manager N S).
Implicit Types (m : Mgr) (rec : PeerRecord).

(** Saving touches only the store and the goroutines that save. *)
Definition only_store m m' : Prop := m' = upd_savers (upd_store m (m_store m')) (m_savers m').

Lemma only_store_refl m : only_store m m.
Proof. by destruct m. Qed.

Lemma only_store_trans m1 m2 m3 : only_store m1 m2 -> only_store m2 m3 -> only_store m1 m3.
Proof. unfold only_store. intros E1 E2. rewrite E2, E1. done. Qed.

Lemma saveKnownPeer_only_store m rec : only_store m (saveKnownPeer m rec).
Proof.
  unfold saveKnownPeer. destruct (m_store m); [|apply only_store_refl].
  destruct (Marshal rec); [done|apply only_store_refl].
Qed.

Lemma saveKnownPeer_savers m rec : m_savers (saveKnownPeer m rec) = m_savers m.
Proof. unfold saveKnownPeer. destruct (m_store m); [|done]. by destruct (Marshal rec). Qed.

Lemma start_saving_only_store m recs release : only_store m (start_saving m recs release).
Proof. done. Qed.

Lemma merge_known m infos :
  m_knownPeers (mergeDiscoveredPeers m infos) =
  (merge_all (m_knownPeers m) (omap (valid_info (NodeID (m_id m))) infos)).1.
Proof.
  unfold mergeDiscoveredPeers. cbn. by destruct (merge_all _ _) as [k [|r ps]].
Qed.

Lemma merge_rest m infos :
  let m' := mergeDiscoveredPeers m infos in
  m_world m' = m_world m /\ m_id m' = m_id m /\ m_cfg m' = m_cfg m /\ m_dialing m' = m_dialing m /\
  eKeyRing (m_gossip m') = foldl (fun kr i => learn_key kr (NodeID (m_id m)) i) (eKeyRing (m_gossip m)) infos.
Proof.
  cbn. unfold mergeDiscoveredPeers. cbn. by destruct (merge_all _ _) as [k [|r ps]].
Qed.

(** The key a record carries, if any, is the one its identifier is the hash
    of. *)
Definition record_ok rec : Prop :=
  rec_PublicKey rec <> ""%string ->
  exists pub, hex_decode (rec_PublicKey rec) = Some pub /\ len pub = PublicKeySize /\ node_id pub = rec_NodeID rec.

Definition known_ok (k : gmap string PeerRecord) : Prop :=
  forall id r, k !! id = Some r -> rec_NodeID r = id /\ record_ok r.

Lemma known_ok_insert k r : known_ok k -> record_ok r -> known_ok (<[rec_NodeID r := r]> k).
Proof. intros Hk Hr id r'. rewrite lookup_insert_Some. intros [[<- <-]|[_ E]]; [done|by apply Hk]. Qed.

Lemma valid_info_ok self info v :
  valid_info self info = Some v ->
  rec_NodeID v = info_NodeId info /\ info_NodeId info <> self /\ record_ok v /\ fresh_record v /\
  isInvalidPeerAddr (rec_Addr v) = false /\ rec_Reachable v = true /\
  info_NodeId info = node_id (info_Ed25519Pubkey info) /\ len (info_Ed25519Pubkey info) = PublicKeySize.
Proof.
  unfold valid_info. case_bool_decide; [done|].
  destruct (info_Reachable info) eqn:Hr; [|done]. cbn [negb orb].
  case_bool_decide; [done|]. cbn [orb].
  destruct (isInvalidPeerAddr (info_Addr info)) eqn:Hi; [done|].
  destruct (Z.eqb_spec (len (info_Ed25519Pubkey info)) PublicKeySize) as [Hl|]; [|done]. cbn [negb].
  case_bool_decide as Hid; [|done]. cbn [negb]. intros [= <-]. cbn. split_and!; try done.
  intros _. cbn. exists (info_Ed25519Pubkey info). by rewrite hex_decode_encode.
Qed.

Lemma merged_ok k v : known_ok k -> record_ok v -> rec_NodeID (merged k v) = rec_NodeID v /\ record_ok (merged k v).
Proof.
  intros Hk Hv. unfold merged. destruct (k !! rec_NodeID v) as [e|] eqn:E; [|done].
  apply Hk in E as [Hid He]. destruct (_ <? _); [|done]. cbn. split; [done|].
  unfold record_ok in *. cbn. by rewrite Hid.
Qed.

Lemma merge_all_ok k vs : known_ok k -> Forall record_ok vs -> known_ok (merge_all k vs).1.
Proof.
  intros Hk Hvs. revert k Hk. induction Hvs as [|v vs Hv Hvs IH]; intros k Hk; [done|].
  rewrite merge_all_cons. apply IH. rewrite merge_one_map. destruct (merged_ok k v Hk Hv) as [Hid Hr].
  rewrite <- Hid. by apply known_ok_insert.
Qed.

Lemma valid_infos_ok self infos : Forall record_ok (omap (valid_info self) infos).
Proof.
  apply Forall_forall. intros v (info & _ & Hv)%list_elem_of_omap. by apply valid_info_ok in Hv as (_ & _ & ? & _).
Qed.

Lemma valid_infos_fresh self infos : Forall fresh_record (omap (valid_info self) infos).
Proof.
  apply Forall_forall. intros v (info & _ & Hv)%list_elem_of_omap. by apply valid_info_ok in Hv as (_ & _ & _ & ? & _).
Qed.

Lemma learn_key_ok kr self info : ring_bound kr -> ring_bound (learn_key kr self info).
Proof.
  intros Hk. unfold learn_key. destruct (valid_info self info) eqn:Hv; [|done].
  apply valid_info_ok in Hv as (_ & _ & _ & _ & _ & _ & Hid & _). by apply KeyRing_Forall_Add.
Qed.

Lemma learn_keys_ok kr self infos : ring_bound kr -> ring_bound (foldl (fun kr i => learn_key kr self i) kr infos).
Proof. revert kr. induction infos as [|i infos IH]; intros kr Hk; [done|]. apply IH. by apply learn_key_ok. Qed.

Lemma load_record_ok v rec : load_record v = Some rec ->
  record_ok rec /\ rec_NodeID rec <> ""%string /\
  (rec_Addr rec = ""%string \/ isInvalidPeerAddr (rec_Addr rec) = false) /\ Unmarshal v = Some rec.
Proof.
  unfold load_record. destruct (Unmarshal v : option PeerRecord) as [r|]; [|done].
  case_bool_decide as Hn; [done|]. destruct (negb _ && isInvalidPeerAddr (rec_Addr r)) eqn:Ha; [done|].
  assert (rec_Addr r = ""%string \/ isInvalidPeerAddr (rec_Addr r) = false) as Haddr.
  { apply andb_false_iff in Ha as [Ha|Ha]; [|by right]. left. apply negb_false_iff in Ha.
    by apply bool_decide_eq_true in Ha. }
  clear Ha. case_bool_decide as Hk; cbn [negb].
  - intros [= <-]. split; [by intros []|]. split_and!; done.
  - destruct (hex_decode (rec_PublicKey r)) as [pub|] eqn:Hd; [|done].
    destruct (Z.eqb_spec (len pub) PublicKeySize); [|done]. cbn [negb]. case_bool_decide; [|done].
    intros [= <-]. split_and!; try done. intros _. eauto.
Qed.

Lemma load_known_ok m : known_ok (m_knownPeers m) -> known_ok (m_knownPeers (loadKnownPeers m)).
Proof.
  intros Hk. unfold loadKnownPeers. destruct (m_store m) as [st|]; [|done].
  destruct (st_Snapshot st peersBucket) as [snap|]; [|done]. cbn.
  assert (Forall record_ok (omap (fun e => load_record e.2) (map_to_list snap))) as Hv.
  { apply Forall_forall. intros r ([key v] & _ & Hr)%list_elem_of_omap. by apply load_record_ok in Hr as [? _]. }
  revert Hk. generalize (m_knownPeers m). induction Hv as [|r l Hr Hv IH]; intros k Hk; [done|].
  cbn. apply IH. by apply known_ok_insert.
Qed.

(** ** Sending what is known *)

Lemma merge_all_app k vs1 vs2 : (merge_all k (vs1 ++ vs2)).1 = (merge_all (merge_all k vs1).1 vs2).1.
Proof.
  revert k. induction vs1 as [|v vs1 IH]; intros k; [done|]. cbn [app]. by rewrite !merge_all_cons, IH.
Qed.

Lemma merge_all_other k vs id : id ∉ (rec_NodeID <$> vs) -> (merge_all k vs).1 !! id = k !! id.
Proof.
  revert k. induction vs as [|v vs IH]; intros k Hid; [done|].
  cbn [fmap list_fmap] in Hid. apply not_elem_of_cons in Hid as [Hv Hid].
  rewrite merge_all_cons, IH, merge_one_lookup by done. by rewrite decide_False.
Qed.

(** When no other entry is about the same node, the entry is merged into the
    table as if alone. *)
Lemma merge_all_unique k vs v :
  v ∈ vs -> NoDup (rec_NodeID <$> vs) -> (merge_all k vs).1 !! rec_NodeID v = Some (merged k v).
Proof.
  intros (l1 & l2 & ->)%list_elem_of_split Hnd. rewrite fmap_app in Hnd. apply NoDup_app in Hnd as (_ & Hd & Hnd).
  cbn [fmap list_fmap] in Hd, Hnd. apply NoDup_cons in Hnd as [Hv _].
  rewrite merge_all_app, merge_all_cons, merge_all_other, merge_one_lookup, decide_True by done.
  unfold merged. rewrite merge_all_other; [done|]. intros Hin. apply (Hd _ Hin). left.
Qed.

(** The record a known record becomes at a node [self] that receives it from
    [m]. *)
Definition offered m (self : string) rec : option PeerRecord :=
  if exchangeable m self rec then record_info rec ≫= valid_info self else None.

Lemma offered_list m self (recs : list PeerRecord) :
  omap (valid_info self) (omap record_info (filter (fun rec => exchangeable m self rec = true) recs)) =
  omap (offered m self) recs.
Proof.
  induction recs as [|r recs IH]; [done|]. rewrite filter_cons. unfold offered.
  destruct (exchangeable m self r) eqn:He.
  - rewrite decide_True by done. cbn. rewrite He. destruct (record_info r) as [i|]; cbn; [|apply IH].
    destruct (valid_info self i); cbn; [f_equal|]; apply IH.
  - rewrite decide_False by done. cbn. rewrite He. apply IH.
Qed.

Lemma record_info_id rec info : record_info rec = Some info -> info_NodeId info = rec_NodeID rec.
Proof.
  unfold record_info. case_bool_decide; [done|]. destruct (hex_decode _); [|done].
  destruct (negb _); [done|]. by intros [= <-].
Qed.

Lemma offered_id m self rec v : offered m self rec = Some v -> rec_NodeID v = rec_NodeID rec.
Proof.
  unfold offered. destruct (exchangeable m self rec); [|done].
  destruct (record_info rec) as [info|] eqn:Hr; cbn; [|done].
  intros Hv. apply valid_info_ok in Hv as [-> _]. by apply record_info_id.
Qed.

Lemma offered_ids m self (l : list (string * PeerRecord)) :
  (forall e, e ∈ l -> rec_NodeID e.2 = e.1) -> (rec_NodeID <$> omap (offered m self) l.*2) `sublist_of` l.*1.
Proof.
  induction l as [|[id r] l IH]; intros Hl; [done|]. cbn.
  pose proof (Hl (id, r) ltac:(left)) as Hr. cbn in Hr.
  destruct (offered m self r) as [v|] eqn:Hv.
  - cbn. rewrite (offered_id _ _ _ _ Hv), Hr. apply sublist_skip, IH. intros e He. apply Hl. by right.
  - apply sublist_cons, IH. intros e He. apply Hl. by right.
Qed.

(** A record that can be exchanged is accepted by the node it is sent to, with
    the same content, whoever else has it. *)
Lemma offered_some m self rec :
  exchangeable m self rec = true -> record_ok rec -> rec_PublicKey rec <> ""%string ->
  0 <= rec_LastSeen rec <= MaxInt64 ->
  exists v pub, offered m self rec = Some v /\ hex_decode (rec_PublicKey rec) = Some pub /\
    v = mkPeerRecord (rec_NodeID rec) (rec_Addr rec) true (hex_encode pub) (rec_LastSeen rec) 0 0.
Proof.
  intros He Hok Hk Hls. destruct (Hok Hk) as (pub & Hd & Hl & Hid). unfold offered, record_info.
  rewrite He, bool_decide_false, Hd, Hl by done. cbn [negb Z.eqb].
  unfold exchangeable in He. apply andb_true_iff in He as [He1 He2].
  apply negb_true_iff in He1, He2. apply orb_false_iff in He1 as [He1 _]. apply orb_false_iff in He2 as [He2 He4].
  apply orb_false_iff in He2 as [He2 He3].
  change (32 =? 32) with true. cbn [negb].
  exists (mkPeerRecord (rec_NodeID rec) (rec_Addr rec) true (hex_encode pub) (rec_LastSeen rec) 0 0), pub.
  split_and!; [|done|done]. cbn. unfold valid_info. cbn. rewrite He1, He2, He3, He4, Hl. cbn [orb negb].
  rewrite bool_decide_true by done. cbn. apply negb_false_iff in He2. rewrite He2.
  unfold MaxInt64 in Hls. rewrite u64_small by lia. unfold safeLastSeen.
  destruct (Z.ltb_spec MaxInt64 (rec_LastSeen rec)); [unfold MaxInt64 in *; lia|done].
Qed.
(** Learning keys never forgets one, and learns each accepted entry's. *)
Lemma learn_key_mono kr self info id :
  is_Some (KeyRing_Lookup kr id) -> is_Some (KeyRing_Lookup (learn_key kr self info) id).
Proof.
  unfold learn_key, KeyRing_Lookup. destruct (valid_info self info); [|done].
  destruct (KeyRing_Add_cases kr (info_NodeId info) (info_Ed25519Pubkey info) TrustGossipLearned) as [->| ->]; [done|].
  intros [e He]. cbn. rewrite lookup_insert. destruct (decide _); [done|]. by rewrite He.
Qed.

Lemma learn_keys_known kr self infos info v :
  info ∈ infos -> valid_info self info = Some v ->
  is_Some (KeyRing_Lookup (foldl (fun kr i => learn_key kr self i) kr infos) (info_NodeId info)).
Proof.
  intros (l1 & l2 & ->)%list_elem_of_split Hv. rewrite foldl_app. cbn [foldl].
  set (kr1 := foldl _ kr l1).
  assert (is_Some (KeyRing_Lookup (learn_key kr1 self info) (info_NodeId info))) as Hk.
  { unfold learn_key. rewrite Hv.
    destruct (KeyRing_Add_known kr1 (info_NodeId info) (info_Ed25519Pubkey info) TrustGossipLearned) as (e & He & _).
    by exists e. }
  revert Hk. generalize (learn_key kr1 self info). induction l2 as [|i l2 IH]; intros kr2 Hk; [done|].
  apply IH. by apply learn_key_mono.
Qed.

(** The entries of a table that satisfies the invariant carry their key. *)
Lemma known_entries m : known_ok (m_knownPeers m) ->
  forall e, e ∈ map_to_list (m_knownPeers m) -> rec_NodeID e.2 = e.1.
Proof. intros Hk [id r] He%elem_of_map_to_list. by apply Hk in He as [? _]. Qed.

Lemma known_records m rec : known_ok (m_knownPeers m) ->
  rec ∈ (map_to_list (m_knownPeers m)).*2 -> m_knownPeers m !! rec_NodeID rec = Some rec.
Proof.
  intros Hk ([id r] & -> & He)%list_elem_of_fmap. pose proof (known_entries m Hk _ He) as E.
  cbn in *. subst id. by apply elem_of_map_to_list.
Qed.

Lemma known_records_NoDup m : known_ok (m_knownPeers m) -> NoDup (rec_NodeID <$> (map_to_list (m_knownPeers m)).*2).
Proof.
  intros Hk. rewrite <- list_fmap_compose. erewrite (list_fmap_ext _ fst).
  - apply NoDup_fst_map_to_list.
  - intros i e He. cbn. apply (known_entries m Hk). by eapply list_elem_of_lookup_2.
Qed.

(** Merging what [m] builds for node [self]: the entry about [m] itself, then what [m]
    offers of its table. *)
Lemma merge_offered m self k now_s :
  exists own, (forall v, v ∈ own -> rec_NodeID v = NodeID (m_id m)) /\
    (merge_all k (omap (valid_info self) (buildPeerInfoList m self now_s))).1 =
    (merge_all (merge_all k own).1 (omap (offered m self) (map_to_list (m_knownPeers m)).*2)).1.
Proof.
  unfold buildPeerInfoList. rewrite omap_app, merge_all_app, offered_list. eexists. split; [|done].
  intros v (info & Hin & Hv)%list_elem_of_omap. apply valid_info_ok in Hv as [-> _].
  case_bool_decide; [by apply elem_of_nil in Hin|]. by apply list_elem_of_singleton in Hin as ->.
Qed.

Lemma merge_offered_lookup m self k now_s id rec v :
  known_ok (m_knownPeers m) -> m_knownPeers m !! id = Some rec -> rec_NodeID rec <> NodeID (m_id m) ->
  offered m self rec = Some v ->
  (merge_all k (omap (valid_info self) (buildPeerInfoList m self now_s))).1 !! id = Some (merged k v).
Proof.
  intros Hk Hrec Hself Hv. destruct (merge_offered m self k now_s) as (own & Hown & ->).
  pose proof (offered_id _ _ _ _ Hv) as Hid. pose proof (Hk _ _ Hrec) as [Hrid _].
  assert ((merge_all k own).1 !! rec_NodeID v = k !! rec_NodeID v) as Ek.
  { apply merge_all_other. intros (v' & E & Hv')%list_elem_of_fmap. apply Hself. rewrite <- Hid, E. by apply Hown. }
  rewrite <- Hrid, <- Hid, merge_all_unique.
  - unfold merged. by rewrite Ek.
  - apply list_elem_of_omap. exists rec. split; [|done]. apply list_elem_of_fmap. exists (id, rec).
    split; [done|]. by apply elem_of_map_to_list.
  - eapply sublist_NoDup; [|by apply offered_ids, known_entries]. apply NoDup_fst_map_to_list.
Qed.
(** After learning from a list all whose accepted entries about [id] carry one
    key, the ring has what it had, or that key. *)
Lemma learn_keys_value kr self infos id key e :
  (forall info v, info ∈ infos -> valid_info self info = Some v -> info_NodeId info = id -> info_Ed25519Pubkey info = key) ->
  KeyRing_Lookup (foldl (fun kr i => learn_key kr self i) kr infos) id = Some e ->
  KeyRing_Lookup kr id = Some e \/ KeyRing_Lookup kr id = None /\ PubKey e = key.
Proof.
  revert kr. induction infos as [|i infos IH]; intros kr Hi He; [by left|]. cbn [foldl] in He.
  assert (KeyRing_Lookup (learn_key kr self i) id = KeyRing_Lookup kr id \/
    KeyRing_Lookup kr id = None /\ exists t, KeyRing_Lookup (learn_key kr self i) id = Some (mkKeyEntry key t)) as Hstep.
  { unfold learn_key. destruct (valid_info self i) as [v|] eqn:Hv; [|by left]. unfold KeyRing_Lookup.
    destruct (decide (info_NodeId i = id)) as [E|E]; [|left; by apply KeyRing_Add_other]. subst id.
    rewrite <- (Hi i v (list_elem_of_here _ _) Hv eq_refl). destruct (keys kr !! info_NodeId i) as [e0|] eqn:Ek.
    - left. unfold KeyRing_Add. rewrite Ek. by destruct (keTrustLevel e0).
    - right. split; [done|]. exists TrustGossipLearned. by rewrite KeyRing_Add_new. }
  destruct (IH _ ltac:(intros; eapply Hi; eauto; by right) He) as [Hl|[Hl Hk]]; destruct Hstep as [Hs|[Hs [t Ht]]].
  - left. by rewrite <- Hs.
  - right. split; [done|]. rewrite Ht in Hl. by injection Hl as <-.
  - right. split; [by rewrite <- Hs|done].
  - by rewrite Ht in Hl.
Qed.

(** The key that [m] offers with a record is the one the receiver learns. *)
Lemma offered_key m self now_s rec v kr :
  known_ok (m_knownPeers m) -> m_knownPeers m !! rec_NodeID rec = Some rec -> rec_NodeID rec <> NodeID (m_id m) ->
  offered m self rec = Some v ->
  exists entry,
    KeyRing_Lookup (foldl (fun kr i => learn_key kr self i) kr (buildPeerInfoList m self now_s)) (rec_NodeID rec) = Some entry /\
    (KeyRing_Lookup kr (rec_NodeID rec) = Some entry \/
     KeyRing_Lookup kr (rec_NodeID rec) = None /\ hex_decode (rec_PublicKey rec) = Some (PubKey entry)).
Proof.
  intros Hknown Hrec Hself Hv. unfold offered in Hv. destruct (exchangeable m self rec) eqn:Hex; [|done].
  destruct (record_info rec) as [info|] eqn:Hi; [|done]. cbn in Hv. pose proof (record_info_id _ _ Hi) as Hii.
  destruct (learn_keys_known kr self (buildPeerInfoList m self now_s) info v) as [entry He]; [|done|].
  { unfold buildPeerInfoList. apply elem_of_app. right. apply list_elem_of_omap. exists rec. split; [|done].
    apply list_elem_of_filter. split; [done|]. apply list_elem_of_fmap. exists (rec_NodeID rec, rec).
    split; [done|]. by apply elem_of_map_to_list. }
  rewrite Hii in He. exists entry. split; [done|].
  apply (learn_keys_value _ _ _ _ (info_Ed25519Pubkey info)) in He as [?|[? Hk]]; [by left| |].
  - right. split; [done|]. rewrite Hk. revert Hi. unfold record_info. case_bool_decide; [done|].
    destruct (hex_decode (rec_PublicKey rec)) as [pub|]; [|done]. destruct (negb _); [done|]. by intros [= <-].
  - intros i w Hin _ Hid. unfold buildPeerInfoList in Hin. apply elem_of_app in Hin as [Hin|Hin].
    + case_bool_decide; [by apply elem_of_nil in Hin|]. apply list_elem_of_singleton in Hin as ->. by cbn in Hid.
    + apply list_elem_of_omap in Hin as (r & Hr & Hir). apply list_elem_of_filter in Hr as [_ Hr].
      apply known_records in Hr; [|done]. pose proof (record_info_id _ _ Hir) as Hri. congruence.
Qed.

(** A goroutine that saves one record and then releases a peer. *)
Lemma save_two_turns m l rec id :
  m_savers m = l ++ [mkSaver [rec] (Some id)] ->
  exists m2 m3, save_turn m (length l) = Some m2 /\ save_turn m2 (length l) = Some m3 /\
    (id ∉ m_dialing m3) /\ m_knownPeers m3 = m_knownPeers m.
Proof.
  intros Hs. unfold save_turn at 1. rewrite Hs, lookup_app_r, Nat.sub_diag by lia. cbn [lookup list_lookup].
  rewrite insert_app_r_alt, Nat.sub_diag by lia. cbn [insert list_insert].
  set (m1 := upd_savers m (l ++ [mkSaver [] (Some id)])). pose proof (saveKnownPeer_savers m1 rec) as Hm2.
  pose proof (saveKnownPeer_only_store m1 rec) as Hos. set (m2 := saveKnownPeer m1 rec) in *.
  eexists _, _. split; [done|]. unfold save_turn. rewrite Hm2. cbn [m1 m_savers upd_savers].
  rewrite lookup_app_r, Nat.sub_diag by lia. cbn [lookup list_lookup]. split; [done|]. cbn. split; [set_solver|].
  by rewrite Hos.
Qed.

(** The addresses that [loadKnownPeers] accepts. *)
Definition loadable_addr (addr : string) : bool := bool_decide (addr = ""%string) || negb (isInvalidPeerAddr addr).

(** What is read back of a record that carries the key of its identifier. *)
Lemma load_record_saved data rec :
  Unmarshal data = Some rec -> rec_NodeID rec <> ""%string -> record_ok rec ->
  load_record data = if loadable_addr (rec_Addr rec) then Some rec else None.
Proof.
  intros Hu Hid Hok. unfold load_record, loadable_addr. rewrite Hu, bool_decide_false by done.
  destruct (bool_decide (rec_Addr rec = ""%string)), (isInvalidPeerAddr (rec_Addr rec)); cbn [negb orb andb]; try done.
  all: case_bool_decide as Hk; [done|]. all: cbn [negb]. all: destruct (Hok Hk) as (pub & -> & -> & ->).
  all: by rewrite Z.eqb_refl, bool_decide_true.
Qed.

(** Inserting a list of records: an identifier that determines its record
    holds it in the end. *)
Lemma insert_all_unique (k : gmap string PeerRecord) recs rec :
  rec ∈ recs -> (forall r, r ∈ recs -> rec_NodeID r = rec_NodeID rec -> r = rec) ->
  foldl (fun k r => <[rec_NodeID r := r]> k) k recs !! rec_NodeID rec = Some rec.
Proof.
  assert (forall recs (k : gmap string PeerRecord), (forall r, r ∈ recs -> rec_NodeID r = rec_NodeID rec -> r = rec) ->
    rec ∈ recs \/ k !! rec_NodeID rec = Some rec ->
    foldl (fun k r => <[rec_NodeID r := r]> k) k recs !! rec_NodeID rec = Some rec) as Hgen; [|eauto].
  clear k recs. induction recs as [|r recs IH]; intros k Hu Hin; [by destruct Hin as [Hin|]; [apply elem_of_nil in Hin|]|].
  cbn. apply IH; [intros r' Hr'; apply Hu; by right|].
  destruct (decide (rec_NodeID r = rec_NodeID rec)) as [E|E].
  - right. rewrite (Hu r (list_elem_of_here _ _) E). by rewrite lookup_insert_eq.
  - destruct Hin as [Hin|Hin]; [|right; by rewrite lookup_insert_ne]. apply elem_of_cons in Hin as [->|Hin]; [done|by left].
Qed.

Lemma insert_all_other (k : gmap string PeerRecord) recs id :
  (forall r, r ∈ recs -> rec_NodeID r <> id) -> foldl (fun k r => <[rec_NodeID r := r]> k) k recs !! id = k !! id.
Proof.
  revert k. induction recs as [|r recs IH]; intros k Hr; [done|]. cbn. rewrite IH by (intros r' Hr'; apply Hr; by right).
  apply lookup_insert_ne, Hr. left.
Qed.
End Tables.

(** ** Properties *)

Section Properties.
Context `{Crypto} `{Proto} `{KeyLib} `{NoiseXX} {C : Type} `{Conn C} {S : Type} `{Store S} `{RecordCodec}.

Abbreviation Mgr := (Manager (noiseConn C) S).
Implicit Types (m : Mgr) (rec : PeerRecord) (infos : list PeerInfo).

(** C28. Merging does not depend on the order of arrival: two lists with the same
    entries leave the same table of known peers, provided no two accepted
    entries about one node carry the same time. *)
Theorem merge_order_irrelevant m infos infos'
  (Hperm : Permutation infos infos')
  (Hdistinct : NoDup (merge_key <$> omap (valid_info (NodeID (m_id m))) infos)) :
  m_knownPeers (mergeDiscoveredPeers m infos) = m_knownPeers (mergeDiscoveredPeers m infos').
Proof.
  rewrite !merge_known. apply merge_all_perm; [|apply valid_infos_fresh|done].
  by apply omap_Permutation.
Qed.

(** C29. Merging is idempotent and monotone: receiving the same exchange twice changes
    neither the table nor the store the second time and starts no save; no known peer is lost and no
    record becomes older; and every accepted entry is known afterwards with a time at
    least its own. *)
Theorem merge_idempotent_monotone m infos :
  let m1 := mergeDiscoveredPeers m infos in
  m_knownPeers (mergeDiscoveredPeers m1 infos) = m_knownPeers m1 /\
  m_store (mergeDiscoveredPeers m1 infos) = m_store m1 /\
  m_savers (mergeDiscoveredPeers m1 infos) = m_savers m1 /\
  (forall id r, m_knownPeers m !! id = Some r ->
     exists r', m_knownPeers m1 !! id = Some r' /\ rec_LastSeen r <= rec_LastSeen r') /\
  (forall info v, info ∈ infos -> valid_info (NodeID (m_id m)) info = Some v ->
     exists r', m_knownPeers m1 !! info_NodeId info = Some r' /\ rec_LastSeen v <= rec_LastSeen r').
Proof.
  intros m1. pose proof (merge_rest m infos) as (_ & Hid & _). fold m1 in Hid.
  assert (m_knownPeers m1 = (merge_all (m_knownPeers m) (omap (valid_info (NodeID (m_id m))) infos)).1) as Hk
    by apply merge_known.
  split_and!.
  - by rewrite merge_known, Hid, Hk, merge_all_idempotent.
  - unfold mergeDiscoveredPeers. cbn. rewrite Hid, Hk, merge_all_idempotent. done.
  - unfold mergeDiscoveredPeers. cbn. rewrite Hid, Hk, merge_all_idempotent. done.
  - intros id r Hr. rewrite Hk. by apply merge_all_mono.
  - intros info v Hin Hv. rewrite Hk. pose proof (valid_info_ok _ _ _ Hv) as [<- _].
    apply merge_all_covers, list_elem_of_omap. eauto.
Qed.

(** C30. What a node exchanges, the receiver learns: when [m] offers a
    known peer with a key to node [m'], then after merging the list that [m]
    builds, [m'] knows that peer at least as recently, knows its address and
    key as [m] does if it had nothing as recent, and its key ring holds for that peer the
    entry it had before, or else exactly the offered key, which hashes to the peer's id. *)
Theorem exchange_propagates m (m' : Mgr) (now_s : Z) (id : string) rec
  (Hknown : known_ok (m_knownPeers m)) (Hrec : m_knownPeers m !! id = Some rec)
  (Hex : exchangeable m (NodeID (m_id m')) rec = true) (Hkey : rec_PublicKey rec <> ""%string)
  (Htime : 0 <= rec_LastSeen rec <= MaxInt64) :
  let m1 := mergeDiscoveredPeers m' (buildPeerInfoList m (NodeID (m_id m')) now_s) in
  exists r, m_knownPeers m1 !! id = Some r /\ rec_LastSeen rec <= rec_LastSeen r /\
    ((forall e, m_knownPeers m' !! id = Some e -> rec_LastSeen e < rec_LastSeen rec) ->
       rec_Addr r = rec_Addr rec /\ rec_Reachable r = true /\ rec_LastSeen r = rec_LastSeen rec /\
       hex_decode (rec_PublicKey r) = hex_decode (rec_PublicKey rec)) /\
    exists entry, KeyRing_Lookup (eKeyRing (m_gossip m1)) id = Some entry /\
      (KeyRing_Lookup (eKeyRing (m_gossip m')) id = Some entry \/
       KeyRing_Lookup (eKeyRing (m_gossip m')) id = None /\ node_id (PubKey entry) = id /\
       hex_decode (rec_PublicKey rec) = Some (PubKey entry)).
Proof.
  intros m1. set (self := NodeID (m_id m')) in *.
  destruct (offered_some m self rec Hex) as (v & pub & Hv & Hpub & Ev); [by apply (Hknown id)|done|done|].
  assert (rec_NodeID rec <> NodeID (m_id m)) as Hself.
  { intros E. unfold exchangeable in Hex. rewrite E, (bool_decide_true (NodeID (m_id m) = NodeID (m_id m))) in Hex by done.
    by rewrite orb_true_r in Hex. }
  pose proof (Hknown _ _ Hrec) as [Hid _].
  exists (merged (m_knownPeers m') v). split_and!.
  - unfold m1. rewrite merge_known. by apply (merge_offered_lookup m self _ now_s id rec).
  - pose proof (merged_LastSeen (m_knownPeers m') v). by rewrite Ev in *.
  - intros Hnew. unfold merged. rewrite Ev. cbn. rewrite Hid.
    destruct (m_knownPeers m' !! id) as [e|] eqn:He; cbn.
    + specialize (Hnew e eq_refl). destruct (Z.ltb_spec (rec_LastSeen e) (rec_LastSeen rec)); [|lia].
      cbn. by rewrite hex_decode_encode.
    + by rewrite hex_decode_encode.
  - unfold m1. pose proof (merge_rest m' (buildPeerInfoList m self now_s)) as (_ & _ & _ & _ & ->).
    rewrite <- Hid in *.
    destruct (offered_key m self now_s rec v (eKeyRing (m_gossip m'))) as (entry & He & Hcases); [done..|].
    exists entry. split; [done|]. destruct Hcases as [?|[? Hpk]]; [by left|right]. split_and!; [done| |done].
    destruct (Hknown _ _ Hrec) as [_ Hok]. destruct (Hok Hkey) as (pub' & Hd & _ & Hn). congruence.
Qed.

(** C31. Dials are bounded and justified: a scan starts at most three dials, to
    distinct known peers, none when the peer table is full; each dialed peer is
    reachable, has an address, is not the node itself, is neither connected
    nor already being dialed, has no bootstrap address, and its backoff has
    elapsed; exactly the dialed peers are added to the dialing set. *)
Theorem tryDiscoveryDials_spec m (now : Z) (shuffle : list PeerRecord -> list PeerRecord)
  (chosen : list PeerRecord) (m1 : Mgr)
  (Hshuffle : forall l, Permutation (shuffle l) l) (Hknown : known_ok (m_knownPeers m))
  (Hdial : tryDiscoveryDials m now shuffle = (chosen, m1)) :
  (length chosen <= 3)%nat /\ NoDup (rec_NodeID <$> chosen) /\
  (at_capacity m = true -> chosen = []) /\
  m_dialing m1 = list_to_set (rec_NodeID <$> chosen) ∪ m_dialing m /\
  forall rec, rec ∈ chosen ->
    m_knownPeers m !! rec_NodeID rec = Some rec /\ rec_NodeID rec <> NodeID (m_id m) /\
    rec_Reachable rec = true /\ rec_Addr rec <> ""%string /\
    w_peers (m_world m) !! rec_NodeID rec = None /\ (rec_NodeID rec ∉ m_dialing m) /\
    (rec_Addr rec ∉ m_bootstrapAddrs m) /\
    (0 < rec_FailCount rec -> rec_LastFail rec * Second + rec_backoff rec <= now).
Proof.
  unfold tryDiscoveryDials in Hdial. destruct (at_capacity m) eqn:Hcap.
  { injection Hdial as <- <-. split_and!; [cbn; lia|constructor|done|set_solver|set_solver]. }
  set (cands := filter _ _) in Hdial.
  assert (forall rec, rec ∈ take maxDialsPerTick (shuffle cands) ->
    dial_candidate m now rec = true /\ rec ∈ (map_to_list (m_knownPeers m)).*2) as Hin.
  { intros rec Hrec%elem_of_take. rewrite (Hshuffle cands) in Hrec. by apply list_elem_of_filter in Hrec. }
  assert (NoDup (rec_NodeID <$> take maxDialsPerTick (shuffle cands))) as Hnd.
  { rewrite fmap_take. apply NoDup_take. rewrite (Hshuffle cands).
    exact (sublist_NoDup _ _ (known_records_NoDup m Hknown) (fmap_sublist _ _ _ (sublist_filter _ _))). }
  assert (chosen = take maxDialsPerTick (shuffle cands) /\
    m_dialing m1 = list_to_set (rec_NodeID <$> chosen) ∪ m_dialing m) as [-> Hd].
  { destruct cands as [|c cs]; injection Hdial as <- <-; [|done].
    rewrite (proj1 (Permutation_nil_r (shuffle [])) (Hshuffle [])). split; [done|set_solver]. }
  split_and!; try done; [rewrite length_take; unfold maxDialsPerTick; lia|].
  intros rec [Hc Hk]%Hin. apply known_records in Hk; [|done]. unfold dial_candidate in Hc. reflect_bools.
  split_and!; try done; [by apply eq_None_not_Some|].
  intros Hf. match goal with Hb : _ && _ = false |- _ => apply andb_false_iff in Hb as [Hb|Hb]; reflect_bools; lia end.
Qed.

(** A failed dial is remembered: it counts the failure and keeps the peer
    from being dialed again until a wait of [2^n] seconds, at most 30, has passed,
    where [n] counts the earlier failures; the peer is released when
    the record has been saved, which takes two turns and changes neither. *)
Theorem failed_dial_waits m rec r (now_s now : Z)
  (Hknown : known_ok (m_knownPeers m)) (Hr : m_knownPeers m !! rec_NodeID rec = Some r)
  (Hcount : 0 <= rec_FailCount r < MaxInt64)
  (Hwait : now < now_s * Second + Z.min (2 ^ rec_FailCount r) 30 * Second) :
  let m1 := dialDiscovered m rec false false now_s in
  exists m2 m3 r1, save_turn m1 (length (m_savers m)) = Some m2 /\ save_turn m2 (length (m_savers m)) = Some m3 /\
    (rec_NodeID rec ∉ m_dialing m3) /\ m_knownPeers m3 = m_knownPeers m1 /\
    m_knownPeers m1 !! rec_NodeID rec = Some r1 /\ rec_FailCount r1 = rec_FailCount r + 1 /\
    dial_candidate m1 now r1 = false /\ dial_candidate m3 now r1 = false.
Proof.
  intros m1. set (r1 := mkPeerRecord (rec_NodeID r) (rec_Addr r) (rec_Reachable r) (rec_PublicKey r) (rec_LastSeen r)
                          (i64 (rec_FailCount r + 1)) now_s).
  assert (rec_FailCount r1 = rec_FailCount r + 1) as Hf.
  { cbn. rewrite i64_small; [done|]. unfold MinInt64, MaxInt64 in *. lia. }
  assert (m1 = start_saving (upd_known m (<[rec_NodeID rec := r1]> (m_knownPeers m))) [r1] (Some (rec_NodeID rec))) as Hm1.
  { unfold m1, dialDiscovered. cbn [orb]. by rewrite Hr. }
  assert (forall m' : Mgr, dial_candidate m' now r1 = false) as Hno.
  { intros m'. apply not_true_iff_false. intros Hc. unfold dial_candidate in Hc. reflect_bools.
    match goal with Hb : _ && _ = false |- _ => apply andb_false_iff in Hb as [Hb|Hb] end; reflect_bools; [lia|].
    match goal with Hb : _ <= now |- _ => revert Hb end. unfold rec_backoff. rewrite Hf.
    destruct (Z.leb_spec (rec_FailCount r + 1) 0); [lia|]. change (rec_LastFail r1) with now_s.
    replace (rec_FailCount r + 1 - 1) with (rec_FailCount r) by lia. lia. }
  destruct (save_two_turns m1 (m_savers m) r1 (rec_NodeID rec)) as (m2 & m3 & E2 & E3 & Hd & Hk); [by rewrite Hm1|].
  exists m2, m3, r1. split_and!; [done..|by rewrite Hm1; cbn; rewrite lookup_insert_eq|done|done|done].
Qed.

(** C32. Known peers survive a restart: a record that the store has accepted is
    loaded back unchanged by a manager that starts with this store when
    its address is empty or acceptable in an exchange, and is dropped otherwise; the record has an
    identifier, and a key, if any, that hashes to it; and the store holds
    every record under its own identifier, which saving preserves. *)
Theorem saved_peer_is_loaded `{!StoreLaws S} (json_ok : PeerRecord -> Prop) `{!CodecLaws json_ok}
  m (m0 : Mgr) (st st' : S) rec data snap
  (Hstore : m_store m = Some st) (Hjson : json_ok rec) (Hdata : Marshal rec = Some data)
  (Hset : st_Set st peersBucket (to_bytes (rec_NodeID rec)) data = (Ok tt, st'))
  (Hkeyed : forall k v r, kv st peersBucket !! k = Some v -> Unmarshal v = Some r -> k = to_bytes (rec_NodeID r))
  (Hid : rec_NodeID rec <> ""%string) (Hok : record_ok rec)
  (Hm0 : m_store m0 = Some st') (Hsnap : st_Snapshot st' peersBucket = Ok snap) :
  m_store (saveKnownPeer m rec) = Some st' /\
  (forall k v r, kv st' peersBucket !! k = Some v -> Unmarshal v = Some r -> k = to_bytes (rec_NodeID r)) /\
  m_knownPeers (loadKnownPeers m0) !! rec_NodeID rec =
  if bool_decide (rec_Addr rec = ""%string) || negb (isInvalidPeerAddr (rec_Addr rec)) then Some rec
  else m_knownPeers m0 !! rec_NodeID rec.
Proof.
  assert (kv st' peersBucket = <[to_bytes (rec_NodeID rec) := data]> (kv st peersBucket)) as Hkv.
  { rewrite (Set_ok _ _ _ _ _ Hset). by rewrite decide_True. }
  assert (Unmarshal data = Some rec) as Hun by (by apply (Unmarshal_Marshal (ok := json_ok))).
  pose proof (load_record_saved data rec Hun Hid Hok) as Hload. unfold loadable_addr in Hload.
  assert (forall k v r, kv st' peersBucket !! k = Some v -> Unmarshal v = Some r -> k = to_bytes (rec_NodeID r)) as Hkeyed'.
  { intros k v r. rewrite Hkv, lookup_insert_Some. intros [[<- <-]|[_ Hv]] Hu; [congruence|by eapply Hkeyed]. }
  split_and!.
  - unfold saveKnownPeer. rewrite Hstore, Hdata, Hset. done.
  - done.
  - unfold loadKnownPeers. rewrite Hm0, Hsnap. cbn. apply Snapshot_ok in Hsnap as ->.
    assert (forall r, r ∈ omap (fun e => load_record e.2) (map_to_list (kv st' peersBucket)) ->
      rec_NodeID r = rec_NodeID rec -> r = rec /\ load_record data = Some rec) as Honly.
    { intros r ([k v] & Hin%elem_of_map_to_list & Hr)%list_elem_of_omap E. cbn in Hr. pose proof Hr as Hr'.
      apply load_record_ok in Hr as (_ & _ & _ & Hr). pose proof (Hkeyed' k v r Hin Hr) as ->.
      rewrite E, Hkv, lookup_insert_eq in Hin. injection Hin as <-. split; congruence. }
    destruct (bool_decide _ || negb _).
    + apply insert_all_unique; [|by intros r Hr E; apply Honly].
      apply list_elem_of_omap. exists (to_bytes (rec_NodeID rec), data). split; [|done].
      apply elem_of_map_to_list. by rewrite Hkv, lookup_insert_eq.
    + apply insert_all_other. intros r Hr E. apply Honly in E as [_ E]; [congruence|done].
Qed.
End Properties.

(** ** Witnesses *)

(** The entries of an exchange about nodes 8 and 9. *)
Definition ex_info (n seen : Z) : PeerInfo := mkPeerInfo (toy_id n) "10.0.0.9:4000" true (toy_pub n) seen.

Lemma merge_order_irrelevant_witness :
  m_knownPeers (mergeDiscoveredPeers (ex_manager 7 [ex_record 9 3 0 0]) [ex_info 8 5; ex_info 9 6]) =
  m_knownPeers (mergeDiscoveredPeers (ex_manager 7 [ex_record 9 3 0 0]) [ex_info 9 6; ex_info 8 5]).
Proof.
  refine (merge_order_irrelevant (ex_manager 7 [ex_record 9 3 0 0]) [ex_info 8 5; ex_info 9 6] _ _ _).
  - apply perm_swap.
  - apply (bool_decide_unpack _). vm_compute. reflexivity.
Defined.

(** The tables of the examples satisfy the invariant. *)
Lemma ex_record_ok n seen fails lastFail : record_ok (ex_record n seen fails lastFail).
Proof. intros _. exists (toy_pub n). cbn [rec_PublicKey rec_NodeID ex_record]. rewrite hex_decode_encode. split_and!; [done| |done].
  unfold toy_pub. by rewrite length_be_put. Qed.

Lemma ex_known_ok n seen fails lastFail k :
  known_ok (m_knownPeers (ex_manager k [ex_record n seen fails lastFail])).
Proof.
  intros id r. change (m_knownPeers _) with (<[rec_NodeID (ex_record n seen fails lastFail) := ex_record n seen fails lastFail]> (∅ : gmap string PeerRecord)).
  rewrite lookup_insert_Some. intros [[<- <-]|[_ E]]; [split; [done|apply ex_record_ok]|by rewrite lookup_empty in E].
Qed.

Lemma ex_known_lookup n seen fails lastFail k :
  m_knownPeers (ex_manager k [ex_record n seen fails lastFail]) !! toy_id n = Some (ex_record n seen fails lastFail).
Proof. apply lookup_insert_eq. Qed.

Lemma exchange_propagates_witness :
  let m := ex_manager 7 [ex_record 9 5 0 0] in
  let m' := ex_manager 8 [ex_record 9 3 2 1] in
  let m1 := mergeDiscoveredPeers m' (buildPeerInfoList m (NodeID (m_id m')) 100) in
  exists r, m_knownPeers m1 !! toy_id 9 = Some r /\ 5 <= rec_LastSeen r /\
    ((forall e, m_knownPeers m' !! toy_id 9 = Some e -> rec_LastSeen e < 5) ->
       rec_Addr r = "10.0.0.9:4000"%string /\ rec_Reachable r = true /\ rec_LastSeen r = 5 /\
       hex_decode (rec_PublicKey r) = hex_decode (hex_encode (toy_pub 9))) /\
    exists entry, KeyRing_Lookup (eKeyRing (m_gossip m1)) (toy_id 9) = Some entry /\
      (KeyRing_Lookup (eKeyRing (m_gossip m')) (toy_id 9) = Some entry \/
       KeyRing_Lookup (eKeyRing (m_gossip m')) (toy_id 9) = None /\ node_id (PubKey entry) = toy_id 9 /\
       hex_decode (hex_encode (toy_pub 9)) = Some (PubKey entry)).
Proof.
  refine (exchange_propagates (ex_manager 7 [ex_record 9 5 0 0]) (ex_manager 8 [ex_record 9 3 2 1]) 100 (toy_id 9)
    (ex_record 9 5 0 0) (ex_known_ok 9 5 0 0 7) (ex_known_lookup 9 5 0 0 7) _ _ _).
  - vm_compute. reflexivity.
  - vm_compute. discriminate.
  - vm_compute. split; discriminate.
Defined.

Lemma tryDiscoveryDials_spec_witness :
  let m := ex_manager 7 [ex_record 9 5 2 100] in
  let r := tryDiscoveryDials m (102 * Second) id in
  r.1 = [ex_record 9 5 2 100] /\ (length r.1 <= 3)%nat /\ m_dialing r.2 = list_to_set (rec_NodeID <$> r.1) ∪ ∅.
Proof.
  intros m r. destruct (tryDiscoveryDials_spec m (102 * Second) id r.1 r.2) as (Hlen & _ & _ & Hd & _).
  - reflexivity.
  - exact (ex_known_ok 9 5 2 100 7).
  - apply surjective_pairing.
  - split; [vm_compute; reflexivity|]. split; [exact Hlen|exact Hd].
Defined.

Lemma failed_dial_waits_witness :
  let m := ex_manager 7 [ex_record 9 5 2 90] in
  let m1 := dialDiscovered m (ex_record 9 5 2 90) false false 100 in
  exists m2 m3 r1, save_turn m1 0 = Some m2 /\ save_turn m2 0 = Some m3 /\
    (toy_id 9 ∉ m_dialing m3) /\ m_knownPeers m3 = m_knownPeers m1 /\
    m_knownPeers m1 !! toy_id 9 = Some r1 /\ rec_FailCount r1 = 3 /\
    dial_candidate m1 (103 * Second) r1 = false /\ dial_candidate m3 (103 * Second) r1 = false.
Proof.
  refine (failed_dial_waits (ex_manager 7 [ex_record 9 5 2 90]) (ex_record 9 5 2 90) (ex_record 9 5 2 90) 100
    (103 * Second) (ex_known_ok 9 5 2 90 7) (ex_known_lookup 9 5 2 90 7) _ _).
  - vm_compute. split; [discriminate|reflexivity].
  - vm_compute. reflexivity.
Defined.

Definition ex_data : bytes := put (ex_record 9 5 0 0).
Definition ex_saved : BoltStore := mkBoltStore (H := mem_bbolt) {[ peersBucket := {[ to_bytes (toy_id 9) := ex_data ]} ]}.
Definition ex_snap : gmap bytes bytes :=
  match bolt_Snapshot ex_saved peersBucket with Ok snap => snap | Err _ => ∅ end.

(** Saves are not ordered. Node 9 connects just after a dial of it has failed: the
    save of the failure, which started earlier, comes last and leaves the
    store with a record that the table no longer has. *)
Example saves_reordered :
  let m := ex_manager 7 [ex_record 9 5 2 90] in
  let m1 := dialDiscovered m (ex_record 9 5 2 90) false false 100 in
  let m2 := onPeerConnected (upd_peer m1 1 (mkPeer (toy_id 9) (toy_pub 9) (mkNoiseConn (mkTcp (mkPieces []) [] true) 0 0 [] [])
    [] (ex_identity 7) true true "10.0.0.9:4000" true true [] false 0 0 0 0 ∅)) 1 101 "u" in
  let m3 := default m2 (save_turn m2 1 ≫= fun m3 => save_turn m3 0) in
  ((fun r => (rec_FailCount r, rec_LastSeen r)) <$> m_knownPeers m3 !! toy_id 9,
   m_store m3 ≫= fun st => match bolt_Get st peersBucket (to_bytes (toy_id 9)) with
     | Ok (Some v) => (fun r => (rec_FailCount r, rec_LastSeen r)) <$> (Unmarshal v : option PeerRecord)
     | _ => None
     end) = (Some (0, 101), Some (3, 5)).
Proof. vm_compute. reflexivity. Qed.

Lemma saved_peer_is_loaded_witness :
  let m0 := upd_store (ex_manager 8 []) (Some ex_saved) in
  m_store (saveKnownPeer (ex_manager 7 []) (ex_record 9 5 0 0)) = Some ex_saved /\
  m_knownPeers (loadKnownPeers m0) !! toy_id 9 = Some (ex_record 9 5 0 0).
Proof.
  intros m0.
  destruct (saved_peer_is_loaded (StoreLaws0 := bolt_laws) (fun _ => True) (CodecLaws0 := wire_codec_laws (fun _ => True))
    (ex_manager 7 []) m0 (mkBoltStore (H := mem_bbolt) ∅) ex_saved (ex_record 9 5 0 0) ex_data ex_snap) as (Hst & _ & Hl).
  - reflexivity.
  - exact I.
  - reflexivity.
  - reflexivity.
  - intros k v r Hk. cbn in Hk. unfold bolt_kv in Hk. cbn in Hk. done.
  - vm_compute. discriminate.
  - apply ex_record_ok.
  - reflexivity.
  - reflexivity.
  - split; [exact Hst|exact Hl].
Defined.
