(* ===== verification/Node.v ===== *)
(** * Node: a running node

    The life of the [Manager] of [internal/transport/manager.go]: its
    construction, its start, the goroutines of each connection and the
    loops.  A node is the manager with the phase of each connection's
    goroutines; [node_step] is the function of one atomic step, and a run is a
    sequence of steps.  The steps of different goroutines interleave freely:
    a connection is set up, admitted, announced to the discovery tables and
    run in separate steps.  A received message is handled in one step; the
    interleavings inside [HandleIncoming] are in [GossipConc]. *)

From S2P Require Import Prelude Bytes Messages Seen KeyRing RateLimit Gossip Stream Frame Noise Strs.
From S2P Require Import Concrete Identity Peer Partyline Store Config Manager Discovery.

(** Why a connection did not become a peer. *)
Inductive connect_error :=
| AtCapacity
| HandshakeFailed (e : handshake_error)
| HelloFailed (e : peer_error).

(** Where the goroutines of a connection are: after the hello exchange and
    before [addPeer]; between [addPeer] and [onPeerConnected]; in [Run], with
    the receive loop and the send loop still running or returned; after
    [removePeer] or a rejection. *)
Inductive phase :=
| PGreeted
| PAdded
| PRunning (recv send : bool)
| PGone.

#[export] Instance phase_eq_dec : EqDecision phase.
Proof. solve_decision. Defined.

(** The manager, the connections, and whether [closeOnce] has run. *)
Record Node (N S : Type) := mkNode {
  n_mgr : Manager N S;
  n_phase : gmap positive phase;
  n_stopped : bool
}.
Arguments mkNode {N S}.
Arguments n_mgr {N S}.
Arguments n_phase {N S}.
Arguments n_stopped {N S}.

Section Node.
Context `{Crypto} `{Proto} `{KeyLib} `{NoiseXX} {C : Type} `{Conn C} {S : Type} `{Store S} `{RecordCodec}.

Abbreviation N := (noiseConn C).
Abbreviation Mgr := (Manager N S).
Implicit Types (m : Mgr) (n : Node N S).

(** ** Construction and start *)

(** [NewManager]; [None]: the noise key could not be derived. *)
Definition NewManager (cfg : Config) (id : Identity) (hub : Hub) (st : option S) : option Mgr :=
  match EdToNoiseKeypair id with
  | None => None
  | Some noiseKey =>
      let bootstrapSet := list_to_set (net_Bootstrap (cfg_Network cfg)) in
      let gossip := RegisterHandler (NewEngine (NodeID id) peerHandles) MsgTypeChat chat_handler in
      let mgr := mkManager cfg id noiseKey st gossip (mkWorld ∅ ∅ (SetRemoteSend hub)) ∅ ∅ bootstrapSet "" 0 0 0 [] in
      Some (loadKnownPeers (keyring_add mgr (NodeID id) (PublicKey id) TrustDirectlyVerified))
  end.

(** [Start] up to the loops it spawns; [bound] is what [net.Listen] returns,
    the bound address or an error. *)
Definition Start m (bound : option string) : option Mgr :=
  if negb (bool_decide (net_Listen (cfg_Network (m_cfg m)) = ""%string)) then
    match bound with
    | None => None
    | Some addr => Some (upd_listenAddr m addr)
    end
  else Some m.

(** What [Stop] does once: it closes every connected peer. *)
Definition Stop m : Mgr :=
  upd_world m
    (foldl (fun w e => match w_heap w !! e.2 with None => w | Some p => w_set_peer w e.2 (Close p) end)
       (m_world m) (map_to_list (w_peers (m_world m)))).

(** ** A connection *)

(** The part of [handleInbound] and of [dial] before [addPeer]. *)
Definition greet m (conn : C) (initiator : bool) (uuid : string) : result (Peer N) connect_error :=
  match Handshake conn initiator (m_noiseKey m) with
  | (Err e, _) => Err (HandshakeFailed e)
  | (Ok (nc, peerX25519), _) =>
      let peer := applyPeerTimeouts m (newPeer nc peerX25519 (m_id m) initiator) in
      match ExchangeHello peer (helloConfig m) uuid with
      | (Err e, _) => Err (HelloFailed e)
      | (Ok _, peer') => Ok peer'
      end
  end.

Definition greet_inbound m (conn : C) (uuid : string) : result (Peer N) connect_error :=
  if at_capacity m then Err AtCapacity else greet m conn false uuid.

Definition greet_outbound m (conn : C) (uuid : string) : result (Peer N) connect_error := greet m conn true uuid.

(** The callbacks of a peer: [peerExchangeHandler] and [gossipMessageHandler]. *)
Definition handle_action m (a : RecvAction) (o : Oracle (World N)) : Mgr :=
  match a with
  | RSkip => m
  | RPeerExchange _ infos => mergeDiscoveredPeers m infos
  | RGossip fromPeerID env =>
      let '(e, w, _) := HandleIncoming (m_gossip m) o fromPeerID env (m_world m) in
      upd_world (upd_gossip m e) w
  end.

(** A turn of the receive loop of the peer at [l]; false: the loop returns. *)
Definition peer_recv m (l : positive) (now : Z) (o : Oracle (World N)) : option (Mgr * bool) :=
  match w_heap (m_world m) !! l with
  | None => None
  | Some p =>
      match recvLoop_turn p now with
      | (Err _, p') => Some (upd_peer m l (Close p'), false)
      | (Ok a, p') => Some (handle_action (upd_peer m l p') a o, true)
      end
  end.

(** A turn of its send loop. *)
Definition peer_send m (l : positive) (c : send_case) : option (Mgr * bool) :=
  match w_heap (m_world m) !! l with
  | None => None
  | Some p =>
      match sendLoop_turn p c with
      | None => None
      | Some (Err _, p') => Some (upd_peer m l (Close p'), false)
      | Some (Ok _, p') => Some (upd_peer m l p', true)
      end
  end.

(** ** The fanout loop *)

(** The envelope of a local chat message. *)
Definition chat_envelope m (uuid : string) (payload : bytes) : Envelope :=
  SignEnvelope (mkEnvelope uuid (NodeID (m_id m)) 0 (eMaxHops (m_gossip m)) MsgTypeChat payload [] (PublicKey (m_id m)))
    (PrivateKey (m_id m)).

Definition fanout_msg m (msg : RemoteMsg) (now_s now : Z) (uuid : string) : Mgr :=
  match Marshal (mkChatMessage (rNick msg) (rText msg) (u64 now_s)) with
  | None => m
  | Some payload =>
      let '(e, w, _) := Broadcast (m_gossip m) now (chat_envelope m uuid payload) (m_world m) in
      upd_world (upd_gossip m e) w
  end.

(** A turn of [fanoutLoop] that finds a message in [remoteSend]. *)
Definition fanout_turn m (now_s now : Z) (uuid : string) : option Mgr :=
  let h := w_hub (m_world m) in
  match remoteSend h with
  | Some (msg :: _) =>
      Some (fanout_msg (upd_world m (w_set_hub (m_world m) (transport_read h))) msg now_s now uuid)
  | _ => None
  end.

(** ** Steps *)

Inductive node_event :=
| NGreet (l : positive) (conn : C) (initiator : bool) (uuid : string)
| NAdmit (l : positive)
| NAnnounce (l : positive) (now_s : Z) (uuid : string)
| NRecv (l : positive) (now : Z) (o : Oracle (World N))
| NSend (l : positive) (c : send_case)
| NQuit (l : positive)                    (* the loops see the closed [done] *)
| NRunEnd (l : positive)
| NFanout (now_s now : Z) (uuid : string)
| NExchange (now_s : Z) (uuids : list string)
| NDial (now : Z) (shuffle : list PeerRecord -> list PeerRecord)
| NDialed (rec : PeerRecord) (cancelled ok : bool) (now_s : Z)
| NHub (e : hub_event)
| NCleanupSeen (now : Z)
| NCleanupLimiter (now : Z)
| NPeerCleanup (l : positive) (now : Z)
| NSave (i : nat)
| NStop.

Definition set_phase n (l : positive) (ph : phase) : Node N S := mkNode (n_mgr n) (<[l := ph]> (n_phase n)) (n_stopped n).
Definition set_mgr n m : Node N S := mkNode m (n_phase n) (n_stopped n).

(** After a turn of a loop: the node, and whether the loop goes on. *)
Definition after_turn n (r : option (Mgr * bool)) (l : positive) (ph : phase) : option (Node N S) :=
  match r with
  | None => None
  | Some (m, true) => Some (set_mgr n m)
  | Some (m, false) => Some (set_phase (set_mgr n m) l ph)
  end.

(** [None]: the step cannot happen in this state. A fresh pointer [l] holds a
    connection whose hello exchange succeeded; a failed one leaves no trace. *)
Definition node_step n (ev : node_event) : option (Node N S) :=
  let m := n_mgr n in
  match ev with
  | NGreet l conn initiator uuid =>
      match w_heap (m_world m) !! l, (if initiator : bool then greet_outbound m conn uuid else greet_inbound m conn uuid) with
      | None, Ok p => Some (set_phase (set_mgr n (upd_peer m l p)) l PGreeted)
      | None, Err _ => Some n
      | Some _, _ => None
      end
  | NAdmit l =>
      match n_phase n !! l with
      | Some PGreeted =>
          let '(reason, m') := addPeer m l in
          Some (set_phase (set_mgr n m') l (if bool_decide (reason = ""%string) then PAdded else PGone))
      | _ => None
      end
  | NAnnounce l now_s uuid =>
      match n_phase n !! l with
      | Some PAdded => Some (set_phase (set_mgr n (onPeerConnected m l now_s uuid)) l (PRunning true true))
      | _ => None
      end
  | NRecv l now o =>
      match n_phase n !! l with
      | Some (PRunning true send) => after_turn n (peer_recv m l now o) l (PRunning false send)
      | _ => None
      end
  | NSend l c =>
      match n_phase n !! l with
      | Some (PRunning recv true) => after_turn n (peer_send m l c) l (PRunning recv false)
      | _ => None
      end
  | NQuit l =>
      match n_phase n !! l, w_heap (m_world m) !! l with
      | Some (PRunning _ _), Some p => if done p then Some (set_phase n l (PRunning false false)) else None
      | _, _ => None
      end
  | NRunEnd l =>
      match n_phase n !! l, w_heap (m_world m) !! l with
      | Some (PRunning false false), Some p => Some (set_phase (set_mgr n (removePeer m (pNodeID p))) l PGone)
      | _, _ => None
      end
  | NFanout now_s now uuid => set_mgr n <$> fanout_turn m now_s now uuid
  | NExchange now_s uuids => Some (set_mgr n (exchange_tick m now_s uuids))
  | NDial now shuffle => Some (set_mgr n (tryDiscoveryDials m now shuffle).2)
  | NDialed rec cancelled ok now_s => Some (set_mgr n (dialDiscovered m rec cancelled ok now_s))
  | NHub e =>
      match e with
      | ERemote _ _ | ETransportRead => None
      | _ => (fun h => set_mgr n (upd_world m (w_set_hub (m_world m) h))) <$> hub_step (w_hub (m_world m)) e
      end
  | NCleanupSeen now => Some (set_mgr n (upd_gossip m (cleanup_Seen (m_gossip m) now)))
  | NCleanupLimiter now => Some (set_mgr n (upd_gossip m (cleanup_Limiter (m_gossip m) now)))
  | NPeerCleanup l now =>
      match w_heap (m_world m) !! l with
      | None => None
      | Some p => Some (set_mgr n (upd_peer m l (cleanupSeen p now)))
      end
  | NSave i => set_mgr n <$> save_turn m i
  | NStop => Some (if n_stopped n then n else mkNode (Stop m) (n_phase n) true)
  end.

Fixpoint node_run n (evs : list node_event) : option (Node N S) :=
  match evs with
  | [] => Some n
  | ev :: evs' => match node_step n ev with None => None | Some n1 => node_run n1 evs' end
  end.

End Node.
