(* ===== verification/NodeInv.v ===== *)
(** * NodeInv: the invariants of a running node

    What each step of a node preserves: the operations of the manager keep the
    peer table, the keys and the known peers well formed, and every reachable
    state satisfies [node_inv]. *)

From S2P Require Import Prelude Bytes Messages Concrete Seen KeyRing RateLimit Gossip GossipProps Stream Frame Noise.
From S2P Require Import Identity Peer PeerProps Partyline PartylineProps Store Config Manager Discovery.
From S2P Require Import DiscoveryProps Node.

Section Preserve.
Context `{Crypto} `{Proto} `{KeyLib} `{NoiseXX} {C : Type} `{Conn C} {S : Type} `{Store S} `{RecordCodec}.

Abbreviation N := (noiseConn C).
Abbreviation Mgr := (Manager N S).
Implicit Types (m : Mgr) (w : World N) (p : Peer N).

(** ** What the steps leave alone *)

(** A peer after an operation: the connection, the queue, the duplicate table
    and the timeouts may differ, its identity and callbacks do not. *)
Definition peer_rel p p' : Prop :=
  pNodeID p' = pNodeID p /\ edPubKey p' = edPubKey p /\ peerX25519 p' = peerX25519 p /\
  onPeerExchange p' = onPeerExchange p /\ onGossipMessage p' = onGossipMessage p /\
  ((length (sendCh p) <= sendChCap)%nat -> (length (sendCh p') <= sendChCap)%nat).

#[export] Instance peer_rel_refl : Reflexive peer_rel.
Proof. intros p. by split_and!. Qed.
#[export] Instance peer_rel_trans : Transitive peer_rel.
Proof.
  intros p1 p2 p3 (E1 & E2 & E3 & E4 & E5 & E6) (F1 & F2 & F3 & F4 & F5 & F6). split_and!; try congruence. auto.
Qed.

(** Messages delivered from remote nodes. *)
Definition deliver_all (h : Hub) (msgs : list (string * string)) : Hub :=
  foldl (fun h x => DeliverRemote h x.1 x.2) h msgs.

(** The table and the heap after an operation that neither adds nor removes a
    peer. *)
Definition table_rel w w' : Prop :=
  w_peers w' = w_peers w /\
  forall l, option_relation peer_rel (fun _ => False) (fun _ => False) (w_heap w !! l) (w_heap w' !! l).

#[export] Instance table_rel_refl : Reflexive table_rel.
Proof. intros w. split; [done|]. intros l. by destruct (w_heap w !! l); cbn. Qed.
#[export] Instance table_rel_trans : Transitive table_rel.
Proof.
  intros w1 w2 w3 (E1 & E2) (F1 & F2). split; [congruence|].
  intros l. specialize (E2 l). specialize (F2 l).
  destruct (w_heap w1 !! l), (w_heap w2 !! l), (w_heap w3 !! l); cbn in *; try done. by etransitivity.
Qed.

Lemma table_rel_lookup w w' l p' :
  table_rel w w' -> w_heap w' !! l = Some p' -> exists p, w_heap w !! l = Some p /\ peer_rel p p'.
Proof. intros (_ & Hh) E. specialize (Hh l). rewrite E in Hh. destruct (w_heap w !! l); [|done]. eauto. Qed.

Lemma table_rel_lookup_l w w' l p :
  table_rel w w' -> w_heap w !! l = Some p -> exists p', w_heap w' !! l = Some p' /\ peer_rel p p'.
Proof. intros (_ & Hh) E. specialize (Hh l). rewrite E in Hh. destruct (w_heap w' !! l); [|done]. eauto. Qed.

Lemma table_rel_hub w h : table_rel w (w_set_hub w h).
Proof. split; [done|]. intros l. cbn. by destruct (w_heap w !! l); cbn. Qed.

(** If, moreover, the hub has only been sent remote messages. *)
Definition world_rel w w' : Prop := table_rel w w' /\ exists msgs, w_hub w' = deliver_all (w_hub w) msgs.

#[export] Instance world_rel_refl : Reflexive world_rel.
Proof. intros w. split; [done|by exists []]. Qed.
#[export] Instance world_rel_trans : Transitive world_rel.
Proof.
  intros w1 w2 w3 (E1 & msgs & E3) (F1 & msgs' & F3). split; [by etransitivity|].
  exists (msgs ++ msgs'). rewrite F3, E3. unfold deliver_all. by rewrite foldl_app.
Qed.

Lemma world_rel_set_peer w l p p' : w_heap w !! l = Some p -> peer_rel p p' -> world_rel w (w_set_peer w l p').
Proof.
  intros E Hp. split; [split; [done|]|by exists []]. intros l'. cbn. rewrite lookup_insert.
  destruct (decide (l = l')) as [<-|]; [by rewrite E|]. by destruct (w_heap w !! l').
Qed.

Lemma world_rel_foldl {A} (f : World N -> A -> World N) w l :
  (forall w a, world_rel w (f w a)) -> world_rel w (foldl f w l).
Proof.
  intros Hf. revert w. induction l as [|a l IH]; intros w; [done|]. cbn. by etransitivity; [apply (Hf w a)|].
Qed.

Lemma SendRaw_rel p data : peer_rel p (SendRaw p data).2.
Proof.
  unfold SendRaw. destruct (Nat.ltb_spec (length (sendCh p)) sendChCap); [|done]. split_and!; try done.
  intros _. cbn. rewrite length_app. cbn. lia.
Qed.

Lemma Close_rel p : peer_rel p (Close p).
Proof. by split_and!. Qed.

Lemma cleanupSeen_rel p now : peer_rel p (cleanupSeen p now).
Proof. by split_and!. Qed.

Lemma set_conn_rel p c : peer_rel p (set_conn p c).
Proof. by split_and!. Qed.

Lemma recvLoop_turn_rel p now : peer_rel p (recvLoop_turn p now).2.
Proof.
  unfold recvLoop_turn. destruct (SetReadDeadline _); [|done]. destruct (ReadFrame (conn p)) as [[data|e] c]; [|apply set_conn_rel].
  destruct (Unmarshal data : option Envelope) as [env|]; [|apply set_conn_rel].
  pose proof (dispatch_seen (set_conn p c) env now) as E. destruct (dispatch _ env now) as [a p2]. cbn in *. rewrite E.
  case_bool_decide; [|apply set_conn_rel]. unfold isDuplicate. cbn. by destruct (pseen p !! MessageId env); split_and!.
Qed.

Lemma sendWithDeadline_rel p data : peer_rel p (sendWithDeadline p data).2.
Proof. unfold sendWithDeadline. destruct (SetWriteDeadline _); [|done]. destruct (WriteFrame (conn p) data) as [[[]|e] c]; apply set_conn_rel. Qed.

Lemma sendLoop_turn_rel p c r : sendLoop_turn p c = Some r -> peer_rel p r.2.
Proof.
  destruct c; cbn.
  - destruct (sendCh p) as [|d q] eqn:Hq; [done|]. intros [= <-].
    etransitivity; [|apply sendWithDeadline_rel]. split_and!; try done. rewrite Hq. cbn. lia.
  - unfold writeKeepalive. destruct (Marshal _); intros [= <-]; [apply sendWithDeadline_rel|done].
Qed.

(** ** The engine's calls *)

Lemma handle_send_rel l data w : world_rel w (handle_send l data w).2.
Proof.
  unfold handle_send. destruct (w_heap w !! l) as [p|] eqn:E; [|done].
  pose proof (SendRaw_rel p data) as Hr. destruct (SendRaw p data) as [ok p']. by apply (world_rel_set_peer w l p).
Qed.

Lemma peerHandles_send w ph : ph ∈ peerHandles w -> exists l, ph_Send ph = handle_send l.
Proof.
  intros ([id l] & _ & E)%list_elem_of_omap. cbn in E. destruct (w_heap w !! l); [|done]. injection E as <-. by exists l.
Qed.

Lemma send_all_rel raw (ps : list (PeerHandle (World N))) w :
  (forall ph, ph ∈ ps -> exists l, ph_Send ph = handle_send l) -> world_rel w (send_all raw ps w).2.
Proof.
  revert w. induction ps as [|ph ps IH]; intros w Hps; [done|]. cbn.
  destruct (Hps ph) as [l Hl]; [left|]. pose proof (handle_send_rel l raw w) as Hr. rewrite Hl.
  destruct (handle_send l raw w) as [ok w1]. specialize (IH w1 (fun q Hq => Hps q (list_elem_of_further _ _ _ Hq))).
  destruct (send_all raw ps w1) as [sent w2]. cbn in *. by etransitivity.
Qed.

(** The engine of a node: its handlers and its view of the peers are those
    [NewManager] installs. *)
Definition engine_ok (e : Engine (World N)) : Prop :=
  eGetPeers e = peerHandles /\ eHandlers e = {[ MsgTypeChat := chat_handler ]} /\ eMaxHops e = DefaultMaxHops.

Lemma engine_ok_same e e' : engine_ok e -> same_tables e e' -> engine_ok e'.
Proof. intros (E1 & E2 & E3) (_ & _ & _ & _ & F1 & F2 & _ & F3). split_and!; congruence. Qed.

Lemma chat_handler_rel sender payload w : world_rel w (chat_handler sender payload w).
Proof.
  unfold chat_handler. destruct (Unmarshal payload : option ChatMessage) as [chat|]; [|done].
  split; [apply table_rel_hub|by exists [(chat_Nick chat, chat_Text chat)]].
Qed.

Lemma forward_targets_elem {W} (e : Engine W) (o : Oracle W) peers from ph :
  shuffles o -> ph ∈ forward_targets e o peers from -> ph ∈ peers.
Proof.
  intros Hs. unfold forward_targets. split_if.
  - intros Hin%elem_of_take. rewrite (Hs _) in Hin. by apply list_elem_of_filter in Hin as [_ ?].
  - by intros [_ ?]%list_elem_of_filter.
Qed.

Lemma forwardTo_rel e o raw from w :
  engine_ok e -> shuffles o -> world_rel w (forwardTo e o raw from w).2.
Proof.
  intros [Hg _] Hs. rewrite forwardTo_world. apply send_all_rel. intros ph Hin%forward_targets_elem; [|done].
  rewrite Hg in Hin. by eapply peerHandles_send.
Qed.

Lemma deliver_ok e env w : engine_ok e -> engine_ok (deliver e env w).1 /\ world_rel w (deliver e env w).2.
Proof.
  intros He. pose proof He as (Hg & Hh & _). unfold deliver. rewrite Hh. destruct (decide (MsgType env = MsgTypeChat)) as [->|Hne].
  - rewrite lookup_singleton_eq. split; [done|]. apply chat_handler_rel.
  - by rewrite lookup_singleton_ne.
Qed.

Lemma process_ok e o from env w :
  engine_ok e -> shuffles o -> engine_ok (process e o from env w).1 /\ world_rel w (process e o from env w).2.
Proof.
  intros He Hs. split; [eapply engine_ok_same; [done|apply process_tables]|]. unfold process.
  destruct (deliver_ok (set_Stats e (add_Received (eStats e) 1)) env w He) as [He2 Hr].
  destruct (deliver _ env w) as [e2 w2]. cbn [fst snd] in *. rewrite forward_relay.
  etransitivity; [exact Hr|]. destruct (relay_bytes env); [|done]. by apply forwardTo_rel.
Qed.

Lemma HandleIncoming_ok e o from env w :
  engine_ok e -> shuffles o -> ring_bound (eKeyRing e) ->
  let r := HandleIncoming e o from env w in
  engine_ok r.1.1 /\ world_rel w r.1.2 /\ ring_bound (eKeyRing r.1.1).
Proof.
  intros He Hs Hring r. assert (ring_bound (lookup_or_learn (eKeyRing e) env).2) as Hring'.
  { destruct (lookup_or_learn_ring (eKeyRing e) env) as [->|[-> Hid]]; [done|]. by apply KeyRing_Forall_Add. }
  unfold r. handle_cases e o from env w; rewrite Hr; try by split_and!.
  cbn [fst snd]. set (e3 := set_Seen _ _).
  destruct (process_ok e3 o from env w) as [? ?]; [done|done|]. split_and!; try done.
  by destruct (process_tables e3 o from env w) as (_ & -> & _).
Qed.

Lemma Broadcast_ok e now env w :
  engine_ok e -> let r := Broadcast e now env w in
  engine_ok r.1.1 /\ world_rel w r.1.2 /\ eKeyRing r.1.1 = eKeyRing e.
Proof.
  intros He r. unfold r, Broadcast. destruct (Marshal env) as [raw|]; [|by split_and!].
  pose proof (send_all_rel raw (peerHandles w) w (peerHandles_send w)) as Hr.
  cbn [eGetPeers set_Seen]. rewrite (proj1 He). destruct (send_all raw (peerHandles w) w) as [sent w']. cbn in *.
  by split_and!.
Qed.

(** ** The manager's operations *)

Record mgr_ok m : Prop := {
  mo_engine : engine_ok (m_gossip m);
  mo_ring : ring_bound (eKeyRing (m_gossip m));
  mo_known : known_ok (m_knownPeers m)
}.

(** An operation that keeps the invariants and the table. *)
Definition mgr_rel m m' : Prop :=
  mgr_ok m -> m_cfg m' = m_cfg m /\ m_id m' = m_id m /\ world_rel (m_world m) (m_world m') /\ mgr_ok m'.

#[export] Instance mgr_rel_refl : Reflexive mgr_rel.
Proof. intros m Hm. by split_and!. Qed.
#[export] Instance mgr_rel_trans : Transitive mgr_rel.
Proof.
  intros m1 m2 m3 R1 R2 Hm. destruct (R1 Hm) as (E1 & E2 & E3 & Hm2). destruct (R2 Hm2) as (F1 & F2 & F3 & ?).
  split_and!; try congruence. by etransitivity.
Qed.

Lemma mgr_rel_foldl {A} (f : Mgr -> A -> Mgr) m l : (forall m a, mgr_rel m (f m a)) -> mgr_rel m (foldl f m l).
Proof.
  intros Hf. revert m. induction l as [|a l IH]; intros m; [done|]. cbn. by etransitivity; [apply (Hf m a)|].
Qed.

Lemma only_store_rel m m' : only_store m m' -> mgr_rel m m'.
Proof. intros -> [He Hr Hk]. by split_and!. Qed.

Lemma upd_peer_rel m l p p' : w_heap (m_world m) !! l = Some p -> peer_rel p p' -> mgr_rel m (upd_peer m l p').
Proof. intros E Hp [He Hr Hk]. split_and!; try done. by apply (world_rel_set_peer _ l p). Qed.

Lemma upd_known_rel m k : (known_ok (m_knownPeers m) -> known_ok k) -> mgr_rel m (upd_known m k).
Proof. intros Hk' [He Hr Hk]. split_and!; try done. split; auto. Qed.

Lemma upd_dialing_rel m d : mgr_rel m (upd_dialing m d).
Proof. intros [He Hr Hk]. by split_and!. Qed.

Lemma keyring_add_rel m id key t : node_id key = id -> mgr_rel m (keyring_add m id key t).
Proof. intros Hid [[He1 He2] Hr Hk]. split_and!; try done. split; try done. by apply KeyRing_Forall_Add. Qed.

Lemma saveKnownPeer_rel m rec : mgr_rel m (saveKnownPeer m rec).
Proof. apply only_store_rel, saveKnownPeer_only_store. Qed.

Lemma start_saving_rel m recs release : mgr_rel m (start_saving m recs release).
Proof. apply only_store_rel, start_saving_only_store. Qed.

Lemma save_turn_rel m i m' : save_turn m i = Some m' -> mgr_rel m m'.
Proof.
  unfold save_turn. destruct (m_savers m !! i) as [[[|rec recs] release]|]; [|intros [= <-]|done].
  - destruct release as [id|]; intros [= <-]; [etransitivity; [|apply upd_dialing_rel]|]; by apply only_store_rel.
  - etransitivity; [|apply saveKnownPeer_rel]. by apply only_store_rel.
Qed.

Lemma mergeDiscoveredPeers_rel m infos : mgr_rel m (mergeDiscoveredPeers m infos).
Proof.
  unfold mergeDiscoveredPeers.
  set (m1 := upd_gossip m _). assert (mgr_rel m m1) as R1.
  { intros [(He1 & He2 & He3) Hr Hk]. split_and!; try done. split; try done. by apply learn_keys_ok. }
  destruct (merge_all _ _) as [k ps] eqn:Hm. etransitivity; [exact R1|].
  transitivity (upd_known m1 k); [|by destruct ps; [|apply start_saving_rel]]. apply upd_known_rel. intros Hk.
  pose proof (merge_all_ok _ (omap (valid_info (NodeID (m_id m))) infos) Hk (valid_infos_ok _ _)) as Hok.
  by rewrite Hm in Hok.
Qed.

Lemma sendPeerExchangeTo_rel m l now_s uuid : mgr_rel m (sendPeerExchangeTo m l now_s uuid).
Proof.
  unfold sendPeerExchangeTo. destruct (w_heap (m_world m) !! l) as [p|] eqn:E; [|done].
  destruct (buildPeerInfoList _ _ _); [done|]. destruct (Marshal _); [|done]. destruct (Marshal _); [|done].
  eapply upd_peer_rel; [done|apply SendRaw_rel].
Qed.

Lemma exchange_tick_rel m now_s uuids : mgr_rel m (exchange_tick m now_s uuids).
Proof. apply mgr_rel_foldl. intros m' e. apply sendPeerExchangeTo_rel. Qed.

Lemma connected_record_ok p now_s :
  peer_verified p -> len (edPubKey p) = PublicKeySize ->
  record_ok (mkPeerRecord (pNodeID p) (remoteListenAddr p) (remoteReachable p) (hex_encode (edPubKey p)) now_s 0 0).
Proof. intros [Hid _] Hl _. exists (edPubKey p). cbn. by rewrite hex_decode_encode. Qed.

Lemma onPeerConnected_rel m l p now_s uuid :
  w_heap (m_world m) !! l = Some p -> peer_verified p -> len (edPubKey p) = PublicKeySize ->
  mgr_rel m (onPeerConnected m l now_s uuid).
Proof.
  intros E Hp Hl. unfold onPeerConnected. rewrite E. 
  etransitivity; [apply keyring_add_rel; symmetry; apply Hp|].
  etransitivity; [|apply sendPeerExchangeTo_rel]. etransitivity; [|apply start_saving_rel].
  apply upd_known_rel. intros Hk.
  by apply (known_ok_insert _ (mkPeerRecord (pNodeID p) _ _ _ _ _ _) Hk), connected_record_ok.
Qed.

Lemma tryDiscoveryDials_rel m now shuffle : mgr_rel m (tryDiscoveryDials m now shuffle).2.
Proof.
  unfold tryDiscoveryDials. destruct (at_capacity m); [done|]. destruct (filter _ _); [done|]. apply upd_dialing_rel.
Qed.

Lemma dialDiscovered_rel m rec cancelled ok now_s : mgr_rel m (dialDiscovered m rec cancelled ok now_s).
Proof.
  unfold dialDiscovered. destruct (cancelled || ok); [apply upd_dialing_rel|].
  destruct (m_knownPeers m !! rec_NodeID rec) as [r|] eqn:E; [|apply upd_dialing_rel].
  etransitivity; [|apply start_saving_rel]. apply upd_known_rel. intros Hk.
  destruct (Hk _ _ E) as [<- Hr]. by apply (known_ok_insert _ (mkPeerRecord _ _ _ _ _ _ _)).
Qed.

Lemma upd_engine_rel m e w :
  (engine_ok (m_gossip m) -> ring_bound (eKeyRing (m_gossip m)) ->
   engine_ok e /\ world_rel (m_world m) w /\ ring_bound (eKeyRing e)) ->
  mgr_rel m (upd_world (upd_gossip m e) w).
Proof. intros Hew [He Hr Hk]. destruct (Hew He Hr) as (? & ? & ?). by split_and!. Qed.

Lemma handle_action_rel m a o : shuffles o -> mgr_rel m (handle_action m a o).
Proof.
  intros Hs. destruct a as [|id infos|from env]; [done|apply mergeDiscoveredPeers_rel|].
  cbn. destruct (HandleIncoming _ o from env _) as [[e w] out] eqn:Hi. apply upd_engine_rel. intros He Hr.
  pose proof (HandleIncoming_ok _ o from env (m_world m) He Hs Hr) as Hok. rewrite Hi in Hok. exact Hok.
Qed.

Lemma peer_recv_rel m l now o r : shuffles o -> peer_recv m l now o = Some r -> mgr_rel m r.1.
Proof.
  intros Hs. unfold peer_recv. destruct (w_heap (m_world m) !! l) as [p|] eqn:E; [|done].
  pose proof (recvLoop_turn_rel p now) as Hr. destruct (recvLoop_turn p now) as [[a|e] p']; intros [= <-]; cbn in *.
  - etransitivity; [by apply (upd_peer_rel m l p p')|]. by apply handle_action_rel.
  - eapply upd_peer_rel; [done|]. etransitivity; [exact Hr|apply Close_rel].
Qed.

Lemma peer_send_rel m l c r : peer_send m l c = Some r -> mgr_rel m r.1.
Proof.
  unfold peer_send. destruct (w_heap (m_world m) !! l) as [p|] eqn:E; [|done].
  destruct (sendLoop_turn p c) as [[[u|e] p']|] eqn:Hst; intros [= <-]; cbn;
    pose proof (sendLoop_turn_rel p c _ Hst) as Hr; cbn in Hr.
  - by apply (upd_peer_rel m l p p').
  - eapply upd_peer_rel; [done|]. etransitivity; [exact Hr|apply Close_rel].
Qed.

Lemma fanout_msg_rel m msg now_s now uuid : mgr_rel m (fanout_msg m msg now_s now uuid).
Proof.
  unfold fanout_msg. destruct (Marshal _) as [payload|]; [|done].
  destruct (Broadcast _ _ _ _) as [[e w] st] eqn:Hb. apply upd_engine_rel. intros He Hr.
  pose proof (Broadcast_ok _ now (chat_envelope m uuid payload) (m_world m) He) as (? & ? & Hk).
  rewrite Hb in *. cbn in *. by rewrite Hk.
Qed.

Lemma Stop_rel m : mgr_rel m (Stop m).
Proof.
  intros [He Hr Hk]. split_and!; try done. apply world_rel_foldl. intros w [id l]. cbn.
  destruct (w_heap w !! l) as [p|] eqn:E; [|done]. by apply (world_rel_set_peer w l p).
Qed.
End Preserve.

(** ** Reachable states *)

Section Reachable.
Context `{Crypto} `{Proto} `{KeyLib} `{NoiseXX} {C : Type} `{Conn C} {S : Type} `{Store S} `{RecordCodec}.

Abbreviation N := (noiseConn C).
Abbreviation Mgr := (Manager N S).
Implicit Types (m : Mgr) (n : Node N S) (p : Peer N) (w : World N).

(** What the library functions guarantee of a step's environment, and what
    the callers of the hub guarantee. *)
Definition valid_node_event n (ev : node_event (C := C)) : Prop :=
  match ev with
  | NHub e => valid_event (w_hub (m_world (n_mgr n))) e
  | NRecv _ _ o => shuffles o
  | NDial _ shuffle => forall l, Permutation (shuffle l) l
  | _ => True
  end.

Inductive node_steps : Node N S -> list node_event -> Node N S -> Prop :=
| ns_nil n : node_steps n [] n
| ns_cons n ev n1 evs n2 :
    valid_node_event n ev -> node_step n ev = Some n1 -> node_steps n1 evs n2 -> node_steps n (ev :: evs) n2.

(** Between [addPeer] and [removePeer]. *)
Definition admitted (ph : phase) : bool := match ph with PAdded | PRunning _ _ => true | _ => false end.

Definition peer_ok p : Prop :=
  peer_verified p /\ len (edPubKey p) = PublicKeySize /\ (length (sendCh p) <= sendChCap)%nat.

Lemma peer_ok_rel p p' : peer_ok p -> peer_rel p p' -> peer_ok p'.
Proof.
  intros ([Hid Hx] & Hl & Hq) (E1 & E2 & E3 & _ & _ & E6). split_and!; [|by rewrite E2|by apply E6].
  split; by rewrite ?E1, ?E2, ?E3.
Qed.

Record node_inv (cfg : Config) (id : Identity) n : Prop := {
  ni_cfg : m_cfg (n_mgr n) = cfg;
  ni_id : m_id (n_mgr n) = id;
  ni_ok : mgr_ok (n_mgr n);
  ni_phase l : is_Some (n_phase n !! l) <-> is_Some (w_heap (m_world (n_mgr n)) !! l);
  ni_peer l p : w_heap (m_world (n_mgr n)) !! l = Some p -> peer_ok p;
  ni_table nid l : w_peers (m_world (n_mgr n)) !! nid = Some l ->
    exists p, w_heap (m_world (n_mgr n)) !! l = Some p /\ pNodeID p = nid /\ admitted <$> n_phase n !! l = Some true;
  ni_admitted l p : w_heap (m_world (n_mgr n)) !! l = Some p -> admitted <$> n_phase n !! l = Some true ->
    w_peers (m_world (n_mgr n)) !! pNodeID p = Some l /\ onGossipMessage p = true /\ onPeerExchange p = true;
  ni_size : 0 < net_MaxPeers (cfg_Network cfg) -> len (map_to_list (w_peers (m_world (n_mgr n)))) <= net_MaxPeers (cfg_Network cfg)
}.

(** A step that keeps the table and moves no connection in or out of it. *)
Lemma node_inv_rel cfg id n m' ph' st' :
  node_inv cfg id n -> m_cfg m' = m_cfg (n_mgr n) -> m_id m' = m_id (n_mgr n) ->
  table_rel (m_world (n_mgr n)) (m_world m') -> mgr_ok m' ->
  (forall l, admitted <$> ph' !! l = admitted <$> n_phase n !! l) -> node_inv cfg id (mkNode m' ph' st').
Proof.
  intros [Hc Hi Hok Hph Hp Ht Ha Hs] Ec Ei Hrel Hok' Hph'. pose proof Hrel as [Epeers Hheap]. split; cbn.
  - congruence.
  - congruence.
  - done.
  - intros l. specialize (Hheap l). specialize (Hph l). specialize (Hph' l).
    assert (is_Some (w_heap (m_world m') !! l) <-> is_Some (w_heap (m_world (n_mgr n)) !! l)) as ->.
    { destruct (w_heap (m_world (n_mgr n)) !! l), (w_heap (m_world m') !! l); cbn in Hheap; try done; split; by intros []. }
    rewrite <- Hph. destruct (ph' !! l), (n_phase n !! l); cbn in Hph'; try done; split; by intros [].
  - intros l p' Ep'. destruct (table_rel_lookup _ _ _ _ Hrel Ep') as (p & Ep & Hr). by eapply peer_ok_rel; [apply (Hp l)|].
  - intros nid l. rewrite Epeers, Hph'. intros El. apply Ht in El as (p & Ep & Hid & Had).
    destruct (table_rel_lookup_l _ _ _ _ Hrel Ep) as (p' & Ep' & (E1 & _)). exists p'. split_and!; [done|congruence|done].
  - intros l p' Ep'. rewrite Hph', Epeers. intros Had.
    destruct (table_rel_lookup _ _ _ _ Hrel Ep') as (p & Ep & (E1 & _ & _ & E4 & E5 & _)).
    rewrite E1, E4, E5. by apply Ha.
  - by rewrite Epeers.
Qed.

Lemma node_inv_mgr cfg id n m' ph' st' :
  node_inv cfg id n -> mgr_rel (n_mgr n) m' ->
  (forall l, admitted <$> ph' !! l = admitted <$> n_phase n !! l) -> node_inv cfg id (mkNode m' ph' st').
Proof.
  intros Hi Hrel. destruct (Hrel (ni_ok _ _ _ Hi)) as (Ec & Ei & [Ew _] & Hok). by apply node_inv_rel.
Qed.

(** Changing the phase of one connection within the same part of its life. *)
Lemma phase_insert (ph : gmap positive phase) l x y :
  ph !! l = Some x -> admitted x = admitted y ->
  forall k, admitted <$> <[l := y]> ph !! k = admitted <$> ph !! k.
Proof.
  intros E Hxy k. rewrite lookup_insert. destruct (decide (l = k)) as [<-|]; [|done]. rewrite E. cbn. by rewrite Hxy.
Qed.

(** *** The connection's entry and exit *)

Lemma verifyPeerIdentity_sendCh p hello : sendCh (verifyPeerIdentity p hello).2 = sendCh p.
Proof.
  unfold verifyPeerIdentity. destruct (negb _); [done|]. destruct (EdPublicToX25519 _); [|done]. by destruct (negb _).
Qed.

Lemma hello_received_key data ty hello : hello_received data ty hello -> len (hello_Ed25519Pubkey hello) = PublicKeySize.
Proof.
  intros (env & _ & _ & _ & Hv & _). unfold VerifyEnvelope in Hv.
  destruct (Z.eqb_spec (len (hello_Ed25519Pubkey hello)) PublicKeySize); [done|]. by cbn in Hv.
Qed.

Lemma set_conn_ok p c : peer_ok (set_conn p c) <-> peer_ok p.
Proof. unfold peer_ok. split; intros ([? ?] & ? & ?); by split_and!. Qed.

Lemma verified_hello_ok p hello data ty p' :
  hello_received data ty hello -> sendCh p = [] -> verifyPeerIdentity p hello = (Ok tt, p') -> peer_ok p'.
Proof.
  intros Hh Hq Hv. pose proof (verifyPeerIdentity_sendCh p hello) as Hs. rewrite Hv in Hs. cbn in Hs.
  apply verifyPeerIdentity_ok in Hv as (Hpv & _ & _ & _ & Hk & _). split_and!; [done| |].
  - rewrite Hk. by eapply hello_received_key.
  - rewrite Hs, Hq. cbn. lia.
Qed.

Lemma ExchangeHello_ok p cfg uuid p' : sendCh p = [] -> ExchangeHello p cfg uuid = (Ok tt, p') -> peer_ok p'.
Proof.
  intros Hq. unfold ExchangeHello. destruct (SetReadDeadline _), (SetWriteDeadline _); try done. destruct (initiator p).
  - destruct (sendHello p _ _ _) as [[[]|e] p1] eqn:Hs; [|done]. apply sendHello_same in Hs.
    destruct (recvHello p1 _) as [[ack|e] p2] eqn:Hr; [|done].
    apply recvHello_ok in Hr as (data & c & _ & -> & Hrec). eapply verified_hello_ok; [exact Hrec|].
    rewrite Hs. exact Hq.
  - destruct (recvHello p _) as [[hello|e] p1] eqn:Hr; [|done].
    apply recvHello_ok in Hr as (data & c & _ & -> & Hrec).
    destruct (verifyPeerIdentity _ hello) as [[[]|e] p2] eqn:Hv; [|done]. intros Hs%sendHello_same.
    rewrite Hs. apply set_conn_ok. eapply verified_hello_ok; [exact Hrec| |exact Hv]. exact Hq.
Qed.

Lemma applyPeerTimeouts_sendCh m p : sendCh (applyPeerTimeouts m p) = sendCh p.
Proof. unfold applyPeerTimeouts. by repeat split_if. Qed.

Lemma greet_ok m c initiator uuid p : greet m c initiator uuid = Ok p -> peer_ok p.
Proof.
  unfold greet. destruct (Handshake c initiator _) as [[[nc x]|e] c']; [|done].
  destruct (ExchangeHello _ _ uuid) as [[[]|e] p'] eqn:Hx; [|done]. intros [= <-].
  eapply ExchangeHello_ok; [|exact Hx]. by rewrite applyPeerTimeouts_sendCh.
Qed.

Lemma greet_step cfg id n l p :
  node_inv cfg id n -> w_heap (m_world (n_mgr n)) !! l = None -> peer_ok p ->
  node_inv cfg id (set_phase (set_mgr n (upd_peer (n_mgr n) l p)) l PGreeted).
Proof.
  intros [Hc Hi [He Hr Hk] Hph Hp Ht Ha Hs] El Hpk. split; cbn; try done.
  - intros k. rewrite !lookup_insert. destruct (decide (l = k)); [split; by eexists|apply Hph].
  - intros k p'. rewrite lookup_insert_Some. intros [[<- <-]|[_ E]]; [done|by eapply Hp].
  - intros nid k Ek. apply Ht in Ek as (p' & E & Hid & Had). exists p'.
    assert (l <> k) by (intros ->; congruence). by rewrite !lookup_insert_ne.
  - intros k p'. rewrite !lookup_insert. destruct (decide (l = k)); [done|]. apply Ha.
Qed.

Lemma admit_step cfg id n l reason m' :
  node_inv cfg id n -> n_phase n !! l = Some PGreeted -> addPeer (n_mgr n) l = (reason, m') ->
  node_inv cfg id (set_phase (set_mgr n m') l (if bool_decide (reason = ""%string) then PAdded else PGone)).
Proof.
  intros Hinv Hl Hadd. assert (is_Some (w_heap (m_world (n_mgr n)) !! l)) as [p Ep] by (apply Hinv; by eexists).
  assert (forall nid k, w_peers (m_world (n_mgr n)) !! nid = Some k -> l <> k) as Hfresh.
  { intros nid k (p' & _ & _ & Had)%(ni_table _ _ _ Hinv) ->. rewrite Hl in Had. done. }
  unfold addPeer in Hadd. rewrite Ep in Hadd.
  assert (forall r m1, (r, m1) = (reason, m') -> r <> ""%string -> m1 = n_mgr n ->
    node_inv cfg id (set_phase (set_mgr n m') l (if bool_decide (reason = ""%string) then PAdded else PGone))) as Hrej.
  { intros r m1 [= -> ->] Hne ->. rewrite bool_decide_false by done. apply node_inv_mgr with (n := n); [done|done|].
    by apply (phase_insert _ _ PGreeted). }
  destruct (w_peers (m_world (n_mgr n)) !! pNodeID p) eqn:Edup; [by eapply Hrej|].
  destruct (at_capacity (n_mgr n)) eqn:Hcap; [by eapply Hrej|]. injection Hadd as <- <-.
  rewrite bool_decide_true by done. pose proof Hinv as [Hc Hi [He Hr Hk] Hph Hp Ht Ha Hs]. split; cbn; try done.
  - intros k. rewrite !lookup_insert. destruct (decide (l = k)); [split; by eexists|apply Hph].
  - intros k p'. rewrite lookup_insert_Some. intros [[<- <-]|[_ E]]; [|by eapply Hp].
    destruct (Hp l p Ep) as ([? ?] & ? & ?). by split_and!.
  - intros nid k. rewrite lookup_insert_Some. intros [[<- <-]|[Hne Ek]].
    + exists (set_callbacks p). split_and!; [apply lookup_insert_eq|done|by rewrite lookup_insert_eq].
    + pose proof (Hfresh _ _ Ek). apply Ht in Ek as (p' & E & Hid & Had). exists p'. by rewrite !lookup_insert_ne.
  - intros k p'. rewrite !lookup_insert. destruct (decide (l = k)) as [<-|Hne].
    + intros [= <-] _. cbn. by rewrite decide_True.
    + intros E Had. destruct (Ha k p' E Had) as (Et & ? & ?). split_and!; try done.
      rewrite decide_False; [done|]. intros Eid. congruence.
  - intros Hpos. rewrite map_to_list_insert by done. cbn [length]. specialize (Hs Hpos).
    unfold at_capacity, PeerCount in Hcap. rewrite Hc in Hcap. rewrite <- length_map_to_list in Hcap.
    apply andb_false_iff in Hcap as [Hcap|Hcap]; reflect_bools; lia.
Qed.

Lemma run_end_step cfg id n l p :
  node_inv cfg id n -> n_phase n !! l = Some (PRunning false false) -> w_heap (m_world (n_mgr n)) !! l = Some p ->
  node_inv cfg id (set_phase (set_mgr n (removePeer (n_mgr n) (pNodeID p))) l PGone).
Proof.
  intros Hinv Hl Ep. pose proof Hinv as [Hc Hi [He Hr Hk] Hph Hp Ht Ha Hs].
  destruct (Ha l p Ep) as [El _]; [by rewrite Hl|]. split; cbn; try done.
  - intros k. rewrite lookup_insert. destruct (decide (l = k)) as [<-|]; [split; by eexists|apply Hph].
  - intros nid k. rewrite lookup_delete_Some. intros [Hne Ek]. apply Ht in Ek as (p' & E & Hid & Had). exists p'.
    rewrite lookup_insert_ne; [done|]. intros <-. congruence.
  - intros k p' E. rewrite lookup_insert. destruct (decide (l = k)) as [<-|Hne]; [done|]. intros Had.
    destruct (Ha k p' E Had) as (Et & ? & ?). split_and!; try done. rewrite lookup_delete_ne; [done|].
    intros Eid. congruence.
  - intros Hpos. specialize (Hs Hpos). rewrite length_map_to_list in *.
    rewrite map_size_delete_Some by (by eexists). lia.
Qed.

Lemma after_turn_inv cfg id n r l ph ph0 n1 :
  node_inv cfg id n -> (forall x, r = Some x -> mgr_rel (n_mgr n) x.1) ->
  n_phase n !! l = Some ph0 -> admitted ph0 = admitted ph ->
  after_turn n r l ph = Some n1 -> node_inv cfg id n1.
Proof.
  intros Hinv Hr Hl Hph. unfold after_turn. destruct r as [[m []]|]; intros [= <-];
    apply node_inv_mgr with (n := n); try done; try by apply (Hr _ eq_refl).
  by apply (phase_insert _ _ ph0).
Qed.

Lemma w_set_hub_inv cfg id n h :
  node_inv cfg id n -> node_inv cfg id (set_mgr n (upd_world (n_mgr n) (w_set_hub (m_world (n_mgr n)) h))).
Proof.
  intros Hinv. pose proof (ni_ok _ _ _ Hinv) as [He Hr Hk].
  apply node_inv_rel with (n := n); try done. apply table_rel_hub.
Qed.

Lemma node_step_inv cfg id n ev n1 :
  node_inv cfg id n -> valid_node_event n ev -> node_step n ev = Some n1 -> node_inv cfg id n1.
Proof.
  intros Hinv Hv Hstep.
  destruct ev as [l c init uuid|l|l now_s uuid|l now o|l c|l|l|now_s now uuid|now_s uuids|now sh|rec cc ok now_s|e|now|now|l now|i|];
    cbn [node_step] in Hstep.
  - destruct (w_heap (m_world (n_mgr n)) !! l) eqn:El; [done|].
    assert (forall p, (if init then greet_outbound (n_mgr n) c uuid else greet_inbound (n_mgr n) c uuid) = Ok p ->
      peer_ok p) as Hg.
    { intros p. destruct init; [apply greet_ok|]. unfold greet_inbound. destruct (at_capacity _); [done|apply greet_ok]. }
    destruct (if init then _ else _) as [p|e]; injection Hstep as <-; [|done]. by apply greet_step; auto.
  - destruct (n_phase n !! l) as [[]|] eqn:El; try done. destruct (addPeer (n_mgr n) l) as [reason m'] eqn:Ha.
    injection Hstep as <-. by apply admit_step.
  - destruct (n_phase n !! l) as [[]|] eqn:El; try done. injection Hstep as <-.
    assert (is_Some (w_heap (m_world (n_mgr n)) !! l)) as [p Ep] by (apply Hinv; by eexists).
    destruct (ni_peer _ _ _ Hinv l p Ep) as (Hpv & Hlen & _).
    apply node_inv_mgr with (n := n); [done|by apply (onPeerConnected_rel _ _ p)|]. by apply (phase_insert _ _ PAdded).
  - destruct (n_phase n !! l) as [[| |[] ?|]|] eqn:El; try done.
    eapply after_turn_inv; [exact Hinv| |exact El| |exact Hstep]; [|done]. intros r Hr. by eapply peer_recv_rel.
  - destruct (n_phase n !! l) as [[| |? []|]|] eqn:El; try done.
    eapply after_turn_inv; [exact Hinv| |exact El| |exact Hstep]; [|done]. intros r Hr. by eapply peer_send_rel.
  - destruct (n_phase n !! l) as [[| |r s|]|] eqn:El, (w_heap (m_world (n_mgr n)) !! l) as [p|]; try done.
    destruct (done p); [|done]. injection Hstep as <-. apply node_inv_mgr with (n := n); [done|done|].
    by apply (phase_insert _ _ (PRunning r s)).
  - destruct (n_phase n !! l) as [[| |[] []|]|] eqn:El, (w_heap (m_world (n_mgr n)) !! l) as [p|] eqn:Ep; try done.
    injection Hstep as <-. by apply run_end_step.
  - unfold fanout_turn in Hstep. destruct (remoteSend _) as [[|msg q]|]; try done. injection Hstep as <-.
    pose proof (w_set_hub_inv cfg id n (transport_read (w_hub (m_world (n_mgr n)))) Hinv) as Hinv1.
    by apply (node_inv_mgr _ _ _ _ _ _ Hinv1 (fanout_msg_rel _ _ _ _ _)).
  - injection Hstep as <-. apply node_inv_mgr with (n := n); [done|apply exchange_tick_rel|done].
  - injection Hstep as <-. apply node_inv_mgr with (n := n); [done|apply tryDiscoveryDials_rel|done].
  - injection Hstep as <-. apply node_inv_mgr with (n := n); [done|apply dialDiscovered_rel|done].
  - destruct (hub_step (w_hub (m_world (n_mgr n))) e) as [h|] eqn:Hh; [|by destruct e].
    assert (set_mgr n (upd_world (n_mgr n) (w_set_hub (m_world (n_mgr n)) h)) = n1) as <-
      by (destruct e; first [done|by injection Hstep as <-]).
    by apply w_set_hub_inv.
  - injection Hstep as <-. apply node_inv_mgr with (n := n); [done| |done]. intros [(He1 & He2 & He3) Hr Hk]. by split_and!.
  - injection Hstep as <-. apply node_inv_mgr with (n := n); [done| |done]. intros [(He1 & He2 & He3) Hr Hk]. by split_and!.
  - destruct (w_heap (m_world (n_mgr n)) !! l) as [p|] eqn:Ep; [|done]. injection Hstep as <-.
    apply node_inv_mgr with (n := n); [done|by apply (upd_peer_rel _ _ p)|done].
  - destruct (save_turn (n_mgr n) i) as [m'|] eqn:Es; [|done]. injection Hstep as <-.
    apply node_inv_mgr with (n := n); [done|by apply (save_turn_rel _ i)|done].
  - injection Hstep as <-. destruct (n_stopped n); [done|]. apply node_inv_mgr with (n := n); [done|apply Stop_rel|done].
Qed.

Lemma node_steps_inv cfg id n evs n1 : node_inv cfg id n -> node_steps n evs n1 -> node_inv cfg id n1.
Proof. intros Hi. induction 1; [done|]. eauto using node_step_inv. Qed.

(** A node starts without connections. *)
Definition new_node m : Node N S := mkNode m ∅ false.

Lemma loadKnownPeers_only m : loadKnownPeers m = upd_known m (m_knownPeers (loadKnownPeers m)).
Proof.
  unfold loadKnownPeers. destruct (m_store m) as [st|]; [|by destruct m].
  destruct (st_Snapshot st peersBucket); [done|by destruct m].
Qed.

Lemma NewManager_inv cfg id hub st m : identity_ok id -> NewManager cfg id hub st = Some m -> node_inv cfg id (new_node m).
Proof.
  intros [_ Hid] Hnew. unfold NewManager in Hnew. destruct (EdToNoiseKeypair id) as [k|]; [|done].
  set (m1 := keyring_add _ _ _ _) in Hnew. injection Hnew as Hm.
  assert (mgr_ok m) as Hok.
  { rewrite <- Hm, loadKnownPeers_only. split; cbn.
    - split_and!; [done| |done]. cbn. by rewrite insert_empty.
    - unfold ring_bound. apply KeyRing_Forall_Add; [|by symmetry]. intros i e He. cbn in He. by rewrite lookup_empty in He.
    - apply load_known_ok. intros i r Hr. cbn in Hr. by rewrite lookup_empty in Hr. }
  rewrite loadKnownPeers_only in Hm.
  subst m. split; [done|done|exact Hok| | | | |]; cbn.
  - intros l. rewrite !lookup_empty. split; by intros [].
  - intros l p. by rewrite lookup_empty.
  - intros nid l. by rewrite lookup_empty.
  - intros l p. by rewrite lookup_empty.
  - intros Hpos. rewrite map_to_list_empty. cbn. lia.
Qed.

(** Starting sets the address the node listens on. *)
Lemma Start_inv cfg id n bound m0 : node_inv cfg id n -> Start (n_mgr n) bound = Some m0 -> node_inv cfg id (set_mgr n m0).
Proof.
  intros Hinv Hstart. unfold Start in Hstart. destruct (negb _); [|injection Hstart as <-; by destruct n].
  destruct bound as [addr|]; [|done]. injection Hstart as <-.
  apply (node_inv_mgr _ _ _ _ _ _ Hinv); [|done]. intros [? ? ?]. by split_and!.
Qed.

Lemma Start_hub m bound m0 : Start m bound = Some m0 -> w_hub (m_world m0) = w_hub (m_world m).
Proof. unfold Start. destruct (negb _); [destruct bound; [|done]|]; by intros [= <-]. Qed.

Lemma started_inv cfg id hub st m bound m0 :
  identity_ok id -> NewManager cfg id hub st = Some m -> Start m bound = Some m0 -> node_inv cfg id (new_node m0).
Proof.
  intros Hid Hnew Hstart. change (new_node m0) with (set_mgr (new_node m) m0). eapply (Start_inv _ _ (new_node m)), Hstart.
  by eapply NewManager_inv.
Qed.

Lemma NewManager_hub cfg id hub st m bound m0 :
  NewManager cfg id hub st = Some m -> Start m bound = Some m0 -> w_hub (m_world m0) = SetRemoteSend hub.
Proof.
  intros Hnew ->%Start_hub. revert Hnew. unfold NewManager.
  destruct (EdToNoiseKeypair id) as [k|]; [|done]. rewrite loadKnownPeers_only. by intros [= <-].
Qed.
End Reachable.
