(* ===== verification/NodeProps.v ===== *)
(** * NodeProps: the properties of a running node

    The peer table, the keys and the known peers of every reachable state; the
    hub inside the node; the path of a chat message from the hub of one node
    to the hub of another. *)

From S2P Require Import Prelude Bytes Messages Concrete Seen KeyRing RateLimit Gossip GossipProps Stream Frame Noise.
From S2P Require Import Identity Peer PeerProps Partyline PartylineProps Store Config Manager Discovery.
From S2P Require Import DiscoveryProps Node NodeInv.

(** ** The hub inside the node *)

Lemma hub_steps_app h1 es1 h2 es2 h3 : hub_steps h1 es1 h2 -> hub_steps h2 es2 h3 -> hub_steps h1 (es1 ++ es2) h3.
Proof. induction 1; intros Hs; [done|]. cbn. econstructor; [done|done|]. auto. Qed.

Lemma hub_reads_app h1 es1 h2 es2 : hub_steps h1 es1 h2 -> hub_reads h1 (es1 ++ es2) = hub_reads h1 es1 ++ hub_reads h2 es2.
Proof.
  induction 1 as [|h e h1 es h2 _ Hs _ IH]; [done|]. cbn [app hub_reads]. by rewrite Hs, IH, app_assoc.
Qed.

Definition remote_events (msgs : list (string * string)) : list hub_event := (fun x => ERemote x.1 x.2) <$> msgs.

Lemma deliver_all_steps h msgs :
  hub_steps h (remote_events msgs) (deliver_all h msgs) /\
  remote_events msgs ≫= event_texts = [] /\ hub_reads h (remote_events msgs) = [].
Proof.
  revert h. induction msgs as [|x msgs IH]; intros h; [split_and!; [constructor|done|done]|].
  destruct (IH (DeliverRemote h x.1 x.2)) as (Hs & Ht & Hr). split_and!.
  - by econstructor.
  - exact Ht.
  - exact Hr.
Qed.

Section HubInNode.
Context `{Crypto} `{Proto} `{KeyLib} `{NoiseXX} {C : Type} `{Conn C} {S : Type} `{Store S} `{RecordCodec}.

Abbreviation Mgr := (Manager (noiseConn C) S).
Implicit Types (m : Mgr) (n : Node (noiseConn C) S).

(** The texts local users broadcast in a step, and the message the fanout loop
    takes in it. *)
Definition node_texts (ev : node_event (C := C)) : list string := match ev with NHub e => event_texts e | _ => [] end.

Definition node_fanout n (ev : node_event (C := C)) : list RemoteMsg :=
  match ev, remoteSend (w_hub (m_world (n_mgr n))) with NFanout _ _ _, Some (msg :: _) => [msg] | _, _ => [] end.

Fixpoint node_fanouts n (evs : list (node_event (C := C))) : list RemoteMsg :=
  match evs with
  | [] => []
  | ev :: evs' => node_fanout n ev ++ match node_step n ev with Some n1 => node_fanouts n1 evs' | None => [] end
  end.

Definition hub_of n : Hub := w_hub (m_world (n_mgr n)).

(** A step of the node is a sequence of steps of its hub. *)
Definition hub_simulates n ev n1 : Prop :=
  exists es, hub_steps (hub_of n) es (hub_of n1) /\ es ≫= event_texts = node_texts ev /\
    hub_reads (hub_of n) es = node_fanout n ev /\ (EStop ∈ es -> ev = NHub EStop).

Lemma remote_events_no_stop msgs : EStop ∉ remote_events msgs.
Proof. induction msgs as [|x msgs IH]; [apply not_elem_of_nil|]. by apply not_elem_of_cons. Qed.

Lemma quiet_simulates n ev n1 :
  mgr_rel (n_mgr n) (n_mgr n1) -> mgr_ok (n_mgr n) -> node_texts ev = [] -> node_fanout n ev = [] ->
  hub_simulates n ev n1.
Proof.
  intros Hrel Hok Ht Hf. destruct (Hrel Hok) as (_ & _ & [_ [msgs E]] & _). exists (remote_events msgs).
  unfold hub_of. rewrite E, Ht, Hf. destruct (deliver_all_steps (w_hub (m_world (n_mgr n))) msgs) as (? & ? & ?).
  split_and!; [done..|]. by intros ?%remote_events_no_stop.
Qed.

Lemma same_hub_simulates n ev n1 :
  hub_of n1 = hub_of n -> node_texts ev = [] -> node_fanout n ev = [] -> hub_simulates n ev n1.
Proof. intros E Ht Hf. exists []. rewrite E, Ht, Hf. split_and!; [constructor|done|done|]. by intros ?%elem_of_nil. Qed.

Lemma after_turn_mgr n r l ph n1 :
  (forall x, r = Some x -> mgr_rel (n_mgr n) x.1) -> after_turn n r l ph = Some n1 -> mgr_rel (n_mgr n) (n_mgr n1).
Proof. intros Hr. destruct r as [[m []]|]; intros [= <-]; by apply (Hr _ eq_refl). Qed.

Lemma fanout_simulates cfg id n now_s now uuid n1 :
  node_inv cfg id n -> node_step n (NFanout now_s now uuid) = Some n1 -> hub_simulates n (NFanout now_s now uuid) n1.
Proof.
  cbn [node_step]. intros Hinv Hstep.
  unfold fanout_turn in Hstep. fold (hub_of n) in Hstep.
  destruct (remoteSend (hub_of n)) as [[|msg q]|] eqn:Er; try done. injection Hstep as <-.
  pose proof (w_set_hub_inv cfg id n (transport_read (hub_of n)) Hinv) as Hinv1.
  destruct (fanout_msg_rel _ msg now_s now uuid (ni_ok _ _ _ Hinv1)) as (_ & _ & [_ [msgs E]] & _).
  destruct (deliver_all_steps (transport_read (hub_of n)) msgs) as (Hs & Ht & Hr).
  exists (ETransportRead :: remote_events msgs). split_and!.
  - econstructor; [done|done|]. exact (eq_rect_r (hub_steps _ _) Hs E).
  - exact Ht.
  - unfold node_fanout. fold (hub_of n). cbn [hub_reads transport_reads hub_step]. rewrite Er. cbn [app]. by rewrite Hr.
  - by intros [?|?%remote_events_no_stop]%elem_of_cons.
Qed.

(** An event of the hub itself is its own simulation. *)
Lemma hub_simulates_own n e n1 :
  valid_node_event n (NHub e) -> node_step n (NHub e) = Some n1 -> hub_simulates n (NHub e) n1.
Proof.
  cbn [node_step]. intros Hv Hstep.
  destruct (hub_step (w_hub (m_world (n_mgr n))) e) as [h|] eqn:Hh; [|by destruct e].
  assert (hub_of n1 = h /\ transport_reads (hub_of n) e = []) as [E Hr]
    by (destruct e; first [done|by injection Hstep as <-]).
  exists [e]. split_and!.
  - econstructor; [exact Hv|exact Hh|]. rewrite E. constructor.
  - cbn. by rewrite app_nil_r.
  - cbn [hub_reads]. rewrite Hr. fold (hub_of n) in Hh. by rewrite Hh.
  - by intros <-%list_elem_of_singleton.
Qed.

Lemma node_step_hub cfg id n ev n1 :
  node_inv cfg id n -> valid_node_event n ev -> node_step n ev = Some n1 -> hub_simulates n ev n1.
Proof.
  intros Hinv Hv Hstep. pose proof (ni_ok _ _ _ Hinv) as Hok.
  destruct ev as [l c init uuid|l|l now_s uuid|l now o|l c|l|l|now_s now uuid|now_s uuids|now sh|rec cc ok now_s|e|now|now|l now|i|];
    cbn [node_step] in Hstep.
  - destruct (w_heap (m_world (n_mgr n)) !! l); [done|].
    destruct (if init then _ else _) as [p|e]; injection Hstep as <-; by apply same_hub_simulates.
  - destruct (n_phase n !! l) as [[]|]; try done. destruct (addPeer (n_mgr n) l) as [reason m'] eqn:Ha.
    injection Hstep as <-. apply same_hub_simulates; [|done|done]. unfold addPeer in Ha.
    destruct (w_heap _ !! l) as [p|]; [|by injection Ha as _ <-]. destruct (w_peers _ !! _); [by injection Ha as _ <-|].
    destruct (at_capacity _); by injection Ha as _ <-.
  - destruct (n_phase n !! l) as [[]|] eqn:El; try done. injection Hstep as <-.
    assert (is_Some (w_heap (m_world (n_mgr n)) !! l)) as [p Ep] by (apply Hinv; by eexists).
    destruct (ni_peer _ _ _ Hinv l p Ep) as (Hpv & Hlen & _).
    by apply quiet_simulates; [apply (onPeerConnected_rel _ _ p)|..].
  - destruct (n_phase n !! l) as [[| |[] ?|]|]; try done.
    apply quiet_simulates; [|done|done|done]. eapply after_turn_mgr, Hstep. intros r Hr. by eapply peer_recv_rel.
  - destruct (n_phase n !! l) as [[| |? []|]|]; try done.
    apply quiet_simulates; [|done|done|done]. eapply after_turn_mgr, Hstep. intros r Hr. by eapply peer_send_rel.
  - destruct (n_phase n !! l) as [[| |r s|]|], (w_heap (m_world (n_mgr n)) !! l) as [p|]; try done.
    destruct (done p); [|done]. injection Hstep as <-. by apply same_hub_simulates.
  - destruct (n_phase n !! l) as [[| |[] []|]|], (w_heap (m_world (n_mgr n)) !! l) as [p|]; try done.
    injection Hstep as <-. by apply same_hub_simulates.
  - by apply (fanout_simulates cfg id).
  - injection Hstep as <-. apply quiet_simulates; [apply exchange_tick_rel|done..].
  - injection Hstep as <-. apply quiet_simulates; [apply tryDiscoveryDials_rel|done..].
  - injection Hstep as <-. apply quiet_simulates; [apply dialDiscovered_rel|done..].
  - by apply hub_simulates_own.
  - injection Hstep as <-. by apply same_hub_simulates.
  - injection Hstep as <-. by apply same_hub_simulates.
  - destruct (w_heap (m_world (n_mgr n)) !! l) as [p|]; [|done]. injection Hstep as <-. by apply same_hub_simulates.
  - destruct (save_turn (n_mgr n) i) as [m'|] eqn:Es; [|done]. injection Hstep as <-.
    apply quiet_simulates; [by apply (save_turn_rel _ i)|done..].
  - injection Hstep as <-. destruct (n_stopped n); [by apply same_hub_simulates|].
    apply quiet_simulates; [apply Stop_rel|done..].
Qed.

Lemma node_steps_hub cfg id n evs n1 :
  node_inv cfg id n -> node_steps n evs n1 ->
  exists es, hub_steps (hub_of n) es (hub_of n1) /\ es ≫= event_texts = evs ≫= node_texts /\
    hub_reads (hub_of n) es = node_fanouts n evs.
Proof.
  intros Hinv Hs. induction Hs as [n|n ev n1 evs n2 Hv Hstep _ IH]; [exists []; split_and!; [constructor|done|done]|].
  destruct (node_step_hub _ _ _ _ _ Hinv Hv Hstep) as (es1 & Hs1 & Ht1 & Hr1 & _).
  destruct IH as (es2 & Hs2 & Ht2 & Hr2); [by eapply node_step_inv|].
  exists (es1 ++ es2). split_and!.
  - by eapply hub_steps_app.
  - by rewrite bind_app, bind_cons, Ht1, Ht2.
  - rewrite (hub_reads_app _ _ _ _ Hs1), Hr1, Hr2. cbn [node_fanouts]. by rewrite Hstep.
Qed.
End HubInNode.

(** ** A chat message from node to node *)

Section Chat.
Context `{Crypto} `{Proto} `{KeyLib} `{NoiseXX} {C : Type} `{Conn C} {S : Type} `{Store S} `{RecordCodec}.

Abbreviation N := (noiseConn C).
Implicit Types (m : Manager N S) (n : Node N S) (w : World N) (p : Peer N).

(** Sending to the handles of a list of table entries: the queue of each of
    their peers is offered the bytes once, nothing else changes. *)
Definition handles_of (w0 : World N) (es : list (string * positive)) : list (PeerHandle (World N)) :=
  omap (fun e => match w_heap w0 !! e.2 with
                 | None => None
                 | Some p => Some (mkPeerHandle (pNodeID p) (handle_send e.2))
                 end) es.

Lemma handle_send_at l data w p :
  w_heap w !! l = Some p -> (handle_send l data w).2 = w_set_peer w l (SendRaw p data).2.
Proof. intros E. unfold handle_send. rewrite E. by destruct (SendRaw p data). Qed.

Lemma handle_send_hub l data w : w_hub (handle_send l data w).2 = w_hub w.
Proof. unfold handle_send. destruct (w_heap w !! l) as [p|]; [|done]. by destruct (SendRaw p data). Qed.

Lemma handle_send_other l data w k : k <> l -> w_heap (handle_send l data w).2 !! k = w_heap w !! k.
Proof.
  intros Hne. unfold handle_send. destruct (w_heap w !! l) as [p|]; [|done]. destruct (SendRaw p data). cbn.
  by rewrite lookup_insert_ne.
Qed.

Lemma handles_of_cons w0 nid l es p :
  w_heap w0 !! l = Some p -> handles_of w0 ((nid, l) :: es) = mkPeerHandle (pNodeID p) (handle_send l) :: handles_of w0 es.
Proof. intros E. unfold handles_of. cbn. by rewrite E. Qed.

Lemma send_all_handles raw w0 es w :
  NoDup es.*2 -> (forall e, e ∈ es -> is_Some (w_heap w0 !! e.2)) ->
  let w' := (send_all raw (handles_of w0 es) w).2 in
  w_hub w' = w_hub w /\
  (forall l, l ∉ es.*2 -> w_heap w' !! l = w_heap w !! l) /\
  (forall l p, l ∈ es.*2 -> w_heap w !! l = Some p -> w_heap w' !! l = Some (SendRaw p raw).2).
Proof.
  revert w. induction es as [|[nid l] es IH]; intros w Hnd Hes; cbv zeta.
  { split_and!; [done|done|]. intros l p Hl. by apply elem_of_nil in Hl. }
  cbn [fmap list_fmap snd] in Hnd. apply NoDup_cons in Hnd as [Hl Hnd].
  destruct (Hes (nid, l)) as [p0 E0]; [left|]. cbn in E0.
  rewrite (handles_of_cons _ _ _ _ _ E0). cbn [send_all ph_Send fmap list_fmap snd].
  destruct (IH (handle_send l raw w).2 Hnd) as (Hh & Ho & Hi); [intros e He; apply Hes; by right|].
  pose proof (handle_send_hub l raw w) as Hhub. pose proof (handle_send_other l raw w) as Hother.
  pose proof (handle_send_at l raw w) as Hat.
  destruct (handle_send l raw w) as [ok w1]. cbn [fst snd] in *.
  destruct (send_all raw (handles_of w0 es) w1) as [sent w2]. cbn [fst snd] in *. split_and!; [congruence| |].
  - intros k [Hk1 Hk2]%not_elem_of_cons. by rewrite Ho, Hother.
  - intros k p [->|Hk]%elem_of_cons E.
    + rewrite Ho by done. rewrite (Hat p E). cbn. by rewrite lookup_insert_eq.
    + apply Hi; [done|]. rewrite Hother; [done|]. by intros ->.
Qed.

(** The pointers in the table of a reachable node are distinct. *)
Lemma table_NoDup cfg id n : node_inv cfg id n -> NoDup (map_to_list (w_peers (m_world (n_mgr n)))).*2.
Proof.
  intros Hinv. apply NoDup_alt. intros i j l Hi Hj.
  apply list_lookup_fmap_Some in Hi as ([id1 l1] & -> & Hi). apply list_lookup_fmap_Some in Hj as ([id2 l2] & E & Hj).
  cbn in E. subst l2. pose proof (NoDup_map_to_list (w_peers (m_world (n_mgr n)))) as Hnd.
  pose proof (list_elem_of_lookup_2 _ _ _ Hi) as H1'%elem_of_map_to_list.
  pose proof (list_elem_of_lookup_2 _ _ _ Hj) as H2'%elem_of_map_to_list.
  destruct (ni_table _ _ _ Hinv _ _ H1') as (p1 & E1 & Hid1 & _).
  destruct (ni_table _ _ _ Hinv _ _ H2') as (p2 & E2 & Hid2 & _).
  rewrite E1 in E2. injection E2 as <-. rewrite Hid1 in Hid2. subst id2. cbn in *. by eapply NoDup_lookup.
Qed.

(** Fanning out a message offers its bytes to every connected peer. *)
Lemma fanout_sends cfg id n msg now_s now uuid payload raw l p :
  node_inv cfg id n ->
  Marshal (mkChatMessage (rNick msg) (rText msg) (u64 now_s)) = Some payload ->
  Marshal (chat_envelope (n_mgr n) uuid payload) = Some raw ->
  w_peers (m_world (n_mgr n)) !! pNodeID p = Some l -> w_heap (m_world (n_mgr n)) !! l = Some p ->
  w_heap (m_world (fanout_msg (n_mgr n) msg now_s now uuid)) !! l = Some (SendRaw p raw).2.
Proof.
  intros Hinv Hpl Hraw Hl Hp. unfold fanout_msg. rewrite Hpl. unfold Broadcast. rewrite Hraw. cbn [eGetPeers set_Seen].
  destruct (mo_engine _ (ni_ok _ _ _ Hinv)) as (-> & _).
  pose proof (send_all_handles raw (m_world (n_mgr n)) (map_to_list (w_peers (m_world (n_mgr n)))) (m_world (n_mgr n)))
    as (_ & _ & Hi).
  - by eapply table_NoDup.
  - intros [nid k] Hin%elem_of_map_to_list. apply (ni_table _ _ _ Hinv) in Hin as (q & E & _). by eexists.
  - unfold peerHandles. fold (handles_of (m_world (n_mgr n)) (map_to_list (w_peers (m_world (n_mgr n))))).
    destruct (send_all raw _ (m_world (n_mgr n))) as [sent w'] eqn:Hs. cbn in *. apply Hi; [|done].
    apply list_elem_of_fmap. exists (pNodeID p, l). split; [done|]. by apply elem_of_map_to_list.
Qed.

Lemma send_all_hub raw (ps : list (PeerHandle (World N))) w :
  (forall ph, ph ∈ ps -> exists l, ph_Send ph = handle_send l) -> w_hub (send_all raw ps w).2 = w_hub w.
Proof.
  revert w. induction ps as [|ph ps IH]; intros w Hps; [done|]. cbn.
  destruct (Hps ph) as [l Hl]; [left|]. pose proof (handle_send_hub l raw w) as Hr. rewrite Hl.
  destruct (handle_send l raw w) as [ok w1]. specialize (IH w1 (fun q Hq => Hps q (list_elem_of_further _ _ _ Hq))).
  destruct (send_all raw ps w1) as [sent w2]. cbn in *. congruence.
Qed.

(** Forwarding does not touch the hub, so an accepted chat message has the
    effect of its handler there. *)
Lemma process_chat_hub (e : Engine (World N)) o from env w :
  engine_ok e -> shuffles o -> MsgType env = MsgTypeChat ->
  w_hub (process e o from env w).2 = w_hub (chat_handler (SenderId env) (Payload env) w).
Proof.
  intros He Hs Ht. pose proof He as (Hg & Hh & _). unfold process, deliver. cbn [eHandlers set_Stats].
  rewrite Hh, Ht, lookup_singleton_eq. rewrite forward_relay. destruct (relay_bytes env) as [raw|]; [|done].
  rewrite forwardTo_world. apply send_all_hub. intros ph Hin%forward_targets_elem; [|done].
  cbn [eGetPeers set_Stats] in Hin. rewrite Hg in Hin. by eapply peerHandles_send.
Qed.

Lemma HandleIncoming_chat_hub (e : Engine (World N)) o from env w :
  engine_ok e -> shuffles o -> MsgType env = MsgTypeChat -> (HandleIncoming e o from env w).2 = Accepted ->
  w_hub (HandleIncoming e o from env w).1.2 = w_hub (chat_handler (SenderId env) (Payload env) w).
Proof.
  intros He Hs Ht Hacc. handle_cases e o from env w; rewrite Hr in Hacc |- *; try done.
  { by apply check_fields_outcome in Hfields as [? _]. }
  cbn [fst snd]. by apply process_chat_hub.
Qed.

Lemma key_for_known kr env key :
  (forall e, KeyRing_Lookup kr (SenderId env) = Some e -> PubKey e = key) -> SenderPubkey env = key ->
  len key = PublicKeySize -> node_id key = SenderId env -> key_for kr env key.
Proof.
  intros Hkey Hk Hl Hid. unfold key_for. rewrite Hk. destruct (keys kr !! SenderId env) as [e|] eqn:Ek.
  - left. exists e. split; [done|]. by apply Hkey.
  - right. by split_and!.
Qed.

(** A chat message that the engine accepts reaches the hub of a reachable
    node in the step that reads it. *)
Lemma recv_chat cfg id n l p s (c : N) now raw env chat (o : Oracle (World N)) :
  node_inv cfg id n -> n_phase n !! l = Some (PRunning true s) -> w_heap (m_world (n_mgr n)) !! l = Some p ->
  SetReadDeadline (conn p) = true /\ ReadFrame (conn p) = (Ok raw, c) -> Unmarshal raw = Some env -> MsgType env = MsgTypeChat ->
  Unmarshal (Payload env) = Some chat -> shuffles o ->
  (HandleIncoming (m_gossip (n_mgr n)) o (pNodeID p) env (m_world (upd_peer (n_mgr n) l (set_conn p c)))).2 = Accepted ->
  exists n1, node_step n (NRecv l now o) = Some n1 /\ hub_of n1 = DeliverRemote (hub_of n) (chat_Nick chat) (chat_Text chat).
Proof.
  intros Hinv Hl Hp Hread Hun Ht Hchat Ho Hacc. destruct (ni_ok _ _ _ Hinv) as [He Hr _].
  assert (admitted <$> n_phase n !! l = Some true) as Had by (by rewrite Hl).
  destruct (ni_admitted _ _ _ Hinv l p Hp Had) as (_ & Hcb & _).
  assert (recvLoop_turn p now = (Ok (RGossip (pNodeID p) env), set_conn p c)) as Hturn.
  { destruct Hread as [Hdl Hread]. change (@SetReadDeadline N noise_conn (conn p) = true) in Hdl.
    change (@ReadFrame N (@conn_reader N noise_conn) (conn p) = (Ok raw, c)) in Hread.
    unfold recvLoop_turn. rewrite Hdl. cbn [negb]. rewrite Hread, Hun. rewrite dispatch_other by (by rewrite Ht).
    rewrite Ht, bool_decide_false by (by intros [?|[?|[?|?]]]). cbn [onGossipMessage set_conn]. by rewrite Hcb. }
  cbn [node_step]. rewrite Hl. unfold peer_recv. rewrite Hp, Hturn. eexists. split; [reflexivity|].
  pose proof (HandleIncoming_chat_hub (m_gossip (n_mgr n)) o (pNodeID p) env _ He Ho Ht Hacc) as Hhub.
  unfold hub_of. cbn [n_mgr set_mgr handle_action m_gossip upd_peer upd_world].
  destruct (HandleIncoming _ o _ env _) as [[e w] out]. cbn [fst snd] in Hhub.
  cbn [m_world upd_world upd_gossip]. rewrite Hhub. unfold chat_handler. by rewrite Hchat.
Qed.
End Chat.

(** ** Reconnecting *)

(** The failures at the end of a list of outcomes, most recent first. *)
Fixpoint streak (l : list bool) : nat := match l with false :: l' => S (streak l') | _ => O end.

Definition failures_before (outcomes : list bool) (i : nat) : nat := streak (rev (take i outcomes)).

Lemma streak_true l x : streak (l ++ true :: x) = streak l.
Proof. induction l as [|[] l IH]; cbn; congruence. Qed.

Lemma streak_replicate k : streak (replicate k false) = k.
Proof. induction k; cbn; congruence. Qed.

Lemma dial_waits_lookup outcomes k i :
  dial_waits (Z.min (2 ^ Z.of_nat k) 30 * Second) outcomes !! i =
  (fun ok : bool => if ok then 0 else Z.min (2 ^ Z.of_nat (streak (rev (take i outcomes) ++ replicate k false))) 30 * Second)
    <$> outcomes !! i.
Proof.
  revert k i. induction outcomes as [|ok os IH]; intros k i; [done|]. destruct ok; cbn [dial_waits].
  - destruct i as [|i]; [done|]. cbn [lookup list_lookup take rev]. rewrite <- app_assoc. cbn [app]. rewrite streak_true.
    change Second with (Z.min (2 ^ Z.of_nat 0) 30 * Second) at 1. rewrite IH. cbn [replicate]. by rewrite app_nil_r.
  - destruct i as [|i]; cbn [lookup list_lookup take rev app]; [by rewrite streak_replicate|].
    replace (Z.min (Z.min (2 ^ Z.of_nat k) 30 * Second * 2) maxBackoff) with (Z.min (2 ^ Z.of_nat (S k)) 30 * Second).
    + rewrite IH, <- app_assoc. done.
    + rewrite Nat2Z.inj_succ, Z.pow_succ_r by lia. unfold maxBackoff, Second. lia.
Qed.

(** ** Properties *)

(** Reconnecting to a bootstrap address: after each dial that fails the loop
    waits, doubling from one second with each failure in a row up to
    thirty seconds, and a connection that was established resets the wait. *)
Theorem dialWithBackoff_waits (outcomes : list bool) (i : nat) :
  dialWithBackoff outcomes !! i =
  (fun ok : bool => if ok then 0 else Z.min (2 ^ Z.of_nat (failures_before outcomes i)) 30 * 1000000000)
    <$> outcomes !! i.
Proof.
  unfold dialWithBackoff. change Second with (Z.min (2 ^ Z.of_nat 0) 30 * Second). rewrite dial_waits_lookup.
  cbn [replicate]. by rewrite app_nil_r.
Qed.

Section Properties.
Context `{Crypto} `{Proto} `{KeyLib} `{NoiseXX} {C : Type} `{Conn C} {S : Type} `{Store S} `{RecordCodec}.

Abbreviation N := (noiseConn C).
Implicit Types (m : Manager N S) (n : Node N S) (p : Peer N).

(** C5. The peer table of a running node, in every reachable state: it never
    holds more than [max_peers] peers; it holds exactly the connections
    between [addPeer] and [removePeer], each under its node id and at most one per node;
    every one of them is authenticated (the id is the hash of the signing
    key, whose X25519 form is the static key of its handshake), has both
    callbacks, and a send queue within its capacity. *)
Theorem node_peer_table (cfg : Config) (id : Identity) (hub : Hub) (st : option S) m m0 (bound : option string)
  (evs : list node_event) n
  (Hid : identity_ok id) (Hnew : NewManager cfg id hub st = Some m) (Hstart : Start m bound = Some m0)
  (Hrun : node_steps (new_node m0) evs n) :
  let w := m_world (n_mgr n) in
  (0 < net_MaxPeers (cfg_Network cfg) -> Z.of_nat (PeerCount (n_mgr n)) <= net_MaxPeers (cfg_Network cfg)) /\
  (forall nid l, w_peers w !! nid = Some l <->
     exists p, w_heap w !! l = Some p /\ pNodeID p = nid /\ admitted <$> n_phase n !! l = Some true) /\
  (forall nid l p, w_peers w !! nid = Some l -> w_heap w !! l = Some p ->
     nid = node_id (edPubKey p) /\ EdPublicToX25519 (edPubKey p) = Some (peerX25519 p) /\
     onGossipMessage p = true /\ onPeerExchange p = true /\ (length (sendCh p) <= 64)%nat).
Proof.
  assert (node_inv cfg id n) as Hinv by eauto using started_inv, node_steps_inv. cbv zeta. split_and!.
  - unfold PeerCount. rewrite <- length_map_to_list. apply Hinv.
  - intros nid l. split; [apply Hinv|]. intros (p & E & <- & Had). by apply (ni_admitted _ _ _ Hinv l p).
  - intros nid l p El Ep. destruct (ni_table _ _ _ Hinv _ _ El) as (p' & E & <- & Had).
    rewrite Ep in E. injection E as <-. destruct (ni_admitted _ _ _ Hinv l p Ep Had) as (_ & ? & ?).
    destruct (ni_peer _ _ _ Hinv l p Ep) as ([? ?] & _ & ?). by split_and!.
Qed.

(** C10. No key is ever bound to a foreign identity: in every reachable state of a node, each
    entry of the gossip key ring maps a node id to a key that hashes to it,
    and each known peer, be it loaded from the store, exchanged or connected, is filed
    under its own id and carries either no key or one that hashes to that id. *)
Theorem node_keys_bound (cfg : Config) (id : Identity) (hub : Hub) (st : option S) m m0 (bound : option string)
  (evs : list node_event) n
  (Hid : identity_ok id) (Hnew : NewManager cfg id hub st = Some m) (Hstart : Start m bound = Some m0)
  (Hrun : node_steps (new_node m0) evs n) :
  (forall nid entry, KeyRing_Lookup (eKeyRing (m_gossip (n_mgr n))) nid = Some entry -> node_id (PubKey entry) = nid) /\
  (forall nid rec, m_knownPeers (n_mgr n) !! nid = Some rec -> rec_NodeID rec = nid /\
     (rec_PublicKey rec <> ""%string ->
      exists pub, hex_decode (rec_PublicKey rec) = Some pub /\ len pub = 32 /\ node_id pub = nid)).
Proof.
  assert (node_inv cfg id n) as Hinv by eauto using started_inv, node_steps_inv.
  destruct (ni_ok _ _ _ Hinv) as [_ Hring Hknown]. split; [exact Hring|].
  intros nid rec Hrec. destruct (Hknown _ _ Hrec) as [<- Hok]. split; [done|exact Hok].
Qed.

(** C9. The hub inside the node: whatever the connections and the loops do, the
    hub of a reachable node is in a state of its own runs, so it never panics; and
    the texts the fanout loop has taken for broadcast, followed by those waiting, are a
    subsequence of what local users wrote. Nothing received from the
    network is sent out again as a new message. *)
Theorem node_hub_no_echo (cfg : Config) (id : Identity) (name : string) (st : option S) m m0 (bound : option string)
  (evs : list node_event) n
  (Hid : identity_ok id) (Hnew : NewManager cfg id (NewHub name) st = Some m) (Hstart : Start m bound = Some m0)
  (Hrun : node_steps (new_node m0) evs n) :
  panicked (hub_of n) = false /\
  (rText <$> node_fanouts (new_node m0) evs) ++ remote_texts (hub_of n) `sublist_of` evs ≫= node_texts.
Proof.
  assert (node_inv cfg id (new_node m0)) as Hinv by eauto using started_inv.
  destruct (node_steps_hub _ _ _ _ _ Hinv Hrun) as (es & Hs & <- & <-).
  assert (hub_of (new_node m0) = SetRemoteSend (NewHub name)) as Eh by (by eapply NewManager_hub).
  rewrite Eh in *. split; [apply hi_panic; eauto with micelio|].
  apply hub_steps_texts in Hs. etransitivity; [|exact Hs]. rewrite app_assoc. by apply sublist_inserts_r.
Qed.

(** A local message leaves the node: the bytes of its envelope are queued to
    a connected peer with room. *)
Lemma chat_leaves cfgA idA (nA : Node N S) (msg : RemoteMsg) q uuid now_s now payload raw lA pA :
  node_inv cfgA idA nA -> remoteSend (hub_of nA) = Some (msg :: q) ->
  Marshal (mkChatMessage (rNick msg) (rText msg) (u64 now_s)) = Some payload ->
  Marshal (chat_envelope (n_mgr nA) uuid payload) = Some raw ->
  w_peers (m_world (n_mgr nA)) !! pNodeID pA = Some lA -> w_heap (m_world (n_mgr nA)) !! lA = Some pA ->
  (length (sendCh pA) < 64)%nat ->
  exists nA1 pA1, node_step nA (NFanout now_s now uuid) = Some nA1 /\
    w_heap (m_world (n_mgr nA1)) !! lA = Some pA1 /\ sendCh pA1 = sendCh pA ++ [raw].
Proof.
  intros HA Hmsg Hpayload Hraw HlA HpA Hroom. unfold hub_of in Hmsg. cbn [node_step]. unfold fanout_turn. rewrite Hmsg.
  pose proof (w_set_hub_inv cfgA idA nA (transport_read (hub_of nA)) HA) as HA'.
  eexists _, _. split; [reflexivity|]. split.
  - exact (fanout_sends _ _ _ msg now_s now uuid payload raw lA pA HA' Hpayload Hraw HlA HpA).
  - unfold SendRaw. rewrite (proj2 (Nat.ltb_lt _ _)) by exact Hroom. done.
Qed.

(** The other node delivers what these bytes say. *)
Lemma chat_arrives `{!CryptoLaws} `{!ProtoLaws} cfgA cfgB idA idB (nA nB : Node N S) (msg : RemoteMsg) uuid now_s t payload raw lB
  (pB : Peer N) sB (c : N) (o : Oracle (World N)) :
  node_inv cfgA idA nA -> node_inv cfgB idB nB -> identity_ok idA -> len (PrivateKey idA) = PrivateKeySize ->
  Marshal (mkChatMessage (rNick msg) (rText msg) (u64 now_s)) = Some payload -> len payload <= 65536 ->
  uuid <> ""%string /\ slen uuid <= 128 -> Marshal (chat_envelope (n_mgr nA) uuid payload) = Some raw ->
  n_phase nB !! lB = Some (PRunning true sB) -> w_heap (m_world (n_mgr nB)) !! lB = Some pB ->
  SetReadDeadline (conn pB) = true /\ ReadFrame (conn pB) = (Ok raw, c) -> shuffles o ->
  SeenCache_Has (eSeen (m_gossip (n_mgr nB))) uuid = false ->
  (forall e, KeyRing_Lookup (eKeyRing (m_gossip (n_mgr nB))) (NodeID idA) = Some e -> PubKey e = PublicKey idA) ->
  (RateLimiter_Allow (eLimiter (m_gossip (n_mgr nB))) (NodeID idA) (o_now_allow o)).1 = true ->
  exists nB1, node_step nB (NRecv lB t o) = Some nB1 /\ hub_of nB1 = DeliverRemote (hub_of nB) (rNick msg) (rText msg).
Proof.
  intros HA HB Hid Hpriv Hpayload Hlen Huuid Hraw HlB HpB Hread Ho Hfresh Hkey Hrate.
  pose proof (mo_engine _ (ni_ok _ _ _ HA)) as (_ & _ & Hhops). pose proof (ni_id _ _ _ HA) as HidA. destruct Hid as [Hpub Hnode].
  unfold chat_envelope, SignEnvelope in Hraw. rewrite HidA, Hpriv, Hhops, Z.eqb_refl in Hraw. cbn [negb] in Hraw.
  set (env := set_Signature _ _) in Hraw.
  assert (Unmarshal raw = Some env) as Hun.
  { eapply Unmarshal_Marshal; [|exact Hraw]. unfold env, DefaultMaxHops, MsgTypeChat. split; cbn; lia. }
  assert (VerifyEnvelope env (PublicKey idA) = true) as Hver.
  { unfold VerifyEnvelope. cbn [Signature env set_Signature].
    rewrite Hpub, Public_length, Sign_length, !Z.eqb_refl by done. cbn [negb]. by apply Verify_Sign. }
  destruct (recv_chat cfgB idB nB lB pB sB c t raw env (mkChatMessage (rNick msg) (rText msg) (u64 now_s)) o)
    as (nB1 & Hstep & Hhub); try done.
  { exact (Unmarshal_Marshal (ok := chat_ok) _ _ (u64_range now_s : chat_ok (mkChatMessage _ _ _)) Hpayload). }
  { apply accepted_iff. cbn [MessageId SenderId Payload env set_Signature].
    assert (slen (NodeID idA) <= 128) as Hl by (rewrite Hnode, node_id_length; lia).
    assert (NodeID idA <> ""%string) by (rewrite Hnode; apply node_id_nonempty).
    split_and!; try done; try tauto. exists (PublicKey idA). split; [|done].
    apply key_for_known; [exact Hkey|done|by rewrite Hpub, Public_length|by symmetry]. }
  by exists nB1.
Qed.

(** A chat message crosses the network: when the fanout loop of node A
    takes a message of a local user, the bytes of one signed envelope are queued to each
    connected peer with room; and when node B's receive loop reads
    these bytes, B, if it has not seen the message, holds no other key
    for A and A is within its rate, delivers exactly this nick and
    text to its hub. *)
Theorem chat_crosses `{!CryptoLaws} `{!ProtoLaws} (cfgA cfgB : Config) (idA idB : Identity) (nA nB : Node N S)
  (msg : RemoteMsg) (q : list RemoteMsg) (uuid : string) (now_s now t : Z) (payload raw : bytes)
  (lA lB : positive) (pA pB : Peer N) (sB : bool) (c : N) (o : Oracle (World N))
  (HA : node_inv cfgA idA nA) (HB : node_inv cfgB idB nB)
  (Hid : identity_ok idA) (Hpriv : len (PrivateKey idA) = PrivateKeySize)
  (Hmsg : remoteSend (hub_of nA) = Some (msg :: q))
  (Hpayload : Marshal (mkChatMessage (rNick msg) (rText msg) (u64 now_s)) = Some payload)
  (Hlen : len payload <= 65536) (Huuid : uuid <> ""%string /\ slen uuid <= 128)
  (Hraw : Marshal (chat_envelope (n_mgr nA) uuid payload) = Some raw)
  (HlA : w_peers (m_world (n_mgr nA)) !! pNodeID pA = Some lA)
  (HpA : w_heap (m_world (n_mgr nA)) !! lA = Some pA) (Hroom : (length (sendCh pA) < 64)%nat)
  (HlB : n_phase nB !! lB = Some (PRunning true sB)) (HpB : w_heap (m_world (n_mgr nB)) !! lB = Some pB)
  (Hread : SetReadDeadline (conn pB) = true /\ ReadFrame (conn pB) = (Ok raw, c)) (Ho : shuffles o)
  (Hfresh : SeenCache_Has (eSeen (m_gossip (n_mgr nB))) uuid = false)
  (Hkey : forall e, KeyRing_Lookup (eKeyRing (m_gossip (n_mgr nB))) (NodeID idA) = Some e -> PubKey e = PublicKey idA)
  (Hrate : (RateLimiter_Allow (eLimiter (m_gossip (n_mgr nB))) (NodeID idA) (o_now_allow o)).1 = true) :
  (exists nA1 pA1, node_step nA (NFanout now_s now uuid) = Some nA1 /\
     w_heap (m_world (n_mgr nA1)) !! lA = Some pA1 /\ sendCh pA1 = sendCh pA ++ [raw]) /\
  (exists nB1, node_step nB (NRecv lB t o) = Some nB1 /\
     hub_of nB1 = DeliverRemote (hub_of nB) (rNick msg) (rText msg)).
Proof.
  split; [by apply (chat_leaves cfgA idA nA msg q uuid now_s now payload raw lA pA)|].
  by apply (chat_arrives cfgA cfgB idA idB nA nB msg uuid now_s t payload raw lB pB sB c o).
Qed.
End Properties.
