(* ===== verification/NodeEx.v ===== *)
(** * NodeEx: a run of two nodes

    Concrete nodes on which the properties of [NodeProps] are instantiated:
    node 7 dials node 8, a user of node 7 writes a line, and node 8 receives
    it. *)

From S2P Require Import Prelude Bytes Messages Concrete Seen KeyRing RateLimit Gossip GossipProps Stream Frame Noise.
From S2P Require Import Identity Peer PeerProps Partyline PartylineProps Store Config Manager Discovery.
From S2P Require Import DiscoveryProps Node NodeInv NodeProps.

Section Run.
Context `{Crypto} `{Proto} `{KeyLib} `{NoiseXX} {C : Type} `{Conn C} {S : Type} `{Store S} `{RecordCodec}.
Implicit Types (n : Node (noiseConn C) S).

(** The condition on a step's environment: the shuffles permute, and the
    hub's callers are valid. *)
Definition shuffles_ok (ev : node_event (C := C)) : Prop :=
  match ev with NRecv _ _ o => shuffles o | NDial _ sh => forall l, Permutation (sh l) l | _ => True end.

Definition hub_call_ok n (ev : node_event (C := C)) : bool :=
  match ev with NHub e => bool_decide (valid_event (hub_of n) e) | _ => true end.

(** Whether a run is possible, and where it ends. *)
Fixpoint run_ok n (evs : list (node_event (C := C))) : bool :=
  match evs with
  | [] => true
  | ev :: evs' => hub_call_ok n ev && match node_step n ev with Some n1 => run_ok n1 evs' | None => false end
  end.

Definition run_to n (evs : list (node_event (C := C))) : Node (noiseConn C) S := default n (node_run n evs).

Lemma run_ok_steps n evs : run_ok n evs = true -> Forall shuffles_ok evs -> node_steps n evs (run_to n evs).
Proof.
  unfold run_to. revert n. induction evs as [|ev evs IH]; intros n Hr Hs; [constructor|]. cbn in *.
  apply andb_true_iff in Hr as [Hh Hr]. apply Forall_cons in Hs as [Hsh Hs].
  destruct (node_step n ev) as [n1|] eqn:E; [|done]. specialize (IH n1 Hr Hs).
  assert (is_Some (node_run n1 evs)) as [n2 E2].
  { clear -Hr. revert n1 Hr. induction evs as [|ev' evs IH]; intros n Hr; [by eexists|]. cbn in *.
    apply andb_true_iff in Hr as [_ Hr]. destruct (node_step n ev'); [by apply IH|done]. }
  rewrite E2 in *. econstructor; [|exact E|exact IH].
  destruct ev; try done. by apply bool_decide_eq_true in Hh.
Qed.
End Run.

(** ** The nodes *)

Definition ex_new (n : Z) : option (Manager (noiseConn tcp) BoltStore) :=
  NewManager (ex_config 1) (ex_identity n) (NewHub "node") None.
Definition ex_m (n : Z) : Manager (noiseConn tcp) BoltStore := default (ex_manager n []) (ex_new n).
Definition ex_addr (n : Z) : string := if n =? 7 then "10.0.0.7:4000" else "10.0.0.8:4000".
Definition ex_started (n : Z) : Manager (noiseConn tcp) BoltStore := upd_listenAddr (ex_m n) (ex_addr n).
Definition ex_node0 (n : Z) : Node (noiseConn tcp) BoltStore := new_node (ex_started n).

Lemma ex_new_ok n : bool_decide (is_Some (ex_new n)) = true -> ex_new n = Some (ex_m n).
Proof. apply some_default. Qed.

Definition ex_payload : bytes := put (mkChatMessage "ann" "hi" 100).
Definition ex_raw : bytes := put (chat_envelope (ex_started 7) "m1" ex_payload).

(** What node 7 reads from node 8 and conversely. *)
Definition ex_in7 : bytes :=
  hs_wire (rev (toy_pub 8)) ++ noise_msg (frame_bytes (ex_hello 8 MsgTypePeerHelloAck) ++ be_put 16 (2 ^ 64)).
Definition ex_in8 : bytes :=
  hs_wire [] ++ hs_wire (rev (toy_pub 7)) ++ noise_msg (frame_bytes (ex_hello 7 MsgTypePeerHello) ++ be_put 16 0) ++
  noise_msg (frame_bytes ex_raw ++ be_put 16 1).

Definition ex_noshuffle {N} : Oracle (World N) := mkOracle 5 5 (fun l => l).

Definition ex_evs7 : list node_event :=
  [NHub (EJoin "ann"); NHub (EBroadcast 0 "hi"); NHub EDequeue;
   NGreet 1 (ex_tcp ex_in7) true "u1"; NAdmit 1; NAnnounce 1 100 "u2"].
Definition ex_evs8 : list node_event := [NGreet 1 (ex_tcp ex_in8) false "u3"; NAdmit 1; NAnnounce 1 100 "u4"].

Definition ex_n7 : Node (noiseConn tcp) BoltStore := run_to (ex_node0 7) ex_evs7.
Definition ex_n8 : Node (noiseConn tcp) BoltStore := run_to (ex_node0 8) ex_evs8.

Lemma ex_n7_steps : node_steps (ex_node0 7) ex_evs7 ex_n7.
Proof. refine (run_ok_steps (ex_node0 7) ex_evs7 _ _); [vm_compute; reflexivity|]. repeat constructor. Qed.

Lemma ex_n8_steps : node_steps (ex_node0 8) ex_evs8 ex_n8.
Proof. refine (run_ok_steps (ex_node0 8) ex_evs8 _ _); [vm_compute; reflexivity|]. repeat constructor. Qed.

Lemma ex_identity_ok7 : identity_ok (ex_identity 7).
Proof. split; vm_compute; reflexivity. Qed.
Lemma ex_identity_ok8 : identity_ok (ex_identity 8).
Proof. split; vm_compute; reflexivity. Qed.

Lemma ex_new7 : NewManager (ex_config 1) (ex_identity 7) (NewHub "node") None = Some (ex_m 7).
Proof. apply ex_new_ok. vm_compute. reflexivity. Qed.
Lemma ex_new8 : NewManager (ex_config 1) (ex_identity 8) (NewHub "node") None = Some (ex_m 8).
Proof. apply ex_new_ok. vm_compute. reflexivity. Qed.

Lemma ex_start7 : Start (ex_m 7) (Some (ex_addr 7)) = Some (ex_started 7).
Proof. reflexivity. Qed.
Lemma ex_start8 : Start (ex_m 8) (Some (ex_addr 8)) = Some (ex_started 8).
Proof. reflexivity. Qed.

Lemma ex_inv7 : node_inv (ex_config 1) (ex_identity 7) ex_n7.
Proof.
  exact (node_steps_inv _ _ _ _ _ (started_inv _ _ _ _ _ _ _ ex_identity_ok7 ex_new7 ex_start7) ex_n7_steps).
Qed.
Lemma ex_inv8 : node_inv (ex_config 1) (ex_identity 8) ex_n8.
Proof.
  exact (node_steps_inv _ _ _ _ _ (started_inv _ _ _ _ _ _ _ ex_identity_ok8 ex_new8 ex_start8) ex_n8_steps).
Qed.

(** ** Witnesses *)

Lemma node_peer_table_witness :
  PeerCount (n_mgr ex_n8) = 1%nat /\ Z.of_nat (PeerCount (n_mgr ex_n8)) <= 1 /\
  exists p, w_heap (m_world (n_mgr ex_n8)) !! 1%positive = Some p /\ pNodeID p = toy_id 7 /\
    toy_id 7 = node_id (edPubKey p).
Proof.
  destruct (node_peer_table (ex_config 1) (ex_identity 8) (NewHub "node") None (ex_m 8) (ex_started 8)
    (Some (ex_addr 8)) ex_evs8 ex_n8 ex_identity_ok8 ex_new8 ex_start8 ex_n8_steps) as (Hsize & Htab & Hauth).
  split; [vm_compute; reflexivity|]. split; [apply Hsize; vm_compute; reflexivity|].
  assert (w_peers (m_world (n_mgr ex_n8)) !! toy_id 7 = Some 1%positive) as Hl by (vm_compute; reflexivity).
  destruct (proj1 (Htab _ _) Hl) as (p & Hp & Hid & _). exists p. split; [exact Hp|]. split; [exact Hid|].
  apply (Hauth _ _ p Hl Hp).
Defined.

Lemma node_keys_bound_witness :
  exists entry, KeyRing_Lookup (eKeyRing (m_gossip (n_mgr ex_n8))) (toy_id 7) = Some entry /\
    node_id (PubKey entry) = toy_id 7.
Proof.
  destruct (node_keys_bound (ex_config 1) (ex_identity 8) (NewHub "node") None (ex_m 8) (ex_started 8)
    (Some (ex_addr 8)) ex_evs8 ex_n8 ex_identity_ok8 ex_new8 ex_start8 ex_n8_steps) as [Hk _].
  exists (mkKeyEntry (toy_pub 7) TrustDirectlyVerified).
  assert (KeyRing_Lookup (eKeyRing (m_gossip (n_mgr ex_n8))) (toy_id 7) =
    Some (mkKeyEntry (toy_pub 7) TrustDirectlyVerified)) as E by (vm_compute; reflexivity).
  split; [exact E|exact (Hk _ _ E)].
Defined.

Lemma node_hub_no_echo_witness :
  panicked (hub_of ex_n7) = false /\ remote_texts (hub_of ex_n7) = ["hi"]%string /\
  (rText <$> node_fanouts (new_node (ex_started 7)) ex_evs7) ++ remote_texts (hub_of ex_n7) `sublist_of`
  ex_evs7 ≫= node_texts.
Proof.
  destruct (node_hub_no_echo (ex_config 1) (ex_identity 7) "node" None (ex_m 7) (ex_started 7) (Some (ex_addr 7))
    ex_evs7 ex_n7 ex_identity_ok7 ex_new7 ex_start7 ex_n7_steps) as [Hp Hs].
  split; [exact Hp|]. split; [vm_compute; reflexivity|exact Hs].
Defined.

(** [Stop] closes the peers of the table. A connection that is between its
    hello exchange and [addPeer] is not there yet: it is admitted and announced
    afterwards, and nothing closes it. *)
Example Stop_misses_greeted :
  let n := run_to (ex_node0 7) [NGreet 1 (ex_tcp ex_in7) true "u1"; NStop; NAdmit 1; NAnnounce 1 100 "u2"; NStop] in
  (n_stopped n, n_phase n !! 1%positive, done <$> w_heap (m_world (n_mgr n)) !! 1%positive, PeerCount (n_mgr n)) =
  (true, Some (PRunning true true), Some false, 1%nat).
Proof. vm_compute. reflexivity. Qed.

(** The peers of the example nodes. *)
Definition ex_p7 : Peer (noiseConn tcp) :=
  default (newPeer (mkNoiseConn (ex_tcp []) 0 0 [] []) [] (ex_identity 7) true) (w_heap (m_world (n_mgr ex_n7)) !! 1%positive).
Definition ex_p8 : Peer (noiseConn tcp) :=
  default (newPeer (mkNoiseConn (ex_tcp []) 0 0 [] []) [] (ex_identity 8) true) (w_heap (m_world (n_mgr ex_n8)) !! 1%positive).

Lemma ex_facts7 :
  bool_decide (is_Some (w_heap (m_world (n_mgr ex_n7)) !! 1%positive)) = true /\
  remoteSend (hub_of ex_n7) = Some [mkRemoteMsg "ann" "hi"] /\
  Marshal (chat_envelope (n_mgr ex_n7) "m1" ex_payload) = Some ex_raw /\
  w_peers (m_world (n_mgr ex_n7)) !! pNodeID ex_p7 = Some 1%positive /\ length (sendCh ex_p7) = 1%nat.
Proof. eval_all. Qed.

Lemma ex_facts8 :
  bool_decide (is_Some (w_heap (m_world (n_mgr ex_n8)) !! 1%positive)) = true /\
  n_phase ex_n8 !! 1%positive = Some (PRunning true true) /\ SetReadDeadline (conn ex_p8) = true /\ (ReadFrame (conn ex_p8)).1 = Ok ex_raw /\
  SeenCache_Has (eSeen (m_gossip (n_mgr ex_n8))) "m1" = false /\
  KeyRing_Lookup (eKeyRing (m_gossip (n_mgr ex_n8))) (toy_id 7) = Some (mkKeyEntry (toy_pub 7) TrustDirectlyVerified) /\
  (RateLimiter_Allow (eLimiter (m_gossip (n_mgr ex_n8))) (toy_id 7) 5).1 = true.
Proof. eval_all. Qed.

Lemma chat_crosses_witness :
  (exists nA1 pA1, node_step ex_n7 (NFanout 100 5 "m1") = Some nA1 /\
     w_heap (m_world (n_mgr nA1)) !! 1%positive = Some pA1 /\ sendCh pA1 = sendCh ex_p7 ++ [ex_raw]) /\
  (exists nB1, node_step ex_n8 (NRecv 1 6 ex_noshuffle) = Some nB1 /\
     hub_of nB1 = DeliverRemote (hub_of ex_n8) "ann" "hi").
Proof.
  destruct ex_facts7 as (Hp7 & Hmsg & Hraw & Htab & Hq). destruct ex_facts8 as (Hp8 & Hrun & Hdl & Hread & Hseen & Hkey & Hrate).
  refine (chat_crosses (ex_config 1) (ex_config 1) (ex_identity 7) (ex_identity 8) ex_n7 ex_n8 (mkRemoteMsg "ann" "hi") []
    "m1" 100 5 6 ex_payload ex_raw 1 1 ex_p7 ex_p8 true (ReadFrame (conn ex_p8)).2 ex_noshuffle
    ex_inv7 ex_inv8 ex_identity_ok7 _ Hmsg _ _ _ Hraw Htab (some_default _ _ Hp7) _ Hrun (some_default _ _ Hp8) _ _ Hseen _ Hrate).
  - vm_compute. reflexivity.
  - vm_compute. reflexivity.
  - vm_compute. discriminate.
  - split; [discriminate|]. vm_compute. discriminate.
  - rewrite Hq. lia.
  - split; [exact Hdl|]. rewrite <- Hread. apply surjective_pairing.
  - intros l. reflexivity.
  - intros e He. change (NodeID (ex_identity 7)) with (toy_id 7) in He. rewrite Hkey in He. injection He as <-. reflexivity.
Defined.
