(* ===== verification/Ssh.v ===== *)
(** * Ssh: the partyline commands and sessions

    Models [internal/ssh/commands.go] and the session side of
    [internal/ssh/server.go].  A terminal is the list of what was written to it
    and its prompt.  A command's handler is data interpreted by [run_handler]:
    the built-in handlers are constructors, because [/help] reads the
    registry it is registered in; any other handler is [HExternal].  Calls into
    the hub wait for its loop: [None] is a call that never returns, because
    the hub has stopped. *)

From S2P Require Import Prelude Bytes Strs Text Partyline.
From stdpp Require Import pretty.
From Stdlib Require Import Ascii.

Record Terminal := mkTerminal {
  t_out : list string;
  t_prompt : string
}.

Definition CRLF : string := String (ascii_of_nat 13) (String (ascii_of_nat 10) EmptyString).
Definition LF : string := String (ascii_of_nat 10) EmptyString.

(** [fmt.Fprint] and [fmt.Fprintln] to a terminal. *)
Definition print (t : Terminal) (s : string) : Terminal := mkTerminal (t_out t ++ [s]) (t_prompt t).
Definition println (t : Terminal) (s : string) : Terminal := print t (s ++ LF).
Definition SetPrompt (t : Terminal) (s : string) : Terminal := mkTerminal (t_out t) s.

Definition prompt (nick : string) : string := "[" ++ nick ++ "]> ".

(** What a handler acts on: the session and the arguments, and the hub and
    the terminal, which it changes. *)
Record CommandContext := mkCommandContext { ctx_Session : ptr; ctx_Args : list string }.
Record Screen := mkScreen { scr_hub : Hub; scr_term : Terminal }.

(** [true]: close the session. *)
Inductive CommandHandler :=
| HWho | HNick | HQuit | HHelp
| HExternal (f : CommandContext -> Screen -> option (bool * Screen)).

Record Command := mkCommand { Usage : string; Help : string; Handler : CommandHandler }.

(** ** The registry *)

Record CommandRegistry := mkRegistry {
  commands : gmap string Command;
  order : list string;
  frozen : bool
}.

Definition NewCommandRegistry : CommandRegistry := mkRegistry ∅ [] false.

(** [Register]; [None] is a panic. The handler is nil when [cmd] is [None]. *)
Definition Register (r : CommandRegistry) (name : string) (cmd : option Command) : option CommandRegistry :=
  match cmd with
  | None => None
  | Some cmd =>
      if frozen r then None
      else
        let order' := match commands r !! name with Some _ => order r | None => order r ++ [name] end in
        Some (mkRegistry (<[name := cmd]> (commands r)) order' (frozen r))
  end.

Definition Freeze (r : CommandRegistry) : CommandRegistry := mkRegistry (commands r) (order r) true.

Definition help_line (name usage help : string) : string :=
  let display := if bool_decide (usage = ""%string) then name else usage in
  "  " ++ pad_right 14 display ++ " — " ++ help ++ LF.

(** [HelpText]; a name without a command would show the zero [Command]. *)
Definition HelpText (r : CommandRegistry) : string :=
  foldl (fun b name =>
    match commands r !! name with
    | Some cmd => b ++ help_line name (Usage cmd) (Help cmd)
    | None => b ++ help_line name "" ""
    end)%string ("Commands:" ++ LF)%string (order r).

(** ** The built-in commands *)

Definition run_handler (r : CommandRegistry) (h : CommandHandler) (ctx : CommandContext) (s : Screen)
    : option (bool * Screen) :=
  let hub := scr_hub s in
  let t := scr_term s in
  match h with
  | HWho =>
      match Hub_Who hub with
      | None => None
      | Some nicks =>
        Some (false, mkScreen hub (print t ("Online (" ++ pretty (length nicks) ++ "): " ++ strings_Join nicks ", " ++ CRLF)))
      end
  | HNick =>
      match ctx_Args ctx with
      | [] => Some (false, mkScreen hub (println t "Usage: /nick <name>"))
      | newNick :: _ =>
          match Hub_SetNick hub (ctx_Session ctx) newNick with
          | None => None
          | Some (hub1, _) => Some (false, mkScreen hub1 (SetPrompt t (prompt newNick)))
          end
      end
  | HQuit => Some (true, mkScreen hub (println t "Goodbye."))
  | HHelp => Some (false, mkScreen hub (print t (HelpText r)))
  | HExternal f => f ctx s
  end.

Definition builtins : list (string * Command) :=
  [("/who", mkCommand "" "list online users" HWho);
   ("/nick", mkCommand "/nick <name>" "change your nickname" HNick);
   ("/quit", mkCommand "" "disconnect" HQuit);
   ("/help", mkCommand "" "show this help" HHelp)]%string.

(** A sequence of registrations. *)
Fixpoint register_all (r : CommandRegistry) (cmds : list (string * Command)) : option CommandRegistry :=
  match cmds with
  | [] => Some r
  | (name, cmd) :: cmds' =>
      match Register r name (Some cmd) with None => None | Some r' => register_all r' cmds' end
  end.

Definition RegisterBuiltins (r : CommandRegistry) : option CommandRegistry := register_all r builtins.

(** ** Dispatch *)

Definition Dispatch (r : CommandRegistry) (line : string) (session : ptr) (s : Screen) : option (bool * Screen) :=
  match Fields line with
  | [] => Some (false, s)
  | name :: args =>
      match commands r !! name with
      | None =>
          Some (false, mkScreen (scr_hub s) (print (scr_term s) ("Unknown command: " ++ name ++ " (try /help)" ++ CRLF)))
      | Some cmd => run_handler r (Handler cmd) (mkCommandContext session args) s
      end
  end.

(** ** A terminal session ([runTerminal]) *)

(** What a session is greeted with. *)
Definition greeting (nodeName : string) : list string :=
  [("Welcome to " ++ nodeName ++ " partyline!" ++ CRLF)%string; ("Type /help for commands." ++ LF)%string; LF].

(** One line of the read loop. *)
Definition terminal_line (r : CommandRegistry) (session : ptr) (line : string) (s : Screen) : option (bool * Screen) :=
  let line := TrimSpace line in
  if bool_decide (line = ""%string) then Some (false, s)
  else if HasPrefix line "/" then Dispatch r line session s
  else Some (false, mkScreen (Hub_Broadcast (scr_hub s) session line) (scr_term s)).

(** What happens to a session between its lines: the rest of the node works
    on the hub, and the sender goroutine writes to the terminal. *)
Inductive session_event :=
| SLine (line : string)
| SHub (e : hub_event)
| SMessage.

(** The sender goroutine prints the next message of the session. *)
Definition deliver_message (session : ptr) (s : Screen) : Screen :=
  match heap (scr_hub s) !! session with
  | Some (mkSession _ _ (msg :: _) _) => mkScreen (session_read (scr_hub s) session) (println (scr_term s) msg)
  | _ => s
  end.

(** The read loop over a sequence of events, up to the one that ends it;
    true: the loop ended by a command. [None]: a step that cannot happen. *)
Fixpoint read_loop (r : CommandRegistry) (session : ptr) (evs : list session_event) (s : Screen) : option (bool * Screen) :=
  match evs with
  | [] => Some (false, s)
  | SLine line :: evs' =>
      match terminal_line r session line s with
      | None => None
      | Some (true, s1) => Some (true, s1)
      | Some (false, s1) => read_loop r session evs' s1
      end
  | SHub e :: evs' =>
      match hub_step (scr_hub s) e with
      | None => None
      | Some hub => read_loop r session evs' (mkScreen hub (scr_term s))
      end
  | SMessage :: evs' => read_loop r session evs' (deliver_message session s)
  end.

(** The end of [runTerminal]: leaving waits for the hub. *)
Definition close_terminal (session : ptr) (s : Screen) : option Screen :=
  match Hub_Leave (scr_hub s) session with None => None | Some hub => Some (mkScreen hub (scr_term s)) end.

(** ** The server *)

(** [loadAuthorizedKeys]: [ParseAuthorizedKey] yields the wire form of the
    first key it finds and what follows its line; a file that cannot be read has no
    keys. *)
Section AuthorizedKeys.
Context (ParseAuthorizedKey : bytes -> option (bytes * bytes)).

Fixpoint parse_keys (fuel : nat) (data : bytes) : list bytes :=
  match fuel with
  | O => []
  | S fuel' =>
      match data with
      | [] => []
      | _ => match ParseAuthorizedKey data with None => [] | Some (key, rest) => key :: parse_keys fuel' rest end
      end
  end.

Definition loadAuthorizedKeys (file : option bytes) : list bytes :=
  match file with None => [] | Some data => parse_keys (length data) data end.
End AuthorizedKeys.

Definition publicKeyCallback (authKeys : list bytes) (keyBytes : bytes) : bool :=
  existsb (fun authorized => bool_decide (keyBytes = authorized)) authKeys.

(** The requests of a session channel until the shell starts: the replies,
    and whether it started. After that every request is refused. *)
Record Request := mkRequest { req_Type : string; req_WantReply : bool }.

Fixpoint handleSession (reqs : list Request) : list bool * bool :=
  match reqs with
  | [] => ([], false)
  | r :: reqs' =>
      let reply (ok : bool) := if req_WantReply r then [ok] else [] in
      if bool_decide (req_Type r = "pty-req"%string) then
        let '(rs, started) := handleSession reqs' in (reply true ++ rs, started)
      else if bool_decide (req_Type r = "shell"%string) then
        (reply true ++ ((fun _ => false) <$> filter (fun r => req_WantReply r = true) reqs'), true)
      else
        let '(rs, started) := handleSession reqs' in (reply false ++ rs, started)
  end.

(** A server. Connections are numbered in the order they are accepted; [wg]
    counts the handlers that have not finished. *)
Record Server := mkServer {
  srv_commands : CommandRegistry;
  authKeys : list bytes;
  listening : bool;
  conns : gset nat;
  stopping : bool;
  wg : nat;
  closed : gset nat;       (* connections on which [Close] was called *)
  next_conn : nat
}.

Definition set_conns (s : Server) (cs : gset nat) (stop : bool) (w : nat) (cl : gset nat) (next : nat) : Server :=
  mkServer (srv_commands s) (authKeys s) (listening s) cs stop w cl next.

(** [NewServer]; [None] is a panic. *)
Definition NewServer (ParseAuthorizedKey : bytes -> option (bytes * bytes)) (file : option bytes) : option Server :=
  match RegisterBuiltins NewCommandRegistry with
  | None => None
  | Some registry => Some (mkServer registry (loadAuthorizedKeys ParseAuthorizedKey file) false ∅ false 0 ∅ 0)
  end.

(** [Listen]: binding the socket fails, or the registry is frozen. *)
Definition Listen (s : Server) (bound : bool) : option Server :=
  if bound then Some (mkServer (Freeze (srv_commands s)) (authKeys s) true (conns s) (stopping s) (wg s) (closed s) (next_conn s))
  else None.

(** [Serve] after [Accept]. *)
Definition serve_accept (s : Server) : Server :=
  let c := next_conn s in
  if stopping s then set_conns s (conns s) true (wg s) ({[c]} ∪ closed s) (S c)
  else set_conns s ({[c]} ∪ conns s) false (S (wg s)) (closed s) (S c).

(** The deferred calls of [handleConnection]. *)
Definition removeConn (s : Server) (c : nat) : Server :=
  set_conns s (conns s ∖ {[c]}) (stopping s) (wg s) (closed s) (next_conn s).

Definition handler_end (s : Server) (c : nat) : Server :=
  let s1 := removeConn s c in
  set_conns s1 (conns s1) (stopping s1) (pred (wg s1)) ({[c]} ∪ closed s1) (next_conn s1).

(** The locked part of [Stop]. *)
Definition server_stop (s : Server) : Server :=
  set_conns s (conns s) true (wg s) (conns s ∪ closed s) (next_conn s).
