(* ===== verification/SshProps.v ===== *)
(** * SshProps: what sessions and commands do

    The registry keeps the commands in order of registration; a terminal
    session acts on the hub through the events of its lines and no other way; the
    key check; the shutdown of the server. *)

From S2P Require Import Prelude Bytes Strs Text Partyline PartylineProps Ssh.
From Stdlib Require Import Init.Byte.

(** ** The registry *)

Record registry_wf (r : CommandRegistry) : Prop := {
  rw_NoDup : NoDup (order r);
  rw_dom name : name ∈ order r <-> is_Some (commands r !! name)
}.

Lemma Register_some r name cmd : frozen r = false -> exists r', Register r name (Some cmd) = Some r' /\ frozen r' = false /\
  commands r' = <[name := cmd]> (commands r) /\
  order r' = order r ++ (if bool_decide (is_Some (commands r !! name)) then [] else [name]).
Proof.
  intros Hf. unfold Register. rewrite Hf. eexists. split; [done|]. split_and!; [done|done|]. cbn.
  destruct (commands r !! name); cbn; [by rewrite app_nil_r|done].
Qed.

Lemma Register_wf r name cmd r' : registry_wf r -> Register r name (Some cmd) = Some r' -> registry_wf r'.
Proof.
  intros [Hnd Hdom]. unfold Register. destruct (frozen r); [done|]. intros [= <-].
  destruct (commands r !! name) as [c|] eqn:E; split; cbn.
  - done.
  - intros n. rewrite lookup_insert_is_Some', Hdom. split; [by right|]. intros [<-|?]; [by eexists|done].
  - apply NoDup_app. split_and!; [done| |apply NoDup_singleton]. intros n Hn ->%list_elem_of_singleton.
    apply Hdom in Hn as [? ?]. congruence.
  - intros n. rewrite elem_of_app, list_elem_of_singleton, lookup_insert_is_Some', Hdom. naive_solver.
Qed.

Lemma register_all_spec r cmds :
  frozen r = false -> registry_wf r ->
  exists r', register_all r cmds = Some r' /\ registry_wf r' /\ frozen r' = false /\
    commands r' = list_to_map (rev cmds) ∪ commands r /\ exists new, order r' = order r ++ new /\ new `sublist_of` cmds.*1.
Proof.
  revert r. induction cmds as [|[name cmd] cmds IH]; intros r Hf Hwf.
  { exists r. split_and!; try done; [cbn; by rewrite (left_id_L ∅ (∪))|]. exists []. by rewrite app_nil_r. }
  destruct (Register_some r name cmd Hf) as (r1 & Hr1 & Hf1 & Hc1 & Ho1). cbn [register_all]. rewrite Hr1.
  destruct (IH r1 Hf1 (Register_wf _ _ _ _ Hwf Hr1)) as (r2 & Hr2 & Hwf2 & Hf2 & Hc2 & new & Ho2 & Hsub).
  exists r2. split_and!; try done.
  - rewrite Hc2, Hc1. cbn [rev]. rewrite list_to_map_app. cbn. rewrite insert_union_singleton_l.
    by rewrite (assoc_L (∪)).
  - exists ((if bool_decide (is_Some (commands r !! name)) then [] else [name]) ++ new). split.
    + by rewrite Ho2, Ho1, app_assoc.
    + cbn. case_bool_decide; [by apply sublist_cons|by apply sublist_skip].
Qed.

(** The registry after any sequence of registrations: registering never
    fails before the freeze and always after it; help lists every command once, in
    the order of first registration; and a name's command is the last one registered
    under it. *)
Theorem registry_order (cmds : list (string * Command)) :
  exists r, register_all NewCommandRegistry cmds = Some r /\
    NoDup (order r) /\ order r `sublist_of` cmds.*1 /\ (forall name, name ∈ order r <-> name ∈ cmds.*1) /\
    commands r = list_to_map (rev cmds) /\ (forall name cmd, Register (Freeze r) name cmd = None).
Proof.
  destruct (register_all_spec NewCommandRegistry cmds) as (r & Hr & [Hnd Hdom] & Hf & Hc & new & Ho & Hsub); [done| |].
  { split; [constructor|]. intros name. cbn. rewrite lookup_empty. split; [by intros ?%elem_of_nil|by intros []]. }
  cbn in Hc, Ho. rewrite (right_id_L ∅ (∪)) in Hc. exists r. split_and!; try done.
  - by rewrite Ho.
  - intros name. rewrite Hdom, Hc. rewrite <- elem_of_dom, dom_list_to_map_L, elem_of_list_to_set, !list_elem_of_fmap.
    split; intros (y & -> & Hy); exists y; (split; [done|]);
      apply list_elem_of_In; apply list_elem_of_In in Hy;
      [by apply (proj2 (in_rev _ _))|by apply (proj1 (in_rev _ _))].
  - intros name [cmd|]; done.
Qed.

(** ** Sessions *)

(** What a line makes the hub do, and whether it ends the session, with the
    built-in commands. *)
Definition line_events (p : ptr) (line : string) : list hub_event * bool :=
  let line := TrimSpace line in
  if bool_decide (line = ""%string) then ([], false)
  else if HasPrefix line "/" then
    match Fields line with
    | [] => ([], false)
    | name :: args =>
        if bool_decide (name = "/who"%string) then ([EWho], false)
        else if bool_decide (name = "/nick"%string) then
          (match args with nick :: _ => [ESetNick p nick] | [] => [] end, false)
        else ([], bool_decide (name = "/quit"%string))
    end
  else ([EBroadcast p line], false).

Fixpoint session_trace (p : ptr) (evs : list session_event) : list hub_event * bool :=
  match evs with
  | [] => ([], false)
  | SLine line :: evs' =>
      let '(es, quit) := line_events p line in
      if quit : bool then (es, true) else let '(es', q) := session_trace p evs' in (es ++ es', q)
  | SHub e :: evs' => let '(es', q) := session_trace p evs' in (e :: es', q)
  | SMessage :: evs' => let '(es', q) := session_trace p evs' in (ESessionRead p :: es', q)
  end.

Definition builtin_registry : CommandRegistry :=
  Freeze (default NewCommandRegistry (RegisterBuiltins NewCommandRegistry)).

Lemma builtin_lookup name :
  Handler <$> commands builtin_registry !! name =
  if bool_decide (name = "/who"%string) then Some HWho
  else if bool_decide (name = "/nick"%string) then Some HNick
  else if bool_decide (name = "/quit"%string) then Some HQuit
  else if bool_decide (name = "/help"%string) then Some HHelp else None.
Proof.
  unfold builtin_registry, RegisterBuiltins, builtins, NewCommandRegistry. cbn -[insert].
  rewrite !lookup_insert, lookup_empty.
  repeat case_bool_decide; repeat (case_decide; try congruence); done.
Qed.

(** The hub after a sequence of events, if each can happen. *)
Fixpoint hub_exec (h : Hub) (es : list hub_event) : option Hub :=
  match es with
  | [] => Some h
  | e :: es' => match hub_step h e with Some h1 => hub_exec h1 es' | None => None end
  end.

Lemma hub_exec_app h es1 es2 : hub_exec h (es1 ++ es2) = hub_exec h es1 ≫= (fun h1 => hub_exec h1 es2).
Proof. revert h. induction es1 as [|e es1 IH]; intros h; [done|]. cbn. by destruct (hub_step h e). Qed.

Lemma terminal_line_hub p line s :
  (fun r => (r.1, scr_hub r.2)) <$> terminal_line builtin_registry p line s =
  (fun h => ((line_events p line).2, h)) <$> hub_exec (scr_hub s) (line_events p line).1.
Proof.
  unfold terminal_line, line_events. case_bool_decide; [done|]. destruct (HasPrefix _ _); [|done].
  unfold Dispatch. destruct (Fields (TrimSpace line)) as [|name args]; [done|].
  pose proof (builtin_lookup name) as Hl. destruct (commands builtin_registry !! name) as [cmd|]; cbn in Hl.
  - destruct (Handler cmd) eqn:Hh; repeat case_bool_decide; try done; unfold run_handler, Hub_Who, Hub_SetNick; cbn.
    + by destruct (stopped (scr_hub s)).
    + destruct args; cbn; [done|]. destruct (stopped (scr_hub s)); [done|]. by destruct (do_setNick _ _ _).
  - repeat case_bool_decide; done.
Qed.

(** C27. A terminal session acts on the hub only through its events: with the
    built-in commands, whatever is typed and whatever happens to the hub in
    between, the hub ends in the state of the run in which each line of text
    is one broadcast of the trimmed line, [/nick] one change of nick, [/who]
    one query, and any other line starting with a slash nothing; the session
    ends at the first [/quit], and blocks only where that run is stuck
    because the hub has stopped. A command is never sent as chat. *)
Theorem session_refines_hub (p : ptr) (evs : list session_event) (s : Screen) :
  (fun r => (r.1, scr_hub r.2)) <$> read_loop builtin_registry p evs s =
  (fun h => ((session_trace p evs).2, h)) <$> hub_exec (scr_hub s) (session_trace p evs).1.
Proof.
  revert s. induction evs as [|[line|e|] evs IH]; intros s; cbn [read_loop session_trace]; [done|..].
  - pose proof (terminal_line_hub p line s) as Hl. destruct (line_events p line) as [es quit]. cbn in Hl.
    destruct (terminal_line builtin_registry p line s) as [[q s1]|]; cbn in Hl.
    + destruct (hub_exec (scr_hub s) es) as [h|] eqn:Hr; cbn in Hl; [|done]. injection Hl as -> <-.
      destruct quit; [cbn; by rewrite Hr|]. rewrite IH.
      destruct (session_trace p evs) as [es' q']. cbn. by rewrite hub_exec_app, Hr.
    + destruct (hub_exec (scr_hub s) es) eqn:Hr; [done|]. destruct quit; [cbn; by rewrite Hr|].
      destruct (session_trace p evs) as [es' q']. cbn. by rewrite hub_exec_app, Hr.
  - destruct (session_trace p evs) as [es' q'] eqn:E. cbn [fst snd hub_exec].
    destruct (hub_step (scr_hub s) e) as [h|]; [|done]. rewrite IH. by rewrite ?E.
  - rewrite IH. destruct (session_trace p evs) as [es' q']. cbn [fst snd hub_exec hub_step].
    unfold deliver_message, session_read. by destruct (heap (scr_hub s) !! p) as [[? ? [|? ?] ?]|].
Qed.

(** ** The key check *)

(** The lines of a file; a newline at its end begins no further line. *)
Fixpoint file_lines (data : bytes) : list bytes :=
  match data with
  | [] => []
  | b :: data' =>
      if bool_decide (b = x0a) then [] :: file_lines data'
      else match file_lines data' with [] => [[b]] | line :: ls => (b :: line) :: ls end
  end.

Lemma file_lines_last line : x0a ∉ line -> line <> [] -> file_lines line = [line].
Proof.
  induction line as [|b line IH]; [done|]. intros [Hb Hn]%not_elem_of_cons _. cbn.
  rewrite bool_decide_eq_false_2 by congruence. destruct line as [|b' line]; [done|]. by rewrite IH.
Qed.

Lemma file_lines_cons line rest : x0a ∉ line -> file_lines (line ++ x0a :: rest) = line :: file_lines rest.
Proof.
  induction line as [|b line IH]; [by cbn|]. intros [Hb Hn]%not_elem_of_cons. cbn.
  rewrite bool_decide_eq_false_2 by congruence. by rewrite IH.
Qed.

(** How [ssh.ParseAuthorizedKey] reads a file: it goes through the lines,
    ignores those in which it finds no key, and returns the key of the first one that has
    a key, with what follows that line; it fails when no line has one. *)
Class AuthorizedKeyLaws (ParseAuthorizedKey : bytes -> option (bytes * bytes)) (line_key : bytes -> option bytes) : Prop := {
  parse_empty : ParseAuthorizedKey [] = None;
  parse_last line : x0a ∉ line -> line <> [] -> ParseAuthorizedKey line = (fun key => (key, [])) <$> line_key line;
  parse_line line rest : x0a ∉ line ->
    ParseAuthorizedKey (line ++ x0a :: rest) =
    match line_key line with Some key => Some (key, rest) | None => ParseAuthorizedKey rest end
}.

Section Keys.
Context (ParseAuthorizedKey : bytes -> option (bytes * bytes)) (line_key : bytes -> option bytes).
Context `{!AuthorizedKeyLaws ParseAuthorizedKey line_key}.

Lemma parse_keys_S fuel data :
  parse_keys ParseAuthorizedKey (S fuel) data =
  match ParseAuthorizedKey data with None => [] | Some (key, rest) => key :: parse_keys ParseAuthorizedKey fuel rest end.
Proof. destruct data as [|b data]; [|done]. by rewrite parse_empty. Qed.

(** The loop of [loadAuthorizedKeys] reads the keys of all the lines. *)
Lemma parse_keys_lines fuel data :
  (length data <= fuel)%nat -> parse_keys ParseAuthorizedKey fuel data = omap line_key (file_lines data).
Proof.
  remember (length data) as n eqn:E. assert (length data <= n)%nat as Hn by lia. clear E.
  revert fuel data Hn. induction n as [|n IH]; intros fuel data Hn Hf; [destruct data; [by destruct fuel|cbn in Hn; lia]|].
  destruct fuel as [|fuel]; [lia|]. rewrite parse_keys_S. destruct (decide (x0a ∈ data)) as [Hin|Hin].
  - apply list_elem_of_split_l in Hin as (line & rest & -> & Hl). rewrite parse_line, file_lines_cons by done. cbn.
    rewrite length_app in Hn. cbn in Hn. destruct (line_key line) as [key|].
    + f_equal. apply IH; lia.
    + rewrite <- (IH (S fuel) rest) by lia. by rewrite parse_keys_S.
  - destruct data as [|b data]; [by rewrite parse_empty|]. rewrite parse_last, file_lines_last by done. cbn.
    destruct (line_key _); [|done]. by destruct fuel.
Qed.
End Keys.

(** ** The shutdown of the server *)

Inductive server_event := SAccept | SEnd (c : nat) | SStop.

(** A handler ends once. *)
Definition server_step (s : Server) (e : server_event) : option Server :=
  match e with
  | SAccept => Some (serve_accept s)
  | SEnd c => if bool_decide (c ∈ conns s) then Some (handler_end s c) else None
  | SStop => Some (server_stop s)
  end.

Fixpoint server_run (s : Server) (es : list server_event) : option Server :=
  match es with
  | [] => Some s
  | e :: es' => match server_step s e with Some s1 => server_run s1 es' | None => None end
  end.

Record server_inv (s : Server) : Prop := {
  si_wg : wg s = size (conns s);
  si_new c : c ∈ conns s -> (c < next_conn s)%nat;
  si_all c : (c < next_conn s)%nat -> c ∈ conns s \/ c ∈ closed s;
  si_stop c : stopping s = true -> c ∈ conns s -> c ∈ closed s
}.

Lemma server_step_inv s e s' : server_inv s -> server_step s e = Some s' -> server_inv s'.
Proof.
  intros [Hwg Hnew Hall Hstop]. destruct e as [|c|]; cbn.
  - intros [= <-]. unfold serve_accept. destruct (stopping s) eqn:Est; split; cbn; try done.
    + intros c Hc. specialize (Hnew c Hc). lia.
    + intros c Hc. destruct (decide (c = next_conn s)) as [->|]; [set_solver|]. destruct (Hall c); [lia|set_solver..].
    + set_solver.
    + rewrite size_union by (rewrite disjoint_singleton_l; intros Hc%Hnew; lia). by rewrite size_singleton, Hwg.
    + intros c Hc. apply elem_of_union in Hc as [->%elem_of_singleton|Hc%Hnew]; lia.
    + intros c Hc. destruct (decide (c = next_conn s)) as [->|]; [set_solver|]. destruct (Hall c); [lia|set_solver..].
  - case_bool_decide as Hc; [|done]. intros [= <-]. unfold handler_end, removeConn. split; cbn.
    + rewrite Hwg, size_difference by set_solver. rewrite size_singleton. lia.
    + set_solver.
    + intros d Hd. destruct (decide (d = c)) as [->|]; [set_solver|]. destruct (Hall d Hd); set_solver.
    + set_solver.
  - intros [= <-]. unfold server_stop. split; cbn; try done; set_solver.
Qed.

Lemma server_run_inv s es s' : server_inv s -> server_run s es = Some s' -> server_inv s'.
Proof.
  revert s. induction es as [|e es IH]; intros s Hi; cbn; [by intros [= <-]|].
  destruct (server_step s e) as [s1|] eqn:E; [|done]. apply IH. by eapply server_step_inv.
Qed.

Lemma server_run_commands s es s' :
  server_run s es = Some s' -> srv_commands s' = srv_commands s /\ authKeys s' = authKeys s.
Proof.
  revert s. induction es as [|e es IH]; intros s; cbn; [by intros [= <-]|].
  destruct (server_step s e) as [s1|] eqn:E; [|done]. intros [-> ->]%IH.
  destruct e as [|c|]; cbn in E; [| |by injection E as <-].
  - injection E as <-. unfold serve_accept. by destruct (stopping s).
  - case_bool_decide; [|done]. by injection E as <-.
Qed.

(** Shutdown reaches every connection: in any order of accepts,
    ends of handlers and [Stop], the wait group counts the handlers that are
    still running, and once [Stop] has run every connection ever accepted, also one
    accepted after it, has been closed; the commands are frozen. *)
Theorem server_shutdown (ParseAuthorizedKey : bytes -> option (bytes * bytes)) (file : option bytes)
  (es : list server_event) (s0 s1 s : Server)
  (Hnew : NewServer ParseAuthorizedKey file = Some s0) (Hlisten : Listen s0 true = Some s1)
  (Hrun : server_run s1 es = Some s) :
  wg s = size (conns s) /\ (stopping s = true -> forall c, (c < next_conn s)%nat -> c ∈ closed s) /\
  forall name cmd, Register (srv_commands s) name cmd = None.
Proof.
  unfold NewServer in Hnew. destruct (RegisterBuiltins NewCommandRegistry) as [r|]; [|done].
  injection Hnew as <-. injection Hlisten as <-.
  destruct (server_run_commands _ _ _ Hrun) as [-> _].
  assert (server_inv s) as [Hwg Hconn Hall Hstop].
  { eapply server_run_inv, Hrun. split; cbn; [done|set_solver|lia|done]. }
  split_and!; [done| |by intros name [cmd|]]. intros Hst c Hc. destruct (Hall c Hc); auto.
Qed.

(** C23. A client is let in exactly when its key is the key of some line of
    the file, wherever the line stands and whatever the other lines are: lines without a key
    are skipped. Without a file nobody is let in. *)
Theorem authorized_iff (ParseAuthorizedKey : bytes -> option (bytes * bytes)) (line_key : bytes -> option bytes)
  (file : option bytes) (key : bytes) (Hparse : AuthorizedKeyLaws ParseAuthorizedKey line_key) :
  publicKeyCallback (loadAuthorizedKeys ParseAuthorizedKey file) key = true <->
  exists data line, file = Some data /\ line ∈ file_lines data /\ line_key line = Some key.
Proof.
  unfold publicKeyCallback. rewrite existsb_exists. setoid_rewrite bool_decide_eq_true. split.
  - intros (k & Hin%list_elem_of_In & <-). destruct file as [data|]; [|by apply elem_of_nil in Hin].
    cbn in Hin. rewrite (parse_keys_lines _ line_key) in Hin by lia.
    apply list_elem_of_omap in Hin as (line & ? & ?). by exists data, line.
  - intros (data & line & -> & Hin & Hk). exists key. split; [|done]. apply list_elem_of_In. cbn.
    rewrite (parse_keys_lines _ line_key) by lia. apply list_elem_of_omap. by exists line.
Qed.

(** ** Witnesses *)

(** Keys of one byte, on lines of their own; the zero byte is no key. *)
Definition ex_line_key (line : bytes) : option bytes :=
  match line with [x] => if bool_decide (x = x00) then None else Some [x] | _ => None end.

Fixpoint ex_scan (cur data : bytes) : option (bytes * bytes) :=
  match data with
  | [] => (fun key => (key, [])) <$> ex_line_key cur
  | b :: data' =>
      if bool_decide (b = x0a) then
        match ex_line_key cur with Some key => Some (key, data') | None => ex_scan [] data' end
      else ex_scan (cur ++ [b]) data'
  end.
Definition ex_parse : bytes -> option (bytes * bytes) := ex_scan [].

Lemma ex_scan_last cur line : x0a ∉ line -> ex_scan cur line = (fun key => (key, [])) <$> ex_line_key (cur ++ line).
Proof.
  revert cur. induction line as [|b line IH]; intros cur Hn; cbn; [by rewrite app_nil_r|].
  apply not_elem_of_cons in Hn as [Hb Hn]. rewrite bool_decide_eq_false_2 by congruence. by rewrite IH, <- app_assoc.
Qed.

Lemma ex_scan_line cur line rest : x0a ∉ line ->
  ex_scan cur (line ++ x0a :: rest) =
  match ex_line_key (cur ++ line) with Some key => Some (key, rest) | None => ex_scan [] rest end.
Proof.
  revert cur. induction line as [|b line IH]; intros cur Hn; cbn; [by rewrite app_nil_r|].
  apply not_elem_of_cons in Hn as [Hb Hn]. rewrite bool_decide_eq_false_2 by congruence. by rewrite IH, <- app_assoc.
Qed.

Lemma ex_parse_laws : AuthorizedKeyLaws ex_parse ex_line_key.
Proof.
  split; [done|intros line Hn _; by apply (ex_scan_last [])|intros line rest Hn; by apply (ex_scan_line [])].
Qed.

(** The second line, [00 04], has no key; the third one is still read. *)
Lemma authorized_iff_witness :
  publicKeyCallback (loadAuthorizedKeys ex_parse (Some [x02; x0a; x00; x04; x0a; x03])) [x03] = true /\
  ~ exists data line, Some [x02; x0a; x00; x04; x0a; x03] = Some data /\ line ∈ file_lines data /\ ex_line_key line = Some [x04].
Proof.
  split.
  - apply (authorized_iff ex_parse ex_line_key _ [x03] ex_parse_laws).
    exists [x02; x0a; x00; x04; x0a; x03], [x03]. split; [reflexivity|]. split; [right; right; left|reflexivity].
  - intros Hk. apply (authorized_iff ex_parse ex_line_key (Some [x02; x0a; x00; x04; x0a; x03]) [x04] ex_parse_laws) in Hk.
    vm_compute in Hk. discriminate.
Defined.

Definition ex_server_run : list server_event := [SAccept; SAccept; SEnd 0; SStop; SAccept; SEnd 1].

Definition ex_empty_server : Server := mkServer NewCommandRegistry [] false ∅ false 0 ∅ 0.
Definition ex_server0 : Server := default ex_empty_server (NewServer ex_parse None).
Definition ex_server1 : Server := default ex_empty_server (Listen ex_server0 true).
Definition ex_server2 : Server := default ex_empty_server (server_run ex_server1 ex_server_run).

Lemma server_shutdown_witness :
  wg ex_server2 = 0%nat /\ wg ex_server2 = size (conns ex_server2) /\
  forall c, (c < next_conn ex_server2)%nat -> c ∈ closed ex_server2.
Proof.
  destruct (server_shutdown ex_parse None ex_server_run ex_server0 ex_server1 ex_server2) as (Hwg & Hc & _).
  - apply some_default. vm_compute. reflexivity.
  - apply some_default. vm_compute. reflexivity.
  - apply some_default. vm_compute. reflexivity.
  - split; [vm_compute; reflexivity|]. split; [exact Hwg|]. apply Hc. vm_compute. reflexivity.
Defined.
