(* ===== verification/SshServer.v ===== *)
(** * SshServer: the SSH server at work

    The goroutines of [internal/ssh/server.go]: [Serve]'s accept loop, one
    [handleConnection] per connection, one [handleSession] per channel with its
    terminal loop and its sender, and [Stop].  [srv_step] is the function of one
    atomic step on the server and the hub.  A goroutine that waits is in a
    phase of its own, and the step that ends the wait is possible only when
    what it waits for has happened: room in the hub's [broadcast] channel, the
    hub's loop, the end of another goroutine.  The SSH protocol is the library's:
    its messages are events. *)

From S2P Require Import Prelude Bytes Strs Text Partyline Ssh.

(** A terminal session in [runTerminal]: in [ReadLine]; in [hub.Broadcast];
    before and after [hub.Leave], where it waits for the sender; and, at the start,
    printing what is left of the greeting, between which the sender may print. *)
Inductive term_phase :=
| TReading
| TSending (text : string)
| TLeaving
| TLeft
| TGreeting (rest : list string).

(** A channel in [handleSession]: before the shell request; in [hub.Join]; in
    the terminal, with whether the sender goroutine is running; returned. *)
Inductive chan_phase :=
| ChRequests
| ChJoining
| ChTerminal (session : ptr) (t : Terminal) (ph : term_phase) (sender : bool)
| ChEnded.

Record SshSession := mkSshSession {
  ss_conn : nat;
  ss_phase : chan_phase;
  ss_replies : list bool      (* the replies to its requests *)
}.

(** A handler in [handleConnection]: in the SSH handshake; in the loop over new
    channels; in [sessionWg.Wait]. *)
Inductive handler :=
| HShake
| HServing (user : string) (key : bytes)
| HWaiting (user : string) (key : bytes).

Record SshState := mkSshState {
  v_srv : Server;
  v_serving : bool;                 (* whether [Serve] is in its loop *)
  v_cancelled : bool;               (* whether the context is done *)
  v_handlers : gmap nat handler;    (* by connection *)
  v_sessions : gmap nat SshSession;
  v_rejected : nat                  (* channels refused *)
}.

Definition set_srv (st : SshState) (s : Server) : SshState :=
  mkSshState s (v_serving st) (v_cancelled st) (v_handlers st) (v_sessions st) (v_rejected st).
Definition set_serving (st : SshState) (b : bool) : SshState :=
  mkSshState (v_srv st) b (v_cancelled st) (v_handlers st) (v_sessions st) (v_rejected st).
Definition set_cancelled (st : SshState) : SshState :=
  mkSshState (v_srv st) (v_serving st) true (v_handlers st) (v_sessions st) (v_rejected st).
Definition set_handlers (st : SshState) (h : gmap nat handler) : SshState :=
  mkSshState (v_srv st) (v_serving st) (v_cancelled st) h (v_sessions st) (v_rejected st).
Definition set_ssessions (st : SshState) (m : gmap nat SshSession) : SshState :=
  mkSshState (v_srv st) (v_serving st) (v_cancelled st) (v_handlers st) m (v_rejected st).
Definition add_rejected (st : SshState) : SshState :=
  mkSshState (v_srv st) (v_serving st) (v_cancelled st) (v_handlers st) (v_sessions st) (S (v_rejected st)).

Definition set_phase_of (st : SshState) (sid : nat) (ss : SshSession) (ph : chan_phase) : SshState :=
  set_ssessions st (<[sid := mkSshSession (ss_conn ss) ph (ss_replies ss)]> (v_sessions st)).

(** [Start] up to [Serve]'s loop; [bound]: whether binding the address
    succeeded. *)
Definition ssh_Start (s : Server) (bound : bool) : option SshState :=
  match Listen s bound with
  | None => None
  | Some s1 => Some (mkSshState s1 true false ∅ ∅ 0)
  end.

(** ** Connections *)

(** [Accept] returned a connection: [Serve] starts a handler for it, or ends
    because the server is stopping. *)
Definition Serve_accept (st : SshState) : SshState :=
  let c := next_conn (v_srv st) in
  if stopping (v_srv st) then set_serving (set_srv st (serve_accept (v_srv st))) false
  else set_handlers (set_srv st (serve_accept (v_srv st))) (<[c := HShake]> (v_handlers st)).

(** [Accept] failed. *)
Definition Serve_error (st : SshState) : SshState := if v_cancelled st then set_serving st false else st.

(** The end of [handleConnection]. *)
Definition connection_end (st : SshState) (c : nat) : SshState :=
  set_handlers (set_srv st (handler_end (v_srv st) c)) (delete c (v_handlers st)).

(** [gossh.NewServerConn]: the library completes the handshake for a user
    whose key the callback accepts. *)
Definition handshake (st : SshState) (c : nat) (user : string) (key : bytes) : option SshState :=
  if publicKeyCallback (authKeys (v_srv st)) key then Some (set_handlers st (<[c := HServing user key]> (v_handlers st)))
  else None.

(** A new channel of type [ty]; [accepted]: whether [Accept] succeeded. *)
Definition new_channel (st : SshState) (c : nat) (ty : string) (accepted : bool) (sid : nat) : option SshState :=
  if negb (bool_decide (ty = "session"%string)) then Some (add_rejected st)
  else if negb accepted then Some st
  else
    match v_sessions st !! sid with
    | Some _ => None
    | None => Some (set_ssessions st (<[sid := mkSshSession c ChRequests []]> (v_sessions st)))
    end.

(** Whether [handleSession] has returned. *)
Definition session_ended (ss : SshSession) : bool := match ss_phase ss with ChEnded => true | _ => false end.

Definition sessions_done (st : SshState) (c : nat) : bool :=
  forallb (fun e => negb (Nat.eqb (ss_conn e.2) c) || session_ended e.2) (map_to_list (v_sessions st)).

(** ** Sessions *)

(** A request on a session's channel. After the shell has been requested every
    request is refused, by a goroutine of its own. *)
Definition session_request (st : SshState) (sid : nat) (ss : SshSession) (r : Request) : option SshState :=
  let reply (ok : bool) := ss_replies ss ++ (if req_WantReply r then [ok] else []) in
  let put (ph : chan_phase) (ok : bool) := set_ssessions st (<[sid := mkSshSession (ss_conn ss) ph (reply ok)]> (v_sessions st)) in
  match ss_phase ss with
  | ChRequests =>
      if bool_decide (req_Type r = "pty-req"%string) then Some (put ChRequests true)
      else if bool_decide (req_Type r = "shell"%string) then Some (put ChJoining true)
      else Some (put ChRequests false)
  | ChEnded => None
  | ph => Some (put ph false)
  end.

(** The start of [runTerminal], up to the sender's. *)
Definition session_join (st : SshState) (h : Hub) (sid : nat) (ss : SshSession) (user : string) : option (SshState * Hub) :=
  match Hub_Join h user with
  | None => None
  | Some (h1, p) =>
      Some (set_phase_of st sid ss (ChTerminal p (mkTerminal [] (prompt user)) (TGreeting (greeting (nodeName h1))) true), h1)
  end.

(** What the read loop does with a line up to a call that may wait:
    [hub.Broadcast] waits in a phase of its own, a command runs. *)
Definition session_line (st : SshState) (h : Hub) (sid : nat) (ss : SshSession) (p : ptr) (t : Terminal) (sender : bool)
    (line : string) : option (SshState * Hub) :=
  let line := TrimSpace line in
  if bool_decide (line = ""%string) then Some (st, h)
  else if HasPrefix line "/" then
    match Dispatch (srv_commands (v_srv st)) line p (mkScreen h t) with
    | None => None
    | Some (quit, s) =>
        Some (set_phase_of st sid ss (ChTerminal p (scr_term s) (if quit : bool then TLeaving else TReading) sender), scr_hub s)
    end
  else Some (set_phase_of st sid ss (ChTerminal p t (TSending line) sender), h).

(** The capacity of the hub's [broadcast] channel. *)
Definition broadcastCap : nat := 64.

(** ** Steps *)

Inductive srv_event :=
| VAccept
| VAcceptError
| VHandshake (c : nat) (user : string) (key : bytes)
| VHandshakeFail (c : nat)
| VChannel (c : nat) (ty : string) (accepted : bool) (sid : nat)
| VChansClosed (c : nat)
| VConnEnd (c : nat)
| VRequest (sid : nat) (r : Request)
| VReqsClosed (sid : nat)
| VJoin (sid : nat)
| VLine (sid : nat) (line : string)
| VPost (sid : nat)
| VReadError (sid : nat)
| VLeave (sid : nat)
| VPrint (sid : nat)
| VSenderDone (sid : nat)
| VTermEnd (sid : nat)
| VCancel
| VStop
| VGreet (sid : nat).

(** The user of a session's connection. *)
Definition session_user (st : SshState) (ss : SshSession) : option string :=
  match v_handlers st !! ss_conn ss with
  | Some (HServing user _ | HWaiting user _) => Some user
  | _ => None
  end.

(** A session's step in its terminal. *)
Definition terminal_step (st : SshState) (h : Hub) (sid : nat) (ss : SshSession) (p : ptr) (t : Terminal) (ph : term_phase)
    (sender : bool) (ev : srv_event) : option (SshState * Hub) :=
  let goto t' ph' snd' := set_phase_of st sid ss (ChTerminal p t' ph' snd') in
  match ev, ph with
  | VGreet _, TGreeting [] => Some (goto t TReading sender, h)
  | VGreet _, TGreeting (line :: rest) => Some (goto (print t line) (TGreeting rest) sender, h)
  | VLine _ line, TReading => session_line st h sid ss p t sender line
  | VPost _, TSending text =>
      if (length (broadcast h) <? broadcastCap)%nat then Some (goto t TReading sender, Hub_Broadcast h p text) else None
  | VReadError _, TReading => Some (goto t TLeaving sender, h)
  | VLeave _, TLeaving => match Hub_Leave h p with None => None | Some h1 => Some (goto t TLeft sender, h1) end
  | VPrint _, _ =>
      match heap h !! p with
      | Some (mkSession _ _ (msg :: _) _) => if sender then Some (goto (println t msg) ph true, session_read h p) else None
      | _ => None
      end
  | VSenderDone _, _ =>
      match heap h !! p with
      | Some (mkSession _ _ [] true) => if sender then Some (goto t ph false, h) else None
      | _ => None
      end
  | VTermEnd _, TLeft => if sender then None else Some (set_phase_of st sid ss ChEnded, h)
  | _, _ => None
  end.

Definition event_sid (ev : srv_event) : option nat :=
  match ev with
  | VRequest sid _ | VReqsClosed sid | VJoin sid | VLine sid _ | VPost sid | VReadError sid | VLeave sid
  | VPrint sid | VSenderDone sid | VTermEnd sid | VGreet sid => Some sid
  | _ => None
  end.

Definition session_step (st : SshState) (h : Hub) (sid : nat) (ss : SshSession) (ev : srv_event) : option (SshState * Hub) :=
  match ev, ss_phase ss with
  | VRequest _ r, _ => (fun st1 => (st1, h)) <$> session_request st sid ss r
  | VReqsClosed _, ChRequests => Some (set_phase_of st sid ss ChEnded, h)
  | VJoin _, ChJoining => match session_user st ss with None => None | Some user => session_join st h sid ss user end
  | _, ChTerminal p t ph sender => terminal_step st h sid ss p t ph sender ev
  | _, _ => None
  end.

(** [None]: the step cannot happen now. *)
Definition srv_step (st : SshState) (h : Hub) (ev : srv_event) : option (SshState * Hub) :=
  match event_sid ev with
  | Some sid => match v_sessions st !! sid with None => None | Some ss => session_step st h sid ss ev end
  | None =>
      match ev with
      | VAccept => if v_serving st then Some (Serve_accept st, h) else None
      | VAcceptError => if v_serving st then Some (Serve_error st, h) else None
      | VHandshake c user key =>
          match v_handlers st !! c with Some HShake => (fun st1 => (st1, h)) <$> handshake st c user key | _ => None end
      | VHandshakeFail c => match v_handlers st !! c with Some HShake => Some (connection_end st c, h) | _ => None end
      | VChannel c ty accepted sid =>
          match v_handlers st !! c with
          | Some (HServing _ _) => (fun st1 => (st1, h)) <$> new_channel st c ty accepted sid
          | _ => None
          end
      | VChansClosed c =>
          match v_handlers st !! c with
          | Some (HServing user key) => Some (set_handlers st (<[c := HWaiting user key]> (v_handlers st)), h)
          | _ => None
          end
      | VConnEnd c =>
          match v_handlers st !! c with
          | Some (HWaiting _ _) => if sessions_done st c then Some (connection_end st c, h) else None
          | _ => None
          end
      | VCancel => Some (set_cancelled st, h)
      | VStop => Some (set_srv st (server_stop (v_srv st)), h)
      | _ => None
      end
  end.
