(* ===== verification/SshServerProps.v ===== *)
(** * SshServerProps: the server and the hub

    The server acts on the hub only through the hub's events, with pointers
    [Join] gave it; only holders of an authorized key have sessions; and the
    bookkeeping of handlers, sessions and the wait group is an invariant. *)

From S2P Require Import Prelude Bytes Strs Text Partyline PartylineProps Ssh SshProps SshServer.

(** ** What a step does to the hub *)

(** The event of a terminal's step. *)
Definition terminal_hub_events (p : ptr) (ph : term_phase) (ev : srv_event) : list hub_event :=
  match ev, ph with
  | VLine _ line, _ => if HasPrefix (TrimSpace line) "/" then (line_events p line).1 else []
  | VPost _, TSending text => [EBroadcast p text]
  | VLeave _, _ => [ELeave p]
  | VPrint _, _ => [ESessionRead p]
  | _, _ => []
  end.

Definition srv_hub_events (st : SshState) (ev : srv_event) : list hub_event :=
  match event_sid ev ≫= (fun sid => v_sessions st !! sid) with
  | None => []
  | Some ss =>
      match ev, ss_phase ss with
      | VJoin _, _ => match session_user st ss with Some user => [EJoin user] | None => [] end
      | _, ChTerminal p _ ph _ => terminal_hub_events p ph ev
      | _, _ => []
      end
  end.

Lemma line_events_slash p line :
  HasPrefix (TrimSpace line) "/" = true -> (line_events p line).1 = [] \/
  (line_events p line).1 = [EWho] \/ exists nick, (line_events p line).1 = [ESetNick p nick].
Proof.
  intros Hp. unfold line_events. rewrite Hp. case_bool_decide; [by left|]. destruct (Fields _) as [|name args]; [by left|].
  case_bool_decide; [by right; left|]. case_bool_decide; [|by left]. destruct args as [|nick args]; [by left|].
  right. right. by exists nick.
Qed.

Lemma session_line_hub st h sid ss p t sender line st' h' :
  srv_commands (v_srv st) = builtin_registry -> session_line st h sid ss p t sender line = Some (st', h') ->
  hub_exec h (terminal_hub_events p TReading (VLine sid line)) = Some h'.
Proof.
  intros Hc. unfold session_line. cbn [terminal_hub_events].
  pose proof (terminal_line_hub p line (mkScreen h t)) as Hl. unfold terminal_line in Hl.
  case_bool_decide as Hempty.
  { intros [= <- <-]. rewrite Hempty. reflexivity. }
  destruct (HasPrefix (TrimSpace line) "/"); [|by intros [= <- <-]]. rewrite Hc.
  destruct (Dispatch _ _ p _) as [[quit s]|]; [|done]. intros [= <- <-]. cbn in Hl.
  destruct (hub_exec h _); [|done]. by injection Hl as _ <-.
Qed.

Lemma session_join_hub st h sid ss user st' h' :
  session_join st h sid ss user = Some (st', h') -> hub_exec h [EJoin user] = Some h'.
Proof.
  unfold session_join, Hub_Join. cbn [hub_exec hub_step]. destruct (stopped h); [done|].
  destruct (do_join h user) as [h1 p]. by intros [= _ <-].
Qed.

Lemma terminal_step_hub st h sid ss p t ph sender ev st' h' :
  srv_commands (v_srv st) = builtin_registry -> terminal_step st h sid ss p t ph sender ev = Some (st', h') ->
  hub_exec h (terminal_hub_events p ph ev) = Some h'.
Proof.
  intros Hc. destruct ev as [| | | | | | | | | |sid' line|sid'|sid'|sid'|sid'|sid'|sid'| | |sid'], ph as [|text| | |[|l ls]];
    cbn [terminal_step terminal_hub_events]; try done;
    try (by intros [= _ <-]); try (by destruct sender; intros [= _ <-]).
  all: try exact (session_line_hub st h sid ss p t sender line st' h' Hc).
  2: unfold Hub_Leave; cbn; destruct (stopped h); [done|]; by intros [= _ <-].
  1: destruct (_ <? _)%nat; [|done]; by intros [= _ <-].
  all: destruct (heap h !! p) as [[id nick [|m q] c]|] eqn:E; try done.
  all: try (destruct sender; [|done]; intros [= _ <-]; reflexivity).
  all: try (destruct c, sender; try done; by intros [= _ <-]).
Qed.

(** The step of the server is the step of the hub that [srv_hub_events] names. *)
Lemma srv_step_hub st h ev st' h' :
  srv_commands (v_srv st) = builtin_registry -> srv_step st h ev = Some (st', h') ->
  hub_exec h (srv_hub_events st ev) = Some h'.
Proof.
  intros Hc. unfold srv_step, srv_hub_events. destruct (event_sid ev) as [sid|] eqn:Esid; cbn [option_bind mbind].
  - destruct (v_sessions st !! sid) as [ss|] eqn:Ess; [|done]. unfold session_step.
    destruct ev; try done; destruct (ss_phase ss) as [| |p t ph sender|] eqn:Eph; try done;
      try (intros Hs; exact (terminal_step_hub _ _ _ _ _ _ _ _ _ _ _ Hc Hs));
      try (by intros [= _ <-]);
      try (by destruct (session_request st sid ss _); intros [= _ <-]).
    destruct (session_user st ss) as [user|]; [|done]. apply session_join_hub.
  - destruct ev; try done; cbn in Esid; intros Hs.
    all: repeat case_match; try done; try (by injection Hs as _ <-).
    + destruct (handshake _ _ _ _); [by injection Hs as _ <-|done].
    + destruct (new_channel _ _ _ _ _); [by injection Hs as _ <-|done].
Qed.

(** ** The invariant of the server *)

Definition srv_valid (h : Hub) (ev : srv_event) : Prop :=
  match ev with VJoin _ => sessionCounter h + 1 < 2 ^ 64 | _ => True end.

(** The user and the key of a connection past its handshake. *)
Definition handler_user (hd : handler) : option (string * bytes) :=
  match hd with HShake => None | HServing user key | HWaiting user key => Some (user, key) end.

Definition term_ok (h : Hub) (p : ptr) (ph : term_phase) : Prop :=
  is_Some (heap h !! p) /\ (ph = TLeft -> exists q, gone h p q).

Record srv_inv (st : SshState) (h : Hub) : Prop := {
  sv_commands : srv_commands (v_srv st) = builtin_registry;
  sv_server : server_inv (v_srv st);
  sv_handlers c : is_Some (v_handlers st !! c) <-> c ∈ conns (v_srv st);
  sv_auth c hd user key : v_handlers st !! c = Some hd -> handler_user hd = Some (user, key) ->
    publicKeyCallback (authKeys (v_srv st)) key = true;
  sv_session sid ss : v_sessions st !! sid = Some ss -> session_ended ss = false ->
    exists hd, v_handlers st !! ss_conn ss = Some hd /\ is_Some (handler_user hd);
  sv_term sid ss p t ph sender : v_sessions st !! sid = Some ss -> ss_phase ss = ChTerminal p t ph sender -> term_ok h p ph
}.

(** The rest of the node may act on the hub as well. *)
Lemma term_ok_step h e h' p ph :
  hub_inv h -> valid_event h e -> hub_step h e = Some h' -> term_ok h p ph -> term_ok h' p ph.
Proof.
  intros Hi Hv Hs [Hp Hg]. split; [by eapply hub_step_heap_mono|]. intros Hph. destruct (Hg Hph) as [q Hq].
  destruct (gone_step h e h' p q Hi Hv Hs Hq) as (q' & ? & _). by exists q'.
Qed.

Lemma term_ok_steps h es h' p ph : hub_inv h -> hub_steps h es h' -> term_ok h p ph -> term_ok h' p ph.
Proof.
  intros Hi Hs. induction Hs as [|h e h1 es h2 Hv Hstep Hs IH]; [done|]. intros Ht.
  apply IH; [by eapply hub_step_inv|by eapply term_ok_step].
Qed.

Lemma srv_inv_hub st h es h' : srv_inv st h -> hub_inv h -> hub_steps h es h' -> srv_inv st h'.
Proof.
  intros [Hc Hs Hh Ha Hss Ht] Hi Hsteps. split; try done. intros sid ss p t ph sender E Eph.
  eapply term_ok_steps; [done|done|]. by eapply Ht.
Qed.

Lemma terminal_hub_events_valid h p ph ev :
  is_Some (heap h !! p) -> (length (terminal_hub_events p ph ev) <= 1)%nat /\
  Forall (valid_event h) (terminal_hub_events p ph ev).
Proof.
  intros Hp. destruct ev as [| | | | | | | | | |sid line|sid|sid|sid|sid|sid|sid| | |sid]; cbn [terminal_hub_events];
    try (by split; [cbn; lia|repeat constructor]).
  - destruct (HasPrefix (TrimSpace line) "/") eqn:Hs; [|by split; [cbn; lia|]].
    destruct (line_events_slash p line Hs) as [->|[->|[nick ->]]]; split; cbn; try lia; by repeat constructor.
  - destruct ph; (split; [cbn; lia|]); by repeat constructor.
Qed.

Lemma srv_hub_events_valid st h ev :
  srv_inv st h -> srv_valid h ev ->
  (length (srv_hub_events st ev) <= 1)%nat /\ Forall (valid_event h) (srv_hub_events st ev).
Proof.
  intros Hi Hv. unfold srv_hub_events. destruct (event_sid ev ≫= _) as [ss|] eqn:E; [|by split; [cbn; lia|]].
  apply bind_Some in E as (sid & Hsid & Ess).
  assert (forall p t ph sender, ss_phase ss = ChTerminal p t ph sender ->
    (length (terminal_hub_events p ph ev) <= 1)%nat /\ Forall (valid_event h) (terminal_hub_events p ph ev)) as Ht.
  { intros p t ph sender Eph. apply terminal_hub_events_valid. by eapply (sv_term st h Hi sid). }
  destruct ev; try done; try (destruct (ss_phase ss) as [| |p t ph sender|] eqn:Eph; try (by split; [cbn; lia|]); by eapply Ht).
  destruct (session_user st ss); (split; [cbn; lia|]); by repeat constructor.
Qed.

(** The server never stops the hub, and joins in one step only. *)
Lemma srv_hub_events_cases st ev :
  srv_hub_events st ev = [] \/
  exists e, srv_hub_events st ev = [e] /\ e <> EStop /\ (forall nick, e = EJoin nick -> exists sid, ev = VJoin sid).
Proof.
  unfold srv_hub_events. destruct (event_sid ev ≫= _) as [ss|] eqn:E; [|by left].
  assert (forall p ph, (forall sid, ev <> VJoin sid) -> terminal_hub_events p ph ev = [] \/
    exists e, terminal_hub_events p ph ev = [e] /\ e <> EStop /\ (forall nick, e = EJoin nick -> exists sid, ev = VJoin sid)) as Ht.
  { intros p ph Hj. destruct ev; try (by left); cbn [terminal_hub_events]; try (right; by eexists).
    - destruct (HasPrefix _ _) eqn:Hp; [|by left].
      destruct (line_events_slash p line Hp) as [->|[->|[nick ->]]]; [by left|right; by eexists..].
    - destruct ph; try (by left). right. by eexists. }
  destruct ev; try (by left); try (destruct (ss_phase ss); try (by left); by apply Ht).
  destruct (session_user st ss) as [user|]; [|by left]. right. eexists. split_and!; [done|done|]. intros _ _. by eexists.
Qed.

Lemma hub_exec_steps h es h' :
  (length es <= 1)%nat -> Forall (valid_event h) es -> hub_exec h es = Some h' -> hub_steps h es h'.
Proof.
  destruct es as [|e [|e' es]]; cbn; [|..|lia]; intros _ Hv.
  - intros [= <-]. constructor.
  - destruct (hub_step h e) as [h1|] eqn:E; [|done]. intros [= <-]. apply Forall_cons_1 in Hv as [Hv _].
    eapply hs_cons; [exact Hv|exact E|constructor].
Qed.

Lemma srv_step_steps st h ev st' h' :
  srv_inv st h -> srv_valid h ev -> srv_step st h ev = Some (st', h') -> hub_steps h (srv_hub_events st ev) h'.
Proof.
  intros Hi Hv Hs. destruct (srv_hub_events_valid st h ev Hi Hv) as [Hl Hval].
  apply hub_exec_steps; [done|done|]. by apply (srv_step_hub st h ev st' h' (sv_commands _ _ Hi)).
Qed.

(** ** Every step keeps the invariant *)

Lemma set_session_inv st h sid ss :
  srv_inv st h ->
  (session_ended ss = false -> exists hd, v_handlers st !! ss_conn ss = Some hd /\ is_Some (handler_user hd)) ->
  (forall p t ph sender, ss_phase ss = ChTerminal p t ph sender -> term_ok h p ph) ->
  srv_inv (set_ssessions st (<[sid := ss]> (v_sessions st))) h.
Proof.
  intros [Hc Hs Hh Ha Hss Ht] Hhd Hterm. split; cbn; try done.
  - intros sid' ss'. rewrite lookup_insert_Some. intros [[<- <-]|[_ E]]; [done|by eapply Hss].
  - intros sid' ss' p t ph sender. rewrite lookup_insert_Some. intros [[<- <-]|[_ E]]; [apply Hterm|by eapply Ht].
Qed.

(** A session that changes its phase. *)
Lemma set_phase_inv st h sid ss ph :
  srv_inv st h -> v_sessions st !! sid = Some ss -> session_ended ss = false ->
  (forall p t tp sender, ph = ChTerminal p t tp sender -> term_ok h p tp) ->
  srv_inv (set_phase_of st sid ss ph) h.
Proof.
  intros Hi E He Ht. apply set_session_inv; [done| |exact Ht]. intros _. by apply (sv_session st h Hi sid ss E He).
Qed.

Lemma set_handlers_inv st h s hs :
  srv_inv st h -> srv_commands s = srv_commands (v_srv st) -> authKeys s = authKeys (v_srv st) -> server_inv s ->
  (forall c, is_Some (hs !! c) <-> c ∈ conns s) ->
  (forall c hd user key, hs !! c = Some hd -> handler_user hd = Some (user, key) ->
     publicKeyCallback (authKeys s) key = true) ->
  (forall sid ss hd, v_sessions st !! sid = Some ss -> session_ended ss = false ->
     v_handlers st !! ss_conn ss = Some hd -> is_Some (handler_user hd) ->
     exists hd', hs !! ss_conn ss = Some hd' /\ is_Some (handler_user hd')) ->
  srv_inv (set_handlers (set_srv st s) hs) h.
Proof.
  intros [Hc Hs Hh Ha Hss Ht] Ec Ea Hs' Hh' Ha' Hss'. split; cbn; try done; [congruence|].
  intros sid ss E He. destruct (Hss sid ss E He) as (hd & Ehd & Hu). by eapply Hss'.
Qed.

(** The steps of the three records the invariant is about. *)
Lemma handlers_iff_insert (hs : gmap nat handler) (cs : gset nat) c hd :
  (forall d, is_Some (hs !! d) <-> d ∈ cs) -> is_Some (hs !! c) -> forall d, is_Some (<[c := hd]> hs !! d) <-> d ∈ cs.
Proof.
  intros Hh Hc d. rewrite lookup_insert_is_Some', <- Hh. split; [|by right]. by intros [<-|?].
Qed.

(** A handler that changes its phase, with a key the server accepts. *)
Lemma set_handler_inv st h c hd hd' :
  srv_inv st h -> v_handlers st !! c = Some hd ->
  (forall user key, handler_user hd' = Some (user, key) -> publicKeyCallback (authKeys (v_srv st)) key = true) ->
  is_Some (handler_user hd') -> srv_inv (set_handlers st (<[c := hd']> (v_handlers st))) h.
Proof.
  intros Hi E Hk Hu. change (set_handlers st ?hs) with (set_handlers (set_srv st (v_srv st)) hs).
  pose proof Hi as [Hc Hs Hh Ha Hss Ht]. apply set_handlers_inv; try done.
  - apply handlers_iff_insert; [done|by eexists].
  - intros d hd'' user key. rewrite lookup_insert_Some. intros [[<- <-]|[_ ?]]; [by apply Hk|by eapply Ha].
  - intros sid ss hd'' _ _ E' Hu'. destruct (decide (ss_conn ss = c)) as [->|].
    + exists hd'. by rewrite lookup_insert_eq.
    + exists hd''. by rewrite lookup_insert_ne.
Qed.

Lemma sessions_done_spec st c sid ss :
  sessions_done st c = true -> v_sessions st !! sid = Some ss -> ss_conn ss = c -> session_ended ss = true.
Proof.
  unfold sessions_done. intros Hd E Hc. rewrite forallb_forall in Hd.
  specialize (Hd (sid, ss)). rewrite <- list_elem_of_In, elem_of_map_to_list in Hd. specialize (Hd E). cbn in Hd.
  rewrite Hc, Nat.eqb_refl in Hd. exact Hd.
Qed.

(** A handler that ends when none of its sessions is running. *)
Lemma connection_end_inv st h c hd :
  srv_inv st h -> v_handlers st !! c = Some hd ->
  (forall sid ss, v_sessions st !! sid = Some ss -> ss_conn ss = c -> session_ended ss = true) ->
  srv_inv (connection_end st c) h.
Proof.
  intros Hi E Hended. pose proof Hi as [Hc Hs Hh Ha Hss Ht].
  assert (c ∈ conns (v_srv st)) as Hin by (apply Hh; by eexists).
  unfold connection_end. apply set_handlers_inv; try done.
  - apply (server_step_inv (v_srv st) (SEnd c)); [done|]. cbn. by rewrite bool_decide_true.
  - intros d. unfold handler_end, removeConn. cbn. rewrite lookup_delete_is_Some, Hh. set_solver.
  - intros d hd' user key. rewrite lookup_delete_Some. intros [_ ?]. by eapply Ha.
  - intros sid ss hd' Es He E' Hu. exists hd'. split; [|done]. rewrite lookup_delete_ne; [done|].
    intros Hcc. by rewrite (Hended sid ss Es) in He.
Qed.

Lemma Serve_accept_inv st h : srv_inv st h -> srv_inv (Serve_accept st) h.
Proof.
  intros Hi. pose proof Hi as [Hc Hs Hh Ha Hss Ht].
  assert (server_inv (serve_accept (v_srv st))) as Hs' by by apply (server_step_inv (v_srv st) SAccept).
  unfold Serve_accept. unfold serve_accept in *. destruct (stopping (v_srv st)); [by split|].
  apply set_handlers_inv; try done.
  - intros d. cbn. rewrite lookup_insert_is_Some', Hh. set_solver.
  - intros d hd user key. rewrite lookup_insert_Some. intros [[<- <-]|[_ ?]]; [done|by eapply Ha].
  - intros sid ss hd Es He E Hu. exists hd. split; [|done]. rewrite lookup_insert_ne; [done|].
    intros Hn. assert (ss_conn ss ∈ conns (v_srv st)) as Hin by (apply Hh; by eexists).
    apply (si_new _ Hs) in Hin. lia.
Qed.

Lemma session_request_inv st h sid ss r st' :
  srv_inv st h -> v_sessions st !! sid = Some ss -> session_request st sid ss r = Some st' -> srv_inv st' h.
Proof.
  intros Hi E. unfold session_request.
  assert (forall ph ok, session_ended ss = false ->
    (forall p t tp sender, ph = ChTerminal p t tp sender -> ss_phase ss = ph) ->
    srv_inv (set_ssessions st (<[sid := mkSshSession (ss_conn ss) ph
      (ss_replies ss ++ (if req_WantReply r then [ok] else []))]> (v_sessions st))) h) as Hput.
  { intros ph ok He Hph. apply set_session_inv; [done| |].
    - intros _. by apply (sv_session st h Hi sid ss E He).
    - intros p t tp sender Eph. cbn in Eph. apply (sv_term st h Hi sid ss p t tp sender E). rewrite <- Eph.
      apply (Hph p t tp sender Eph). }
  unfold session_ended in Hput. destruct (ss_phase ss) as [| |p t tp sender|] eqn:Eph; [| | |done].
  - repeat case_bool_decide; intros [= <-]; by apply Hput.
  - intros [= <-]. by apply Hput.
  - intros [= <-]. by apply Hput.
Qed.

(** A terminal's phase in the hub after the step: a session that has left is
    gone. *)
Lemma terminal_step_inv st h sid ss p t ph sender ev st' h' :
  srv_inv st h -> hub_inv h -> srv_inv st h' -> v_sessions st !! sid = Some ss -> ss_phase ss = ChTerminal p t ph sender ->
  heap_mono h h' -> terminal_step st h sid ss p t ph sender ev = Some (st', h') -> srv_inv st' h'.
Proof.
  intros Hi Hh Hi' E Eph Hm Hs.
  assert (session_ended ss = false) as He by (unfold session_ended; by rewrite Eph).
  destruct (sv_term _ _ Hi _ _ _ _ _ _ E Eph) as [Hp _].
  destruct (sv_term _ _ Hi' _ _ _ _ _ _ E Eph) as [Hp' Hg'].
  assert (forall t' ph' snd', (ph' = TLeft -> exists q, gone h' p q) ->
    srv_inv (set_phase_of st sid ss (ChTerminal p t' ph' snd')) h') as Hgo.
  { intros t' ph' snd' Hleft. apply set_phase_inv; [done..|]. by intros ? ? ? ? [= <- _ <- _]. }
  destruct ev as [| | | | | | | | | |sid' line|sid'|sid'|sid'|sid'|sid'|sid'| | |sid'], ph as [|text| | |[|l ls]];
    cbn [terminal_step] in Hs; try done.
  { unfold session_line in Hs. case_bool_decide; [by injection Hs as <- <-|].
    destruct (HasPrefix _ _); [|injection Hs as <- <-; by apply Hgo].
    destruct (Dispatch _ _ _ _) as [[quit s]|]; [|done]. injection Hs as <- <-. apply Hgo. by destruct quit. }
  { destruct (_ <? _)%nat; [|done]. injection Hs as <- <-. by apply Hgo. }
  { injection Hs as <- <-. by apply Hgo. }
  { unfold Hub_Leave in Hs. destruct (stopped h) eqn:Est; [done|]. injection Hs as <- <-. apply Hgo. intros _.
    destruct Hp as [s Hp]. eexists. by apply leave_gone. }
  all: try (destruct (heap h !! p) as [[id nick [|m q] [|]]|]; try done).
  all: destruct sender; try done; injection Hs as <- <-; try (by apply Hgo).
  all: by apply set_phase_inv.
Qed.

Lemma session_step_inv st h sid ss ev st' h' :
  srv_inv st h -> hub_inv h -> srv_inv st h' -> v_sessions st !! sid = Some ss -> heap_mono h h' ->
  session_step st h sid ss ev = Some (st', h') -> srv_inv st' h'.
Proof.
  intros Hi Hh Hi' E Hm Hs. unfold session_step in Hs.
  assert (forall r, (fun st1 => (st1, h)) <$> session_request st sid ss r = Some (st', h') -> srv_inv st' h') as Hreq.
  { intros r Hr. destruct (session_request st sid ss r) as [st1|] eqn:Er; [|done]. injection Hr as <- <-.
    by eapply session_request_inv. }
  destruct (ss_phase ss) as [| |p t ph sender|] eqn:Eph.
  - assert (session_ended ss = false) as He by (unfold session_ended; by rewrite Eph).
    destruct ev; try done; [by eapply Hreq|]. injection Hs as <- <-. by apply set_phase_inv.
  - assert (session_ended ss = false) as He by (unfold session_ended; by rewrite Eph).
    destruct ev; try done; [by eapply Hreq|]. destruct (session_user st ss) as [user|]; [|done].
    unfold session_join, Hub_Join in Hs. destruct (stopped h) eqn:Est; [done|].
    destruct (do_join h user) as [h1 p] eqn:Ej. injection Hs as <- <-. cbn in *. apply set_phase_inv; [done..|].
    intros ? ? ? ? [= <- _ <- _]. split; [|done]. by apply (join_ptr h user).
  - destruct ev; try done; try (by eapply Hreq); by eapply (terminal_step_inv st h sid ss p t ph sender).
  - destruct ev; try done. by eapply Hreq.
Qed.

(** Every step of the server keeps its invariant. *)
Lemma srv_step_inv st h ev st' h' :
  srv_inv st h -> hub_inv h -> srv_valid h ev -> srv_step st h ev = Some (st', h') -> srv_inv st' h'.
Proof.
  intros Hi Hh Hv Hs. pose proof (srv_step_steps _ _ _ _ _ Hi Hv Hs) as Hsteps.
  pose proof (srv_inv_hub _ _ _ _ Hi Hh Hsteps) as Hi'.
  unfold srv_step in Hs. destruct (event_sid ev) as [sid|] eqn:Esid.
  { destruct (v_sessions st !! sid) as [ss|] eqn:E; [|done].
    eapply (session_step_inv st h sid ss ev); [done..| |done]. by eapply hub_steps_heap_mono. }
  clear Hsteps. pose proof Hi as [Hc Hsrv Hhd Ha Hss Ht]. destruct ev; try done.
  - destruct (v_serving st); [|done]. injection Hs as <- <-. by apply Serve_accept_inv.
  - destruct (v_serving st); [|done]. injection Hs as <- <-. unfold Serve_error. by destruct (v_cancelled st); [split|].
  - destruct (v_handlers st !! c) as [[]|] eqn:E; try done. unfold handshake in Hs.
    destruct (publicKeyCallback _ _) eqn:Hk; [|done]. injection Hs as <- <-.
    eapply set_handler_inv; [done..| |by eexists]. by intros ? ? [= <- <-].
  - destruct (v_handlers st !! c) as [[]|] eqn:E; try done. injection Hs as <- <-.
    eapply connection_end_inv; [done..|]. intros sid ss Es <-. destruct (session_ended ss) eqn:He; [done|].
    destruct (Hss sid ss Es He) as (hd & Ehd & [? Hu]). rewrite E in Ehd. by injection Ehd as <-.
  - destruct (v_handlers st !! c) as [[|user key|]|] eqn:E; try done. unfold new_channel in Hs.
    destruct (negb (bool_decide _)); [injection Hs as <- <-; by split|]. destruct (negb accepted); [by injection Hs as <- <-|].
    destruct (v_sessions st !! sid) eqn:Es; [done|]. injection Hs as <- <-. apply set_session_inv; [done| |done].
    intros _. exists (HServing user key). by split; [|eexists].
  - destruct (v_handlers st !! c) as [[|user key|]|] eqn:E; try done. injection Hs as <- <-.
    eapply set_handler_inv; [done..| |by eexists]. intros ? ? [= <- <-]. by eapply Ha.
  - destruct (v_handlers st !! c) as [[| |user key]|] eqn:E; try done. destruct (sessions_done st c) eqn:Hd; [|done].
    injection Hs as <- <-. eapply connection_end_inv; [done..|]. intros. by eapply sessions_done_spec.
  - injection Hs as <- <-. by split.
  - injection Hs as <- <-. split; try done. by apply (server_step_inv (v_srv st) SStop).
Qed.

Lemma srv_step_control st h ev st' h' :
  srv_inv st h -> srv_valid h ev -> 0 <= sessionCounter h -> srv_step st h ev = Some (st', h') ->
  stopped h' = stopped h /\
  (sessionCounter h' = sessionCounter h \/ (exists sid, ev = VJoin sid) /\ sessionCounter h' = sessionCounter h + 1).
Proof.
  intros Hi Hv H0 Hs. pose proof (srv_step_hub _ _ _ _ _ (sv_commands _ _ Hi) Hs) as He.
  destruct (srv_hub_events_cases st ev) as [Hes|(e & Hes & Hne & Hj)]; rewrite Hes in He; cbn [hub_exec] in He.
  { injection He as <-. auto. }
  destruct (hub_step h e) as [h1|] eqn:E; [|done]. injection He as <-.
  destruct (hub_step_control h e h1 E Hne) as [-> ->]. split; [done|].
  destruct e as [nick| | | | | | | | | |]; auto. right. destruct (Hj nick eq_refl) as [sid ->].
  split; [by eexists|]. cbn in Hv. rewrite u64_small; lia.
Qed.
