(* ===== verification/SshShutdown.v ===== *)
(** * SshShutdown: the SSH server drains

    After [Stop] every connection is closed.  [drain_step] has the steps that
    follow without a client: the library's errors on closed connections, the
    server's own goroutines, and the hub's loop. No run of them is infinite, and one
    that cannot go on has ended every handler, so [wg.Wait] returns. *)

From Stdlib Require Import Relations Wellfounded.
From S2P Require Import Prelude Bytes Strs Text Partyline PartylineProps Ssh SshProps SshServer SshServerProps.
From Stdlib Require Import Init.Byte.

(** ** The steps *)

Definition drains (st : SshState) (ev : srv_event) : Prop :=
  match ev with
  | VAcceptError => v_cancelled st = true
  | VHandshakeFail c | VChansClosed c => c ∈ closed (v_srv st)
  | VReqsClosed sid | VReadError sid => exists ss, v_sessions st !! sid = Some ss /\ ss_conn ss ∈ closed (v_srv st)
  | VConnEnd _ | VJoin _ | VPost _ | VLeave _ | VPrint _ | VSenderDone _ | VTermEnd _ | VGreet _ => True
  | _ => False
  end.

Inductive drain_step : SshState * Hub -> SshState * Hub -> Prop :=
| ds_server st h ev st' h' : drains st ev -> srv_step st h ev = Some (st', h') -> drain_step (st, h) (st', h')
| ds_hub st h h' : hub_step h EDequeue = Some h' -> drain_step (st, h) (st, h').

(** ** The measure *)

Definition handler_weight (hd : handler) : nat := match hd with HShake => 1 | HServing _ _ => 2 | HWaiting _ _ => 1 end.

Definition term_weight (ph : term_phase) : nat := match ph with TGreeting rest => 5 + length rest | TSending _ => 5 | TReading => 4 | TLeaving => 3 | TLeft => 2 end.

Definition phase_weight (ph : chan_phase) : nat :=
  match ph with
  | ChRequests => 1
  | ChJoining => 10
  | ChTerminal _ _ tp sender => term_weight tp + (if sender : bool then 1 else 0)
  | ChEnded => 0
  end.

Definition phases (st : SshState) : nat :=
  (if v_serving st then 1 else 0) + map_sum handler_weight (v_handlers st) +
  map_sum (fun ss => phase_weight (ss_phase ss)) (v_sessions st).

(** The lines that wait in the sessions' channels. *)
Definition pending (h : Hub) : nat := map_sum (fun s => length (sSend s)) (heap h).

Definition drain_lt : nat * (nat * nat) -> nat * (nat * nat) -> Prop := slexprod _ _ lt (slexprod _ _ lt lt).

Definition drain_measure (x : SshState * Hub) : nat * (nat * nat) := (phases x.1, (length (broadcast x.2), pending x.2)).

#[local] Arguments phases : simpl never.
#[local] Arguments set_phase_of : simpl never.

Lemma drain_lt_wf : well_founded drain_lt.
Proof. apply wf_slexprod; [apply lt_wf|apply wf_slexprod; apply lt_wf]. Qed.

Lemma phases_set_phase st sid ss ph :
  v_sessions st !! sid = Some ss ->
  (phases (set_phase_of st sid ss ph) + phase_weight (ss_phase ss) = phases st + phase_weight ph)%nat.
Proof.
  intros E. unfold phases, set_phase_of. cbn.
  pose proof (map_sum_insert (fun ss => phase_weight (ss_phase ss)) (v_sessions st) sid ss (mkSshSession (ss_conn ss) ph (ss_replies ss)) E)
    as Hm. cbn in Hm. lia.
Qed.

Lemma session_read_pending h p s m q :
  heap h !! p = Some s -> sSend s = m :: q -> (pending (session_read h p) < pending h)%nat.
Proof.
  intros E Es. unfold session_read, pending. rewrite E. destruct s as [id nick l c]. cbn in Es. subst l. cbn.
  pose proof (map_sum_insert (fun s => length (sSend s)) (heap h) p _ (mkSession id nick q c) E) as Hm. cbn in Hm. lia.
Qed.

Lemma session_read_broadcast h p : broadcast (session_read h p) = broadcast h.
Proof. unfold session_read. by destruct (heap h !! p) as [[? ? [] ?]|]. Qed.

Lemma do_broadcast_queue h m : broadcast (do_broadcast h m) = broadcast h.
Proof.
  unfold do_broadcast. destruct (bSystem m); [apply sendAll_same_queues|].
  destruct (bFrom m ≫= _); [|done]. unfold forwardRemote. destruct (remoteSend _) as [q|]; [|apply sendAll_same_queues].
  destruct (_ <? _)%nat; cbn; apply sendAll_same_queues.
Qed.

Lemma terminal_step_lt st h sid ss p t ph sender ev st' h' :
  v_sessions st !! sid = Some ss -> ss_phase ss = ChTerminal p t ph sender -> drains st ev ->
  terminal_step st h sid ss p t ph sender ev = Some (st', h') -> drain_lt (drain_measure (st', h')) (drain_measure (st, h)).
Proof.
  intros E Eph Hd.
  pose proof (fun ph' => phases_set_phase st sid ss ph' E) as Hw. rewrite Eph in Hw. cbn [phase_weight] in Hw.
  assert (forall t' ph' snd' h1, (term_weight ph' + (if snd' : bool then 1 else 0) < term_weight ph + (if sender : bool then 1 else 0))%nat ->
    drain_lt (drain_measure (set_phase_of st sid ss (ChTerminal p t' ph' snd'), h1)) (drain_measure (st, h))) as Hgo.
  { intros t' ph' snd' h1 Hlt. left. cbn. specialize (Hw (ChTerminal p t' ph' snd')). cbn [phase_weight] in Hw. lia. }
  destruct ev, ph as [|text| | |[|l ls]]; cbn [terminal_step]; try done.
  { destruct (_ <? _)%nat; [|done]. intros [= <- <-]. apply Hgo. cbn. lia. }
  { intros [= <- <-]. apply Hgo. cbn. lia. }
  { unfold Hub_Leave. destruct (stopped h); [done|]. intros [= <- <-]. apply Hgo. cbn. lia. }
  all: try (destruct (heap h !! p) as [[id nick [|m q] [|]]|] eqn:Ep; try done).
  all: destruct sender; try done; intros [= <- <-]; try (apply Hgo; cbn; lia).
  all: try (unfold drain_measure; cbn [fst snd]; rewrite session_read_broadcast;
    match goal with |- context [set_phase_of _ _ _ ?ph'] => specialize (Hw ph') end; cbn [phase_weight] in Hw;
    replace (phases (set_phase_of _ _ _ _)) with (phases st) by lia;
    right; right; by eapply session_read_pending).
  all: left; cbn; specialize (Hw ChEnded); cbn in Hw; lia.
Qed.

(** Every step decreases the measure. *)
Lemma drain_step_lt x y : drain_step x y -> drain_lt (drain_measure y) (drain_measure x).
Proof.
  destruct 1 as [st h ev st' h' Hd Hs|st h h' Hs].
  - unfold srv_step in Hs. destruct (event_sid ev) as [sid|] eqn:Esid.
    + destruct (v_sessions st !! sid) as [ss|] eqn:E; [|done]. unfold session_step in Hs.
      destruct (ss_phase ss) as [| |p t ph sender|] eqn:Eph; destruct ev; try done;
        try (by eapply terminal_step_lt).
      * injection Hs as <- <-. left. cbn. pose proof (phases_set_phase st sid ss ChEnded E) as Hw. rewrite Eph in Hw. cbn in Hw. lia.
      * destruct (session_user st ss); [|done]. unfold session_join in Hs. destruct (Hub_Join _ _) as [[h1 p]|]; [|done].
        injection Hs as <- <-. left. cbn [drain_measure fst snd].
        match goal with |- context [set_phase_of _ _ _ ?ph'] => pose proof (phases_set_phase st sid ss ph' E) as Hw end.
        rewrite Eph in Hw. cbn in Hw. lia.
    + left. destruct ev; try done; cbn in Hd.
      * destruct (v_serving st) eqn:Es; [|done]. injection Hs as <- <-. unfold Serve_error, phases. rewrite Hd. cbn. rewrite Es. lia.
      * destruct (v_handlers st !! c) as [[]|] eqn:E; try done. injection Hs as <- <-. unfold phases. cbn.
        rewrite (map_sum_delete handler_weight (v_handlers st) c _ E). cbn. lia.
      * destruct (v_handlers st !! c) as [[|user key|]|] eqn:E; try done. injection Hs as <- <-. unfold phases. cbn.
        pose proof (map_sum_insert handler_weight _ c _ (HWaiting user key) E) as Hm. cbn in Hm. lia.
      * destruct (v_handlers st !! c) as [[| |user key]|] eqn:E; try done. destruct (sessions_done st c); [|done].
        injection Hs as <- <-. unfold phases. cbn. rewrite (map_sum_delete handler_weight (v_handlers st) c _ E). cbn. lia.
  - right. left. cbn in *. destruct (stopped h); [done|]. destruct (broadcast h) as [|m q] eqn:Eb; [done|].
    injection Hs as <-. rewrite do_broadcast_queue. cbn. lia.
Qed.

(** ** Progress *)

(** The sessions that will still join. *)
Definition joining (st : SshState) : nat :=
  map_sum (fun ss => match ss_phase ss with ChJoining => 1%nat | _ => 0%nat end) (v_sessions st).

#[local] Arguments joining : simpl never.

Record drain_ok (x : SshState * Hub) : Prop := {
  do_srv : srv_inv x.1 x.2;
  do_hub : hub_inv x.2;
  do_stopping : stopping (v_srv x.1) = true;
  do_running : stopped x.2 = false;
  do_counter : sessionCounter x.2 + Z.of_nat (joining x.1) < 2 ^ 64
}.

Lemma closed_conn st h sid ss :
  srv_inv st h -> stopping (v_srv st) = true -> v_sessions st !! sid = Some ss -> session_ended ss = false ->
  ss_conn ss ∈ closed (v_srv st).
Proof.
  intros Hi Hs E He. apply (si_stop _ (sv_server _ _ Hi) _ Hs), (sv_handlers _ _ Hi).
  destruct (sv_session _ _ Hi sid ss E He) as (hd & -> & _). by eexists.
Qed.

(** A step of a session, or of the hub when its channel is full. *)
Lemma session_progress st h sid ss :
  drain_ok (st, h) -> v_sessions st !! sid = Some ss -> session_ended ss = false -> exists y, drain_step (st, h) y.
Proof.
  intros [Hi Hh Hst Hr Hctr] E He. cbn in *. pose proof (closed_conn st h sid ss Hi Hst E He) as Hcl.
  assert (forall ev r, event_sid ev = Some sid -> drains st ev -> session_step st h sid ss ev = Some r ->
    exists y, drain_step (st, h) y) as Hgo.
  { intros ev [st' h'] Hev Hd Hs. exists (st', h'). apply (ds_server st h ev); [done|]. unfold srv_step. by rewrite Hev, E. }
  destruct (ss_phase ss) as [| |p t ph sender|] eqn:Eph.
  - eapply (Hgo (VReqsClosed sid)); [done|by exists ss|]. unfold session_step. by rewrite Eph.
  - destruct (sv_session _ _ Hi sid ss E He) as (hd & Ehd & [[user key] Hu]).
    assert (session_user st ss = Some user) as Euser.
    { unfold session_user. rewrite Ehd. by destruct hd; [done|injection Hu as <- <-..]. }
    destruct (do_join h user) as [h1 p] eqn:Ej.
    eapply (Hgo (VJoin sid)); [done..|]. unfold session_step. rewrite Eph, Euser. unfold session_join, Hub_Join.
    by rewrite Hr, Ej.
  - assert (forall ev r, event_sid ev = Some sid -> drains st ev ->
      terminal_step st h sid ss p t ph sender ev = Some r -> exists y, drain_step (st, h) y) as Hterm.
    { intros ev r Hev Hd Hs. eapply (Hgo ev); [done..|]. unfold session_step. rewrite Eph.
      by destruct ev. }
    destruct ph as [|text| | |[|l ls]].
    + by eapply (Hterm (VReadError sid)); [|exists ss|].
    + destruct (length (broadcast h) <? broadcastCap)%nat eqn:Eb.
      * eapply (Hterm (VPost sid)); [done..|]. cbn [terminal_step]. by rewrite Eb.
      * destruct (broadcast h) as [|m q] eqn:Eq; [done|]. eexists. apply ds_hub. cbn [hub_step]. by rewrite Hr, Eq.
    + eapply (Hterm (VLeave sid)); [done..|]. cbn. unfold Hub_Leave. by rewrite Hr.
    + destruct (sv_term _ _ Hi sid ss p t TLeft sender E Eph) as [_ Hg]. destruct (Hg eq_refl) as [q Hq].
      destruct sender; [|by eapply (Hterm (VTermEnd sid))].
      destruct Hq as (s & Ep & Ecl & _ & Esend). destruct s as [id nick l c]. cbn in *. subst l c.
      destruct q as [|m q].
      * eapply (Hterm (VSenderDone sid)); [done..|]. cbn. by rewrite Ep.
      * eapply (Hterm (VPrint sid)); [done..|]. cbn. by rewrite Ep.
    + by eapply (Hterm (VGreet sid)).
    + by eapply (Hterm (VGreet sid)).
  - unfold session_ended in He. by rewrite Eph in He.
Qed.

(** Nothing of the server is left: no handler, no session that runs, and after
    a cancellation no accept loop. *)
Definition drained (st : SshState) : Prop :=
  v_handlers st = ∅ /\ map_Forall (fun _ ss => session_ended ss = true) (v_sessions st) /\
  (v_cancelled st && v_serving st)%bool = false.

Lemma handler_progress st h :
  drain_ok (st, h) -> map_Forall (fun _ ss => session_ended ss = true) (v_sessions st) ->
  v_handlers st <> ∅ -> exists y, drain_step (st, h) y.
Proof.
  intros [Hi Hh Hst Hr _] Hended Hne. cbn in Hi, Hh, Hst, Hr. apply map_choose in Hne as (c & hd & E).
  assert (c ∈ closed (v_srv st)) as Hcl.
  { apply (si_stop _ (sv_server _ _ Hi) _ Hst), (sv_handlers _ _ Hi). by eexists. }
  destruct hd as [|user key|user key].
  - eexists (_, _). apply (ds_server st h (VHandshakeFail c)); [done|]. cbn. by rewrite E.
  - eexists (_, _). apply (ds_server st h (VChansClosed c)); [done|]. cbn. by rewrite E.
  - eexists (_, _). apply (ds_server st h (VConnEnd c)); [done|]. cbn. rewrite E.
    replace (sessions_done st c) with true; [done|]. symmetry. unfold sessions_done. apply forallb_forall.
    intros [sid ss] Hin%list_elem_of_In%elem_of_map_to_list. cbn. by rewrite (Hended sid ss Hin), orb_true_r.
Qed.

Lemma drain_progress st h : drain_ok (st, h) -> drained st \/ exists y, drain_step (st, h) y.
Proof.
  intros Hok. destruct (decide (map_Forall (fun _ ss => session_ended ss = true) (v_sessions st))) as [Hended|Hne].
  2: { apply map_not_Forall in Hne as (sid & ss & E & He); [|apply _]. right.
       apply not_true_is_false in He. by apply (session_progress st h sid ss). }
  destruct (decide (v_handlers st = ∅)) as [Hempty|Hne]; [|right; by apply handler_progress].
  destruct (v_cancelled st && v_serving st)%bool eqn:Ec; [|by left].
  apply andb_true_iff in Ec as [Hc Hs]. right. eexists (_, _). apply (ds_server st h VAcceptError); [done|]. cbn. by rewrite Hs.
Qed.

Lemma joining_set_phase st sid ss ph :
  v_sessions st !! sid = Some ss ->
  (joining (set_phase_of st sid ss ph) + (match ss_phase ss with ChJoining => 1 | _ => 0 end) =
   joining st + (match ph with ChJoining => 1 | _ => 0 end))%nat.
Proof.
  intros E. unfold joining, set_phase_of. cbn.
  pose proof (map_sum_insert (fun ss => match ss_phase ss with ChJoining => 1%nat | _ => 0%nat end) (v_sessions st) sid ss
    (mkSshSession (ss_conn ss) ph (ss_replies ss)) E) as Hm. cbn in Hm. lia.
Qed.

(** What a draining step of the server does to the flags and to the sum of the
    counter and the sessions that will join. *)
Lemma drain_server_control st h ev st' h' :
  drains st ev -> stopped h = false -> srv_step st h ev = Some (st', h') ->
  stopping (v_srv st') = stopping (v_srv st) /\
  ((joining st' <= joining st)%nat /\ (forall sid, ev <> VJoin sid) \/
   exists sid, ev = VJoin sid /\ S (joining st') = joining st).
Proof.
  intros Hd Hr Hs. unfold srv_step in Hs. destruct (event_sid ev) as [sid|] eqn:Esid.
  - destruct (v_sessions st !! sid) as [ss|] eqn:E; [|done]. unfold session_step in Hs.
    pose proof (fun ph => joining_set_phase st sid ss ph E) as Hj.
    destruct (ss_phase ss) as [| |p t ph sender|] eqn:Eph; try rewrite Eph in Hj.
    + destruct ev; try done. injection Hs as <- <-. split; [done|]. left. specialize (Hj ChEnded). cbn in Hj. split; [lia|done].
    + destruct ev; try done. destruct (session_user st ss); [|done]. unfold session_join in Hs.
      destruct (Hub_Join _ _) as [[h1 p]|]; [|done]. injection Hs as <- <-. split; [done|]. right. exists sid0.
      split; [done|]. match goal with |- context [set_phase_of _ _ _ ?ph'] => specialize (Hj ph') end. cbn in Hj. lia.
    + assert (exists ph', st' = set_phase_of st sid ss ph' /\ ph' <> ChJoining) as (ph' & -> & Hph').
      { destruct ev, ph as [|text| | |[|l ls]]; try done; cbn [terminal_step] in Hs;
          repeat case_match; try done; injection Hs as <- _; by eexists. }
      split; [done|]. left. specialize (Hj ph'). split; [destruct ph'; [lia|done|lia..]|]. intros sid' ->. done.
    + by destruct ev.
  - destruct ev; try done.
    + destruct (v_serving st); [|done]. injection Hs as <- <-. unfold Serve_error.
      destruct (v_cancelled st); (split; [done|left; by split]).
    + destruct (v_handlers st !! c) as [[]|]; try done. injection Hs as <- <-. split; [done|]. left. by split.
    + destruct (v_handlers st !! c) as [[]|]; try done. injection Hs as <- <-. split; [done|]. left. by split.
    + destruct (v_handlers st !! c) as [[]|]; try done. destruct (sessions_done st c); [|done]. injection Hs as <- <-.
      split; [done|]. left. by split.
Qed.

(** A draining step joins only while the counter has room. *)
Lemma drain_valid st h ev r : drain_ok (st, h) -> drains st ev -> srv_step st h ev = Some r -> srv_valid h ev.
Proof.
  intros [Hi Hh Hst Hr Hctr] Hd Hs. destruct r as [st' h']. cbn in Hr, Hctr.
  destruct (drain_server_control st h ev st' h' Hd Hr Hs) as [_ [[_ Hne]|(sid & -> & Hj)]]; [|cbn; lia].
  destruct ev as [| | | | | | | | |sid| | | | | | | | | |]; try exact I. by destruct (Hne sid).
Qed.

Lemma drain_ok_step x y : drain_ok x -> drain_step x y -> drain_ok y.
Proof.
  intros [Hi Hh Hst Hr Hctr] Hs. destruct Hs as [st h ev st' h' Hd Hs|st h h' Hs]; cbn in *.
  - destruct (drain_server_control st h ev st' h' Hd Hr Hs) as [Hstop Hj].
    assert (srv_valid h ev) as Hv by (by eapply (drain_valid st); [split|..]).
    pose proof (srv_step_steps _ _ _ _ _ Hi Hv Hs) as Hsteps.
    destruct (srv_step_control st h ev st' h' Hi Hv) as [Hr' Hc]; [destruct (hi_count _ Hh); lia|done|].
    split; cbn; [by eapply srv_step_inv|by eapply hub_steps_inv|congruence|congruence|].
    destruct Hj as [[Hle Hne]|(sid & -> & Hj)]; [|lia].
    destruct Hc as [->|[[sid ->] _]]; [lia|by destruct (Hne sid)].
  - assert (hub_steps h [EDequeue] h') as Hsteps by (by apply (hs_cons _ _ h'); [|exact Hs|constructor]).
    destruct (hub_step_control h EDequeue h' Hs) as [Hc Hr']; [done|].
    split; cbn; [by eapply srv_inv_hub|by eapply hub_steps_inv|done|congruence|by rewrite Hc].
Qed.

Lemma drain_steps_ok x y : rtc drain_step x y -> drain_ok x -> drain_ok y.
Proof. induction 1; eauto using drain_ok_step. Qed.

Lemma drained_wg st h : srv_inv st h -> drained st -> wg (v_srv st) = 0%nat.
Proof.
  intros Hi (Hempty & _). rewrite (si_wg _ (sv_server _ _ Hi)). apply size_empty_iff. intros c.
  rewrite <- (sv_handlers _ _ Hi), Hempty, lookup_empty. split; [by intros []|set_solver].
Qed.

(** Every state has a run to a drained one. *)
Lemma drain_finishes x : drain_ok x -> exists y, rtc drain_step x y /\ drained y.1.
Proof.
  induction x as [x IH] using (well_founded_ind (wf_inverse_image _ _ _ drain_measure drain_lt_wf)).
  intros Hok. destruct x as [st h]. destruct (drain_progress st h Hok) as [Hd|[y Hy]]; [by exists (st, h)|].
  destruct (IH y) as (z & Hz & Hdz); [by apply drain_step_lt|by eapply drain_ok_step|].
  exists z. split; [by eapply rtc_l|done].
Qed.

(** ** Runs of the server *)

(** The server among the other clients of the hub, which runs. *)
Definition live_event (h : Hub) (e : hub_event) : Prop := valid_event h e /\ e <> EStop.

#[export] Instance srv_valid_dec h ev : Decision (srv_valid h ev).
Proof. destruct ev; cbn; apply _. Defined.

#[export] Instance live_event_dec h e : Decision (live_event h e).
Proof. unfold live_event. destruct e; try apply and_dec; try apply _; try (by left); try (by right; intros []). Defined.

Fixpoint srv_run (st : SshState) (h : Hub) (evs : list (srv_event + hub_event)) : option (SshState * Hub) :=
  match evs with
  | [] => Some (st, h)
  | inl ev :: evs' =>
      if decide (srv_valid h ev) then
        match srv_step st h ev with Some (st1, h1) => srv_run st1 h1 evs' | None => None end
      else None
  | inr e :: evs' =>
      if decide (live_event h e) then match hub_step h e with Some h1 => srv_run st h1 evs' | None => None end else None
  end.

Lemma ssh_Start_inv (ParseAuthorizedKey : bytes -> option (bytes * bytes)) file s0 st0 h :
  NewServer ParseAuthorizedKey file = Some s0 -> ssh_Start s0 true = Some st0 -> srv_inv st0 h.
Proof.
  intros [= <-] [= <-]. split; cbn; try done.
  - split; cbn; [done|set_solver|lia|done].
  - intros c. rewrite lookup_empty. split; [by intros []|set_solver].
Qed.

Lemma srv_run_inv st h evs st' h' :
  srv_inv st h -> hub_inv h -> stopped h = false -> srv_run st h evs = Some (st', h') ->
  srv_inv st' h' /\ hub_inv h' /\ stopped h' = false.
Proof.
  revert st h. induction evs as [|[ev|e] evs IH]; intros st h Hi Hh Hup; cbn; [by intros [= <- <-]|..].
  - destruct (decide _) as [Hv|]; [|done]. destruct (srv_step st h ev) as [[st1 h1]|] eqn:Hs; [|done].
    destruct (srv_step_control st h ev st1 h1 Hi Hv) as [Hup' _]; [destruct (hi_count _ Hh); lia|done|].
    apply IH; [by eapply srv_step_inv| |congruence]. eapply hub_steps_inv; [exact Hh|]. by eapply srv_step_steps.
  - destruct (decide _) as [[Hv Hne]|]; [|done]. destruct (hub_step h e) as [h1|] eqn:Hs; [|done].
    destruct (hub_step_control h e h1 Hs Hne) as [_ Hup'].
    apply IH; [|by eapply hub_step_inv|congruence].
    apply (srv_inv_hub st h [e]); [done..|]. by apply (hs_cons _ _ h1); [|exact Hs|constructor].
Qed.

(** C4. The server shuts down. After any run of the server and the
    hub's other clients in which [Stop] was called, whatever the server's
    goroutines were doing, with the hub's channel full or not: no run of draining
    steps is infinite, each can be continued until no handler and no session is
    left, and then the wait group is at zero and, once the context is cancelled,
    [Serve] has returned. *)
Theorem shutdown_completes (ParseAuthorizedKey : bytes -> option (bytes * bytes)) (file : option bytes) (name : string)
  (s0 : Server) (st0 st : SshState) (h : Hub) (evs : list (srv_event + hub_event))
  (Hnew : NewServer ParseAuthorizedKey file = Some s0) (Hstart : ssh_Start s0 true = Some st0)
  (Hrun : srv_run st0 (SetRemoteSend (NewHub name)) evs = Some (st, h))
  (Hstop : stopping (v_srv st) = true) (Hcounter : sessionCounter h + Z.of_nat (joining st) < 2 ^ 64) :
  Acc (fun y x => drain_step x y) (st, h) /\
  forall x, rtc drain_step (st, h) x ->
    exists st' h', rtc drain_step x (st', h') /\ v_handlers st' = ∅ /\ wg (v_srv st') = 0%nat /\
      (forall sid ss, v_sessions st' !! sid = Some ss -> session_ended ss = true) /\
      (v_cancelled st' = true -> v_serving st' = false).
Proof.
  split.
  { apply (wf_incl _ _ (fun y x => drain_lt (drain_measure y) (drain_measure x))); [intros y x; apply drain_step_lt|].
    apply (wf_inverse_image _ _ _ drain_measure drain_lt_wf). }
  intros x Hx.
  destruct (srv_run_inv st0 _ evs st h (ssh_Start_inv ParseAuthorizedKey file s0 st0 _ Hnew Hstart)
    (SetRemoteSend_inv _ (NewHub_inv name)) eq_refl Hrun) as (Hi & Hh & Hup).
  assert (drain_ok x) as Hok by (by apply (drain_steps_ok (st, h))).
  destruct (drain_finishes x Hok) as ([st' h'] & Hr & Hd). exists st', h'.
  pose proof (drain_steps_ok _ _ Hr Hok) as [Hi' _ _ _ _]. cbn in Hi', Hd.
  pose proof (drained_wg _ _ Hi' Hd) as Hwg. destruct Hd as (Hempty & Hended & Hserve).
  split_and!; [done..|]. intros Hc. by rewrite Hc in Hserve.
Qed.

(** ** A run *)

(** Two clients with a key of the file; one writes, the server is stopped while the
    other is about to join. *)
Definition ex_srv_start : Server := default (mkServer NewCommandRegistry [] false ∅ false 0 ∅ 0) (NewServer ex_parse (Some [x01; x0a; x02])).
Definition ex_srv_state0 : SshState :=
  default (mkSshState ex_srv_start false false ∅ ∅ 0) (ssh_Start ex_srv_start true).
Definition ex_ssh_run : list (srv_event + hub_event) :=
  inl <$> [VAccept; VHandshake 0 "ann" [x02]; VChannel 0 "session" true 7; VRequest 7 (mkRequest "pty-req" true);
    VRequest 7 (mkRequest "shell" true); VJoin 7; VGreet 7; VGreet 7; VPrint 7; VGreet 7; VGreet 7;
    VLine 7 " hi there "; VPost 7; VLine 7 "/who"; VAccept;
    VHandshake 1 "bob" [x01]; VChannel 1 "x11" true 8; VChannel 1 "session" true 8; VRequest 8 (mkRequest "shell" false)].
Definition ex_ssh_run' : list (srv_event + hub_event) := ex_ssh_run ++ [inr EDequeue; inl (VLine 7 "again"); inl VCancel; inl VStop; inl VAccept].
Definition ex_ssh_end : SshState * Hub :=
  default (ex_srv_state0, SetRemoteSend (NewHub "node")) (srv_run ex_srv_state0 (SetRemoteSend (NewHub "node")) ex_ssh_run').

Lemma shutdown_completes_witness :
  (joining ex_ssh_end.1, wg (v_srv ex_ssh_end.1), length (broadcast ex_ssh_end.2)) = (1, 2, 0)%nat /\
  exists st' h', rtc drain_step ex_ssh_end (st', h') /\ wg (v_srv st') = 0%nat.
Proof.
  split; [vm_compute; reflexivity|].
  destruct (shutdown_completes ex_parse (Some [x01; x0a; x02]) "node" ex_srv_start ex_srv_state0 ex_ssh_end.1 ex_ssh_end.2 ex_ssh_run')
    as [_ Hd].
  - apply some_default. vm_compute. reflexivity.
  - apply some_default. vm_compute. reflexivity.
  - rewrite <- surjective_pairing. apply some_default. vm_compute. reflexivity.
  - vm_compute. reflexivity.
  - vm_compute. reflexivity.
  - destruct (Hd (ex_ssh_end.1, ex_ssh_end.2)) as (st' & h' & Hr & _ & Hwg & _); [apply rtc_refl|].
    exists st', h'. split; [|exact Hwg]. rewrite <- surjective_pairing in Hr. exact Hr.
Defined.
