(* ===== verification/SshOrigin.v ===== *)
(** * SshOrigin: where the node's messages come from

    Every text that waits for the transport was typed, as a line that is not
    a command, in a terminal on a connection whose client has shown an
    authorized key. *)

From S2P Require Import Prelude Bytes Strs Text Partyline PartylineProps Ssh SshProps SshServer SshServerProps SshShutdown.
From Stdlib Require Import Init.Byte.

Abbreviation run_event := (srv_event + hub_event)%type.

Section origin.
Context (keys : list bytes).

(** Connection [c] finished its handshake with an authorized key, and then
    opened session [sid]. *)
Definition opened (evs : list run_event) (c sid : nat) : Prop :=
  exists evs1 evs2 user key, evs = evs1 ++ evs2 /\ inl (VHandshake c user key) ∈ evs1 /\
    publicKeyCallback keys key = true /\ inl (VChannel c "session" true sid) ∈ evs2.

(** After that [text] was typed in session [sid]. *)
Definition typed (evs : list run_event) (text : string) : Prop :=
  exists evs1 evs2 c sid line, evs = evs1 ++ evs2 /\ opened evs1 c sid /\ inl (VLine sid line) ∈ evs2 /\
    text = TrimSpace line /\ text <> ""%string /\ HasPrefix text "/" = false.

Lemma opened_app evs evs' c sid : opened evs c sid -> opened (evs ++ evs') c sid.
Proof.
  intros (evs1 & evs2 & user & key & -> & Hh & Hk & Hc). exists evs1, (evs2 ++ evs'), user, key.
  split_and!; [by rewrite app_assoc|done|done|]. apply elem_of_app. by left.
Qed.

Lemma typed_app evs evs' text : typed evs text -> typed (evs ++ evs') text.
Proof.
  intros (evs1 & evs2 & c & sid & line & -> & Ho & Hl & Ht). exists evs1, (evs2 ++ evs'), c, sid, line.
  split; [by rewrite app_assoc|]. split; [done|]. split; [|done]. apply elem_of_app. by left.
Qed.

Record origin_inv (evs : list run_event) (st : SshState) (h : Hub) : Prop := {
  oi_keys : authKeys (v_srv st) = keys;
  oi_handlers c hd user key : v_handlers st !! c = Some hd -> handler_user hd = Some (user, key) ->
    inl (VHandshake c user key) ∈ evs /\ publicKeyCallback keys key = true;
  oi_sessions sid ss : v_sessions st !! sid = Some ss -> opened evs (ss_conn ss) sid;
  oi_sending sid ss p t text sender : v_sessions st !! sid = Some ss ->
    ss_phase ss = ChTerminal p t (TSending text) sender -> typed evs text;
  oi_queue text : text ∈ remote_texts h ++ user_texts (broadcast h) -> typed evs text
}.

Lemma origin_inv_app evs evs' st h : origin_inv evs st h -> origin_inv (evs ++ evs') st h.
Proof.
  intros [Hk Hh Hs Ht Hq]. split; [done|..].
  - intros c hd user key E Hu. destruct (Hh c hd user key E Hu). split; [|done]. apply elem_of_app. by left.
  - intros sid ss E. by apply opened_app, Hs.
  - intros sid ss p t text sender E Ep. by eapply typed_app, Ht.
  - intros text Hin. by apply typed_app, Hq.
Qed.

(** Events of the hub that no session causes. *)
Lemma origin_hub_step evs st h e h' :
  origin_inv evs st h -> hub_step h e = Some h' -> (forall text, text ∈ event_texts e -> typed evs text) ->
  origin_inv evs st h'.
Proof.
  intros [Hk Hh Hs Ht Hq] Hstep He. split; [done..|]. intros text Hin.
  pose proof (hub_step_texts h e h' Hstep) as Hsub. apply sublist_submseteq in Hsub.
  assert (text ∈ remote_texts h ++ user_texts (broadcast h) ++ event_texts e) as Hin'.
  { eapply elem_of_submseteq; [|exact Hsub]. apply elem_of_app. by right. }
  rewrite app_assoc in Hin'. apply elem_of_app in Hin' as [?|?]; auto.
Qed.

Lemma origin_set_session evs st h sid ss :
  origin_inv evs st h -> opened evs (ss_conn ss) sid ->
  (forall p t text sender, ss_phase ss = ChTerminal p t (TSending text) sender -> typed evs text) ->
  origin_inv evs (set_ssessions st (<[sid := ss]> (v_sessions st))) h.
Proof.
  intros [Hk Hh Hs Ht Hq] Ho Hsend. split; cbn; [done|done|..|done].
  - intros sid' ss'. rewrite lookup_insert_Some. intros [[<- <-]|[_ E]]; [done|by apply Hs].
  - intros sid' ss' p t text sender. rewrite lookup_insert_Some. intros [[<- <-]|[_ E]]; [apply Hsend|by eapply Ht].
Qed.

Lemma origin_set_phase evs st h sid ss ph :
  origin_inv evs st h -> v_sessions st !! sid = Some ss ->
  (forall p t text sender, ph = ChTerminal p t (TSending text) sender -> typed evs text) ->
  origin_inv evs (set_phase_of st sid ss ph) h.
Proof. intros Hi E Ht. apply origin_set_session; [done| |exact Ht]. exact (oi_sessions _ _ _ Hi sid ss E). Qed.

Lemma origin_set_handlers evs st h s hs :
  origin_inv evs st h -> authKeys s = authKeys (v_srv st) ->
  (forall c hd user key, hs !! c = Some hd -> handler_user hd = Some (user, key) ->
     inl (VHandshake c user key) ∈ evs /\ publicKeyCallback keys key = true) ->
  origin_inv evs (set_handlers (set_srv st s) hs) h.
Proof. intros [Hk Hh Hs Ht Hq] Ek Hhs. split; cbn; [congruence|done..]. Qed.

Lemma origin_session_request evs st h sid ss r st' :
  origin_inv evs st h -> v_sessions st !! sid = Some ss -> session_request st sid ss r = Some st' -> origin_inv evs st' h.
Proof.
  intros Hi E. unfold session_request.
  assert (forall ph rs, (forall p t text sender, ph = ChTerminal p t (TSending text) sender -> ss_phase ss = ph) ->
    origin_inv evs (set_ssessions st (<[sid := mkSshSession (ss_conn ss) ph rs]> (v_sessions st))) h) as Hput.
  { intros ph rs Hph. apply origin_set_session; [done|exact (oi_sessions _ _ _ Hi sid ss E)|]. cbn. intros p t text sender ->.
    eapply (oi_sending _ _ _ Hi sid ss); [done|]. by eapply Hph. }
  destruct (ss_phase ss) as [| |p t ph sender|] eqn:Eph; [| | |done].
  - repeat case_bool_decide; intros [= <-]; by apply Hput.
  - intros [= <-]. by apply Hput.
  - intros [= <-]. by apply Hput.
Qed.

(** A line of a session that is open is about to be sent. *)
Lemma typed_line evs c sid line :
  opened evs c sid -> TrimSpace line <> ""%string -> HasPrefix (TrimSpace line) "/" = false ->
  typed (evs ++ [inl (VLine sid line)]) (TrimSpace line).
Proof.
  intros Ho He Hp. exists evs, [inl (VLine sid line)], c, sid, line. split_and!; try done. by left.
Qed.

Lemma origin_terminal_step evs st h sid ss p t ph sender ev st' h' :
  origin_inv evs st h -> v_sessions st !! sid = Some ss -> ss_phase ss = ChTerminal p t ph sender -> event_sid ev = Some sid ->
  terminal_step st h sid ss p t ph sender ev = Some (st', h') -> origin_inv (evs ++ [inl ev]) st' h.
Proof.
  intros Hi E Eph Hsid Hs. pose proof (origin_inv_app evs [inl ev] st h Hi) as Hi'.
  assert (forall t' ph' snd', (forall text, ph' = TSending text -> typed (evs ++ [inl ev]) text) ->
    origin_inv (evs ++ [inl ev]) (set_phase_of st sid ss (ChTerminal p t' ph' snd')) h) as Hgo.
  { intros t' ph' snd' Ht. apply origin_set_phase; [done..|]. intros ? ? text ? [= _ _ Ep _]. by apply Ht. }
  destruct ev as [| | | | | | | | | |sid' line|sid'|sid'|sid'|sid'|sid'|sid'| | |sid'], ph as [|text| | |[|l ls]];
    cbn [terminal_step] in Hs; try done.
  { injection Hsid as ->. unfold session_line in Hs. case_bool_decide as Hne; [by injection Hs as <- _|].
    destruct (HasPrefix _ _) eqn:Hp.
    - destruct (Dispatch _ _ _ _) as [[quit s]|]; [|done]. injection Hs as <- _. apply Hgo. by destruct quit.
    - injection Hs as <- _. apply Hgo. intros text [= <-]. apply (typed_line evs (ss_conn ss)); [|done..].
      exact (oi_sessions _ _ _ Hi sid ss E). }
  { destruct (_ <? _)%nat; [|done]. injection Hs as <- _. by apply Hgo. }
  { injection Hs as <- _. by apply Hgo. }
  { destruct (Hub_Leave h p); [|done]. injection Hs as <- _. by apply Hgo. }
  all: try (destruct (heap h !! p) as [[id nick [|m q] [|]]|]; try done).
  all: destruct sender; try done; injection Hs as <- _; try (by apply Hgo).
  all: try (by apply origin_set_phase).
  all: apply Hgo; intros ? [= <-].
  all: by eapply (oi_sending _ _ _ Hi').
Qed.

Lemma origin_session_step evs st h sid ss ev st' h' :
  origin_inv evs st h -> v_sessions st !! sid = Some ss -> event_sid ev = Some sid ->
  session_step st h sid ss ev = Some (st', h') -> origin_inv (evs ++ [inl ev]) st' h.
Proof.
  intros Hi E Hsid Hs. pose proof (origin_inv_app evs [inl ev] st h Hi) as Hi'. unfold session_step in Hs.
  assert (forall r, (fun st1 => (st1, h)) <$> session_request st sid ss r = Some (st', h') ->
    origin_inv (evs ++ [inl ev]) st' h) as Hreq.
  { intros r Hr. destruct (session_request st sid ss r) as [st1|] eqn:Er; [|done]. injection Hr as <- _.
    by eapply origin_session_request. }
  destruct (ss_phase ss) as [| |p t ph sender|] eqn:Eph.
  - destruct ev; try done; [by eapply Hreq|]. injection Hs as <- _. by apply origin_set_phase.
  - destruct ev; try done; [by eapply Hreq|]. destruct (session_user st ss) as [user|]; [|done].
    unfold session_join in Hs. destruct (Hub_Join h user) as [[h1 p]|]; [|done]. injection Hs as <- _.
    by apply origin_set_phase.
  - destruct ev; try done; try (by eapply Hreq); by eapply origin_terminal_step.
  - destruct ev; try done. by eapply Hreq.
Qed.

Lemma origin_server_step evs st h ev st' h' :
  origin_inv evs st h -> event_sid ev = None -> srv_step st h ev = Some (st', h') ->
  origin_inv (evs ++ [inl ev]) st' h.
Proof.
  intros Hi Hsid Hs. pose proof (origin_inv_app evs [inl ev] st h Hi) as Hi'. pose proof Hi' as [Hk Hh Hss Ht Hq].
  unfold srv_step in Hs. rewrite Hsid in Hs. destruct ev; try done.
  - destruct (v_serving st); [|done]. injection Hs as <- _. unfold Serve_accept.
    destruct (stopping (v_srv st)) eqn:Est; [split; cbn; try done|].
    + unfold serve_accept. by rewrite Est.
    + apply origin_set_handlers; [done|unfold serve_accept; by rewrite Est|].
      intros c hd user key. rewrite lookup_insert_Some. intros [[<- <-]|[_ ?]]; [done|by eapply Hh].
  - destruct (v_serving st); [|done]. injection Hs as <- _. unfold Serve_error. by destruct (v_cancelled st).
  - destruct (v_handlers st !! c) as [[]|] eqn:E; try done. unfold handshake in Hs.
    destruct (publicKeyCallback _ _) eqn:Hc; [|done]. injection Hs as <- _.
    apply (origin_set_handlers _ st h (v_srv st)); [done|done|].
    intros d hd user' key'. rewrite lookup_insert_Some. intros [[<- <-]|[_ ?]]; [|by eapply Hh].
    intros [= <- <-]. split; [apply elem_of_app; right; by left|]. by rewrite <- Hk.
  - destruct (v_handlers st !! c) as [[]|]; try done. injection Hs as <- _. apply origin_set_handlers; [done|done|].
    intros d hd user' key'. rewrite lookup_delete_Some. intros [_ ?]. by eapply Hh.
  - destruct (v_handlers st !! c) as [[|user key|]|] eqn:E; try done. unfold new_channel in Hs.
    case_bool_decide as Hty; cbn in Hs; [|injection Hs as <- _; by split]. destruct accepted; cbn in Hs; [|by injection Hs as <- _].
    destruct (v_sessions st !! sid) eqn:Es; [done|]. injection Hs as <- _. apply origin_set_session; [done| |done].
    destruct (oi_handlers _ _ _ Hi c _ user key E eq_refl) as [Hin Hkey]. subst ty. cbn.
    exists evs, [inl (VChannel c "session" true sid)], user, key. split_and!; try done. by left.
  - destruct (v_handlers st !! c) as [[|user key|]|] eqn:E; try done. injection Hs as <- _.
    apply (origin_set_handlers _ st h (v_srv st)); [done|done|].
    intros d hd user' key'. rewrite lookup_insert_Some. intros [[<- <-]|[_ ?]]; [|by eapply Hh]. intros [= <- <-]. by eapply Hh.
  - destruct (v_handlers st !! c) as [[| |user key]|] eqn:E; try done. destruct (sessions_done st c); [|done].
    injection Hs as <- _. apply origin_set_handlers; [done|done|].
    intros d hd user' key'. rewrite lookup_delete_Some. intros [_ ?]. by eapply Hh.
  - injection Hs as <- _. by split.
  - injection Hs as <- _. by split.
Qed.

(** The only texts a server's step adds to the hub are those of sessions
    that were sending. *)
Lemma srv_hub_events_text evs st h ev text :
  origin_inv evs st h -> text ∈ srv_hub_events st ev ≫= event_texts -> typed evs text.
Proof.
  intros Hi. unfold srv_hub_events. destruct (event_sid ev ≫= _) as [ss|] eqn:E; [|by intros ?%elem_of_nil].
  apply bind_Some in E as (sid & Hsid & E).
  assert (forall p t ph sender, ss_phase ss = ChTerminal p t ph sender ->
    text ∈ terminal_hub_events p ph ev ≫= event_texts -> typed evs text) as Hterm.
  { intros p t ph sender Eph. destruct ev; try (by intros ?%elem_of_nil); cbn [terminal_hub_events].
    - destruct (HasPrefix _ _) eqn:Hp; [|by intros ?%elem_of_nil].
      destruct (line_events_slash p line Hp) as [->|[->|[nick ->]]]; by intros ?%elem_of_nil.
    - destruct ph as [|text'| | |ls]; try (by intros ?%elem_of_nil). cbn. intros ->%list_elem_of_singleton.
      by eapply (oi_sending _ _ _ Hi). }
  destruct ev; try (by intros ?%elem_of_nil); try (destruct (ss_phase ss) eqn:Eph; try (by intros ?%elem_of_nil); by eapply Hterm).
  destruct (session_user st ss); by intros ?%elem_of_nil.
Qed.

Lemma origin_hub_exec evs st h es h' :
  origin_inv evs st h -> hub_exec h es = Some h' -> (forall text, text ∈ es ≫= event_texts -> typed evs text) ->
  origin_inv evs st h'.
Proof.
  revert h. induction es as [|e es IH]; intros h Hi; cbn [hub_exec]; [by intros [= <-]|].
  destruct (hub_step h e) as [h1|] eqn:Hs; [|done]. intros Hr Ht. rewrite bind_cons in Ht. apply (IH h1); [|done|].
  - apply (origin_hub_step evs st h e); [done..|]. intros text Hin. apply Ht, elem_of_app. by left.
  - intros text Hin. apply Ht, elem_of_app. by right.
Qed.

Lemma origin_srv_step evs st h ev st' h' :
  srv_commands (v_srv st) = builtin_registry -> origin_inv evs st h -> srv_step st h ev = Some (st', h') ->
  origin_inv (evs ++ [inl ev]) st' h'.
Proof.
  intros Hc Hi Hs. apply (origin_hub_exec _ _ h (srv_hub_events st ev)).
  - destruct (event_sid ev) as [sid|] eqn:Hsid; [|by eapply origin_server_step].
    pose proof Hs as Hs'. unfold srv_step in Hs'. rewrite Hsid in Hs'.
    destruct (v_sessions st !! sid) as [ss|] eqn:E; [|done]. by eapply origin_session_step.
  - by eapply srv_step_hub.
  - intros text Hin. by eapply typed_app, srv_hub_events_text.
Qed.
End origin.

Lemma origin_run keys evs0 st h evs st' h' :
  srv_inv st h -> hub_inv h -> origin_inv keys evs0 st h -> (forall p text, inr (EBroadcast p text) ∉ evs) ->
  srv_run st h evs = Some (st', h') -> origin_inv keys (evs0 ++ evs) st' h'.
Proof.
  revert evs0 st h. induction evs as [|[ev|e] evs IH]; intros evs0 st h Hi Hh Ho Hother; cbn [srv_run].
  - intros [= <- <-]. by rewrite app_nil_r.
  - destruct (decide _) as [Hv|]; [|done]. destruct (srv_step st h ev) as [[st1 h1]|] eqn:Hs; [|done]. intros Hr.
    rewrite (cons_middle (inl ev)), (app_assoc evs0). apply (IH _ st1 h1); [by eapply srv_step_inv| | | |done].
    + eapply hub_steps_inv; [exact Hh|]. by eapply srv_step_steps.
    + eapply origin_srv_step; [by eapply sv_commands|done|done].
    + intros p text Hin. apply (Hother p text). by right.
  - destruct (decide _) as [[Hv Hne]|]; [|done]. destruct (hub_step h e) as [h1|] eqn:Hs; [|done]. intros Hr.
    rewrite (cons_middle (inr e)), (app_assoc evs0). apply (IH _ st h1); [|by eapply hub_step_inv| | |done].
    + apply (srv_inv_hub st h [e]); [done..|]. by apply (hs_cons _ _ h1); [|exact Hs|constructor].
    + apply origin_inv_app. apply (origin_hub_step keys evs0 st h e); [done..|]. intros text Hin. exfalso.
      destruct e; try (by apply elem_of_nil in Hin). apply (Hother p text0). by left.
    + intros p text Hin. apply (Hother p text). by right.
Qed.

(** What leaves the node was typed by someone who may.
    In any run of the server and the hub's other clients, of which only the
    server's sessions send messages of users: every text that waits for the transport is a
    line, trimmed, neither empty nor a command, that was read in a session,
    and that session was opened on a connection after its client had shown a key of the
    authorized_keys file. *)
Theorem transport_texts_typed (ParseAuthorizedKey : bytes -> option (bytes * bytes)) (file : option bytes) (name : string)
  (s0 : Server) (st0 st : SshState) (h : Hub) (evs : list run_event)
  (Hnew : NewServer ParseAuthorizedKey file = Some s0) (Hstart : ssh_Start s0 true = Some st0)
  (Hrun : srv_run st0 (SetRemoteSend (NewHub name)) evs = Some (st, h))
  (Hother : forall p text, inr (EBroadcast p text) ∉ evs) :
  forall text, text ∈ remote_texts h -> typed (loadAuthorizedKeys ParseAuthorizedKey file) evs text.
Proof.
  intros text Hin.
  assert (origin_inv (loadAuthorizedKeys ParseAuthorizedKey file) ([] ++ evs) st h) as Ho.
  { apply (origin_run _ [] st0 (SetRemoteSend (NewHub name))); [by eapply ssh_Start_inv| | |done..].
    - apply SetRemoteSend_inv, NewHub_inv.
    - injection Hnew as <-. injection Hstart as <-. split; cbn; try done. intros text' ?. by apply elem_of_nil in H. }
  apply (oi_queue _ _ _ _ Ho). apply elem_of_app. by left.
Qed.

(** ** Witness *)

Lemma transport_texts_typed_witness :
  remote_texts ex_ssh_end.2 = ["hi there"%string] /\ typed (loadAuthorizedKeys ex_parse (Some [x01; x0a; x02])) ex_ssh_run' "hi there".
Proof.
  split; [vm_compute; reflexivity|].
  apply (transport_texts_typed ex_parse (Some [x01; x0a; x02]) "node" ex_srv_start ex_srv_state0 ex_ssh_end.1 ex_ssh_end.2 ex_ssh_run').
  - apply some_default. vm_compute. reflexivity.
  - apply some_default. vm_compute. reflexivity.
  - rewrite <- surjective_pairing. apply some_default. vm_compute. reflexivity.
  - intros p text. cbn. rewrite !not_elem_of_cons. split_and!; try done. apply not_elem_of_nil.
  - vm_compute. left.
Defined.
