(* ===== verification/Program.v ===== *)
(** * Program: the node's main function

    [cmd/micelio/main.go]: the boot, the goroutines it starts, and the
    shutdown.  The running program is the transport's node, or the bare hub
    when there is no transport, and the SSH server; [prog_step] is one step of one of
    their goroutines, of the hub's loop or of [main]. *)

From S2P Require Import Prelude Bytes Messages Seen KeyRing RateLimit Gossip Stream Frame Noise Strs Text.
From S2P Require Import Concrete Identity Peer Partyline Store Config Logging Manager Discovery Node Ssh SshServer.

(** ** Boot *)

(** What ends the program with status 1. *)
Inductive fatal :=
| FConfig (e : load_error)
| FInvalid
| FDataDir
| FIdentity (e : identity_error)
| FStore
| FTransport
| FSsh.

(** Where [main] is: waiting for the signal; after [cancel]; after [mgr.Stop];
    in [sshServer.Stop], waiting for the connections; after it; returned. *)
Inductive main_pc := MRunning | MCancelled | MNetStopped | MDraining | MHubStop | MExited (status : Z).

(** [mgr.Start]: not called yet; listening; failed, and its error logged. *)
Inductive net_start := NotStarted | Started | StartFailed.

#[export] Instance net_start_eq_dec : EqDecision net_start.
Proof. solve_decision. Defined.

#[export] Instance main_pc_eq_dec : EqDecision main_pc.
Proof. solve_decision. Defined.

Record Program (N S : Type) := mkProgram {
  pg_cfg : Config;
  pg_id : Identity;
  pg_log : Log;
  pg_net : Node N S + Hub;        (* the manager, if there is one, holds the hub *)
  pg_started : net_start;
  pg_ssh : Server + SshState;     (* before and after [sshServer.Listen] *)
  pg_pc : main_pc
}.
Arguments mkProgram {N S}.
Arguments pg_cfg {N S}.
Arguments pg_id {N S}.
Arguments pg_log {N S}.
Arguments pg_net {N S}.
Arguments pg_started {N S}.
Arguments pg_ssh {N S}.
Arguments pg_pc {N S}.

Section Program.
Context `{Crypto} `{Proto} `{KeyLib} `{NoiseXX} {C : Type} `{Conn C} {S : Type} `{Store S} `{RecordCodec}.
Context (toml_Decode : bytes -> Config -> option Config).
Context (ParseAuthorizedKey : bytes -> option (bytes * bytes)).

Abbreviation N := (noiseConn C).
Implicit Types (p : Program N S).

(** What the program finds when it starts. *)
Record Env := mkEnv {
  env_flags : Flags;
  env_configPath : string;
  env_host : string;
  env_home : option string;
  env_logLevel : string;
  env_configs : string -> file_state;      (* the files as [config.Load] sees them *)
  env_fs : FS;                             (* as [identity.Load] does *)
  env_key : option bytes;                  (* what [ed25519.GenerateKey] would return *)
  env_mkdir : string -> bool;              (* whether [os.MkdirAll] succeeds *)
  env_store : string -> option S;          (* [boltstore.Open] *)
  env_authorized : string -> option bytes  (* [os.ReadFile] *)
}.

Definition boot (g : Log) (env : Env) : result (Program N S) fatal :=
  match Config.Load toml_Decode (env_host env) (env_home env) (env_configs env) (env_configPath env) with
  | inr e => Err (FConfig e)
  | inl cfg0 =>
      match settle cfg0 (env_flags env) (env_logLevel env) (env_home env) with
      | None => Err FInvalid
      | Some cfg =>
          let g := Init g (log_Level (cfg_Logging cfg)) (log_Format (cfg_Logging cfg)) in
          let dataDir := node_DataDir (cfg_Node cfg) in
          if negb (env_mkdir env dataDir) then Err FDataDir
          else
            match Identity.Load (env_fs env) (env_key env) dataDir with
            | (Err e, _) => Err (FIdentity e)
            | (Ok id, _) =>
                match env_store env (filepath_Join [dataDir; "data.db"%string]) with
                | None => Err FStore
                | Some store =>
                    let hub := NewHub (node_Name (cfg_Node cfg)) in
                    let net :=
                      if has_transport cfg
                      then (fun m => inl (mkNode m ∅ false)) <$> NewManager cfg id hub (Some store)
                      else Some (inr hub) in
                    match net with
                    | None => Err FTransport
                    | Some net =>
                        match NewServer ParseAuthorizedKey (env_authorized env (filepath_Join [dataDir; "authorized_keys"%string])) with
                        | None => Err FSsh
                        | Some s => Ok (mkProgram cfg id g net NotStarted (inl s) MRunning)
                        end
                    end
                end
            end
      end
  end.

(** ** The running program *)

Definition prog_hub p : Hub := match pg_net p with inl n => w_hub (m_world (n_mgr n)) | inr h => h end.

Definition set_net p (net : Node N S + Hub) : Program N S :=
  mkProgram (pg_cfg p) (pg_id p) (pg_log p) net (pg_started p) (pg_ssh p) (pg_pc p).
Definition set_started p (b : net_start) : Program N S :=
  mkProgram (pg_cfg p) (pg_id p) (pg_log p) (pg_net p) b (pg_ssh p) (pg_pc p).
Definition set_ssh p (s : Server + SshState) : Program N S :=
  mkProgram (pg_cfg p) (pg_id p) (pg_log p) (pg_net p) (pg_started p) s (pg_pc p).
Definition set_pc p (pc : main_pc) : Program N S :=
  mkProgram (pg_cfg p) (pg_id p) (pg_log p) (pg_net p) (pg_started p) (pg_ssh p) pc.

Definition set_prog_hub p (h : Hub) : Program N S :=
  set_net p
    match pg_net p with
    | inl n => inl (set_mgr n (upd_world (n_mgr n) (w_set_hub (m_world (n_mgr n)) h)))
    | inr _ => inr h
    end.

(** A step of the transport, of the SSH server, of the hub's loop, or of
    [main]; [timeout]: the five seconds of [sshServer.Stop] are over. *)
Inductive prog_event :=
| PNetStart (bound : option string)
| PNode (ev : node_event (C := C))
| PSshStart (bound : bool)
| PSsh (ev : srv_event)
| PHub
| PSignal
| PMain (timeout : bool).

(** The steps that goroutines of the transport take by themselves. *)
Definition own_node_event (ev : node_event (C := C)) : bool := match ev with NHub _ | NStop => false | _ => true end.
Definition own_srv_event (ev : srv_event) : bool := match ev with VCancel | VStop => false | _ => true end.

(** Calls of [main] on the server, which may not be listening yet. *)
Definition ssh_cancel (s : Server + SshState) : Server + SshState :=
  match s with inl s => inl s | inr st => inr (set_cancelled st) end.
Definition ssh_stop (s : Server + SshState) : Server + SshState :=
  match s with inl s => inl (server_stop s) | inr st => inr (set_srv st (server_stop (v_srv st))) end.
Definition ssh_wg (s : Server + SshState) : nat := match s with inl s => wg s | inr st => wg (v_srv st) end.

Definition main_step p (timeout : bool) : option (Program N S) :=
  match pg_pc p with
  | MCancelled =>
      Some (set_pc (match pg_net p with
                    | inl n => set_net p (inl (if n_stopped n then n else mkNode (Stop (n_mgr n)) (n_phase n) true))
                    | inr _ => p
                    end) MNetStopped)
  | MNetStopped => Some (set_pc (set_ssh p (ssh_stop (pg_ssh p))) MDraining)
  | MDraining => if timeout || (ssh_wg (pg_ssh p) =? 0)%nat then Some (set_pc p MHubStop) else None
  | MHubStop => Some (set_pc (set_prog_hub p (Hub_Stop (prog_hub p))) (MExited 0))
  | MRunning | MExited _ => None
  end.

Definition exited (pc : main_pc) : bool := match pc with MExited _ => true | _ => false end.

(** [None]: the step cannot happen now. *)
Definition prog_step p (ev : prog_event) : option (Program N S) :=
  if exited (pg_pc p) then None
  else
    match ev with
    | PNetStart bound =>
        match pg_net p with
        | inl n =>
            match pg_started p, Start (n_mgr n) bound with
            | NotStarted, None => Some (set_started p StartFailed)
            | NotStarted, Some m => Some (set_started (set_net p (inl (set_mgr n m))) Started)
            | _, _ => None
            end
        | inr _ => None
        end
    | PNode nev =>
        match pg_net p with
        | inl n =>
            if bool_decide (pg_started p = Started) && own_node_event nev then (fun n1 => set_net p (inl n1)) <$> node_step n nev else None
        | inr _ => None
        end
    | PSshStart bound =>
        match pg_ssh p with
        | inl s =>
            match ssh_Start s bound with
            | None => Some (set_pc p (MExited 1))
            | Some st =>
                let st := if bool_decide (pg_pc p = MRunning) then st else set_cancelled st in
                Some (set_ssh p (inr st))
            end
        | inr _ => None
        end
    | PSsh sev =>
        match pg_ssh p with
        | inr st =>
            if own_srv_event sev then
              match srv_step st (prog_hub p) sev with
              | None => None
              | Some (st1, h1) => Some (set_ssh (set_prog_hub p h1) (inr st1))
              end
            else None
        | inl _ => None
        end
    | PHub => set_prog_hub p <$> hub_step (prog_hub p) EDequeue
    | PSignal =>
        if bool_decide (pg_pc p = MRunning) then Some (set_pc (set_ssh p (ssh_cancel (pg_ssh p))) MCancelled) else None
    | PMain timeout => main_step p timeout
    end.

Fixpoint prog_run p (evs : list prog_event) : option (Program N S) :=
  match evs with
  | [] => Some p
  | ev :: evs' => match prog_step p ev with None => None | Some p1 => prog_run p1 evs' end
  end.

End Program.
