(* ===== verification/ProgramProps.v ===== *)
(** * ProgramProps: the whole node

    From the boot on, under every interleaving of the transport's goroutines,
    the SSH server's, the hub's loop and [main]: the invariants of all parts
    hold together, and after the signal the program exits. *)

From S2P Require Import Prelude Bytes Messages Seen KeyRing RateLimit Gossip Stream Frame Noise Strs Text.
From S2P Require Import Concrete Identity Peer Partyline PartylineProps Store Config Logging Manager Discovery.
From S2P Require Import Node NodeInv NodeProps Ssh SshProps SshServer SshServerProps SshShutdown SshOrigin Program.

(** The server before it listens. *)
Record ssh_ready (keys : list bytes) (s : Server) : Prop := {
  sr_commands : Freeze (srv_commands s) = builtin_registry;
  sr_keys : authKeys s = keys;
  sr_server : server_inv s;
  sr_conns : conns s = ∅
}.

Lemma NewServer_ready (parse : bytes -> option (bytes * bytes)) file s :
  NewServer parse file = Some s -> ssh_ready (loadAuthorizedKeys parse file) s.
Proof. intros [= <-]. split; [done|done| |done]. split; cbn; [done|set_solver|lia|done]. Qed.

Lemma server_stop_ready keys s : ssh_ready keys s -> ssh_ready keys (server_stop s).
Proof. intros [Hc Hk Hs He]. split; [done|done| |done]. by apply (server_step_inv s SStop). Qed.

Lemma ssh_Start_ready keys s b st h evs :
  ssh_ready keys s -> ssh_Start s b = Some st ->
  remote_texts h ++ user_texts (broadcast h) = [] -> srv_inv st h /\ origin_inv keys evs st h.
Proof.
  intros [Hc Hk [Hwg Hn Ha Hst] He] Hs Ht. unfold ssh_Start, Listen in Hs. destruct b; [|done]. injection Hs as <-. split.
  - split; cbn; try done. intros c. rewrite He, lookup_empty. split; [by intros []|set_solver].
  - split; cbn; try done. rewrite Ht. by intros text ?%elem_of_nil.
Qed.

Lemma srv_step_stopping st h ev st' h' :
  own_srv_event ev = true -> srv_step st h ev = Some (st', h') -> stopping (v_srv st') = stopping (v_srv st).
Proof.
  intros Hown Hs. unfold srv_step in Hs. destruct (event_sid ev) as [sid|] eqn:Esid.
  - destruct (v_sessions st !! sid) as [ss|]; [|done]. unfold session_step in Hs.
    assert (forall r, (fun st1 => (st1, h)) <$> session_request st sid ss r = Some (st', h') -> v_srv st' = v_srv st) as Hreq.
    { intros r. unfold session_request. destruct (ss_phase ss); repeat case_bool_decide; by intros [= <- _]. }
    assert (forall p t ph sender, terminal_step st h sid ss p t ph sender ev = Some (st', h') -> v_srv st' = v_srv st) as Hterm.
    { intros p t ph sender. unfold terminal_step, session_line. intros Ht. repeat case_match; by simplify_eq. }
    f_equal. destruct ev; try done; destruct (ss_phase ss); try done; try (by eapply Hreq); try (by eapply Hterm).
    + by injection Hs as <- _.
    + unfold session_join in Hs. repeat case_match; by simplify_eq.
  - destruct ev; try done; unfold Serve_error, handshake, new_channel in Hs; repeat case_match; simplify_eq; try done;
      try (injection Hs as <- _; done); unfold Serve_accept, serve_accept; by repeat case_match.
Qed.

Section ProgramProps.
Context `{Crypto} `{Proto} `{KeyLib} `{NoiseXX} {C : Type} `{Conn C} {S : Type} `{Store S} `{RecordCodec}.
Context (toml_Decode : bytes -> Config -> option Config).
Context (ParseAuthorizedKey : bytes -> option (bytes * bytes)).

Implicit Types (p : Program (noiseConn C) S) (n : Node (noiseConn C) S).

(** ** Runs *)

(** What the environment of a step guarantees: the shuffles permute, and
    fewer than 2^64 sessions join. *)
Definition valid_prog_event p (ev : prog_event (C := C)) : Prop :=
  match ev with
  | PNode nev => match pg_net p with inl n => valid_node_event n nev | inr _ => True end
  | PSsh sev => srv_valid (prog_hub p) sev
  | _ => True
  end.

Inductive prog_steps : Program (noiseConn C) S -> list prog_event -> Program (noiseConn C) S -> Prop :=
| ps_nil p : prog_steps p [] p
| ps_cons p ev p1 evs p2 :
    valid_prog_event p ev -> prog_step p ev = Some p1 -> prog_steps p1 evs p2 -> prog_steps p (ev :: evs) p2.

Lemma prog_steps_app p1 evs1 p2 evs2 p3 : prog_steps p1 evs1 p2 -> prog_steps p2 evs2 p3 -> prog_steps p1 (evs1 ++ evs2) p3.
Proof. induction 1; cbn; [done|]. intros. econstructor; eauto. Qed.

(** The SSH server's part of a run. *)
Definition ssh_trace (evs : list (prog_event (C := C))) : list run_event :=
  omap (fun ev => match ev with PSsh sev => Some (inl sev) | _ => None end) evs.

Lemma ssh_trace_app evs1 evs2 : ssh_trace (evs1 ++ evs2) = ssh_trace evs1 ++ ssh_trace evs2.
Proof. apply omap_app. Qed.

(** ** The invariant *)

Definition stopping_pc (pc : main_pc) : bool := match pc with MDraining | MHubStop => true | _ => false end.

Definition ssh_inv (keys : list bytes) (evs : list run_event) (s : Server + SshState) (h : Hub) : Prop :=
  match s with
  | inl s => ssh_ready keys s /\ remote_texts h ++ user_texts (broadcast h) = []
  | inr st => srv_inv st h /\ origin_inv keys evs st h
  end.

Definition ssh_stopping (s : Server + SshState) : bool := match s with inl s => stopping s | inr st => stopping (v_srv st) end.

Record prog_inv (keys : list bytes) (evs : list (prog_event (C := C))) p : Prop := {
  pi_net n : pg_net p = inl n -> node_inv (pg_cfg p) (pg_id p) n;
  pi_hub : hub_inv (prog_hub p);
  pi_running : pg_pc p <> MExited 0 -> stopped (prog_hub p) = false;
  pi_ssh : ssh_inv keys (ssh_trace evs) (pg_ssh p) (prog_hub p);
  pi_stopping : stopping_pc (pg_pc p) = true -> ssh_stopping (pg_ssh p) = true
}.

(** Events of the hub that add no text. *)
Lemma origin_hub_steps keys evs st h es h' :
  origin_inv keys evs st h -> hub_steps h es h' -> es ≫= event_texts = [] -> origin_inv keys evs st h'.
Proof.
  intros Hi Hs. induction Hs as [|h e h1 es h2 _ Hstep _ IH]; [done|]. rewrite bind_cons. intros [He Hes]%app_nil.
  apply IH; [|done]. apply (origin_hub_step keys evs st h e); [done..|]. rewrite He. by intros text ?%elem_of_nil.
Qed.

Lemma ssh_inv_hub keys evs s h es h' :
  ssh_inv keys evs s h -> hub_inv h -> hub_steps h es h' -> es ≫= event_texts = [] -> ssh_inv keys evs s h'.
Proof.
  intros Hi Hh Hs He. destruct s as [s|st]; destruct Hi as [Hi Ho].
  - split; [done|]. pose proof (hub_steps_texts h es h' Hs) as Hsub. rewrite He, app_nil_r, Ho in Hsub.
    apply sublist_nil_r in Hsub. by apply app_nil in Hsub as [_ ?].
  - split; [by eapply srv_inv_hub|by eapply origin_hub_steps].
Qed.

Lemma ssh_inv_app keys evs evs' s h : ssh_inv keys evs s h -> ssh_inv keys (evs ++ evs') s h.
Proof. destruct s; [done|]. intros [Hi Ho]. split; [done|by apply origin_inv_app]. Qed.

Lemma hub_steps_stopped h es h' : hub_steps h es h' -> EStop ∉ es -> stopped h' = stopped h.
Proof.
  induction 1 as [|h e h1 es h2 _ Hs _ IH]; [done|]. intros [Hne Hes]%not_elem_of_cons.
  rewrite IH by done. apply (hub_step_control h e h1 Hs). by intros ->.
Qed.

(** ** Every step keeps the invariant *)

Lemma prog_hub_set p h : prog_hub (set_prog_hub p h) = h.
Proof. unfold prog_hub, set_prog_hub. by destruct (pg_net p). Qed.

Lemma set_prog_hub_net p h n :
  (forall n, pg_net p = inl n -> node_inv (pg_cfg p) (pg_id p) n) -> pg_net (set_prog_hub p h) = inl n ->
  node_inv (pg_cfg p) (pg_id p) n.
Proof.
  unfold set_prog_hub, set_net. cbn. intros Hn. destruct (pg_net p) as [n0|]; [|done]. intros [= <-].
  by apply w_set_hub_inv, Hn.
Qed.

(** A step of the hub, by whoever takes it, that does not stop it. *)
Lemma prog_hub_inv keys evs p es h :
  prog_inv keys evs p -> hub_steps (prog_hub p) es h -> es ≫= event_texts = [] -> EStop ∉ es ->
  prog_inv keys evs (set_prog_hub p h).
Proof.
  intros [Hn Hh Hr Hs Hst] Hsteps He Hne. split; rewrite ?prog_hub_set; try done.
  - intros n. exact (set_prog_hub_net p h n Hn).
  - by eapply hub_steps_inv.
  - cbn. intros Hpc. rewrite (hub_steps_stopped _ _ _ Hsteps Hne). by apply Hr.
  - cbn. by eapply ssh_inv_hub.
Qed.

Lemma prog_inv_app keys evs evs' p : prog_inv keys evs p -> prog_inv keys (evs ++ evs') p.
Proof. intros [Hn Hh Hr Hs Hst]. split; try done. rewrite ssh_trace_app. by apply ssh_inv_app. Qed.

Lemma ssh_cancel_inv keys evs s h : ssh_inv keys evs s h -> ssh_inv keys evs (ssh_cancel s) h.
Proof. destruct s as [s|st]; [done|]. intros [[] []]. by split; split. Qed.

Lemma ssh_stop_inv keys evs s h : ssh_inv keys evs s h -> ssh_inv keys evs (ssh_stop s) h.
Proof.
  destruct s as [s|st]; cbn.
  - intros [? ?]. split; [by apply server_stop_ready|done].
  - intros [[] []]. split; (split; try done). by apply (server_step_inv (v_srv st) SStop).
Qed.

(** A step of the node that [main] or its goroutines take. *)
Lemma set_node_inv keys evs p n nev n1 :
  prog_inv keys evs p -> pg_net p = inl n -> valid_node_event n nev -> (forall e, nev <> NHub e) ->
  node_step n nev = Some n1 -> prog_inv keys evs (set_net p (inl n1)).
Proof.
  intros [Hn Hh Hr Hs Hst] En Hv Hown Hstep. pose proof (Hn n En) as Hni.
  destruct (node_step_hub _ _ n nev n1 Hni Hv Hstep) as (es & Hes & Ht & _ & Hne).
  assert (prog_hub p = hub_of n) as Eh by (unfold prog_hub; by rewrite En). rewrite Eh in *.
  assert (EStop ∉ es) as Hno by (intros Hin; by destruct (Hown EStop (Hne Hin))).
  assert (es ≫= event_texts = []) as Ht' by (rewrite Ht; destruct nev; try done; by destruct (Hown e)).
  split; try done.
  - intros ? [= <-]. by eapply node_step_inv.
  - exact (hub_steps_inv _ _ _ Hh Hes).
  - intros Hpc. transitivity (stopped (hub_of n)); [exact (hub_steps_stopped _ _ _ Hes Hno)|by apply Hr].
  - exact (ssh_inv_hub _ _ _ _ _ _ Hs Hh Hes Ht').
Qed.

Lemma set_pc_inv keys evs p pc :
  prog_inv keys evs p -> pg_pc p <> MExited 0 -> (stopping_pc pc = true -> ssh_stopping (pg_ssh p) = true) ->
  prog_inv keys evs (set_pc p pc).
Proof. intros [Hn Hh Hr Hs Hst] Hpc Hpc'. split; try done. intros _. by apply Hr. Qed.

Lemma main_step_inv keys evs p timeout p1 : prog_inv keys evs p -> main_step p timeout = Some p1 -> prog_inv keys evs p1.
Proof.
  intros Hi. unfold main_step. destruct (pg_pc p) eqn:Epc; try done; pose proof Hi as [Hn Hh Hr Hs Hst].
  - intros [= <-]. apply set_pc_inv; [|by destruct (pg_net p); cbn; rewrite Epc|done].
    destruct (pg_net p) as [n|h] eqn:En; [|done]. by apply (set_node_inv keys evs p n NStop).
  - intros [= <-]. apply set_pc_inv; [|by cbn; rewrite Epc|intros _; by destruct (pg_ssh p)].
    split; try done; [by apply ssh_stop_inv|]. intros _. cbn. by destruct (pg_ssh p).
  - destruct (timeout || _); [|done]. intros [= <-]. apply set_pc_inv; [done|by rewrite Epc|]. intros _. apply Hst. by rewrite Epc.
  - intros [= <-]. assert (stopped (prog_hub p) = false) as Hup by (apply Hr; by rewrite Epc).
    assert (hub_steps (prog_hub p) [EStop] (do_stop (prog_hub p))) as Hsteps.
    { eapply hs_cons; [exact I|cbn; by rewrite Hup|constructor]. }
    unfold Hub_Stop. rewrite Hup. split; try done.
    + intros n. exact (set_prog_hub_net p _ n Hn).
    + change (hub_inv (prog_hub (set_prog_hub p (do_stop (prog_hub p))))). rewrite prog_hub_set. by eapply hub_steps_inv.
    + change (ssh_inv keys (ssh_trace evs) (pg_ssh p) (prog_hub (set_prog_hub p (do_stop (prog_hub p))))).
      rewrite prog_hub_set. by eapply ssh_inv_hub.
Qed.

Lemma ssh_Start_inv' keys evs s bound st h (cancelled : bool) :
  ssh_inv keys evs (inl s) h -> ssh_Start s bound = Some st ->
  ssh_inv keys evs (inr (if cancelled then set_cancelled st else st)) h /\ stopping (v_srv st) = stopping s.
Proof.
  intros [Hr Ht] Hs. destruct (ssh_Start_ready keys s bound st h evs Hr Hs Ht) as [Hi Ho]. split.
  - destruct cancelled; [|done]. by apply (ssh_cancel_inv keys evs (inr st)).
  - unfold ssh_Start, Listen in Hs. destruct bound; [|done]. by injection Hs as <-.
Qed.

(** A step of the SSH server. *)
Lemma srv_prog_inv keys evs p st sev st1 h1 :
  prog_inv keys evs p -> pg_ssh p = inr st -> pg_pc p <> MExited 0 -> own_srv_event sev = true ->
  srv_valid (prog_hub p) sev -> srv_step st (prog_hub p) sev = Some (st1, h1) ->
  prog_inv keys (evs ++ [PSsh sev]) (set_ssh (set_prog_hub p h1) (inr st1)).
Proof.
  intros [Hn Hh Hr Hs Hst] Es Hpc Hown Hv Hstep. rewrite Es in Hs. destruct Hs as [Hi Ho].
  pose proof (srv_step_steps _ _ _ _ _ Hi Hv Hstep) as Hsteps.
  destruct (srv_step_control st (prog_hub p) sev st1 h1 Hi Hv) as [Hup _]; [destruct (hi_count _ Hh); lia|done|].
  assert (prog_hub (set_ssh (set_prog_hub p h1) (inr st1)) = h1) as Eh by apply prog_hub_set.
  split; rewrite ?Eh.
  - intros n. exact (set_prog_hub_net p h1 n Hn).
  - by eapply hub_steps_inv.
  - intros _. rewrite Hup. by apply Hr.
  - rewrite ssh_trace_app. split; [by eapply srv_step_inv|]. by eapply origin_srv_step; [eapply sv_commands|..].
  - intros Hpc'. specialize (Hst Hpc'). rewrite Es in Hst. cbn in *. by rewrite (srv_step_stopping _ _ _ _ _ Hown Hstep).
Qed.

Lemma prog_step_inv keys evs p ev p1 :
  prog_inv keys evs p -> valid_prog_event p ev -> prog_step p ev = Some p1 -> prog_inv keys (evs ++ [ev]) p1.
Proof.
  intros Hi Hv Hs. pose proof Hi as [Hn Hh Hr Hss Hst]. unfold prog_step in Hs.
  destruct (exited (pg_pc p)) eqn:Hex; [done|].
  assert (forall code, pg_pc p <> MExited code) as Hpc by (intros code E; by rewrite E in Hex).
  assert (stopped (prog_hub p) = false) as Hup by (apply Hr, Hpc).
  apply (prog_inv_app _ _ [ev]) in Hi as Hi'. destruct ev as [bound|nev|bound|sev| | |timeout].
  - destruct (pg_net p) as [n|] eqn:En; [|done]. destruct (pg_started p); try done.
    pose proof Hi' as [Hn' Hh' Hr' Hss' Hst']. destruct (Start (n_mgr n) bound) as [m|] eqn:Est; [|injection Hs as <-; by split].
    assert (prog_hub p = w_hub (m_world m)) as Eh by (unfold prog_hub; rewrite En; symmetry; by eapply Start_hub).
    injection Hs as <-. rewrite Eh in *. split; try done. intros ? [= <-]. eapply Start_inv; [by apply Hn'|done].
  - destruct (pg_net p) as [n|] eqn:En; [|done]. destruct (bool_decide _ && _) eqn:Hown; [|done].
    apply andb_true_iff in Hown as [_ Hown]. destruct (node_step n nev) as [n1|] eqn:Hstep; [|done]. injection Hs as <-.
    cbn in Hv. rewrite En in Hv. apply (set_node_inv _ _ p n nev); [done..| |done]. intros e ->. done.
  - destruct (pg_ssh p) as [s|] eqn:Es; [|done]. destruct (ssh_Start s bound) as [st|] eqn:Est; injection Hs as <-.
    + destruct Hi' as [Hn' Hh' Hr' Hss' Hst']. rewrite Es in Hss'.
      destruct (ssh_Start_inv' _ _ s bound st _ (negb (bool_decide (pg_pc p = MRunning))) Hss' Est) as [Hsi Hstop].
      split; try done.
      * cbn. by destruct (bool_decide _).
      * intros Hp. specialize (Hst Hp). cbn in *. by destruct (bool_decide _); cbn; rewrite Hstop.
    + by apply set_pc_inv.
  - destruct (pg_ssh p) as [|st] eqn:Es; [done|]. destruct (own_srv_event sev) eqn:Hown; [|done].
    destruct (srv_step st (prog_hub p) sev) as [[st1 h1]|] eqn:Hstep; [|done]. injection Hs as <-. by apply (srv_prog_inv _ _ p st).
  - destruct (hub_step (prog_hub p) EDequeue) as [h1|] eqn:Hstep; [|done]. injection Hs as <-.
    apply (prog_hub_inv _ _ p [EDequeue]); [done|by apply (hs_cons _ _ h1); [|exact Hstep|constructor]|done|].
    by intros ?%list_elem_of_singleton.
  - case_bool_decide; [|done]. injection Hs as <-. apply set_pc_inv; [|apply Hpc|done].
    destruct Hi' as [Hn' Hh' Hr' Hss' Hst']. split; try done; [by apply ssh_cancel_inv|]. cbn.
    intros Hp. specialize (Hst Hp). by destruct (pg_ssh p).
  - by apply main_step_inv with (p := p) (timeout := timeout).
Qed.

Lemma prog_steps_inv keys evs0 p evs p1 :
  prog_inv keys evs0 p -> prog_steps p evs p1 -> prog_inv keys (evs0 ++ evs) p1.
Proof.
  intros Hi Hs. revert evs0 Hi. induction Hs as [p|p ev p1 evs p2 Hv Hstep _ IH]; intros evs0 Hi; [by rewrite app_nil_r|].
  rewrite (cons_middle ev), app_assoc. apply IH. by eapply prog_step_inv.
Qed.

(** ** Boot *)

(** What a successful boot has done. *)
Record booted (g : Log) (env : Env) p : Prop := {
  bt_cfg : exists cfg0, Config.Load toml_Decode (env_host env) (env_home env) (env_configs env) (env_configPath env) = inl cfg0 /\
    settle cfg0 (env_flags env) (env_logLevel env) (env_home env) = Some (pg_cfg p);
  bt_id : exists fs', Identity.Load (env_fs env) (env_key env) (node_DataDir (cfg_Node (pg_cfg p))) = (Ok (pg_id p), fs');
  bt_log : pg_log p = Init g (log_Level (cfg_Logging (pg_cfg p))) (log_Format (cfg_Logging (pg_cfg p)));
  bt_net : exists store, env_store env (filepath_Join [node_DataDir (cfg_Node (pg_cfg p)); "data.db"%string]) = Some store /\
    let hub := NewHub (node_Name (cfg_Node (pg_cfg p))) in
    if has_transport (pg_cfg p)
    then exists m, NewManager (pg_cfg p) (pg_id p) hub (Some store) = Some m /\ pg_net p = inl (new_node m)
    else pg_net p = inr hub;
  bt_ssh : exists s, NewServer ParseAuthorizedKey
      (env_authorized env (filepath_Join [node_DataDir (cfg_Node (pg_cfg p)); "authorized_keys"%string])) = Some s /\ pg_ssh p = inl s;
  bt_pc : pg_pc p = MRunning
}.

Lemma boot_booted g env p : boot toml_Decode ParseAuthorizedKey g env = Ok p -> booted g env p.
Proof.
  unfold boot. destruct (Config.Load _ _ _ _ _) as [cfg0|] eqn:Ecfg; [|done].
  destruct (settle cfg0 _ _ _) as [cfg|] eqn:Eset; [|done]. destruct (negb _); [done|].
  destruct (Identity.Load _ _ _) as [[id|] fs'] eqn:Eid; [|done].
  destruct (env_store env _) as [store|] eqn:Est; [|done].
  destruct (if has_transport cfg then _ else _) as [net|] eqn:Enet; [|done].
  destruct (NewServer _ _) as [s|] eqn:Es; [|done]. intros [= <-]. split; cbn; eauto.
  exists store. split; [done|]. destruct (has_transport cfg); [|by injection Enet as <-].
  destruct (NewManager cfg id _ _) as [m|]; [|done]. injection Enet as <-. by exists m.
Qed.

Lemma NewManager_hub0 cfg id hub st (m : Manager (noiseConn C) S) : NewManager cfg id hub st = Some m -> w_hub (m_world m) = SetRemoteSend hub.
Proof.
  unfold NewManager. destruct (EdToNoiseKeypair id) as [k|]; [|done]. rewrite loadKnownPeers_only. by intros [= <-].
Qed.

(** The keys of the file at boot. *)
Definition boot_keys (env : Env (S := S)) p : list bytes :=
  loadAuthorizedKeys ParseAuthorizedKey
    (env_authorized env (filepath_Join [node_DataDir (cfg_Node (pg_cfg p)); "authorized_keys"%string])).

Lemma boot_inv g env p : boot toml_Decode ParseAuthorizedKey g env = Ok p -> prog_inv (boot_keys env p) [] p.
Proof.
  intros Hb. destruct (boot_booted g env p Hb) as [_ [fs' Hid] _ (store & _ & Hnet) (s & Hs & Es) Hpc].
  apply Load_ok in Hid. apply NewServer_ready in Hs.
  set (hub := NewHub (node_Name (cfg_Node (pg_cfg p)))) in *.
  assert (exists h, prog_hub p = h /\ hub_inv h /\ stopped h = false /\ remote_texts h ++ user_texts (broadcast h) = [])
    as (h & Eh & Hh & Hup & Ht).
  { unfold prog_hub. destruct (has_transport (pg_cfg p)).
    - destruct Hnet as (m & Hm & ->). exists (SetRemoteSend hub). split; [by eapply NewManager_hub0|].
      split; [apply SetRemoteSend_inv, NewHub_inv|done].
    - rewrite Hnet. exists hub. split; [done|]. split; [apply NewHub_inv|done]. }
  split; rewrite ?Eh, ?Es, ?Hpc; try done.
  intros n En. destruct (has_transport (pg_cfg p)); [|by rewrite Hnet in En].
  destruct Hnet as (m & Hm & En'). rewrite En' in En. injection En as <-. by eapply NewManager_inv.
Qed.

(** No step changes the identity. *)
Lemma prog_step_id p ev p1 : prog_step p ev = Some p1 -> pg_id p1 = pg_id p.
Proof.
  unfold prog_step, main_step. destruct (exited (pg_pc p)); [done|]. intros Hs.
  destruct ev; repeat case_match; simplify_eq; try done.
  - by destruct (node_step _ _); simplify_eq/=.
  - by destruct (hub_step _ _); simplify_eq/=.
Qed.

Lemma prog_identity g env p0 p evs :
  boot toml_Decode ParseAuthorizedKey g env = Ok p0 -> prog_steps p0 evs p -> identity_ok (pg_id p).
Proof.
  intros Hb Hr. destruct (boot_booted g env p0 Hb) as [_ [fs' Hid] _ _ _ _]. apply Load_ok in Hid.
  clear -Hid Hr. induction Hr as [p|p ev p1 evs p2 _ Hs _ IH]; [done|]. apply IH. by rewrite (prog_step_id p ev p1 Hs).
Qed.

(** ** The peers at the exit *)

(** [Stop] closes the peers of the table. *)
Lemma Stop_heap (m : Manager (noiseConn C) S) l q :
  w_heap (m_world (Stop m)) !! l = Some q -> (exists nid, w_peers (m_world m) !! nid = Some l) -> done q = true.
Proof.
  unfold Stop. cbn. intros Hq (nid & Hin%elem_of_map_to_list). revert Hin Hq. generalize (map_to_list (w_peers (m_world m))).
  intros es. set (f := fun (w : World (noiseConn C)) (e : string * positive) => _).
  assert (forall es w l, (exists q0, w_heap w !! l = Some q0 /\ done q0 = true) ->
    exists q0, w_heap (foldl f w es) !! l = Some q0 /\ done q0 = true) as Hkeep.
  { clear. induction es as [|e es IH]; intros w l Hw; [done|]. apply IH. unfold f. destruct Hw as (q0 & Hq & Hd).
    destruct (w_heap w !! e.2) as [q1|] eqn:E; [|by exists q0]. cbn. destruct (decide (e.2 = l)) as [<-|].
    - exists (Close q1). by rewrite lookup_insert_eq.
    - exists q0. by rewrite lookup_insert_ne. }
  generalize (m_world m). induction es as [|e es IH]; intros w Hin Hq; [by apply elem_of_nil in Hin|].
  apply elem_of_cons in Hin as [<-|Hin]; [|by eapply IH]. cbn [foldl] in Hq.
  destruct (w_heap w !! l) as [q1|] eqn:E.
  - destruct (Hkeep es (f w (nid, l)) l) as (q0 & Hq0 & Hd); [|by simplify_eq].
    exists (Close q1). unfold f. cbn. rewrite E. cbn. by rewrite lookup_insert_eq.
  - exfalso. assert (w_heap (foldl f w es) !! l = None) as En; [|].
    + clear -E. revert w E. induction es as [|e es IH]; intros w E; [done|]. apply IH. unfold f.
      destruct (w_heap w !! e.2) as [q1|] eqn:E1; [|done]. cbn. rewrite lookup_insert_ne; [done|congruence].
    + unfold f at 2 in Hq. cbn in Hq. rewrite E in Hq. congruence.
Qed.

Lemma Stop_peers (m : Manager (noiseConn C) S) : w_peers (m_world (Stop m)) = w_peers (m_world m).
Proof. unfold Stop. cbn. apply (foldl_keeps w_peers). intros w e. by destruct (w_heap w !! e.2). Qed.

(** The transport is stopped, and every peer of its table closed. *)
Definition net_closed p : Prop :=
  forall n, pg_net p = inl n -> n_stopped n = true /\
    forall nid l q, w_peers (m_world (n_mgr n)) !! nid = Some l -> w_heap (m_world (n_mgr n)) !! l = Some q -> done q = true.

Lemma net_closed_hub p h : net_closed p -> net_closed (set_prog_hub p h).
Proof.
  intros Hp n. unfold set_prog_hub. cbn. destruct (pg_net p) as [n0|] eqn:E; [|done]. intros [= <-]. exact (Hp n0 E).
Qed.

Definition before_stop (pc : main_pc) : bool := match pc with MRunning | MCancelled => true | _ => false end.

Lemma node_step_stopped n ev n1 : own_node_event ev = true -> node_step n ev = Some n1 -> n_stopped n1 = n_stopped n.
Proof.
  intros Ho Hs. destruct ev; try done; unfold node_step, after_turn in Hs; repeat case_match; simplify_eq; try done;
    by apply fmap_Some in Hs as (? & _ & ->).
Qed.

(** Only [main] stops the transport. *)
Lemma prog_step_stopped p ev p1 n1 :
  prog_step p ev = Some p1 -> before_stop (pg_pc p1) = true -> pg_net p1 = inl n1 ->
  before_stop (pg_pc p) = true /\ exists n, pg_net p = inl n /\ n_stopped n1 = n_stopped n.
Proof.
  assert (forall q h, pg_net (set_prog_hub q h) = inl n1 -> exists n, pg_net q = inl n /\ n_stopped n1 = n_stopped n) as Hhub.
  { intros q h. unfold set_prog_hub. cbn. destruct (pg_net q) as [n|]; [|done]. intros [= <-]. by exists n. }
  unfold prog_step. destruct (exited (pg_pc p)); [done|]. destruct ev as [bound|nev|bound|sev| | |timeout]; intros Hs Hpc En.
  - destruct (pg_net p) as [n|] eqn:E; [|done]. destruct (pg_started p); try done.
    destruct (Start (n_mgr n) bound); simplify_eq/=; [|rewrite E in En]; simplify_eq/=; eauto.
  - destruct (pg_net p) as [n|] eqn:E; [|done]. destruct (bool_decide _); [|done]. destruct (own_node_event nev) eqn:Eo; [|done].
    apply fmap_Some in Hs as (n2 & Hs & ->). simplify_eq/=. apply node_step_stopped in Hs; eauto.
  - destruct (pg_ssh p); [|done]. destruct (ssh_Start _ _); simplify_eq/=; eauto.
  - destruct (pg_ssh p); [done|]. destruct (own_srv_event sev); [|done].
    destruct (srv_step _ _ _) as [[st1 h1]|]; [|done]. simplify_eq/=. eauto.
  - apply fmap_Some in Hs as (h & _ & ->). eauto.
  - case_bool_decide as Er; [|done]. simplify_eq/=. rewrite Er. eauto.
  - unfold main_step in Hs. destruct (pg_pc p); repeat case_match; simplify_eq/=; done.
Qed.

Lemma boot_not_stopped g env p0 p evs n :
  boot toml_Decode ParseAuthorizedKey g env = Ok p0 -> prog_steps p0 evs p ->
  before_stop (pg_pc p) = true -> pg_net p = inl n -> n_stopped n = false.
Proof.
  intros Hb Hr. destruct (boot_booted g env p0 Hb) as [_ _ _ (store & _ & Hnet) _ _].
  assert (forall n, before_stop (pg_pc p0) = true -> pg_net p0 = inl n -> n_stopped n = false) as H0n.
  { intros n0 _ En. destruct (has_transport _); [|by rewrite Hnet in En]. destruct Hnet as (m & _ & Em). rewrite Em in En. by injection En as <-. }
  clear Hb Hnet. revert n. induction Hr as [p|p ev p1 evs p2 _ Hs _ IH]; intros n; [by apply H0n|]. apply IH.
  intros n1 Hpc En. destruct (prog_step_stopped p ev p1 n1 Hs Hpc En) as (Hpc0 & n0 & E0 & ->). by apply H0n.
Qed.

(** ** Exit *)

Lemma drain_own st ev : drains st ev -> own_srv_event ev = true.
Proof. by destruct ev. Qed.

(** A run that drains the server is a run of the program. *)
Lemma drain_prog_steps p st x y :
  rtc drain_step x y -> drain_ok x -> x = (st, prog_hub p) -> pg_ssh p = inr st -> pg_pc p = MDraining ->
  exists evs p', prog_steps p evs p' /\ pg_pc p' = MDraining /\ pg_ssh p' = inr y.1 /\ prog_hub p' = y.2 /\ PMain true ∉ evs /\
    (net_closed p -> net_closed p').
Proof.
  intros Hr. revert p st. induction Hr as [x|x z y Hs _ IH]; intros p st Hok Ex Es Hpc.
  { subst x. exists [], p. split_and!; [constructor|done..|apply not_elem_of_nil|done]. }
  pose proof (drain_ok_step x z Hok Hs) as Hok'.
  assert (exists ev p1, valid_prog_event p ev /\ prog_step p ev = Some p1 /\ ev <> PMain true /\
    pg_pc p1 = MDraining /\ pg_ssh p1 = inr z.1 /\ prog_hub p1 = z.2 /\ (net_closed p -> net_closed p1))
    as (ev & p1 & Hv & Hstep & Hne & Hpc1 & Es1 & Eh1 & Hcl).
  { destruct Hs as [st0 h ev st' h' Hd Hs|st0 h h' Hs]; injection Ex as -> ->.
    - exists (PSsh ev), (set_ssh (set_prog_hub p h') (inr st')). split_and!; try done.
      + cbn. by eapply drain_valid.
      + unfold prog_step. by rewrite Hpc, Es, (drain_own st), Hs.
      + apply prog_hub_set.
      + apply net_closed_hub.
    - exists PHub, (set_prog_hub p h'). split_and!; try done.
      + unfold prog_step. by rewrite Hpc, Hs.
      + apply prog_hub_set.
      + apply net_closed_hub. }
  destruct (IH p1 z.1 Hok') as (evs & p' & Hrun & Hpc' & Es' & Eh' & Hno & Hcl'); [by rewrite Eh1; destruct z|done|done|].
  exists (ev :: evs), p'. split_and!; try done; [by econstructor|by apply not_elem_of_cons|by auto].
Qed.

(** The stages of [main] before it waits change neither the hub nor the
    sessions. *)
Definition keeps p p' : Prop :=
  prog_hub p' = prog_hub p /\ (net_closed p -> net_closed p') /\
  forall st', pg_ssh p' = inr st' -> exists st, pg_ssh p = inr st /\ v_sessions st' = v_sessions st.

#[local] Instance keeps_refl : Reflexive keeps.
Proof. intros p. split_and!; [done..|]. by eauto. Qed.
#[local] Instance keeps_trans : Transitive keeps.
Proof.
  intros p1 p2 p3 (H12 & C12 & S12) (H23 & C23 & S23). split_and!; [congruence|by auto|]. intros st3 E3.
  destruct (S23 st3 E3) as (st2 & E2 & ?). destruct (S12 st2 E2) as (st1 & E1 & ?). exists st1. split; [done|congruence].
Qed.

Lemma Stop_hub (m : Manager (noiseConn C) S) : w_hub (m_world (Stop m)) = w_hub (m_world m).
Proof. unfold Stop. cbn. apply (foldl_keeps w_hub). intros w e. by destruct (w_heap w !! e.2). Qed.

Definition next_pc (pc : main_pc) : option (prog_event (C := C) * main_pc) :=
  match pc with
  | MRunning => Some (PSignal, MCancelled)
  | MCancelled => Some (PMain false, MNetStopped)
  | MNetStopped => Some (PMain false, MDraining)
  | _ => None
  end.

Lemma next_pc_step p ev pc' :
  next_pc (pg_pc p) = Some (ev, pc') ->
  exists p1, prog_step p ev = Some p1 /\ pg_pc p1 = pc' /\ keeps p p1 /\
    (pg_pc p = MCancelled -> (forall n, pg_net p = inl n -> n_stopped n = false) -> net_closed p1) /\
    (pg_pc p = MRunning -> pg_net p1 = pg_net p).
Proof.
  destruct (pg_pc p) eqn:Epc; intros [= <- <-]; unfold prog_step, main_step; rewrite Epc; cbn [exited];
    (eexists; split; [reflexivity|]); (split; [done|]); (split; [|done] || split).
  - split_and!; [done|done|]. cbn. destruct (pg_ssh p) as [s|st]; [done|]. intros ? [= <-]. by exists st.
  - split_and!.
    + unfold prog_hub. destruct (pg_net p) as [n|h] eqn:En; cbn; rewrite ?En; [|done].
      destruct (n_stopped n); [done|]. apply Stop_hub.
    + intros Hcl n. destruct (pg_net p) as [n0|h] eqn:En; cbn; [|by rewrite En].
      destruct (Hcl n0 En) as [Hst Hd]. rewrite Hst. intros [= <-]. done.
    + cbn. destruct (pg_net p); cbn; eauto.
  - split; [|done]. intros _ Hns n. destruct (pg_net p) as [n0|h] eqn:En; cbn [pg_net set_pc set_net]; [|by rewrite En].
    rewrite (Hns n0) by done. intros [= <-]. split; [done|]. cbn [n_mgr]. rewrite Stop_peers. intros nid l q Hl Hq.
    eapply Stop_heap; [exact Hq|by exists nid].
  - split_and!; [done|done|]. cbn. destruct (pg_ssh p) as [s|st]; [done|]. intros ? [= <-]. by exists st.
Qed.

(** After the signal [main] goes on until it waits for the connections. *)
Lemma reach_draining p :
  pg_pc p <> MHubStop -> exited (pg_pc p) = false ->
  exists evs p', prog_steps p evs p' /\ pg_pc p' = MDraining /\ PMain true ∉ evs /\ keeps p p'.
Proof.
  assert (forall q ev pc', next_pc (pg_pc q) = Some (ev, pc') ->
    (forall q1, pg_pc q1 = pc' -> exists evs p', prog_steps q1 evs p' /\ pg_pc p' = MDraining /\ PMain true ∉ evs /\ keeps q1 p') ->
    exists evs p', prog_steps q evs p' /\ pg_pc p' = MDraining /\ PMain true ∉ evs /\ keeps q p') as Hgo.
  { intros q ev pc' Hn Hk. destruct (next_pc_step q ev pc' Hn) as (q1 & Hs & Epc & Hkeep & _).
    destruct (Hk q1 Epc) as (evs & p' & Hr & ? & ? & ?). exists (ev :: evs), p'.
    assert (valid_prog_event q ev /\ ev <> PMain true) as [Hv Hne] by (destruct (pg_pc q); by simplify_eq/=).
    split_and!; [by econstructor|done|by apply not_elem_of_cons|by etransitivity]. }
  assert (forall q, pg_pc q = MDraining ->
    exists evs p', prog_steps q evs p' /\ pg_pc p' = MDraining /\ PMain true ∉ evs /\ keeps q p') as Hdr.
  { intros q Eq. exists [], q. split_and!; [constructor|done|apply not_elem_of_nil|done]. }
  assert (forall q, pg_pc q = MNetStopped ->
    exists evs p', prog_steps q evs p' /\ pg_pc p' = MDraining /\ PMain true ∉ evs /\ keeps q p') as Hns.
  { intros q Eq. apply (Hgo q (PMain false) MDraining); [by rewrite Eq|done]. }
  assert (forall q, pg_pc q = MCancelled ->
    exists evs p', prog_steps q evs p' /\ pg_pc p' = MDraining /\ PMain true ∉ evs /\ keeps q p') as Hca.
  { intros q Eq. apply (Hgo q (PMain false) MNetStopped); [by rewrite Eq|done]. }
  intros Hne Hex. destruct (pg_pc p) eqn:Epc; try done; auto. apply (Hgo p PSignal MCancelled); [by rewrite Epc|done].
Qed.

(** The sessions that will still join. *)
Definition prog_joining p : nat := match pg_ssh p with inl _ => 0 | inr st => joining st end.

(** While [main] waits the connections end. *)
Lemma draining_ends keys evs0 p :
  prog_inv keys evs0 p -> pg_pc p = MDraining -> sessionCounter (prog_hub p) + Z.of_nat (prog_joining p) < 2 ^ 64 ->
  exists evs p1, prog_steps p evs p1 /\ pg_pc p1 = MDraining /\ PMain true ∉ evs /\ ssh_wg (pg_ssh p1) = 0%nat /\
    stopped (prog_hub p1) = false /\ (net_closed p -> net_closed p1).
Proof.
  intros [_ Hh Hr Hs Hst] Hpc Hctr. unfold prog_joining in Hctr. destruct (pg_ssh p) as [s|st] eqn:Es.
  - exists [], p. split_and!; [constructor|done|apply not_elem_of_nil| |by apply Hr; rewrite Hpc|done].
    rewrite Es. destruct Hs as [[_ _ Hsi He] _]. cbn. by rewrite (si_wg _ Hsi), He.
  - assert (drain_ok (st, prog_hub p)) as Hok.
    { split; cbn; [apply Hs|done|apply Hst; by rewrite Hpc|by apply Hr; rewrite Hpc|done]. }
    destruct (drain_finishes _ Hok) as ([st' h'] & Hrun & Hd).
    destruct (drain_prog_steps p st _ _ Hrun Hok eq_refl Es Hpc) as (evs & p1 & Hsteps & Hpc1 & Es1 & Eh1 & Hno & Hcl).
    pose proof (drain_steps_ok _ _ Hrun Hok) as [Hi' _ _ Hup _]. cbn in Hi', Hup, Eh1, Es1.
    exists evs, p1. split_and!; [done..| |by rewrite Eh1|done]. rewrite Es1. by apply (drained_wg st' h').
Qed.

(** The last stage stops the hub. *)
Lemma hub_stop_exits p :
  pg_pc p = MHubStop -> stopped (prog_hub p) = false ->
  exists p', prog_steps p [PMain false] p' /\ pg_pc p' = MExited 0 /\ pg_ssh p' = pg_ssh p /\
    stopped (prog_hub p') = true /\ (net_closed p -> net_closed p').
Proof.
  intros Hpc Hup. exists (set_pc (set_prog_hub p (Hub_Stop (prog_hub p))) (MExited 0)). split_and!; try done.
  - econstructor; [done| |constructor]. unfold prog_step, main_step. by rewrite Hpc.
  - change (stopped (prog_hub (set_prog_hub p (Hub_Stop (prog_hub p)))) = true). rewrite prog_hub_set.
    unfold Hub_Stop. by rewrite Hup.
  - apply net_closed_hub.
Qed.

(** From the wait on: the connections end, and the hub is stopped. *)
Lemma draining_exits keys evs0 p :
  prog_inv keys evs0 p -> pg_pc p = MDraining -> sessionCounter (prog_hub p) + Z.of_nat (prog_joining p) < 2 ^ 64 ->
  exists evs p', prog_steps p evs p' /\ pg_pc p' = MExited 0 /\ PMain true ∉ evs /\ ssh_wg (pg_ssh p') = 0%nat /\
    stopped (prog_hub p') = true /\ (net_closed p -> net_closed p').
Proof.
  intros Hi Hpc Hctr. destruct (draining_ends keys evs0 p Hi Hpc Hctr) as (evs & p1 & Hr & Hpc1 & Hno & Hwg & Hup & Hcl).
  assert (prog_step p1 (PMain false) = Some (set_pc p1 MHubStop)) as Hgo1.
  { unfold prog_step, main_step. by rewrite Hpc1, Hwg. }
  destruct (hub_stop_exits (set_pc p1 MHubStop) eq_refl Hup) as (p' & Hr' & Hpc' & Es & Hst & Hcl').
  exists (evs ++ [PMain false; PMain false]), p'. split_and!; [|done| |by rewrite Es|done|].
  - eapply prog_steps_app; [exact Hr|]. by econstructor.
  - intros [?|Hin]%elem_of_app; [done|]. by repeat apply elem_of_cons in Hin as [?|Hin]; try apply elem_of_nil in Hin.
  - intros Hp. apply Hcl'. exact (Hcl Hp).
Qed.

(** Before it stops the transport, [main] goes on until it has. *)
Lemma reach_stopped p :
  before_stop (pg_pc p) = true -> (forall n, pg_net p = inl n -> n_stopped n = false) ->
  exists evs p1, prog_steps p evs p1 /\ pg_pc p1 = MNetStopped /\ PMain true ∉ evs /\ keeps p p1 /\ net_closed p1.
Proof.
  assert (forall q, pg_pc q = MCancelled -> (forall n, pg_net q = inl n -> n_stopped n = false) ->
    exists evs p1, prog_steps q evs p1 /\ pg_pc p1 = MNetStopped /\ PMain true ∉ evs /\ keeps q p1 /\ net_closed p1) as Hc.
  { intros q Eq Hn. destruct (next_pc_step q (PMain false) MNetStopped) as (q1 & Hs & Epc & Hk & Hcl & _); [by rewrite Eq|].
    exists [PMain false], q1. split_and!; [by repeat econstructor|done| |done|by apply Hcl].
    intros Hin. by apply list_elem_of_singleton in Hin. }
  intros Hb Hn. destruct (pg_pc p) eqn:Epc; try done; [|by apply Hc].
  destruct (next_pc_step p PSignal MCancelled) as (p1 & Hs & Epc1 & Hk & _ & Hnet); [by rewrite Epc|].
  destruct (Hc p1 Epc1) as (evs & p2 & Hr & Hpc2 & Hno & Hk2 & Hcl); [by rewrite (Hnet Epc)|].
  exists (PSignal :: evs), p2. split_and!; [by econstructor|done|by apply not_elem_of_cons|by etransitivity|done].
Qed.

(** From every stage before the hub is stopped [main] goes on until it waits
    for the connections, and on the way stops the transport if it had not. *)
Lemma reach_draining_closed p :
  pg_pc p <> MHubStop -> exited (pg_pc p) = false ->
  (forall n, before_stop (pg_pc p) = true -> pg_net p = inl n -> n_stopped n = false) ->
  exists evs p', prog_steps p evs p' /\ pg_pc p' = MDraining /\ PMain true ∉ evs /\ keeps p p' /\
    (before_stop (pg_pc p) = true -> net_closed p').
Proof.
  intros Hne Hex Hn. destruct (before_stop (pg_pc p)) eqn:Eb.
  - destruct (reach_stopped p Eb) as (evs1 & p1 & Hr1 & Epc1 & Hno1 & Hk1 & Hcl1); [by auto|].
    destruct (reach_draining p1) as (evs2 & p2 & Hr2 & Epc2 & Hno2 & Hk2); [by rewrite Epc1..|].
    exists (evs1 ++ evs2), p2. split_and!; [by eapply prog_steps_app|done| |by etransitivity|].
    + by intros [?|?]%elem_of_app.
    + intros _. by apply Hk2.
  - destruct (reach_draining p Hne Hex) as (evs & p' & ? & ? & ? & ?). by exists evs, p'.
Qed.

(** ** Properties *)

(** C2. The whole program is safe. After any boot and under any interleaving
    of the transport's goroutines, the SSH server's, the hub's loop and the stages of
    [main]: the hub has not panicked; the peer table respects [max_peers] and every
    peer in it is filed under the hash of its key; every key of the key ring hashes to its
    id; and every text that waits to be sent to the network was typed, on a connection
    that had shown a key of the authorized_keys file. *)
Theorem program_safe (g : Log) (env : Env) (p0 p : Program (noiseConn C) S) (evs : list prog_event)
  (Hboot : boot toml_Decode ParseAuthorizedKey g env = Ok p0) (Hrun : prog_steps p0 evs p) :
  panicked (prog_hub p) = false /\
  (forall n, pg_net p = inl n ->
     (0 < net_MaxPeers (cfg_Network (pg_cfg p)) ->
      Z.of_nat (PeerCount (n_mgr n)) <= net_MaxPeers (cfg_Network (pg_cfg p))) /\
     (forall nid l q, w_peers (m_world (n_mgr n)) !! nid = Some l -> w_heap (m_world (n_mgr n)) !! l = Some q ->
        nid = node_id (edPubKey q)) /\
     (forall nid entry, KeyRing_Lookup (eKeyRing (m_gossip (n_mgr n))) nid = Some entry -> node_id (PubKey entry) = nid)) /\
  (forall text, text ∈ remote_texts (prog_hub p) -> typed (boot_keys env p0) (ssh_trace evs) text).
Proof.
  pose proof (prog_steps_inv _ _ _ _ _ (boot_inv g env p0 Hboot) Hrun) as [Hn Hh _ Hs _]. cbn [app] in Hs.
  split_and!; [by apply hi_panic| |].
  - intros n En. pose proof (Hn n En) as Hinv. split_and!.
    + unfold PeerCount. rewrite <- length_map_to_list. apply Hinv.
    + intros nid l q El Eq. destruct (ni_table _ _ _ Hinv _ _ El) as (q' & E & <- & _). rewrite Eq in E.
      injection E as <-. by destruct (ni_peer _ _ _ Hinv l q Eq) as ([? _] & _).
    + by destruct (ni_ok _ _ _ Hinv).
  - intros text Hin. destruct (pg_ssh p) as [s|st]; destruct Hs as [_ Ho].
    + apply app_nil in Ho as [Ho _]. rewrite Ho in Hin. by apply elem_of_nil in Hin.
    + apply (oi_queue _ _ _ _ Ho), elem_of_app. by left.
Qed.

(** C6. The program exits. From every state that a run after the boot reaches and
    in which [main] has not returned, there is a continuation, with the signal if
    it did not come yet and without the five-second timeout, in which [main] stops the hub and
    returns with status 0. If [main] had not finished waiting for the SSH connections, the
    handlers of all of them have returned then. If it had not stopped the transport, the
    transport is stopped then and every peer of its table closed; nothing is said of a
    connection that is still between its hello and [addPeer], which [Stop] does not see. *)
Theorem program_exits (g : Log) (env : Env) (p0 p : Program (noiseConn C) S) (evs : list prog_event)
  (Hboot : boot toml_Decode ParseAuthorizedKey g env = Ok p0) (Hrun : prog_steps p0 evs p)
  (Hpc : exited (pg_pc p) = false)
  (Hcounter : sessionCounter (prog_hub p) + Z.of_nat (prog_joining p) < 2 ^ 64) :
  exists evs' p', prog_steps p evs' p' /\ pg_pc p' = MExited 0 /\ PMain true ∉ evs' /\ stopped (prog_hub p') = true /\
    (pg_pc p <> MHubStop -> ssh_wg (pg_ssh p') = 0%nat) /\
    (pg_pc p = MRunning \/ pg_pc p = MCancelled -> forall n, pg_net p' = inl n ->
       n_stopped n = true /\
       forall nid l q, w_peers (m_world (n_mgr n)) !! nid = Some l -> w_heap (m_world (n_mgr n)) !! l = Some q -> done q = true).
Proof.
  pose proof (prog_steps_inv _ _ _ _ _ (boot_inv g env p0 Hboot) Hrun) as Hi. destruct (decide (pg_pc p = MHubStop)) as [Ehs|Hwait].
  { destruct (hub_stop_exits p Ehs) as (p' & Hr & Hpc' & _ & Hst & _).
    { apply (pi_running _ _ _ Hi). by rewrite Ehs. }
    exists [PMain false], p'. split_and!; try done; [by intros Hin%list_elem_of_singleton|intros [?|?]; congruence]. }
  destruct (reach_draining_closed p Hwait Hpc) as (evs1 & p1 & Hr1 & Hpc1 & Hno1 & (Hhub & _ & Hses) & Hcl1).
  { intros n. by apply (boot_not_stopped g env p0 p evs). }
  pose proof (prog_steps_inv _ _ _ _ _ Hi Hr1) as Hi1.
  destruct (draining_exits _ _ p1 Hi1 Hpc1) as (evs2 & p2 & Hr2 & Hpc2 & Hno2 & Hwg & Hstop & Hcl2).
  { rewrite Hhub. unfold prog_joining in *. destruct (pg_ssh p1) as [s|st']; [cbn; lia|].
    destruct (Hses st' eq_refl) as (st & Es & E). rewrite Es in Hcounter. unfold joining in *. by rewrite E. }
  exists (evs1 ++ evs2), p2. split_and!; [by eapply prog_steps_app|done| |done|done|].
  - by intros [?|?]%elem_of_app.
  - intros Hb. apply Hcl2, Hcl1. by destruct Hb as [-> | ->].
Qed.
End ProgramProps.
