(* ===== verification/ProgramEx.v ===== *)
(** * ProgramEx: a boot and a run of the program

    Node 7 boots with a transport, connects to node 8, and a client with an
    authorized key writes a line, which is queued for node 8 as the signed
    envelope of the chat message. *)

From S2P Require Import Prelude Bytes Messages Concrete Seen KeyRing RateLimit Gossip GossipProps Stream Frame Noise Strs Text.
From S2P Require Import Identity Peer PeerProps Partyline PartylineProps Store Config Logging LoggingProps Manager Discovery.
From S2P Require Import DiscoveryProps Node NodeInv NodeProps NodeEx Ssh SshProps SshServer SshServerProps SshShutdown SshOrigin.
From S2P Require Import Program ProgramProps.
From Stdlib Require Import Init.Byte.

Section Run.
Context `{Crypto} `{Proto} `{KeyLib} `{NoiseXX} {C : Type} `{Conn C} {S : Type} `{Store S} `{RecordCodec}.
Implicit Types (p : Program (noiseConn C) S).

Definition srv_call_ok p (ev : prog_event (C := C)) : bool :=
  match ev with PSsh sev => bool_decide (srv_valid (prog_hub p) sev) | _ => true end.

Definition prog_shuffles_ok (ev : prog_event (C := C)) : Prop := match ev with PNode nev => shuffles_ok nev | _ => True end.

Fixpoint prog_ok p (evs : list (prog_event (C := C))) : bool :=
  match evs with
  | [] => true
  | ev :: evs' => srv_call_ok p ev && match prog_step p ev with Some p1 => prog_ok p1 evs' | None => false end
  end.

Definition prog_to p (evs : list (prog_event (C := C))) : Program (noiseConn C) S := default p (prog_run p evs).

Lemma prog_ok_steps p evs : prog_ok p evs = true -> Forall prog_shuffles_ok evs -> prog_steps p evs (prog_to p evs).
Proof.
  unfold prog_to. revert p. induction evs as [|ev evs IH]; intros p Hr Hs; [constructor|]. cbn in *.
  apply andb_true_iff in Hr as [Hc Hr]. apply Forall_cons in Hs as [Hsh Hs].
  destruct (prog_step p ev) as [p1|] eqn:E; [|done]. specialize (IH p1 Hr Hs).
  assert (is_Some (prog_run p1 evs)) as [p2 E2].
  { clear -Hr. revert p1 Hr. induction evs as [|ev' evs IH]; intros p Hr; [by eexists|]. cbn in *.
    apply andb_true_iff in Hr as [_ Hr]. destruct (prog_step p ev'); [by apply IH|done]. }
  rewrite E2 in *. econstructor; [|exact E|exact IH].
  destruct ev; try exact I; [|by apply bool_decide_eq_true in Hc].
  cbn in *. destruct (pg_net p) as [n|] eqn:En; [|exact I]. unfold prog_step in E. rewrite En in E.
  destruct (exited _); [done|]. destruct ev; try done. by rewrite andb_false_r in E.
Qed.
End Run.

Definition ex_toml (_ : bytes) (cfg : Config) : option Config :=
  Some (mkConfig (cfg_Node cfg) (cfg_SSH cfg) (cfg_Network (ex_config 1)) (mkLoggingConfig "debug" "json")).

Definition ex_env : Env (S := BoltStore) :=
  mkEnv (mkFlags "/data" "" "seven" "") "/etc/micelio.toml" "host" None "" (fun _ => FileBytes []) ex_fs (Some (toy_priv 7))
    (fun _ => true) (fun _ => Some ex_saved) (fun _ => Some [x01; x0a; x02]).

Definition ok_or {A E} (r : result A E) (d : A) : A := match r with Ok a => a | Err _ => d end.
Definition is_ok {A E} (r : result A E) : bool := match r with Ok _ => true | Err _ => false end.

Lemma ok_or_eq {A E} (r : result A E) (d : A) : is_ok r = true -> r = Ok (ok_or r d).
Proof. by destruct r. Qed.

Definition ex_prog_none : Program (noiseConn tcp) BoltStore :=
  mkProgram (ex_config 1) (ex_identity 7) ex_log0 (inr (NewHub "")) NotStarted (inl ex_empty_server) MRunning.
Definition ex_prog0 : Program (noiseConn tcp) BoltStore := ok_or (boot ex_toml ex_parse ex_log0 ex_env) ex_prog_none.

Definition ex_prog_evs : list (prog_event (C := tcp)) :=
  [PNetStart (Some (ex_addr 7)); PSshStart true; PNode (NGreet 1 (ex_tcp ex_in7) true "u1"); PSsh VAccept;
   PSsh (VHandshake 0 "ann" [x02]); PNode (NAdmit 1); PSsh (VChannel 0 "session" true 7); PNode (NAnnounce 1 100 "u2");
   PSsh (VRequest 7 (mkRequest "shell" true)); PSsh (VJoin 7); PSsh (VGreet 7);
   PSsh (VGreet 7); PSsh (VGreet 7); PSsh (VGreet 7); PSsh (VLine 7 " hi there "); PSsh (VPost 7); PSsh VAccept; PHub].

Definition ex_prog1 : Program (noiseConn tcp) BoltStore := prog_to ex_prog0 ex_prog_evs.

Lemma ex_prog_boot : boot ex_toml ex_parse ex_log0 ex_env = Ok ex_prog0.
Proof. apply ok_or_eq. vm_compute. reflexivity. Qed.

Lemma ex_prog_steps : prog_steps ex_prog0 ex_prog_evs ex_prog1.
Proof. refine (prog_ok_steps ex_prog0 ex_prog_evs _ _); [vm_compute; reflexivity|]. repeat constructor. Qed.

(** What is queued for the peer at [1] after the fanout loop's turn. *)
Definition queued (p : Program (noiseConn tcp) BoltStore) : list bytes :=
  match pg_net p with inl n => default [] (sendCh <$> w_heap (m_world (n_mgr n)) !! 1%positive) | inr _ => [] end.

(** The nick and the text of a chat envelope. *)
Definition chat_of (raw : bytes) : option (string * string) :=
  match Unmarshal (A := Envelope) raw with
  | None => None
  | Some env => (fun c => (chat_Nick c, chat_Text c)) <$> Unmarshal (A := ChatMessage) (Payload env)
  end.

Example program_sends :
  chat_of <$> queued (prog_to ex_prog1 [PNode (NFanout 100 5 "m1")]) = [None; Some ("ann", "hi there")]%string.
Proof. vm_compute. reflexivity. Qed.

Lemma program_safe_witness :
  remote_texts (prog_hub ex_prog1) = ["hi there"%string] /\ panicked (prog_hub ex_prog1) = false /\
  typed (boot_keys ex_parse ex_env ex_prog0) (ssh_trace ex_prog_evs) "hi there".
Proof.
  destruct (program_safe ex_toml ex_parse ex_log0 ex_env ex_prog0 ex_prog1 ex_prog_evs ex_prog_boot ex_prog_steps) as (Hp & _ & Ht).
  split; [vm_compute; reflexivity|]. split; [exact Hp|]. apply Ht. vm_compute. left.
Defined.

Lemma program_exits_witness :
  pg_pc ex_prog1 = MRunning /\
  (done <$> w_heap (m_world (n_mgr match pg_net ex_prog1 with inl n => n | inr _ => ex_n7 end)) !! 1%positive) = Some false /\
  exists evs p, prog_steps ex_prog1 evs p /\ pg_pc p = MExited 0 /\ PMain true ∉ evs /\ ssh_wg (pg_ssh p) = 0%nat /\
    forall n nid l q, pg_net p = inl n -> w_peers (m_world (n_mgr n)) !! nid = Some l ->
      w_heap (m_world (n_mgr n)) !! l = Some q -> done q = true.
Proof.
  split; [vm_compute; reflexivity|]. split; [vm_compute; reflexivity|].
  assert (pg_pc ex_prog1 = MRunning) as Hpc by (vm_compute; reflexivity).
  destruct (program_exits ex_toml ex_parse ex_log0 ex_env ex_prog0 ex_prog1 ex_prog_evs ex_prog_boot ex_prog_steps)
    as (evs & p & Hr & Hex & Hno & _ & Hwg & Hcl).
  - vm_compute. reflexivity.
  - vm_compute. reflexivity.
  - exists evs, p. split; [exact Hr|]. split; [exact Hex|]. split; [exact Hno|]. split.
    + apply Hwg. rewrite Hpc. discriminate.
    + intros n nid l q En Hl Hq. exact (proj2 (Hcl (or_introl Hpc) n En) nid l q Hl Hq).
Defined.
