(* ===== verification/Delivery.v ===== *)
(** * Delivery: a line from terminal to terminal

    The composition of all parts: a line typed in a session of one running
    program is printed in the sessions of another, through the first one's hub and
    fanout loop, a signed envelope on the connection, and the second one's receive loop
    and hub. *)

From S2P Require Import Prelude Bytes Messages Concrete Seen KeyRing RateLimit Gossip GossipProps Stream Frame Noise Strs Text.
From S2P Require Import Identity Peer PeerProps Partyline PartylineProps Store Config Logging LoggingProps Manager Discovery.
From S2P Require Import DiscoveryProps Node NodeInv NodeProps NodeEx Ssh SshProps SshServer SshServerProps SshShutdown SshOrigin.
From S2P Require Import Program ProgramProps ProgramEx.
From Stdlib Require Import Init.Byte.

Section Delivery.
Context `{Crypto} `{Proto} `{KeyLib} `{NoiseXX} {C : Type} `{Conn C} {S : Type} `{Store S} `{RecordCodec}.
Context (toml_Decode : bytes -> Config -> option Config).
Context (ParseAuthorizedKey : bytes -> option (bytes * bytes)).
Implicit Types (p : Program (noiseConn C) S) (n : Node (noiseConn C) S).

(** A program that has been booted and now serves, with a transport. *)
Record serves p n (st : SshState) : Prop := {
  se_reach : exists g env p0 evs, boot toml_Decode ParseAuthorizedKey g env = Ok p0 /\ prog_steps p0 evs p;
  se_net : pg_net p = inl n;
  se_started : pg_started p = Started;
  se_ssh : pg_ssh p = inr st;
  se_pc : pg_pc p = MRunning
}.

(** A session in its terminal, with what the hub holds of it. *)
Record in_terminal p (st : SshState) (sid : nat) (ptr : nat) (t : Terminal) (ph : term_phase) (s : Session) : Prop := {
  it_session : exists ss, v_sessions st !! sid = Some ss /\ ss_phase ss = ChTerminal ptr t ph true;
  it_hub : heap (prog_hub p) !! ptr = Some s;
  it_joined : sessions (prog_hub p) !! sID s = Some ptr
}.

Lemma serves_inv p n st : serves p n st -> exists keys evs, prog_inv keys evs p.
Proof.
  intros [(g & env & p0 & evs & Hb & Hr) _ _ _ _]. eexists _, _.
  exact (prog_steps_inv _ _ _ _ _ (boot_inv _ _ g env p0 Hb) Hr).
Qed.

(** The node with another hub. *)
Definition node_with_hub n (h : Hub) : Node (noiseConn C) S := set_mgr n (upd_world (n_mgr n) (w_set_hub (m_world (n_mgr n)) h)).

Lemma ssh_prog_step p st n ev st1 h1 :
  pg_pc p = MRunning -> pg_ssh p = inr st -> pg_net p = inl n -> own_srv_event ev = true ->
  srv_step st (prog_hub p) ev = Some (st1, h1) ->
  exists p1, prog_step p (PSsh ev) = Some p1 /\ pg_pc p1 = MRunning /\ pg_ssh p1 = inr st1 /\
    pg_net p1 = inl (node_with_hub n h1) /\ pg_started p1 = pg_started p.
Proof.
  intros Hpc Es En Hown Hs. exists (set_ssh (set_prog_hub p h1) (inr st1)). unfold prog_step. rewrite Hpc, Es, Hown, Hs.
  split_and!; try done. cbn. by rewrite En.
Qed.

Lemma hub_prog_step p n h1 :
  pg_pc p = MRunning -> pg_net p = inl n -> hub_step (prog_hub p) EDequeue = Some h1 ->
  exists p1, prog_step p PHub = Some p1 /\ pg_pc p1 = MRunning /\ pg_ssh p1 = pg_ssh p /\
    pg_net p1 = inl (node_with_hub n h1) /\ pg_started p1 = pg_started p.
Proof.
  intros Hpc En Hs. exists (set_prog_hub p h1). unfold prog_step. rewrite Hpc, Hs. split_and!; try done. cbn. by rewrite En.
Qed.

Lemma node_prog_step p n ev n1 :
  pg_pc p = MRunning -> pg_net p = inl n -> pg_started p = Started -> own_node_event ev = true -> node_step n ev = Some n1 ->
  prog_step p (PNode ev) = Some (set_net p (inl n1)).
Proof. intros Hpc En Est Hown Hs. unfold prog_step. by rewrite Hpc, En, Est, Hown, Hs. Qed.

Lemma prog_hub_net p n : pg_net p = inl n -> prog_hub p = hub_of n.
Proof. intros E. unfold prog_hub. by rewrite E. Qed.

(** ** The sender *)

(** The text of a session's message reaches the queue to the transport. *)
Lemma do_broadcast_remote h ptr s text :
  heap h !! ptr = Some s -> remoteSend h = Some [] ->
  remoteSend (do_broadcast h (mkBcastMsg (Some ptr) text false)) = Some [mkRemoteMsg (sNick s) text].
Proof.
  intros Hp Hr. unfold do_broadcast. cbn [bSystem bFrom bText mbind option_bind]. rewrite Hp. unfold forwardRemote.
  destruct (sendAll_same_queues h (Some ptr) ("[" ++ sNick s ++ "] " ++ text)) as [_ ->]. by rewrite Hr.
Qed.

Lemma typed_line_queued p n st sid ptr t s line :
  serves p n st -> in_terminal p st sid ptr t TReading s -> broadcast (prog_hub p) = [] -> remoteSend (prog_hub p) = Some [] ->
  TrimSpace line <> ""%string -> HasPrefix (TrimSpace line) "/" = false ->
  exists p3 h3, prog_steps p [PSsh (VLine sid line); PSsh (VPost sid); PHub] p3 /\ pg_pc p3 = MRunning /\
    pg_net p3 = inl (node_with_hub n h3) /\ pg_started p3 = Started /\
    remoteSend h3 = Some [mkRemoteMsg (sNick s) (TrimSpace line)].
Proof.
  intros Hse [(ss & E & Eph) Hs _] Hb Hr Hne Hpre. destruct (serves_inv _ _ _ Hse) as (keys & evs & Hi).
  destruct Hse as [_ En Est Es Hpc]. set (h := prog_hub p) in *. set (text := TrimSpace line) in *.
  assert (stopped h = false) as Hup by (apply (pi_running _ _ _ Hi); by rewrite Hpc).
  set (st1 := set_phase_of st sid ss (ChTerminal ptr t (TSending text) true)).
  assert (srv_step st h (VLine sid line) = Some (st1, h)) as Hsrv1.
  { unfold srv_step. cbn [event_sid]. rewrite E. unfold session_step. rewrite Eph. cbn [terminal_step].
    unfold session_line. fold text. by rewrite bool_decide_false, Hpre. }
  destruct (ssh_prog_step p st n (VLine sid line) st1 h Hpc Es En eq_refl Hsrv1) as (p1 & Hs1 & Hpc1 & Es1 & En1 & Est1).
  set (ss1 := mkSshSession (ss_conn ss) (ChTerminal ptr t (TSending text) true) (ss_replies ss)).
  assert (v_sessions st1 !! sid = Some ss1) as E1 by (cbn; by rewrite lookup_insert_eq).
  set (st2 := set_phase_of st1 sid ss1 (ChTerminal ptr t TReading true)).
  assert (prog_hub p1 = h) as Eh1 by by rewrite (prog_hub_net _ _ En1).
  assert (srv_step st1 (prog_hub p1) (VPost sid) = Some (st2, Hub_Broadcast h ptr text)) as Hsrv2.
  { unfold srv_step. cbn [event_sid]. rewrite E1. unfold session_step. cbn [ss_phase ss1 terminal_step]. by rewrite Eh1, Hb. }
  destruct (ssh_prog_step p1 st1 _ (VPost sid) st2 _ Hpc1 Es1 En1 eq_refl Hsrv2) as (p2 & Hs2 & Hpc2 & Es2 & En2 & Est2).
  set (h3 := do_broadcast (set_broadcast (Hub_Broadcast h ptr text) []) (mkBcastMsg (Some ptr) text false)).
  assert (hub_step (prog_hub p2) EDequeue = Some h3) as Hdeq.
  { rewrite (prog_hub_net _ _ En2). unfold hub_of. cbn [node_with_hub set_mgr n_mgr upd_world m_world w_set_hub w_hub hub_step].
    unfold Hub_Broadcast at 1 2. cbn [stopped set_broadcast broadcast]. by rewrite Hup, Hb. }
  destruct (hub_prog_step p2 _ h3 Hpc2 En2 Hdeq) as (p3 & Hs3 & Hpc3 & Es3 & En3 & Est3).
  exists p3, h3. split_and!; [|done|exact En3|congruence|by apply do_broadcast_remote].
  econstructor; [exact I|exact Hs1|]. econstructor; [exact I|exact Hs2|]. econstructor; [exact I|exact Hs3|constructor].
Qed.

(** ** The receiver *)

Lemma system_line_sent h text ptr s :
  hub_inv h -> stopped h = false -> heap h !! ptr = Some s -> sessions h !! sID s = Some ptr -> sSend s = [] ->
  heap (do_broadcast h (mkBcastMsg None text true)) !! ptr = Some (mkSession (sID s) (sNick s) [text] (sClosed s)).
Proof.
  intros Hi Hup Hp Hj Hq. unfold do_broadcast. cbn [bSystem bFrom bText].
  destruct (sendAll_spec h None text Hi Hup ltac:(done)) as (m & -> & _ & Hm). cbn. rewrite Hm, Hp. cbn.
  rewrite decide_True by (by split). unfold push. by rewrite Hq.
Qed.

(** A step of the node that delivers a remote message is followed by the
    hub's and by the session's. *)
Lemma remote_line_printed p n st sid ptr t ph s ev n1 nick text :
  serves p n st -> in_terminal p st sid ptr t ph s -> broadcast (prog_hub p) = [] -> sSend s = [] ->
  valid_node_event n ev -> own_node_event ev = true -> node_step n ev = Some n1 ->
  hub_of n1 = DeliverRemote (prog_hub p) nick text ->
  exists p3 st3 ss3, prog_steps p [PNode ev; PHub; PSsh (VPrint sid)] p3 /\ pg_ssh p3 = inr st3 /\
    v_sessions st3 !! sid = Some ss3 /\ ss_phase ss3 = ChTerminal ptr (println t ("[" ++ nick ++ "] " ++ text)) ph true.
Proof.
  intros Hse [(ss & E & Eph) Hs Hj] Hb Hq Hv Hown Hstep Hhub. destruct (serves_inv _ _ _ Hse) as (keys & evs & Hi).
  destruct Hse as [_ En Est Es Hpc]. set (h := prog_hub p) in *. set (line := ("[" ++ nick ++ "] " ++ text)%string) in *.
  assert (stopped h = false) as Hup by (apply (pi_running _ _ _ Hi); by rewrite Hpc).
  pose proof (pi_hub _ _ _ Hi) as Hhi. fold h in Hhi.
  pose proof (node_prog_step p n ev n1 Hpc En Est Hown Hstep) as Hs1. set (p1 := set_net p (inl n1)) in *.
  set (h2 := do_broadcast (set_broadcast h []) (mkBcastMsg None line true)).
  assert (hub_step (prog_hub p1) EDequeue = Some h2) as Hdeq.
  { rewrite (prog_hub_net p1 n1) by done. rewrite Hhub. cbn [hub_step DeliverRemote set_broadcast stopped broadcast].
    by rewrite Hup, Hb. }
  destruct (hub_prog_step p1 n1 h2 Hpc eq_refl Hdeq) as (p2 & Hs2 & Hpc2 & Es2 & En2 & _).
  assert (prog_hub p2 = h2) as Eh2 by by rewrite (prog_hub_net _ _ En2).
  assert (heap h2 !! ptr = Some (mkSession (sID s) (sNick s) [line] (sClosed s))) as Ep2.
  { apply (system_line_sent (set_broadcast h []) line ptr s); [|done..].
    apply set_broadcast_inv; [done|]. by intros m ?%elem_of_nil. }
  set (st3 := set_phase_of st sid ss (ChTerminal ptr (println t line) ph true)).
  assert (srv_step st (prog_hub p2) (VPrint sid) = Some (st3, session_read h2 ptr)) as Hsrv.
  { unfold srv_step. cbn [event_sid]. rewrite E. unfold session_step. rewrite Eph. cbn [terminal_step].
    rewrite Eh2, Ep2. by destruct ph. }
  destruct (ssh_prog_step p2 st _ (VPrint sid) st3 _ Hpc2 (eq_trans Es2 Es) En2 eq_refl Hsrv) as (p3 & Hs3 & _ & Es3 & _ & _).
  exists p3, st3, (mkSshSession (ss_conn ss) (ChTerminal ptr (println t line) ph true) (ss_replies ss)).
  split_and!; [|done|by cbn; rewrite lookup_insert_eq|done].
  econstructor; [cbn; by rewrite En|exact Hs1|]. econstructor; [exact I|exact Hs2|]. econstructor; [exact I|exact Hs3|constructor].
Qed.

(** ** From terminal to terminal *)

(** C1. A line travels. A line, neither empty nor a command, that is typed in a
    session of program A is, four steps later, queued as a signed envelope for each connected peer
    with room; and when program B, whose connection takes a deadline, reads these bytes from it, and
    has not seen the message, holds no other key for A and A is within its rate, then
    three steps later B prints "[nick] text", with the typist's nick and the trimmed
    line, on the terminal of each of its joined sessions that was idle. *)
Theorem line_travels `{!CryptoLaws} `{!ProtoLaws} pA pB nA nB stA stB (sidA sidB ptrA ptrB : nat) (tA tB : Terminal)
  (phB : term_phase) (sA sB : Session) (line uuid : string) (now_s now t : Z) (payload raw : bytes) (lA lB : positive)
  (peerA peerB : Peer (noiseConn C)) (sending : bool) (c : noiseConn C) (o : Oracle (World (noiseConn C)))
  (HA : serves pA nA stA) (HB : serves pB nB stB)
  (Htyping : in_terminal pA stA sidA ptrA tA TReading sA) (Hreading : in_terminal pB stB sidB ptrB tB phB sB)
  (HhubA : broadcast (prog_hub pA) = [] /\ remoteSend (prog_hub pA) = Some [])
  (HhubB : broadcast (prog_hub pB) = [] /\ sSend sB = [])
  (Hline : TrimSpace line <> ""%string) (Htext : HasPrefix (TrimSpace line) "/" = false)
  (Hpriv : len (PrivateKey (pg_id pA)) = PrivateKeySize)
  (Hpayload : Marshal (mkChatMessage (sNick sA) (TrimSpace line) (u64 now_s)) = Some payload) (Hlen : len payload <= 65536)
  (Huuid : uuid <> ""%string /\ slen uuid <= 128) (Hraw : Marshal (chat_envelope (n_mgr nA) uuid payload) = Some raw)
  (HlA : w_peers (m_world (n_mgr nA)) !! pNodeID peerA = Some lA)
  (HpA : w_heap (m_world (n_mgr nA)) !! lA = Some peerA) (Hroom : (length (sendCh peerA) < 64)%nat)
  (HlB : n_phase nB !! lB = Some (PRunning true sending)) (HpB : w_heap (m_world (n_mgr nB)) !! lB = Some peerB)
  (Hread : SetReadDeadline (conn peerB) = true /\ ReadFrame (conn peerB) = (Ok raw, c)) (Ho : shuffles o)
  (Hfresh : SeenCache_Has (eSeen (m_gossip (n_mgr nB))) uuid = false)
  (Hkey : forall e, KeyRing_Lookup (eKeyRing (m_gossip (n_mgr nB))) (NodeID (pg_id pA)) = Some e -> PubKey e = PublicKey (pg_id pA))
  (Hrate : (RateLimiter_Allow (eLimiter (m_gossip (n_mgr nB))) (NodeID (pg_id pA)) (o_now_allow o)).1 = true) :
  (exists pA' nA' peerA',
     prog_steps pA [PSsh (VLine sidA line); PSsh (VPost sidA); PHub; PNode (NFanout now_s now uuid)] pA' /\
     pg_net pA' = inl nA' /\ w_heap (m_world (n_mgr nA')) !! lA = Some peerA' /\ sendCh peerA' = sendCh peerA ++ [raw]) /\
  (exists pB' stB' ssB', prog_steps pB [PNode (NRecv lB t o); PHub; PSsh (VPrint sidB)] pB' /\ pg_ssh pB' = inr stB' /\
     v_sessions stB' !! sidB = Some ssB' /\
     ss_phase ssB' = ChTerminal ptrB (println tB ("[" ++ sNick sA ++ "] " ++ TrimSpace line)) phB true).
Proof.
  destruct (serves_inv _ _ _ HA) as (keysA & evsA & HiA). destruct (serves_inv _ _ _ HB) as (keysB & evsB & HiB).
  assert (identity_ok (pg_id pA)) as HidA by (destruct HA as [(? & ? & ? & ? & Hb & Hr)]; by eapply prog_identity).
  pose proof (pi_net _ _ _ HiA nA (se_net _ _ _ HA)) as HnA. pose proof (pi_net _ _ _ HiB nB (se_net _ _ _ HB)) as HnB.
  destruct HhubA as [HbA HrA]. destruct HhubB as [HbB HqB]. split.
  - destruct (typed_line_queued pA nA stA sidA ptrA tA sA line HA Htyping HbA HrA Hline Htext)
      as (p3 & h3 & Hsteps & Hpc3 & En3 & Est3 & Hr3).
    pose proof (w_set_hub_inv (pg_cfg pA) (pg_id pA) nA h3 HnA) as Hn3.
    destruct (chat_leaves (pg_cfg pA) (pg_id pA) (node_with_hub nA h3) (mkRemoteMsg (sNick sA) (TrimSpace line)) [] uuid now_s now payload raw lA peerA
      Hn3 Hr3 Hpayload Hraw HlA HpA Hroom) as (nA' & peerA' & Hstep & Hp' & Hq').
    exists (set_net p3 (inl nA')), nA', peerA'. split_and!; [|done|done|done].
    apply (prog_steps_app pA [PSsh (VLine sidA line); PSsh (VPost sidA); PHub] p3 [PNode (NFanout now_s now uuid)]); [done|].
    econstructor; [cbn; by rewrite En3| |constructor]. by apply (node_prog_step p3 (node_with_hub nA h3)).
  - destruct (chat_arrives (pg_cfg pA) (pg_cfg pB) (pg_id pA) (pg_id pB) nA nB (mkRemoteMsg (sNick sA) (TrimSpace line)) uuid now_s t payload raw lB peerB sending c o)
      as (nB1 & Hstep & Hhub); try done.
    eapply remote_line_printed; [exact HB|exact Hreading|done|done| |reflexivity|exact Hstep|]; [exact Ho|].
    rewrite Hhub, (prog_hub_net _ _ (se_net _ _ _ HB)). done.
Qed.
End Delivery.

(** ** Witness *)

Definition ex_env_of (n : Z) : Env (S := BoltStore) :=
  mkEnv (mkFlags "/data" "" "" "") "/etc/micelio.toml" "host" None "" (fun _ => FileBytes []) ex_fs (Some (toy_priv n))
    (fun _ => true) (fun _ => Some ex_saved) (fun _ => Some [x01; x0a; x02]).

Definition ex_booted (n : Z) : Program (noiseConn tcp) BoltStore := ok_or (boot ex_toml ex_parse ex_log0 (ex_env_of n)) ex_prog_none.

Definition net_of (p : Program (noiseConn tcp) BoltStore) : Node (noiseConn tcp) BoltStore :=
  match pg_net p with inl n => n | inr _ => ex_node0 7 end.
Definition ssh_of (p : Program (noiseConn tcp) BoltStore) : SshState :=
  match pg_ssh p with inr st => st | inl s => mkSshState s false false ∅ ∅ 0 end.

(** A client joins as session 7. *)
Definition ex_client (user : string) : list (prog_event (C := tcp)) :=
  [PSshStart true; PSsh VAccept; PSsh (VHandshake 0 user [x02]); PSsh (VChannel 0 "session" true 7);
   PSsh (VRequest 7 (mkRequest "shell" true)); PSsh (VJoin 7); PSsh (VGreet 7); PSsh (VGreet 7);
   PSsh (VGreet 7); PSsh (VGreet 7); PSsh (VPrint 7)].

Definition ex_evsA : list (prog_event (C := tcp)) :=
  PNetStart (Some (ex_addr 7)) :: ex_client "ann" ++
  [PNode (NGreet 1 (ex_tcp ex_in7) true "u1"); PNode (NAdmit 1); PNode (NAnnounce 1 100 "u2")].
Definition ex_progA : Program (noiseConn tcp) BoltStore := prog_to (ex_booted 7) ex_evsA.

Definition ex_line_payload : bytes := put (mkChatMessage "ann" "hi there" 100).
Definition ex_line_raw : bytes := put (chat_envelope (n_mgr (net_of ex_progA)) "m1" ex_line_payload).

Definition ex_inB : bytes :=
  hs_wire [] ++ hs_wire (rev (toy_pub 7)) ++ noise_msg (frame_bytes (ex_hello 7 MsgTypePeerHello) ++ be_put 16 0) ++
  noise_msg (frame_bytes ex_line_raw ++ be_put 16 1).
Definition ex_evsB : list (prog_event (C := tcp)) :=
  PNetStart (Some (ex_addr 8)) :: ex_client "bob" ++
  [PNode (NGreet 1 (ex_tcp ex_inB) false "u3"); PNode (NAdmit 1); PNode (NAnnounce 1 100 "u4")].
Definition ex_progB : Program (noiseConn tcp) BoltStore := prog_to (ex_booted 8) ex_evsB.

Definition is_net (p : Program (noiseConn tcp) BoltStore) : bool := match pg_net p with inl _ => true | inr _ => false end.
Definition is_ssh (p : Program (noiseConn tcp) BoltStore) : bool := match pg_ssh p with inr _ => true | inl _ => false end.

Definition ex_boot_ok (n : Z) : bool := is_ok (boot ex_toml ex_parse ex_log0 (ex_env_of n) : result (Program (noiseConn tcp) BoltStore) fatal).

Lemma ex_serves n evs :
  ex_boot_ok n = true -> prog_ok (ex_booted n) evs = true -> Forall prog_shuffles_ok evs ->
  let p := prog_to (ex_booted n) evs in
  is_net p = true -> is_ssh p = true -> bool_decide (pg_started p = Started) = true -> bool_decide (pg_pc p = MRunning) = true ->
  serves ex_toml ex_parse p (net_of p) (ssh_of p).
Proof.
  intros Hb Hok Hsh p Hn Hs Hst Hpc. split.
  - exists ex_log0, (ex_env_of n), (ex_booted n), evs. split; [by apply ok_or_eq|by apply prog_ok_steps].
  - unfold net_of, is_net in *. by destruct (pg_net p).
  - by apply bool_decide_eq_true in Hst.
  - unfold ssh_of, is_ssh in *. by destruct (pg_ssh p).
  - by apply bool_decide_eq_true in Hpc.
Qed.

Definition ex_welcome (user : string) : Terminal :=
  println (mkTerminal ["Welcome to host partyline!" ++ CRLF; "Type /help for commands." ++ LF; LF]%string (prompt user))
    ("* " ++ user ++ " joined the partyline")%string.

Definition ex_no_session : SshSession := mkSshSession 0 ChEnded [].
Definition ex_sess (n : Z) (nick : string) : Session := mkSession n nick [] false.

Lemma ex_in_terminal p user :
  is_Some (v_sessions (ssh_of p) !! 7%nat) ->
  ss_phase (default ex_no_session (v_sessions (ssh_of p) !! 7%nat)) = ChTerminal 0 (ex_welcome user) TReading true ->
  heap (prog_hub p) !! 0%nat = Some (ex_sess 1 user) -> sessions (prog_hub p) !! 1 = Some 0%nat ->
  in_terminal p (ssh_of p) 7 0 (ex_welcome user) TReading (ex_sess 1 user).
Proof. intros [ss E] Hph Hh Hs. rewrite E in Hph. split; [by exists ss|done|done]. Qed.

Definition ex_peer_of (p : Program (noiseConn tcp) BoltStore) (n : Z) : Peer (noiseConn tcp) :=
  default (newPeer (mkNoiseConn (ex_tcp []) 0 0 [] []) [] (ex_identity n) true) (w_heap (m_world (n_mgr (net_of p))) !! 1%positive).

(** What the two programs have become, each evaluated once. *)
Definition up (p : Program (noiseConn tcp) BoltStore) : bool :=
  is_net p && is_ssh p && bool_decide (pg_started p = Started) && bool_decide (pg_pc p = MRunning).
Definition has_session (p : Program (noiseConn tcp) BoltStore) : bool := bool_decide (is_Some (v_sessions (ssh_of p) !! 7%nat)).
Definition has_peer (p : Program (noiseConn tcp) BoltStore) : bool := bool_decide (is_Some (w_heap (m_world (n_mgr (net_of p))) !! 1%positive)).

Lemma ex_factsA :
  (ex_boot_ok 7 && prog_ok (ex_booted 7) ex_evsA && up ex_progA && has_session ex_progA && has_peer ex_progA) = true /\
  ss_phase (default ex_no_session (v_sessions (ssh_of ex_progA) !! 7%nat)) = ChTerminal 0 (ex_welcome "ann") TReading true /\
  heap (prog_hub ex_progA) !! 0%nat = Some (ex_sess 1 "ann") /\ sessions (prog_hub ex_progA) !! 1 = Some 0%nat /\
  broadcast (prog_hub ex_progA) = [] /\ remoteSend (prog_hub ex_progA) = Some [] /\
  len (PrivateKey (pg_id ex_progA)) = PrivateKeySize /\ NodeID (pg_id ex_progA) = toy_id 7 /\ PublicKey (pg_id ex_progA) = toy_pub 7 /\
  Marshal (chat_envelope (n_mgr (net_of ex_progA)) "m1" ex_line_payload) = Some ex_line_raw /\
  w_peers (m_world (n_mgr (net_of ex_progA))) !! pNodeID (ex_peer_of ex_progA 7) = Some 1%positive /\
  length (sendCh (ex_peer_of ex_progA 7)) = 1%nat.
Proof. eval_all. Qed.

Lemma ex_factsB :
  (ex_boot_ok 8 && prog_ok (ex_booted 8) ex_evsB && up ex_progB && has_session ex_progB && has_peer ex_progB) = true /\
  ss_phase (default ex_no_session (v_sessions (ssh_of ex_progB) !! 7%nat)) = ChTerminal 0 (ex_welcome "bob") TReading true /\
  heap (prog_hub ex_progB) !! 0%nat = Some (ex_sess 1 "bob") /\ sessions (prog_hub ex_progB) !! 1 = Some 0%nat /\
  broadcast (prog_hub ex_progB) = [] /\
  n_phase (net_of ex_progB) !! 1%positive = Some (PRunning true true) /\
  SetReadDeadline (conn (ex_peer_of ex_progB 8)) = true /\ (ReadFrame (conn (ex_peer_of ex_progB 8))).1 = Ok ex_line_raw /\
  SeenCache_Has (eSeen (m_gossip (n_mgr (net_of ex_progB)))) "m1" = false /\
  KeyRing_Lookup (eKeyRing (m_gossip (n_mgr (net_of ex_progB)))) (toy_id 7) = Some (mkKeyEntry (toy_pub 7) TrustDirectlyVerified) /\
  (RateLimiter_Allow (eLimiter (m_gossip (n_mgr (net_of ex_progB)))) (toy_id 7) 5).1 = true.
Proof. eval_all. Qed.

Lemma ex_serving n evs p :
  p = prog_to (ex_booted n) evs ->
  (ex_boot_ok n && prog_ok (ex_booted n) evs && up p && has_session p && has_peer p) = true -> Forall prog_shuffles_ok evs ->
  serves ex_toml ex_parse p (net_of p) (ssh_of p) /\ is_Some (v_sessions (ssh_of p) !! 7%nat) /\
  w_heap (m_world (n_mgr (net_of p))) !! 1%positive = Some (ex_peer_of p n).
Proof.
  unfold up. intros Ep Hb Hsh. rewrite !andb_true_iff in Hb. destruct Hb as ((((Hb & Hok) & ((Hn & Hs) & Hst) & Hpc) & Hses) & Hp). split_and!.
  - subst p. apply ex_serves; assumption.
  - by apply (bool_decide_unpack _), Is_true_true.
  - by apply some_default.
Qed.

Lemma line_travels_witness :
  exists pB' stB' ssB',
    prog_steps ex_progB [PNode (NRecv 1 6 ex_noshuffle); PHub; PSsh (VPrint 7)] pB' /\ pg_ssh pB' = inr stB' /\
    v_sessions stB' !! 7%nat = Some ssB' /\
    ss_phase ssB' = ChTerminal 0 (println (ex_welcome "bob") "[ann] hi there") TReading true.
Proof.
  destruct ex_factsA as (HokA & HphA & HhA & HsA & HbA & HrA & Hpriv & Hid & Hpub & Hraw & Htab & Hq).
  destruct ex_factsB as (HokB & HphB & HhB & HsB & HbB & Hrun & Hdl & Hread & Hseen & Hkey & Hrate).
  destruct (ex_serving 7 ex_evsA ex_progA eq_refl HokA ltac:(repeat constructor)) as (HA & HtA & HpA).
  destruct (ex_serving 8 ex_evsB ex_progB eq_refl HokB ltac:(repeat constructor)) as (HB & HtB & HpB).
  refine (proj2 (line_travels ex_toml ex_parse ex_progA ex_progB (net_of ex_progA) (net_of ex_progB) (ssh_of ex_progA)
    (ssh_of ex_progB) 7 7 0 0 (ex_welcome "ann") (ex_welcome "bob") TReading (ex_sess 1 "ann") (ex_sess 1 "bob")
    " hi there " "m1" 100 5 6 ex_line_payload ex_line_raw 1 1 (ex_peer_of ex_progA 7) (ex_peer_of ex_progB 8) true
    (ReadFrame (conn (ex_peer_of ex_progB 8))).2 ex_noshuffle
    HA HB (ex_in_terminal ex_progA "ann" HtA HphA HhA HsA) (ex_in_terminal ex_progB "bob" HtB HphB HhB HsB)
    (conj HbA HrA) (conj HbB eq_refl) _ _ Hpriv _ _ _ Hraw Htab HpA _ Hrun HpB _ _ Hseen _ _)).
  - vm_compute. discriminate.
  - vm_compute. reflexivity.
  - vm_compute. reflexivity.
  - vm_compute. discriminate.
  - split; [discriminate|]. vm_compute. discriminate.
  - rewrite Hq. lia.
  - split; [exact Hdl|]. rewrite <- Hread. apply surjective_pairing.
  - intros l. reflexivity.
  - intros e He. rewrite Hid, Hkey in He. injection He as <-. symmetry. exact Hpub.
  - rewrite Hid. exact Hrate.
Defined.
